(* ===== verification/_CoqProject ===== *)
-Q . S2P
Prelude.v
Bpf.v
Record.v
Tables.v
Walker.v
Driver.v
Python.v
Sampling.v
PerfDwarf.v
OffCpuDwarf.v
OffCpu.v
Perf.v
OnCpus.v
Cpu.v
GpuUsdt.v
Abi.v
Batch.v
Sampler.v
CubinQueue.v
Double.v
Burst.v
CallGuard.v
PcTier.v
Timers.v
Replay.v
Maps.v
Rendezvous.v
Adapter.v
Modules.v
PcSampling.v
Window.v
Contexts.v
Disclosure.v
Accounts.v
Inject.v
GuardedCalls.v
GuardDepth.v
Printf.v
Launch.v
Exec.v
Report.v
Exit.v
Stub.v
