(* ===== verification/Prelude.v ===== *)
(** * A verification of perf-agent's in-kernel profilers and GPU shim

    perf-agent is a profiling agent.  Its C and C++ code has two parts.  The BPF
    programs under src/bpf run in the kernel on every sample; a Go process loads
    them, fills their tables and reads what they produce.  The CUDA shim under
    src/shim is a library injected into the profiled process: a vendor-neutral
    core and an adapter for NVIDIA's CUPTI, which turn launches, executions,
    modules and PC samples into records; it hands these, in batches, to user
    probes that the BPF program gpu_usdt.bpf.c forwards to the Go process.  This
    library models both parts and proves what the Go side relies on.

    ** The system and the files that model it

    - Prelude.v (this file): fixed-width integers, flag words, counters and the
      automation the other files share.
    - Bpf.v: the run-time facilities of the kernel the programs call, as
      src/bpf/libbpf/bpf/bpf_helper_defs.h documents them: array and hash maps
      with their bounds and error codes, ring buffers, reads of user memory,
      [bpf_loop], and the tail call with the kernel's ceiling of 33.
    - Record.v: src/bpf/unwind_record.h, the ABI between the native walker and
      the interpreter modules: [sample_record], the two pushers
      [record_push_native] and [record_push_interp], [walk_persist], the dispatch
      counters, [interp_return_to_native].  [world] is everything a program can
      touch: the two per-CPU buffers, the counters, the driver's maps and the
      module's maps.
    - Tables.v: the table half of src/bpf/unwind_common.h: CFI rows, mappings and
      handoff ranges, with [mapping_for_pc], [cfi_lookup], [next_unwinder] and the
      rate-limited [emit_cfi_miss].
    - Walker.v: [unwind_frame], the hybrid CFI/frame-pointer step, with
      [unwind_walk_begin], [walk_load] and [walk_save].  The long C function is
      split at its comments: [leave_frame] chooses, [cfi_step] and [fp_step]
      are its two arms.
    - Driver.v: [unwind_walk], the budget on round trips, and the programs
      INTERP_DEFINE_PROGRAMS defines.  A driver is the function that finishes a
      sample.  The class [Unwinder] states what an interpreter module promises
      the driver; the theorems here are proved against it for every module.
    - Python.v: src/bpf/interp/python/python_walk.h and python_walk.bpf.c, the
      CPython walker.  [py_unwinder] discharges the interface.
    - Sampling.v: what the sampler programs share: tasks, the process filter,
      the header completed after a walk.
    - PerfDwarf.v, OffCpuDwarf.v: the DWARF samplers, src/bpf/perf_dwarf.bpf.c
      and src/bpf/offcpu_dwarf.bpf.c, as drivers.
    - Perf.v, OffCpu.v: the frame-pointer profilers, src/bpf/perf.bpf.c and
      src/bpf/offcpu.bpf.c; OnCpus.v: the same programs on several CPUs that
      interleave between their accesses to the shared maps.
    - Cpu.v: src/bpf/cpu.bpf.c: on-CPU time, run-queue latency and hardware
      counters.
    - GpuUsdt.v: src/bpf/gpu_usdt.bpf.c: batches of GPU activity records from
      user probes, and the launch stacks published beside them, as a driver.
    - Abi.v: src/shim/core/usdt_abi.h, the ten records with their C layout, and
      the Go decoders (src/internal/gpuabi/records.go, [decodeBatch] of
      src/gpuprobe/consumer.go).
    - Batch.v: src/shim/core/batch.h and the emit thunk of usdt_probe.h, composed
      with GpuUsdt and Abi.
    - Sampler.v: src/shim/core/sampler.h, which launch carries a stack, and the
      consumer's replica of it (src/internal/gpuabi/sampler.go); the sampler under
      concurrency is a machine with one atomic access per step.
    - CubinQueue.v: src/shim/core/cubinqueue.h and .cc: the modules' code on its
      way to the consumer, as interleaved critical sections over a heap.
    - Double.v, Burst.v: binary64 arithmetic as far as src/shim/core/burst.h uses
      it, and the controller of the serialized bursts.
    - CallGuard.v: src/shim/core/callguard.h, the re-entrant lock around CUPTI.
    - PcTier.v: src/shim/core/pctier.h and nvperfpin.h, the PC-sampling setting
      and the choice of libnvperf_host.
    - Timers.v: src/shim/core/pcdrain.h, tickplan.h and clock.h.  The class
      [RateLimiter] states what the two schedules have in common.
    - Replay.v: src/shim/core/drain.h and kernelnames.h: the log for late
      consumers, the timer thread, the table of kernel names.
    - Maps.v: how the shim (src/shim/core/enroll.cc, cubin.cc) and the consumer
      (src/gpuprobe/enroll.go, cubin.go) derive the names of their sockets, each
      from its own /proc/self/maps.
    - Rendezvous.v: the protocol on these sockets: enrolment at start and the
      offer of a module's code in a sealed memfd, under one time budget.
    - Adapter.v, Modules.v, PcSampling.v, Window.v, Launch.v, Exec.v: parts of
      src/shim/nvidia/cupti_adapter.cc: correlation numbers, module announcements
      and drop reports; a module's way from the load callback through the queue to
      its announcement and its offer; the drain of PC samples; the serialized
      bursts and the windows that disclose them; the launch path from the CUPTI
      callback to the batch, on any number of threads; the decoding of activity
      records.
    - Contexts.v, Disclosure.v: of the same file, the life of a CUDA context under
      PC sampling (the table of stall reasons, enabling, disabling, the resource
      callbacks, the configuration record, finalization), and what the wire
      discloses meanwhile.
    - Inject.v: its InitializeInjection with the settings from the environment,
      the pin of libnvperf_host, and the loading of CUPTI (cupti_dyn.h).
    - GuardedCalls.v: src/shim/nvidia/cupti_guard.h: which CUPTI calls each entry
      point makes inside which scopes of the guard, run against the guard and the
      driver's own lock; GuardDepth.v: how deep the scopes nest.
    - Accounts.v: what the burst counters of the report must say, over the
      histories of Contexts.
    - Printf.v, Report.v, Exit.v: the exit handler of the adapter over the state
      of all its parts, its report as the format strings print it, and the
      benchmark's reader of it (src/bench/cmd/scenario/gpupc.go).
    - Stub.v: src/shim/stub/stub.cc, the producer without a GPU: its launch loop,
      windows, PC samples and modules over the same batches, sampler and queue.

    ** How the code is represented

    A w-bit integer is a [Z], wrapped with [u8], [u32], [u64] where the C
    arithmetic can leave its range.  A pointer into a map is the map's value:
    writes through it are stores into the map.  A program that tail-calls is a
    value of [outcome]: [Done], or [TailCall slot] with the world the callee gets
    and the world that results should the call fail, which is how the kernel
    behaves; [run] follows the calls.  Inputs from outside (user memory, the
    clock, free space in a ring buffer, stack ids from the kernel, eviction from
    an LRU map, a task's registers) are arguments, so the theorems hold for all
    of them.  Per-CPU data is the copy of the CPU a sample runs on, as the
    kernel guarantees; Cpu.v, where several CPUs matter, has one copy per CPU.

    In the shim, an object whose methods all run under its mutex is a state with
    one function per method, and a history is a sequence of calls.  Code that is
    not atomic is a machine: the threads' places in it are part of the state, a
    step is one atomic access or one critical section, and the theorems quantify
    over all interleavings (OnCpus, Sampler, CubinQueue, CallGuard, Replay's
    thread, Launch, Modules, GuardedCalls, Stub).  The order of the steps is a sequence; Sampler also allows a relaxed
    load to return an older value.  CUPTI, the kernel behind a system call, the
    probes' semaphores and the clock are arguments; what a theorem relies on of
    them is among its hypotheses, with a witness.

    ** What is proved

    - Unwinding (Walker, Tables): a stack described frame by frame by the psABI
      and the CFI rows, none of whose frames an interpreter claims, is recovered
      exactly; the walk never goes more than one
      frame past the root; the binary search finds a row exactly when one covers
      the address; the mapping scan finds the first mapping; a frame is handed
      off exactly when claimed; miss notifications are at least a second apart.
    - The record (Record): the pushers implement a bounded list of frames,
      whatever the buffer held before, and never write outside it.
    - Handing off (Driver, Python): every sample ends in one application of the
      driver's finishing code within 30 tail calls, under any modules that keep
      the interface; the finished record is well formed; the dispatch counters
      balance; the interpreter frames are those of the thread's own chain,
      resumed and never restarted; the module's counters count what they name.
    - Emission (PerfDwarf, OffCpuDwarf, Perf, OffCpu, Cpu, GpuUsdt): one record
      per accepted sample; an off-CPU interval reported with the stack it began
      with and for the time between its two clock readings, and aggregated as a
      sum over the trace; deltas that telescope; no GPU record lost without being
      counted, no stack published under an id in use, and under each id the
      record of its own walk.  On n
      CPUs (OnCpus) at most n - 1 off-CPU intervals of a key are lost, however
      long the run.
    - The way of a GPU record (Abi, Batch, Launch, Exec): every launch and every
      execution is recorded once or counted, the stack of a launch the sampler
      chose goes out before the launch, a record added to a batch is delivered to
      the consumer as written or counted by one counter, and the consumer decodes
      what was written, and answers any other bytes as the C layout says.
    - Sampling and correlation (Sampler, Adapter): the sampled launches are those
      the consumer computes; the numbers that join executions to launches
      survive the wrap of CUPTI's ids, for launches that are not overtaken across
      it.
    - Modules and names (CubinQueue, Rendezvous, Maps, Replay, Adapter, Modules):
      the queue is memory safe, bounded and accounted for; a consumer that does not
      attach between a tick's replay and its gate is told of a module before it is
      offered its code; code is offered whole, sealed and in
      time; both ends derive the same socket names; a late consumer is told what
      it missed, once.
    - PC sampling (PcTier, Timers, PcSampling, Burst, Window, CallGuard): pulls
      keep their schedule, data become records exactly once, bursts keep the duty
      ceiling, and the windows on the wire are true.
    - Contexts (Contexts, Disclosure, Inject, GuardedCalls): the contexts sampled
      are exactly those enabled and not torn down, but for failed disables that are
      counted, and each is drained before it is disabled; the windows stay true while
      contexts come and go, for calls that do not overlap and a consumer that
      listens; a consumer that comes late and stays learns the stall names, as
      CUPTI gave them, of every index it will see; with PC
      sampling off, or refused because no usable libnvperf_host was found, none of
      its calls is made; no thread waits forever on the guard or the driver's
      lock.
    - Exit and report (Exit, Report, Accounts, GuardDepth): the exit handler
      returns with nothing left to send and nothing leaked, and the numbers its
      report prints add up; the windows, when heard, are two for each burst; the nesting of the
      guard is bounded as the report's comment says; the benchmark reads from the
      text what the adapter counted.
    - The stub (Stub): what its threads put on the wire is, per probe, what its
      settings say, under every interleaving.
    - Limits of the code.  In the BPF programs: a table of exactly 2^24 rows loses
      its first row, the frame-pointer path records a zero return address, CPUs
      from 128 up report no on-CPU time, CPUs that sample the same stacks at once
      lose samples ([profile_loses_samples]) and the first interval of a key can
      be lost ([offcpu_race_loses_interval]).  In the shim: a PC sample's correlation
      is never a launch's ([pc_correlation_never_joins]); a start that is
      overtaken by a stop leaves CUPTI sampling unannounced
      ([late_start_unannounced]); launches reordered across the wrap get wrong
      numbers ([correlation_wrap_reorder]); the two times of an execution can come
      from different clock fits ([exec_times_torn]); what nobody was attached to
      hear can be lost ([enrolled_module_lost], [graph_execs_unheard_lost]);
      concurrent launches can be sampled less often than the schedule says
      ([sampler_undercounts]); the duty ceiling yields to the longest gap
      ([burst_ceiling_breached]); a finalization that finds the guard
      taken, or that is followed by a new context, leaves a context enabled
      ([finalize_leaves_enabled]); a consumer that attaches between
      the replay and the gate of a tick is offered a module it was not told of
      ([attach_at_gate_offers_untold]), and so is one that attaches between the
      last tick and the exit ([exit_offers_untold]); graph executions delivered by
      the last flush are not reported ([exit_graphs_unreported]); a fatal error in a
      burst leaves its window open ([fatal_error_leaves_window]); a setting of zero is read
      as the default, and a multiple of 2^32 as zero ([env_zero_settings]); a stub
      told to linger 2^31 milliseconds or more waits without a timeout
      ([linger_forever]).

    ** Bounds and fuel

    [bpf_loop] and the binary search recurse on the iteration count the source
    passes (127, 256 and 24).  [run] has as fuel the kernel's limit on tail calls;
    [sample_finishes_once] shows that 30 are enough and that a larger limit gives
    the same result.  The drain of PC samples recurses on its 64 rounds.  The
    retry loops of Rendezvous take as fuel one more than the number of
    interruptions the kernel may still deliver, and the loops over a text its
    length; the theorems say that the result is reached.  The stub's lingering loop
    takes the number of its sleeps ([linger_ends] gives one that is enough).  The
    threads of GuardedCalls run finite programs, one per entry point, and the
    theorem bounds the steps they can take.  The exit handler's settle and offer
    passes take as fuel four and two steps for each module waiting;
    [exit_settles_accounts] says that they end.  No definition runs out
    of fuel silently: exhausting the loop bound is a case of the code and is
    modelled as the code handles it.

    ** What is not modelled

    Concurrent writers of one map entry on different CPUs, but for the
    frame-pointer profilers (OnCpus): elsewhere each program is one step, as the
    scheduler and per-CPU maps make it for the data each theorem is about.
    Preemption inside a program, and [bpf_trace_printk].  Kernel type
    definitions (vmlinux headers), libbpf and the Go process are outside: what
    they supply is a parameter.  src/bpf/pywalk_probe.bpf.c measures verifier
    cost, is not part of the build, and refers to functions that no longer
    exist.  Of the shim: log lines other than the exit report, the lookup of
    cuCtxSynchronize, application threads that launch or load while the exit
    handler runs, the machine code of a probe, and the test hosts under
    src/shim/stub (dlopen_host, fpless and the like), which only load the library
    and call it. *)

From stdpp Require Export base list gmap numbers option tactics.
From Stdlib Require Export ZArith Lia.

#[global] Open Scope Z_scope.

(** ** Fixed-width integers

    A w-bit C integer is a [Z]; every arithmetic operation of the source that
    can leave the range is wrapped explicitly with one of these. *)

Definition u8 (z : Z) : Z := z mod 256.
Definition u16 (z : Z) : Z := z mod 65536.
Definition u32 (z : Z) : Z := z mod 4294967296.
Definition u64 (z : Z) : Z := z mod 18446744073709551616.

(** Two's complement reading of a 32- or 64-bit pattern. *)
Definition s32 (z : Z) : Z :=
  let m := z mod 4294967296 in if m <? 2147483648 then m else m - 4294967296.
Definition s64 (z : Z) : Z :=
  let m := z mod 18446744073709551616 in
  if m <? 9223372036854775808 then m else m - 18446744073709551616.

Definition is_u8 (z : Z) : Prop := 0 <= z < 256.
Definition is_u32 (z : Z) : Prop := 0 <= z < 4294967296.
Definition is_u64 (z : Z) : Prop := 0 <= z < 18446744073709551616.

Create HintDb perf.

Lemma u8_range z : is_u8 (u8 z).
Proof. unfold is_u8, u8. apply Z.mod_pos_bound. lia. Qed.
Lemma u32_range z : is_u32 (u32 z).
Proof. unfold is_u32, u32. apply Z.mod_pos_bound. lia. Qed.
Lemma u64_range z : is_u64 (u64 z).
Proof. unfold is_u64, u64. apply Z.mod_pos_bound. lia. Qed.
Lemma u8_small z : is_u8 z -> u8 z = z.
Proof. unfold is_u8, u8. intros. by apply Z.mod_small. Qed.
Lemma u32_small z : is_u32 z -> u32 z = z.
Proof. unfold is_u32, u32. intros. by apply Z.mod_small. Qed.
Lemma u64_small z : is_u64 z -> u64 z = z.
Proof. unfold is_u64, u64. intros. by apply Z.mod_small. Qed.
Lemma s64_small z : 0 <= z < 2 ^ 63 -> s64 z = z.
Proof. intros Hz. unfold s64. rewrite Z.mod_small by lia. by rewrite (proj2 (Z.ltb_lt _ _)) by lia. Qed.

#[export] Hint Resolve u8_range u32_range u64_range : perf.

(** The range facts in the form [lia] reads. *)
Ltac unfold_widths := unfold is_u8, is_u32, is_u64, u8, u16, u32, u64 in *.
Ltac word_lia := unfold_widths; Z.div_mod_to_equations; lia.

(** Case analysis on the boolean comparisons of the source. *)
Ltac bool_cases :=
  repeat match goal with
  | |- context [Z.ltb ?a ?b] => destruct (Z.ltb_spec a b)
  | |- context [Z.leb ?a ?b] => destruct (Z.leb_spec a b)
  | |- context [Z.eqb ?a ?b] => destruct (Z.eqb_spec a b)
  | H : context [Z.ltb ?a ?b] |- _ => destruct (Z.ltb_spec a b)
  | H : context [Z.leb ?a ?b] |- _ => destruct (Z.leb_spec a b)
  | H : context [Z.eqb ?a ?b] |- _ => destruct (Z.eqb_spec a b)
  end; simpl in *.

(** ** Flag words

    [flags |= F] is [Z.lor], [flags & F] is [Z.land]; each flag of the source
    is a power of two, so a test is one bit of the word. *)

Definition has_flag (flags f : Z) : bool := negb (Z.land flags f =? 0).

Lemma has_flag_lor a b f : has_flag (Z.lor a b) f = has_flag a f || has_flag b f.
Proof.
  unfold has_flag. rewrite Z.land_lor_distr_l.
  destruct (Z.eqb_spec (Z.land a f) 0) as [->|Ha]; simpl.
  - by rewrite Z.lor_0_l.
  - destruct (Z.eqb_spec (Z.lor (Z.land a f) (Z.land b f)) 0) as [E|]; [|done].
    apply Z.lor_eq_0_iff in E as [? _]. done.
Qed.

Lemma has_flag_0 f : has_flag 0 f = false.
Proof. done. Qed.

(** Testing one bit through its mask. *)
Lemma has_flag_bit a n : 0 <= n -> has_flag a (Z.shiftl 1 n) = Z.testbit a n.
Proof.
  intros Hn. unfold has_flag. rewrite Z.shiftl_1_l.
  destruct (Z.testbit a n) eqn:E.
  - apply negb_true_iff, Z.eqb_neq. intros H0.
    assert (Ht : Z.testbit (Z.land a (2 ^ n)) n = true).
    { by rewrite Z.land_spec, E, Z.pow2_bits_true. }
    by rewrite H0, Z.testbit_0_l in Ht.
  - apply negb_false_iff, Z.eqb_eq. apply Z.bits_inj'. intros m Hm.
    rewrite Z.land_spec, Z.testbit_0_l, Z.pow2_bits_eqb by done.
    destruct (Z.eqb_spec n m) as [->|]; [by rewrite E|by rewrite andb_false_r].
Qed.

(** Two fields of a word, the low one [k] bits wide. *)
Lemma lor_fields x y k :
  0 <= k -> 0 <= y < 2 ^ k -> Z.lor (Z.shiftl x k) y = x * 2 ^ k + y.
Proof.
  intros Hk Hy. assert (H0 : Z.land (Z.shiftl x k) y = 0).
  { apply Z.bits_inj'. intros m Hm. rewrite Z.land_spec, Z.testbit_0_l.
    destruct (Z.ltb_spec m k).
    - by rewrite Z.shiftl_spec_low.
    - rewrite <- (Z.mod_small y (2 ^ k)) by done.
      rewrite Z.mod_pow2_bits_high by lia. apply andb_false_r. }
  rewrite <- Z.lxor_lor, <- Z.add_nocarry_lxor by done. by rewrite Z.shiftl_mul_pow2.
Qed.

(** ** Lists *)

Lemma take_insert_snoc {A} (l : list A) (n : nat) (x : A) :
  (n < length l)%nat -> take (S n) (<[n := x]> l) = take n l ++ [x].
Proof.
  intros Hn. rewrite (take_S_r _ _ x) by (by apply list_lookup_insert_eq).
  by rewrite take_insert_ge.
Qed.

Lemma take_insert_prefix {A} (l : list A) (n m : nat) (x : A) :
  (n <= m)%nat -> take n (<[m := x]> l) = take n l.
Proof. intros. by apply take_insert_ge. Qed.

(** ** What threads have in hand

    The places of the threads (or CPUs) of a machine are a finite map; [f] gives
    what a thread at a place holds. *)
Section hands.
  Context `{Countable K} {A B : Type} (f : A -> list B).
Definition hands (m : gmap K A) : list B := map_to_list m ≫= (fun kx => f kx.2).

Lemma hands_insert m t x : m !! t = None -> hands (<[t := x]> m) ≡ₚ f x ++ hands m.
Proof using Type. intros Ht. unfold hands. by rewrite (map_to_list_insert m t x Ht). Qed.

Lemma hands_delete m t x : m !! t = Some x -> f x ++ hands (delete t m) ≡ₚ hands m.
Proof using Type. intros Ht. unfold hands. by rewrite <- (map_to_list_delete m t x Ht). Qed.

Lemma hands_update m t x y : m !! t = Some x -> f x ++ hands (<[t := y]> m) ≡ₚ f y ++ hands m.
Proof using Type.
  intros Ht. rewrite <- (hands_delete m t x Ht), <- (insert_delete_eq m).
  rewrite (hands_insert _ t y) by apply lookup_delete_eq. solve_Permutation.
Qed.

Lemma hands_same m t x y : m !! t = Some x -> f x = f y -> hands (<[t := y]> m) ≡ₚ hands m.
Proof using Type. intros Ht E. pose proof (hands_update m t x y Ht) as P. rewrite E in P. by apply Permutation_app_inv_l in P. Qed.
Lemma hands_gone m t x : m !! t = Some x -> f x = [] -> hands (delete t m) ≡ₚ hands m.
Proof using Type. intros Ht E. pose proof (hands_delete m t x Ht) as P. by rewrite E in P. Qed.

Lemma elem_of_hands m b : b ∈ hands m <-> exists t x, m !! t = Some x /\ b ∈ f x.
Proof using Type.
  unfold hands. rewrite list_elem_of_bind. split.
  - intros ([t x] & Hb & Hm). apply elem_of_map_to_list in Hm. eauto.
  - intros (t & x & Hm & Hb). exists (t, x). by rewrite elem_of_map_to_list.
Qed.

(** A thread has at most one thing in hand. *)
Lemma length_hands m : (forall x, length (f x) <= 1)%nat -> (length (hands m) <= size m)%nat.
Proof using Type.
  intros Hf. rewrite <- length_map_to_list. unfold hands. induction (map_to_list m) as [|[t x] l IH]; [done|].
  rewrite bind_cons, length_app. specialize (Hf x). simpl in *. lia.
Qed.
End hands.
