(* ===== verification/Bpf.v ===== *)
(** * Bpf: the run-time facilities the programs of src/bpf use

    Map lookups and updates, [bpf_loop], reads of user memory and the
    tail call, as src/bpf/libbpf/bpf/bpf_helper_defs.h documents them.
    What a helper reads from outside the program (user memory, the clock, the
    room left in a ring buffer) is an argument of the definitions that use it. *)
From S2P Require Import Prelude.

(** ** Array maps

    BPF_MAP_TYPE_ARRAY and, for the CPU the program runs on,
    BPF_MAP_TYPE_PERCPU_ARRAY: a lookup past the last entry is NULL. *)

Definition array_lookup {A} (m : list A) (i : Z) : option A :=
  if (0 <=? i) && (i <? Z.of_nat (length m)) then m !! Z.to_nat i else None.

Definition array_store {A} (m : list A) (i : Z) (v : A) : list A :=
  if (0 <=? i) && (i <? Z.of_nat (length m)) then <[Z.to_nat i := v]> m else m.

Lemma array_lookup_store {A} (m : list A) i v :
  0 <= i < Z.of_nat (length m) -> array_lookup (array_store m i v) i = Some v.
Proof.
  intros Hi. unfold array_lookup, array_store.
  rewrite (proj2 (Z.leb_le 0 i)), (proj2 (Z.ltb_lt i (Z.of_nat (length m)))) by lia. simpl.
  rewrite length_insert, (proj2 (Z.ltb_lt _ _)) by lia. by rewrite list_lookup_insert_eq by lia.
Qed.

(** ** Hash maps

    [bpf_map_update_elem] on BPF_MAP_TYPE_HASH: 0 on success, -EEXIST when
    BPF_NOEXIST finds the key, -E2BIG when a new key has no room. *)

Inductive map_flag := BPF_ANY | BPF_NOEXIST.

Definition EEXIST : Z := 17.
Definition E2BIG : Z := 7.

Section hash.
  Context {K V : Type} `{Countable K}.

Definition hash_update (max : Z) (fl : map_flag) (m : gmap K V) (k : K) (v : V)
  : Z * gmap K V :=
  match m !! k with
  | Some _ => match fl with BPF_ANY => (0, <[k := v]> m) | BPF_NOEXIST => (- EEXIST, m) end
  | None => if Z.of_nat (size m) <? max then (0, <[k := v]> m) else (- E2BIG, m)
  end.

Lemma hash_update_size max fl (m : gmap K V) k v :
  Z.of_nat (size m) <= max -> Z.of_nat (size (hash_update max fl m k v).2) <= max.
Proof.
  intros Hs. unfold hash_update. destruct (m !! k) eqn:E; [destruct fl; simpl|].
  - rewrite map_size_insert_Some by (by eexists). done.
  - done.
  - destruct (Z.ltb_spec (Z.of_nat (size m)) max); simpl; [|done].
    rewrite map_size_insert_None by done. lia.
Qed.

(** A write that finds its key or finds room. *)
Lemma hash_update_any max (m : gmap K V) k v :
  Z.of_nat (size m) < max -> (hash_update max BPF_ANY m k v).2 !! k = Some v.
Proof.
  intros Hs. unfold hash_update. destruct (m !! k); simpl; [by rewrite lookup_insert_eq|].
  rewrite (proj2 (Z.ltb_lt _ _) Hs). simpl. by rewrite lookup_insert_eq.
Qed.

(** As long as every key ever written comes from a set that fits, an update
    never runs out of room. *)
Lemma hash_update_within max fl (m : gmap K V) (S : gset K) k v :
  dom m ⊆ S -> Z.of_nat (size S) <= max -> k ∈ S ->
  (m !! k = None \/ fl = BPF_ANY) -> hash_update max fl m k v = (0, <[k := v]> m).
Proof.
  intros Hd Hs Hk Hfl. unfold hash_update. destruct (m !! k) as [x|] eqn:E.
  { destruct Hfl as [?| ->]; done. }
  destruct (Z.ltb_spec (Z.of_nat (size m)) max) as [|Hge]; [done|]. exfalso.
  assert (Hlt : (size (dom m) < size S)%nat).
  { apply subset_size. split; [done|]. intros Hsub. apply Hsub in Hk.
    apply elem_of_dom in Hk as [y Hy]. congruence. }
  rewrite size_dom in Hlt. lia.
Qed.

Lemma hash_update_other max fl (m : gmap K V) k k' v :
  k <> k' -> (hash_update max fl m k v).2 !! k' = m !! k'.
Proof.
  intros Hne. unfold hash_update.
  repeat case_match; simpl; try done; by rewrite lookup_insert_ne.
Qed.
End hash.

(** ** Ring buffers

    What has been submitted, in order, and how many reservations were tried;
    [room n] says whether the [n]-th one finds space, which depends on how fast
    user space consumes and is therefore an argument. *)

Record ringbuf (A : Type) := Ringbuf { rb_events : list A; rb_tries : nat }.
Arguments Ringbuf {A}.
Arguments rb_events {A}.
Arguments rb_tries {A}.

(** [bpf_ringbuf_output]: the record is copied in when there is room, and the
    return value tells whether it was. *)
Definition ringbuf_output {A} (room : nat -> bool) (rb : ringbuf A) (x : A) : bool * ringbuf A :=
  if room (rb_tries rb)
  then (true, Ringbuf (rb_events rb ++ [x]) (S (rb_tries rb)))
  else (false, Ringbuf (rb_events rb) (S (rb_tries rb))).

(** [bpf_ringbuf_reserve] alone: whether there was room; the event is appended
    by [ringbuf_submit], or never ([bpf_ringbuf_discard]). *)
Definition ringbuf_reserve {A} (room : nat -> bool) (rb : ringbuf A) : bool * ringbuf A :=
  (room (rb_tries rb), Ringbuf (rb_events rb) (S (rb_tries rb))).
Definition ringbuf_submit {A} (rb : ringbuf A) (x : A) : ringbuf A :=
  Ringbuf (rb_events rb ++ [x]) (rb_tries rb).

(** ** User memory

    [mem a] is the byte at [a], [None] where a read faults.
    [bpf_probe_read_user] copies the whole range or nothing. *)

Abbreviation umem := (Z -> option Z).

Definition probe_read_user (mem : umem) (addr : Z) (n : nat) : option (list Z) :=
  mapM (fun i => mem (u64 (addr + Z.of_nat i))) (seq 0 n).

Fixpoint le_decode (bs : list Z) : Z :=
  match bs with [] => 0 | b :: bs' => u8 b + 256 * le_decode bs' end.

(** A naturally little-endian load of eight bytes, as both target
    architectures do it. *)
Definition read_u64 (mem : umem) (addr : Z) : option Z :=
  le_decode <$> probe_read_user mem addr 8.

(** A memory holding the given 64-bit words, for concrete runs. *)
Definition words (l : list (Z * Z)) : umem := fun a =>
  match list_find (fun w => w.1 <= a < w.1 + 8) l with
  | Some (_, (base, v)) => Some (Z.shiftr v (8 * (a - base)) mod 256)
  | None => None
  end.

Lemma le_decode_range bs : 0 <= le_decode bs < 256 ^ Z.of_nat (length bs).
Proof.
  induction bs as [|b bs IH]; [simpl; lia|].
  change (le_decode (b :: bs)) with (u8 b + 256 * le_decode bs).
  rewrite length_cons, Nat2Z.inj_succ, Z.pow_succ_r by lia.
  pose proof (u8_range b) as Hb. unfold is_u8 in Hb. lia.
Qed.

Lemma read_u64_range mem a v : read_u64 mem a = Some v -> is_u64 v.
Proof.
  unfold read_u64. intros (bs & Hbs & ->)%fmap_Some.
  unfold probe_read_user in Hbs. apply length_mapM in Hbs. rewrite length_seq in Hbs.
  pose proof (le_decode_range bs) as Hr. rewrite <- Hbs in Hr.
  change (256 ^ Z.of_nat 8) with 18446744073709551616 in Hr. exact Hr.
Qed.
#[export] Hint Resolve read_u64_range : perf.

(** ** [bpf_loop]

    Calls [f idx ctx] for idx = 0, 1, ... until it answers 1 (here [true]) or
    the bound is reached. *)

Section loop.
  Context {S : Type} (f : Z -> S -> bool * S).

Fixpoint bpf_loop_from (n : nat) (idx : Z) (s : S) : S :=
  match n with
  | O => s
  | Datatypes.S n' =>
      let '(stop, s') := f idx s in
      if stop then s' else bpf_loop_from n' (idx + 1) s'
  end.

Definition bpf_loop (n : Z) (s : S) : S := bpf_loop_from (Z.to_nat n) 0 s.

(** An invariant kept by every continuing iteration and turned into [Q] by the
    stopping one holds, in one of the two forms, when the loop ends. *)
Lemma bpf_loop_from_inv (I Q : S -> Prop) n idx s :
  (forall i s, I s -> if (f i s).1 then Q (f i s).2 else I (f i s).2) ->
  I s -> Q (bpf_loop_from n idx s) \/ I (bpf_loop_from n idx s).
Proof.
  intros Hstep. revert idx s. induction n as [|n IH]; intros idx s Hs; [by right|].
  simpl. pose proof (Hstep idx s Hs) as Hn. destruct (f idx s) as [[] s']; simpl in *.
  - by left.
  - by apply IH.
Qed.

Lemma bpf_loop_inv (I Q : S -> Prop) n s :
  (forall i s, I s -> if (f i s).1 then Q (f i s).2 else I (f i s).2) ->
  I s -> Q (bpf_loop n s) \/ I (bpf_loop n s).
Proof. apply bpf_loop_from_inv. Qed.

(** The same with an invariant that sees how many iterations have run. *)
Lemma bpf_loop_from_count (I : Z -> S -> Prop) (Q : S -> Prop) n idx s :
  (forall i s, I i s -> if (f i s).1 then Q (f i s).2 else I (i + 1) (f i s).2) ->
  I idx s -> Q (bpf_loop_from n idx s) \/ I (idx + Z.of_nat n) (bpf_loop_from n idx s).
Proof.
  intros Hstep. revert idx s. induction n as [|n IH]; intros idx s Hs.
  { right. by rewrite Z.add_0_r. }
  simpl. pose proof (Hstep idx s Hs) as Hn. destruct (f idx s) as [[] s']; simpl in *.
  - by left.
  - replace (idx + Z.of_nat (Datatypes.S n)) with (idx + 1 + Z.of_nat n) by lia. by apply IH.
Qed.
End loop.

(** ** Tail calls

    A program either ends in a world, or asks for a tail call.  A tail call
    that succeeds replaces the program; one that fails returns, and the rest of
    the program ends in [failed].  The kernel performs at most
    [MAX_TAIL_CALL_CNT] of them in one invocation. *)

Inductive outcome (W : Type) :=
| Done (w : W)
| TailCall (slot : Z) (w : W) (failed : W).
Arguments Done {W}.
Arguments TailCall {W}.

Definition MAX_TAIL_CALL_CNT : nat := 33.

Section run.
  Context {W : Type} (progs : Z -> option (W -> outcome W)).

(** The final world and the number of tail calls that happened. *)
Fixpoint run (limit : nat) (o : outcome W) : W * nat :=
  match o with
  | Done w => (w, 0%nat)
  | TailCall slot w failed =>
      match limit with
      | O => (failed, 0%nat)
      | S limit' =>
          match progs slot with
          | None => (failed, 0%nat)
          | Some p => let '(w', n) := run limit' (p w) in (w', S n)
          end
      end
  end.

(** A run that stayed under its limit does not depend on it. *)
Lemma run_enough limit limit' o :
  ((run limit o).2 < limit)%nat -> (limit <= limit')%nat -> run limit' o = run limit o.
Proof.
  revert limit' o. induction limit as [|limit IH]; intros limit' o Hc Hle; [lia|].
  destruct limit' as [|limit']; [lia|].
  destruct o as [w|slot w failed]; simpl in *; [done|].
  destruct (progs slot) as [p|]; [|done].
  destruct (run limit (p w)) as [w' n] eqn:E; simpl in *.
  rewrite (IH limit' (p w)); rewrite ?E; simpl; [done|lia|lia].
Qed.
End run.
