(* ===== verification/Record.v ===== *)
(** * Record: the ABI shared by the native walker and the interpreter modules

    Models src/bpf/unwind_record.h: the sample record and its two pushers, the
    walk state that survives a tail call, the dispatch counters and the world a
    program of this family runs in.  The pushers refine appending to a list of
    frames. *)
From S2P Require Import Prelude Bpf.

(** ** Data *)

Definition MAX_FRAMES : Z := 127.
Definition FRAME_TAG_NATIVE : Z := 0.

Record sample_header := Header {
  hdr_pid : Z;
  hdr_tid : Z;
  hdr_time_ns : Z;
  hdr_value : Z;
  hdr_mode : Z;
  hdr_n_pcs : Z;
  hdr_walker_flags : Z;
  hdr_kern_stack : Z;
}.

Record sample_record := SampleRecord {
  rec_hdr : sample_header;
  rec_pcs : list Z;
  rec_tags : list Z;
}.

(** The two arrays have their declared length. *)
Definition record_wf (r : sample_record) : Prop :=
  length (rec_pcs r) = 127%nat /\ length (rec_tags r) = 127%nat.

Definition flags_of (r : sample_record) : Z := hdr_walker_flags (rec_hdr r).

Definition set_flags (r : sample_record) (f : Z) : sample_record :=
  let h := rec_hdr r in
  SampleRecord
    (Header (hdr_pid h) (hdr_tid h) (hdr_time_ns h) (hdr_value h) (hdr_mode h)
            (hdr_n_pcs h) f (hdr_kern_stack h))
    (rec_pcs r) (rec_tags r).

(** [rec->hdr.walker_flags |= f] *)
Definition or_flags (r : sample_record) (f : Z) : sample_record :=
  set_flags r (Z.lor (flags_of r) f).

Definition store_slot (r : sample_record) (i : nat) (tag pc : Z) : sample_record :=
  SampleRecord (rec_hdr r) (<[i := pc]> (rec_pcs r)) (<[i := tag]> (rec_tags r)).

(** ** The dispatch counters *)

Definition INTERP_STAT_RANGE_HIT : Z := 0.
Definition INTERP_STAT_IN_RANGE : Z := 1.
Definition INTERP_STAT_CLAIMED : Z := 2.
Definition INTERP_STAT_DISPATCHED : Z := 3.
Definition INTERP_STAT_TAILCALL_FAILED : Z := 4.
Definition INTERP_STAT_BUDGET : Z := 5.
Definition INTERP_STAT_RESUMED : Z := 6.
Definition INTERP_STAT_MAX : Z := 7.

(** A bump of one slot of a per-CPU array of 64-bit counters. *)
Definition bump (m : list Z) (slot : Z) : list Z :=
  match array_lookup m slot with
  | Some d => array_store m slot (u64 (d + 1))
  | None => m
  end.

Definition interp_count (slot : Z) (stats : list Z) : list Z :=
  if INTERP_STAT_MAX <=? slot then stats else bump stats slot.

(** ** The walk state that survives a tail call *)

Record walk_persist := Persist {
  st_pc : Z;
  st_fp : Z;
  st_sp : Z;
  st_interp_scratch : list Z;
  st_pid : Z;
  st_tid : Z;
  st_n_pcs : Z;
  st_pending_unwinder : Z;
  st_interp_done : Z;
  st_stopped : Z;
  st_tail_calls : Z;
}.

Definition INTERP_SLOT_RESUME_STEP : Z := 0.
Definition INTERP_SLOT_RESUME_WALK : Z := 1.
Definition INTERP_SLOT_UNWINDER (id : Z) : Z := u32 (id + 1).
Definition INTERP_MAX_UNWINDERS : Z := 8.

(** ** The world a program runs in

    The two per-CPU maps and the counters every object shares, the maps private
    to the driver object ([D]) and those private to the interpreter module
    ([M]).  A pointer into a map is the value in the map: the code reads and
    writes [walker_scratch[0]] and [walk_states[0]] and nothing else aliases
    them while a program runs. *)

Record world (D M : Type) := World {
  walker_scratch : list sample_record;
  walk_states : list walk_persist;
  interp_stats : list Z;
  drv : D;
  mdl : M;
}.
Arguments World {D M}.
Arguments walker_scratch {D M}.
Arguments walk_states {D M}.
Arguments interp_stats {D M}.
Arguments drv {D M}.
Arguments mdl {D M}.

Section world.
  Context {D M : Type}.
  Implicit Types (w : world D M).

Definition walk_state_get w : option walk_persist := array_lookup (walk_states w) 0.
Definition walk_record_get w : option sample_record := array_lookup (walker_scratch w) 0.

(** The stores through the two pointers. *)
Definition put_walk w (st : walk_persist) (rec : sample_record) : world D M :=
  World (array_store (walker_scratch w) 0 rec) (array_store (walk_states w) 0 st)
        (interp_stats w) (drv w) (mdl w).
Definition put_record w (rec : sample_record) : world D M :=
  World (array_store (walker_scratch w) 0 rec) (walk_states w) (interp_stats w) (drv w) (mdl w).
Definition put_stats w (s : list Z) : world D M :=
  World (walker_scratch w) (walk_states w) s (drv w) (mdl w).
Definition put_drv w (d : D) : world D M :=
  World (walker_scratch w) (walk_states w) (interp_stats w) d (mdl w).
Definition put_mdl w (m : M) : world D M :=
  World (walker_scratch w) (walk_states w) (interp_stats w) (drv w) m.

(** Both maps hold their one entry, as the kernel allocates them. *)
Definition world_wf w : Prop :=
  length (walker_scratch w) = 1%nat /\ length (walk_states w) = 1%nat /\
  length (interp_stats w) = 7%nat.

Lemma put_walk_get w st rec :
  world_wf w ->
  walk_state_get (put_walk w st rec) = Some st /\ walk_record_get (put_walk w st rec) = Some rec.
Proof.
  intros (H1 & H2 & _). destruct w as [sc ss sts d m]. unfold walk_state_get, walk_record_get; simpl in *.
  destruct sc as [|? [|]]; try done. destruct ss as [|? [|]]; done.
Qed.

Lemma put_walk_wf w st rec : world_wf w -> world_wf (put_walk w st rec).
Proof.
  intros (H1 & H2 & H3). destruct w as [sc ss sts d m]. simpl in *.
  destruct sc as [|? [|]]; try done. destruct ss as [|? [|]]; done.
Qed.

Lemma put_record_wf w rec : world_wf w -> world_wf (put_record w rec).
Proof.
  intros (H1 & H2 & H3). destruct w as [sc ss sts d m]. simpl in *.
  destruct sc as [|? [|]]; done.
Qed.

Lemma put_record_get w rec : world_wf w -> walk_record_get (put_record w rec) = Some rec.
Proof.
  intros (H1 & _). destruct w as [sc ss sts d m]. unfold walk_record_get; simpl in *.
  destruct sc as [|? [|]]; done.
Qed.

Lemma world_wf_get w :
  world_wf w -> exists st rec, walk_state_get w = Some st /\ walk_record_get w = Some rec.
Proof.
  intros (H1 & H2 & _). destruct w as [sc ss sts d m]. simpl in *.
  destruct sc as [|r [|]]; try done. destruct ss as [|s [|]]; try done. by exists s, r.
Qed.
End world.

(** ** The pushers *)

Definition WALKER_FLAG_FRAME_PUSH_REFUSED : Z := 0x80.

(** The result [true] is the source's [return 1]: refused. *)
Definition record_push_native (rec : sample_record) (n pc : Z) : bool * sample_record * Z :=
  let i := n in
  if MAX_FRAMES <=? i then (true, or_flags rec WALKER_FLAG_FRAME_PUSH_REFUSED, n)
  else (false, store_slot rec (Z.to_nat i) FRAME_TAG_NATIVE pc, u32 (i + 1)).

Definition record_push_interp (rec : sample_record) (n tag a b : Z) : bool * sample_record * Z :=
  let i := n in
  if MAX_FRAMES - 2 <? i then (true, or_flags rec WALKER_FLAG_FRAME_PUSH_REFUSED, n)
  else (false,
        store_slot (store_slot rec (Z.to_nat i) tag a) (Z.to_nat (i + 1)) tag b,
        u32 (i + 2)).

(** ** Handing control back *)

Definition set_pending (st : walk_persist) (u : Z) : walk_persist :=
  Persist (st_pc st) (st_fp st) (st_sp st) (st_interp_scratch st) (st_pid st) (st_tid st)
          (st_n_pcs st) u (st_interp_done st) (st_stopped st) (st_tail_calls st).

Definition interp_return_to_native {D M} (w : world D M) (st : walk_persist)
    (rec : sample_record) : outcome (world D M) :=
  let w' := put_walk w (set_pending st 0) rec in
  TailCall INTERP_SLOT_RESUME_STEP w' w'.

(** ** What a record means

    The slots [0 .. n) read as frames: one slot tagged [FRAME_TAG_NATIVE] is an
    instruction pointer, any other tag owns a pair of consecutive slots. *)

Inductive frame := Native (pc : Z) | Interp (tag a b : Z).

Definition is_interp (f : frame) : Prop :=
  match f with Interp tag _ _ => tag <> FRAME_TAG_NATIVE | Native _ => False end.
Definition is_native (f : frame) : Prop := match f with Native _ => True | _ => False end.

#[export] Instance is_interp_dec f : Decision (is_interp f).
Proof. destruct f; simpl; apply _. Defined.

(** The interpreter frames among a record's frames. *)
Definition interp_frames (fs : list frame) : list frame := filter is_interp fs.

Fixpoint decode (l : list (Z * Z)) : option (list frame) :=
  match l with
  | [] => Some []
  | (t, a) :: rest =>
      if t =? FRAME_TAG_NATIVE then cons (Native a) <$> decode rest
      else match rest with
           | [] => None
           | (t', b) :: rest' =>
               if t' =? t then cons (Interp t a b) <$> decode rest' else None
           end
  end.

Definition slots (r : sample_record) (n : nat) : list (Z * Z) :=
  take n (zip (rec_tags r) (rec_pcs r)).

(** [r] holds exactly the frames [fs] in its first [n] slots. *)
Definition holds (r : sample_record) (n : Z) (fs : list frame) : Prop :=
  record_wf r /\ 0 <= n <= MAX_FRAMES /\ decode (slots r (Z.to_nat n)) = Some fs.

(** ** Lemmas *)

Lemma decode_app l1 l2 fs :
  decode l1 = Some fs -> decode (l1 ++ l2) = app fs <$> decode l2.
Proof.
  remember (length l1) as k eqn:Hk.
  revert l1 fs Hk. induction (lt_wf k) as [k _ IH].
  intros [|[t a] l1] fs Hk Hd; simpl in *.
  - injection Hd as <-. by destruct (decode l2).
  - destruct (Z.eqb_spec t FRAME_TAG_NATIVE).
    + apply fmap_Some in Hd as (gs & Hgs & ->).
      rewrite (IH (length l1) ltac:(lia) l1 gs eq_refl Hgs). by destruct (decode l2).
    + destruct l1 as [|[t' b] l1]; [done|]. simpl in *.
      destruct (Z.eqb_spec t' t); [|done].
      apply fmap_Some in Hd as (gs & Hgs & ->).
      rewrite (IH (length l1) ltac:(lia) l1 gs eq_refl Hgs). by destruct (decode l2).
Qed.

Lemma zip_insert {A B} (l : list A) (k : list B) i a b :
  zip (<[i:=a]> l) (<[i:=b]> k) = <[i:=(a, b)]> (zip l k).
Proof.
  revert k i. induction l as [|x l IH]; intros [|y k] [|i]; simpl; try done.
  f_equal. apply IH.
Qed.

Lemma store_slot_wf r i t a : record_wf r -> record_wf (store_slot r i t a).
Proof. intros []. split; simpl; by rewrite length_insert. Qed.

Lemma or_flags_wf r f : record_wf r -> record_wf (or_flags r f).
Proof. done. Qed.

Lemma slots_or_flags r f n : slots (or_flags r f) n = slots r n.
Proof. done. Qed.

Lemma slots_length r : record_wf r -> length (zip (rec_tags r) (rec_pcs r)) = 127%nat.
Proof. intros [H1 H2]. by rewrite length_zip_with, H1, H2. Qed.

Lemma slots_store r i n t a : (n <= i)%nat -> slots (store_slot r i t a) n = slots r n.
Proof. intros. unfold slots, store_slot; simpl. by rewrite zip_insert, take_insert_prefix. Qed.

Lemma slots_store_snoc r i t a :
  record_wf r -> (i < 127)%nat -> slots (store_slot r i t a) (S i) = slots r i ++ [(t, a)].
Proof.
  intros Hwf Hi. unfold slots, store_slot; simpl.
  rewrite zip_insert, take_insert_snoc; [done|]. by rewrite slots_length.
Qed.

#[export] Hint Resolve store_slot_wf or_flags_wf put_walk_wf : perf.

(** The native pusher, below capacity: one frame more, nothing else. *)
Lemma record_push_native_ok rec n pc fs :
  holds rec n fs -> n < MAX_FRAMES ->
  exists rec', record_push_native rec n pc = (false, rec', n + 1) /\
    holds rec' (n + 1) (fs ++ [Native pc]) /\ rec_hdr rec' = rec_hdr rec /\
    slots rec' (Z.to_nat n) = slots rec (Z.to_nat n).
Proof.
  intros (Hwf & Hn & Hd) Hlt. unfold record_push_native, MAX_FRAMES in *.
  destruct (Z.leb_spec 127 n); [lia|].
  rewrite u32_small by word_lia. eexists; split; [done|]. split; [|split; [done|]].
  - split; [by apply store_slot_wf|]. split; [unfold MAX_FRAMES; lia|].
    replace (Z.to_nat (n + 1)) with (S (Z.to_nat n)) by lia.
    rewrite slots_store_snoc by (done || lia).
    by rewrite (decode_app _ _ fs Hd).
  - by rewrite slots_store.
Qed.

Lemma record_push_interp_ok rec n tag a b fs :
  holds rec n fs -> n <= MAX_FRAMES - 2 -> tag <> FRAME_TAG_NATIVE ->
  exists rec', record_push_interp rec n tag a b = (false, rec', n + 2) /\
    holds rec' (n + 2) (fs ++ [Interp tag a b]) /\ rec_hdr rec' = rec_hdr rec /\
    slots rec' (Z.to_nat n) = slots rec (Z.to_nat n).
Proof.
  intros (Hwf & Hn & Hd) Hlt Htag. unfold record_push_interp, MAX_FRAMES in *.
  destruct (Z.ltb_spec (127 - 2) n); [lia|].
  rewrite u32_small by word_lia. eexists; split; [done|].
  split; [|split; [done|]].
  - split; [by do 2 apply store_slot_wf|]. split; [unfold MAX_FRAMES; lia|].
    replace (Z.to_nat (n + 2)) with (S (Z.to_nat (n + 1))) by lia.
    rewrite slots_store_snoc by (try apply store_slot_wf; done || lia).
    replace (Z.to_nat (n + 1)) with (S (Z.to_nat n)) by lia.
    rewrite slots_store_snoc by (done || lia).
    rewrite <- app_assoc, (decode_app _ _ fs Hd). simpl.
    destruct (Z.eqb_spec tag FRAME_TAG_NATIVE); [done|]. by rewrite Z.eqb_refl.
  - by rewrite !slots_store by lia.
Qed.

(** How many slots a frame takes. *)
Definition width (f : frame) : Z := match f with Native _ => 1 | Interp _ _ _ => 2 end.
Definition widths (fs : list frame) : Z := foldr (fun f n => width f + n) 0 fs.

Lemma widths_app fs gs : widths (fs ++ gs) = widths fs + widths gs.
Proof. induction fs as [|f fs IH]; simpl; lia. Qed.

Lemma decode_widths l fs : decode l = Some fs -> Z.of_nat (length l) = widths fs.
Proof.
  remember (length l) as k eqn:Hk. revert l fs Hk. induction (lt_wf k) as [k _ IH].
  intros [|[t a] l] fs Hk Hd; simpl in *; [by injection Hd as <-; subst k|].
  destruct (Z.eqb_spec t FRAME_TAG_NATIVE).
  - apply fmap_Some in Hd as (gs & Hgs & ->). simpl.
    pose proof (IH (length l) ltac:(lia) l gs eq_refl Hgs). lia.
  - destruct l as [|[t' b] l]; [done|]. simpl in *. destruct (Z.eqb_spec t' t); [|done].
    apply fmap_Some in Hd as (gs & Hgs & ->). simpl.
    pose proof (IH (length l) ltac:(lia) l gs eq_refl Hgs). lia.
Qed.

(** The cursor of a record counts the slots of its frames. *)
Lemma holds_widths r n fs : holds r n fs -> n = widths fs.
Proof.
  intros ([H1 H2] & Hn & Hd). apply decode_widths in Hd. unfold slots, MAX_FRAMES in *.
  rewrite length_take, length_zip_with, H1, H2 in Hd. lia.
Qed.

Lemma interp_frames_widths fs : 2 * Z.of_nat (length (interp_frames fs)) <= widths fs.
Proof.
  unfold interp_frames. induction fs as [|f fs IH]; simpl; [lia|].
  destruct (decide (is_interp f)) as [Hi|Hi].
  - rewrite filter_cons_True by done. destruct f; simpl in *; [done|lia].
  - rewrite filter_cons_False by done. destruct f; simpl in *; lia.
Qed.

Lemma interp_frames_app fs gs :
  interp_frames (fs ++ gs) = interp_frames fs ++ interp_frames gs.
Proof. unfold interp_frames. by rewrite list.filter_app. Qed.

Lemma interp_frames_native fs : Forall is_native fs -> interp_frames fs = [].
Proof.
  induction 1 as [|f fs Hf _ IH]; [done|]. unfold interp_frames in *.
  rewrite filter_cons_False; [done|]. destruct f; simpl in *; tauto.
Qed.

Lemma interp_frames_all fs : Forall is_interp fs -> interp_frames fs = fs.
Proof.
  induction 1 as [|f fs Hf _ IH]; [done|]. unfold interp_frames in *.
  rewrite filter_cons_True by done. by rewrite IH.
Qed.

(** ** Counter arithmetic

    Counters are 64-bit and may wrap, so how a run changed them is a vector of
    increments, modulo 2^64. *)

Definition stat (s : list Z) (i : Z) : Z := default 0 (array_lookup s i).

Record shifted (s s' : list Z) (d : Z -> Z) : Prop := {
  shifted_length : length s' = length s;
  shifted_stat : forall i, u64 (stat s' i) = u64 (stat s i + d i);
}.

Definition only (slot : Z) (i : Z) : Z := if i =? slot then 1 else 0.

Lemma shifted_refl s : shifted s s (fun _ => 0).
Proof. split; [done|]. intros i. by rewrite Z.add_0_r. Qed.

Lemma shifted_trans s1 s2 s3 d1 d2 :
  shifted s1 s2 d1 -> shifted s2 s3 d2 -> shifted s1 s3 (fun i => d1 i + d2 i).
Proof.
  intros [L1 H1] [L2 H2]. split; [congruence|]. intros i. specialize (H1 i). specialize (H2 i).
  unfold u64 in *. rewrite H2, Z.add_assoc, <- Z.add_mod_idemp_l, H1, Z.add_mod_idemp_l by done. done.
Qed.

Lemma stat_lookup s slot :
  0 <= slot < Z.of_nat (length s) -> array_lookup s slot = Some (stat s slot).
Proof.
  intros Hs. unfold stat, array_lookup.
  rewrite (proj2 (Z.leb_le 0 slot)), (proj2 (Z.ltb_lt slot _)) by lia. simpl.
  destruct (lookup_lt_is_Some_2 s (Z.to_nat slot)) as [v Hv]; [lia|]. by rewrite Hv.
Qed.

Lemma stat_store s slot v i :
  0 <= slot < Z.of_nat (length s) ->
  stat (array_store s slot v) i = if i =? slot then v else stat s i.
Proof.
  intros Hs. unfold array_store, stat, array_lookup.
  rewrite (proj2 (Z.leb_le 0 slot)), (proj2 (Z.ltb_lt slot _)) by lia. simpl.
  rewrite length_insert. destruct (Z.eqb_spec i slot) as [->|Hne].
  - rewrite (proj2 (Z.leb_le 0 slot)), (proj2 (Z.ltb_lt slot _)) by lia. simpl.
    by rewrite list_lookup_insert_eq by lia.
  - destruct (Z.leb_spec 0 i); simpl; [|done]. destruct (_ <? _); [|done].
    by rewrite list_lookup_insert_ne by lia.
Qed.

Lemma stat_bump s slot i :
  0 <= slot < Z.of_nat (length s) ->
  stat (bump s slot) i = if i =? slot then u64 (stat s slot + 1) else stat s i.
Proof. intros Hs. unfold bump. rewrite stat_lookup by done. by apply stat_store. Qed.

Lemma array_store_length {A} (m : list A) i v : length (array_store m i v) = length m.
Proof. unfold array_store. case_match; [|done]. by rewrite length_insert. Qed.

Lemma bump_length s slot : length (bump s slot) = length s.
Proof.
  unfold bump, array_store. repeat case_match; try done. by rewrite length_insert.
Qed.

Lemma shifted_bump s slot :
  0 <= slot < Z.of_nat (length s) -> shifted s (bump s slot) (only slot).
Proof.
  intros Hs. split; [apply bump_length|]. intros i. rewrite stat_bump by done. unfold only.
  destruct (Z.eqb_spec i slot) as [->|]; [|by rewrite Z.add_0_r].
  unfold u64. by rewrite Z.mod_mod.
Qed.

Lemma shifted_count slot s :
  length s = 7%nat -> 0 <= slot < INTERP_STAT_MAX -> shifted s (interp_count slot s) (only slot).
Proof.
  unfold interp_count, INTERP_STAT_MAX. intros Hl Hs.
  rewrite (proj2 (Z.leb_gt 7 slot)) by lia. apply shifted_bump. lia.
Qed.

(** ** The pushers refine a bounded list of frames *)

#[export] Instance frame_eq_dec : EqDecision frame.
Proof. solve_decision. Defined.

Definition tagged (f : frame) : Prop :=
  match f with Native _ => True | Interp tag _ _ => tag <> FRAME_TAG_NATIVE end.

(** The abstract record: frames that fit in [room] slots, one after another;
    those that do not are dropped. *)
Fixpoint fitting (room : Z) (fs : list frame) : list frame :=
  match fs with
  | [] => []
  | f :: fs => if width f <=? room then f :: fitting (room - width f) fs else fitting room fs
  end.

Definition push (rn : sample_record * Z) (f : frame) : sample_record * Z :=
  let '(_, r, n) := match f with
                    | Native pc => record_push_native rn.1 rn.2 pc
                    | Interp tag a b => record_push_interp rn.1 rn.2 tag a b
                    end in (r, n).

Lemma push_step r n f gs :
  holds r n gs -> tagged f ->
  if width f <=? MAX_FRAMES - n
  then holds (push (r, n) f).1 (n + width f) (gs ++ [f]) /\ (push (r, n) f).2 = n + width f /\
       flags_of (push (r, n) f).1 = flags_of r
  else push (r, n) f = (or_flags r WALKER_FLAG_FRAME_PUSH_REFUSED, n).
Proof.
  intros Hh Ht. unfold push; simpl.
  destruct f as [pc|tag a b]; simpl;
    [destruct (Z.leb_spec 1 (MAX_FRAMES - n))|destruct (Z.leb_spec 2 (MAX_FRAMES - n))].
  - destruct (record_push_native_ok r n pc gs Hh ltac:(lia)) as (r' & -> & H1 & H2 & _).
    simpl. unfold flags_of. by rewrite H2.
  - unfold record_push_native. by rewrite (proj2 (Z.leb_le _ _)) by lia.
  - destruct (record_push_interp_ok r n tag a b gs Hh ltac:(lia) Ht) as (r' & -> & H1 & H2 & _).
    simpl. unfold flags_of. by rewrite H2.
  - unfold record_push_interp. by rewrite (proj2 (Z.ltb_lt _ _)) by lia.
Qed.

Lemma fitting_length room fs : (length (fitting room fs) <= length fs)%nat.
Proof.
  revert room. induction fs as [|f fs IH]; intros room; simpl; [done|].
  case_match; simpl; [specialize (IH (room - width f))|specialize (IH room)]; lia.
Qed.

Lemma push_all_from fs r n gs :
  holds r n gs -> Forall tagged fs ->
  exists r' n', foldl push (r, n) fs = (r', n') /\
    holds r' n' (gs ++ fitting (MAX_FRAMES - n) fs) /\
    n' = n + widths (fitting (MAX_FRAMES - n) fs) /\
    has_flag (flags_of r') WALKER_FLAG_FRAME_PUSH_REFUSED =
    has_flag (flags_of r) WALKER_FLAG_FRAME_PUSH_REFUSED ||
    negb (bool_decide (fitting (MAX_FRAMES - n) fs = fs)).
Proof.
  revert r n gs. induction fs as [|f fs IH]; intros r n gs Hh Ht; simpl.
  { exists r, n. rewrite app_nil_r, Z.add_0_r, orb_false_r. done. }
  apply Forall_cons_1 in Ht as [Hf Ht]. pose proof (push_step r n f gs Hh Hf) as Hp.
  destruct (width f <=? MAX_FRAMES - n) eqn:Ew.
  - destruct Hp as (H1 & H2 & H3). destruct (push (r, n) f) as [r1 n1]. simpl in *. subst n1.
    destruct (IH r1 (n + width f) (gs ++ [f]) H1 Ht) as (r' & n' & -> & Hh' & Hn' & Hfl).
    rewrite Z.sub_add_distr in Hh', Hn', Hfl. rewrite <- app_assoc in Hh'. simpl in Hh'.
    exists r', n'. split_and!; try done; [lia|]. rewrite Hfl, H3. do 2 f_equal.
    apply bool_decide_ext. split; [by intros ->|by intros [= ->]].
  - rewrite Hp. destruct (IH (or_flags r WALKER_FLAG_FRAME_PUSH_REFUSED) n gs Hh Ht)
      as (r' & n' & -> & Hh' & Hn' & Hfl).
    exists r', n'. split_and!; try done. rewrite Hfl. unfold or_flags, flags_of at 1; simpl.
    rewrite has_flag_lor. simpl. rewrite orb_true_r. simpl.
    rewrite bool_decide_eq_false_2, orb_true_r; [done|].
    intros E. pose proof (fitting_length (MAX_FRAMES - n) fs) as Hw. rewrite E in Hw. simpl in Hw. lia.
Qed.

(** C19: The two pushers together implement a list of frames bounded to 127
    slots. Whatever a previous sample left in the record, pushing frames one
    after another from an empty cursor makes the record read back as exactly
    the frames that fit, in order, native and interpreter frames mixed; the
    cursor is the number of slots they take; and the refusal bit is raised
    exactly when some frame was dropped. *)
Theorem pushes_refine_bounded_list rec fs :
  record_wf rec -> has_flag (flags_of rec) WALKER_FLAG_FRAME_PUSH_REFUSED = false ->
  Forall tagged fs ->
  exists rec' n, foldl push (rec, 0) fs = (rec', n) /\
    holds rec' n (fitting MAX_FRAMES fs) /\ n = widths (fitting MAX_FRAMES fs) /\
    (has_flag (flags_of rec') WALKER_FLAG_FRAME_PUSH_REFUSED = true <-> fitting MAX_FRAMES fs <> fs).
Proof.
  intros Hwf Hfl Ht.
  destruct (push_all_from fs rec 0 []) as (r & n & H1 & H2 & H3 & H4); [|done|].
  { split; [done|]. split; [done|]. done. }
  exists r, n. rewrite Z.sub_0_r in *. split_and!; try done.
  rewrite H4, Hfl. simpl. rewrite negb_true_iff. apply bool_decide_eq_false.
Qed.

(** An all-ones record, as stale as the per-CPU buffer can be. *)
Definition stale_record : sample_record :=
  SampleRecord (Header 1 1 1 1 1 1 0 1) (replicate 127 7) (replicate 127 1).

Lemma pushes_refine_bounded_list_witness :
  exists rec' n, foldl push (stale_record, 0) [Native 5; Interp 1 6 7] = (rec', n) /\
    holds rec' n [Native 5; Interp 1 6 7] /\ n = 3 /\
    (has_flag (flags_of rec') WALKER_FLAG_FRAME_PUSH_REFUSED = true <->
     [Native 5; Interp 1 6 7] <> [Native 5; Interp 1 6 7]).
Proof.
  apply (pushes_refine_bounded_list stale_record [Native 5; Interp 1 6 7]).
  - done.
  - done.
  - repeat constructor; done.
Defined.

(** A cursor read back from a shared map can be any 32-bit value, and no
    value of it lets a pusher write outside the two arrays: a push either is
    refused, changing neither array nor the cursor, or leaves the cursor
    exactly past the slots it wrote, inside the arrays. *)
Theorem pushes_stay_in_bounds rec n f :
  record_wf rec -> is_u32 n ->
  let '(rec', n') := push (rec, n) f in
  record_wf rec' /\
  ((n' = n + width f /\ n' <= MAX_FRAMES /\
    (forall i, 0 <= i < n -> rec_pcs rec' !! Z.to_nat i = rec_pcs rec !! Z.to_nat i /\
                             rec_tags rec' !! Z.to_nat i = rec_tags rec !! Z.to_nat i)) \/
   (n' = n /\ MAX_FRAMES < n + width f /\ rec_pcs rec' = rec_pcs rec /\
    rec_tags rec' = rec_tags rec)).
Proof.
  intros Hwf Hn. unfold push; destruct f as [pc|tag a b]; simpl;
    [unfold record_push_native|unfold record_push_interp]; unfold MAX_FRAMES in *; bool_cases.
  - split; [done|]. right. split_and!; try done; lia.
  - split; [by apply store_slot_wf|]. left. rewrite u32_small by word_lia. split_and!; try lia.
    intros i Hi. by rewrite !list_lookup_insert_ne by lia.
  - split; [done|]. right. split_and!; try done; lia.
  - split; [by do 2 apply store_slot_wf|]. left. rewrite u32_small by word_lia. split_and!; try lia.
    intros i Hi. by rewrite !list_lookup_insert_ne by lia.
Qed.

Lemma pushes_stay_in_bounds_witness :
  let '(rec', n') := push (stale_record, 4294967295) (Interp 1 2 3) in
  record_wf rec' /\
  ((n' = 4294967295 + 2 /\ n' <= MAX_FRAMES /\
    (forall i, 0 <= i < 4294967295 ->
       rec_pcs rec' !! Z.to_nat i = rec_pcs stale_record !! Z.to_nat i /\
       rec_tags rec' !! Z.to_nat i = rec_tags stale_record !! Z.to_nat i)) \/
   (n' = 4294967295 /\ MAX_FRAMES < 4294967295 + 2 /\ rec_pcs rec' = rec_pcs stale_record /\
    rec_tags rec' = rec_tags stale_record)).
Proof. apply (pushes_stay_in_bounds stale_record 4294967295 (Interp 1 2 3)); [done|word_lia]. Defined.
