(* ===== verification/Tables.v ===== *)
(** * Tables: the unwind tables and the lookups the walker makes in them

    Models the table half of src/bpf/unwind_common.h: CFI rows, per-process
    mappings, handoff ranges, the miss notifications of lazy compilation, and
    the three lookups that consult them for every frame.  The lookups are
    proved against their mathematical specification. *)
From S2P Require Import Prelude Bpf Record.

(** ** Data *)

Inductive cfa_type_t := CFA_TYPE_UNDEFINED | CFA_TYPE_SP | CFA_TYPE_FP.
Inductive fp_rule_type :=
  FP_TYPE_UNDEFINED | FP_TYPE_OFFSET_CFA | FP_TYPE_SAME_VALUE | FP_TYPE_REGISTER.
Inductive ra_rule_type :=
  RA_TYPE_UNDEFINED | RA_TYPE_OFFSET_CFA | RA_TYPE_SAME_VALUE | RA_TYPE_REGISTER.

Definition MODE_FP_SAFE : Z := 0.
Definition MODE_FP_LESS : Z := 1.
Definition MODE_FALLBACK : Z := 2.

#[export] Instance cfa_type_eq_dec : EqDecision cfa_type_t.
Proof. solve_decision. Defined.
#[export] Instance fp_rule_eq_dec : EqDecision fp_rule_type.
Proof. solve_decision. Defined.
#[export] Instance ra_rule_eq_dec : EqDecision ra_rule_type.
Proof. solve_decision. Defined.

(** The three offsets are signed 32-bit. *)
Record cfi_entry := CfiEntry {
  pc_start : Z;
  pc_end_delta : Z;
  cfa_offset : Z;
  fp_offset : Z;
  ra_offset : Z;
  cfa_type : cfa_type_t;
  fp_type : fp_rule_type;
  ra_type : ra_rule_type;
}.

Record pid_mapping := PidMapping {
  vma_start : Z;
  vma_end : Z;
  load_bias : Z;
  table_id : Z;
}.

Record handoff_range := HandoffRange {
  spans : list (Z * Z);
  unwinder_id : Z;
}.

Definition HANDOFF_MAX_RANGES : nat := 3.
Definition MAX_PID_MAPPINGS : Z := 256.
Definition BINARY_SEARCH_MAX_ITERS : nat := 24.
Definition UNWINDER_NATIVE : Z := 0.

(** The maps user space fills and the programs only read, and the load-time
    constant [interp_enabled]. *)
Record tables := Tables {
  cfi_rules : gmap Z (list cfi_entry);
  cfi_lengths : gmap Z Z;
  pid_mappings : gmap Z (list pid_mapping);
  pid_mapping_lengths : gmap Z Z;
  handoff_ranges : gmap Z handoff_range;
  interp_enabled : bool;
}.

(** ** The mapping lookup *)

Record mapping_lookup_result := MappingResult {
  m_table_id : Z;
  m_rel_pc : Z;
  m_found : bool;
}.

Definition no_mapping : mapping_lookup_result := MappingResult 0 0 false.

Record mapping_scan_ctx := ScanCtx {
  sc_pid : Z;
  sc_pc : Z;
  sc_out : mapping_lookup_result;
  sc_inner : list pid_mapping;
  sc_len : Z;
}.

Definition mapping_scan_step (idx : Z) (ctx : mapping_scan_ctx) : bool * mapping_scan_ctx :=
  if sc_len ctx <=? idx then (true, ctx)
  else match array_lookup (sc_inner ctx) idx with
  | None => (true, ctx)
  | Some m =>
      if (vma_start m <=? sc_pc ctx) && (sc_pc ctx <? vma_end m)
      then (true, ScanCtx (sc_pid ctx) (sc_pc ctx)
                    (MappingResult (table_id m) (u64 (sc_pc ctx - load_bias m)) true)
                    (sc_inner ctx) (sc_len ctx))
      else (false, ctx)
  end.

Definition mapping_for_pc (t : tables) (pid pc : Z) : mapping_lookup_result :=
  match pid_mappings t !! pid with
  | None => no_mapping
  | Some inner =>
      match pid_mapping_lengths t !! pid with
      | None => no_mapping
      | Some len =>
          if len =? 0 then no_mapping
          else
            let len' := if MAX_PID_MAPPINGS <? len then MAX_PID_MAPPINGS else len in
            sc_out (bpf_loop mapping_scan_step MAX_PID_MAPPINGS
                      (ScanCtx pid pc no_mapping inner len'))
      end
  end.

(** ** The CFI lookup *)

Fixpoint cfi_search (iters : nat) (inner : list cfi_entry) (rel_pc lo hi : Z)
  : option cfi_entry :=
  match iters with
  | O => None
  | S iters' =>
      if hi <=? lo then None
      else
        let mid := u32 (lo + u32 (hi - lo) / 2) in
        match array_lookup inner mid with
        | None => None
        | Some e =>
            if rel_pc <? pc_start e then cfi_search iters' inner rel_pc lo mid
            else if u64 (pc_start e + pc_end_delta e) <=? rel_pc
            then cfi_search iters' inner rel_pc (u32 (mid + 1)) hi
            else Some e
        end
  end.

Definition cfi_lookup (t : tables) (table_id rel_pc : Z) : option cfi_entry :=
  match cfi_rules t !! table_id with
  | None => None
  | Some inner =>
      match cfi_lengths t !! table_id with
      | None => None
      | Some len =>
          if len =? 0 then None else cfi_search BINARY_SEARCH_MAX_ITERS inner rel_pc 0 len
      end
  end.

(** ** Who claims a frame *)

Definition in_span (rel_pc : Z) (s : Z * Z) : bool := (s.1 <=? rel_pc) && (rel_pc <? s.2).

(** The unrolled scan over the spans of one claim: no early exit. *)
Definition inside_spans (rel_pc : Z) (ss : list (Z * Z)) : bool :=
  fold_left (fun inside s => if in_span rel_pc s then true else inside)
            (take HANDOFF_MAX_RANGES ss) false.

Definition next_unwinder (t : tables) (table_id rel_pc done : Z) (stats : list Z) : Z * list Z :=
  match handoff_ranges t !! table_id with
  | None => (UNWINDER_NATIVE, stats)
  | Some h =>
      let stats := interp_count INTERP_STAT_RANGE_HIT stats in
      if negb (inside_spans rel_pc (spans h)) then (UNWINDER_NATIVE, stats)
      else
        let stats := interp_count INTERP_STAT_IN_RANGE stats in
        let id := unwinder_id h in
        if has_flag done (Z.shiftl 1 (Z.land id 31)) then (UNWINDER_NATIVE, stats)
        else (id, stats)
  end.

(** ** Miss notifications *)

Record cfi_miss_event := MissEvent {
  ev_pid : Z;
  ev_table_id : Z;
  ev_rel_pc : Z;
  ev_ktime_ns : Z;
}.

(** What the program reads from outside: user memory, the monotonic clock (its
    [n]-th reading), the room in the two ring buffers of a driver, and the
    eviction policy of the LRU rate-limit map. *)
Record env := Env {
  e_mem : umem;
  e_ktime : nat -> Z;
  e_miss_room : nat -> bool;
  e_room : nat -> bool;
  e_lru : gmap (Z * Z) Z -> Z * Z -> Z -> gmap (Z * Z) Z;
}.

Record miss_state := MissState {
  cfi_miss_ratelimit : gmap (Z * Z) Z;
  cfi_miss_events : ringbuf cfi_miss_event;
  ktime_calls : nat;
}.

(** [bpf_ktime_get_ns]: the next reading. *)
Definition ktime_get_ns (ev : env) (s : miss_state) : Z * miss_state :=
  (u64 (e_ktime ev (ktime_calls s)),
   MissState (cfi_miss_ratelimit s) (cfi_miss_events s) (S (ktime_calls s))).

Definition CFI_MISS_PERIOD : Z := 1000000000.

Definition emit_cfi_miss (ev : env) (pid table_id rel_pc : Z) (s : miss_state) : miss_state :=
  let key := (pid, table_id) in
  let '(now, s) := ktime_get_ns ev s in
  let limited := match cfi_miss_ratelimit s !! key with
                 | Some last => u64 (now - last) <? CFI_MISS_PERIOD
                 | None => false
                 end in
  if limited then s
  else
    let rl := e_lru ev (cfi_miss_ratelimit s) key now in
    let '(_, rb) := ringbuf_output (e_miss_room ev) (cfi_miss_events s)
                      (MissEvent pid table_id rel_pc now) in
    MissState rl rb (ktime_calls s).

(** ** Facts about the lookups *)

Lemma array_lookup_nat {A} (m : list A) i :
  0 <= i -> array_lookup m i = m !! Z.to_nat i.
Proof.
  intros Hi. unfold array_lookup. bool_cases; try lia; try done.
  symmetry. apply lookup_ge_None. lia.
Qed.

(** A mapping contains [pc]. *)
Definition vma_covers (pc : Z) (m : pid_mapping) : Prop := vma_start m <= pc < vma_end m.
#[export] Instance vma_covers_dec pc m : Decision (vma_covers pc m).
Proof. unfold vma_covers. apply _. Defined.

Lemma mapping_loop_spec pid pc inner len n idx :
  0 <= idx -> Z.of_nat n = MAX_PID_MAPPINGS - idx -> len <= MAX_PID_MAPPINGS ->
  sc_out (bpf_loop_from mapping_scan_step n idx (ScanCtx pid pc no_mapping inner len)) =
  match snd <$> list_find (vma_covers pc) (drop (Z.to_nat idx) (take (Z.to_nat len) inner)) with
  | Some m => MappingResult (table_id m) (u64 (pc - load_bias m)) true
  | None => no_mapping
  end.
Proof.
  revert idx. induction n as [|n IH]; intros idx Hi Hn Hlen.
  - simpl. rewrite drop_ge; [done|]. rewrite length_take. unfold MAX_PID_MAPPINGS in *. lia.
  - simpl. unfold mapping_scan_step at 1; simpl. destruct (Z.leb_spec len idx).
    { simpl. rewrite drop_ge; [done|]. rewrite length_take. lia. }
    rewrite array_lookup_nat by done.
    destruct (inner !! Z.to_nat idx) as [m|] eqn:E; simpl.
    2:{ rewrite drop_ge; [done|]. rewrite length_take. apply lookup_ge_None in E. lia. }
    rewrite (drop_S _ m) by (rewrite lookup_take; case_decide; [done|lia]). simpl.
    replace (S (Z.to_nat idx)) with (Z.to_nat (idx + 1)) by lia.
    destruct (decide (vma_covers pc m)) as [Hc|Hc]; unfold vma_covers in Hc.
    + destruct (Z.leb_spec (vma_start m) pc), (Z.ltb_spec pc (vma_end m)); try lia. done.
    + destruct ((vma_start m <=? pc) && (pc <? vma_end m)) eqn:Eb.
      { exfalso. apply Hc. apply andb_true_iff in Eb as [?%Z.leb_le ?%Z.ltb_lt]. lia. }
      simpl. rewrite IH by lia. by destruct (list_find _ _) as [[??]|].
Qed.

(** A covered PC; the row's end does not wrap. *)
Definition row_covers (rel_pc : Z) (e : cfi_entry) : Prop :=
  pc_start e <= rel_pc < pc_start e + pc_end_delta e.

Definition row_wf (e : cfi_entry) : Prop :=
  0 <= pc_start e /\ 0 <= pc_end_delta e /\ is_u64 (pc_start e + pc_end_delta e).

(** Rows sorted by address and not overlapping, as the compiler writes them. *)
Definition rows_sorted (rows : list cfi_entry) : Prop :=
  Forall row_wf rows /\
  forall i j ei ej, (i < j)%nat -> rows !! i = Some ei -> rows !! j = Some ej ->
    pc_start ei + pc_end_delta ei <= pc_start ej.

Lemma cfi_search_sound iters rows pc lo hi e :
  cfi_search iters rows pc lo hi = Some e ->
  e ∈ rows /\ pc_start e <= pc < u64 (pc_start e + pc_end_delta e).
Proof.
  revert lo hi. induction iters as [|iters IH]; intros lo hi; simpl; [done|].
  destruct (Z.leb_spec hi lo); [done|].
  destruct (array_lookup rows _) as [e'|] eqn:E; [|done].
  destruct (Z.ltb_spec pc (pc_start e')); [by intros ?%IH|].
  destruct (Z.leb_spec (u64 (pc_start e' + pc_end_delta e')) pc); [by intros ?%IH|].
  intros [= ->]. split; [|lia]. unfold array_lookup in E.
  destruct (_ && _); [|done]. by apply list_elem_of_lookup_2 in E.
Qed.

Lemma search_mid lo hi :
  0 <= lo -> lo < hi -> hi < 4294967296 ->
  u32 (lo + u32 (hi - lo) / 2) = lo + (hi - lo) / 2 /\ lo <= lo + (hi - lo) / 2 < hi.
Proof. intros. rewrite (u32_small (hi - lo)) by word_lia. rewrite u32_small by word_lia. word_lia. Qed.

Lemma cfi_search_complete iters rows pc lo hi i e :
  rows_sorted rows -> 0 <= lo -> hi <= Z.of_nat (length rows) -> hi < 4294967296 ->
  hi - lo < 2 ^ Z.of_nat iters ->
  rows !! i = Some e -> lo <= Z.of_nat i < hi -> row_covers pc e ->
  cfi_search iters rows pc lo hi = Some e.
Proof.
  intros [Hwf Hsort]. revert lo hi.
  induction iters as [|iters IH]; intros lo hi Hlo Hhi H32 Hsz Hi Hr Hc; [simpl in Hsz; lia|].
  rewrite Nat2Z.inj_succ, Z.pow_succ_r in Hsz by lia.
  simpl. destruct (Z.leb_spec hi lo); [lia|].
  destruct (search_mid lo hi) as [-> Hmid]; [lia..|].
  set (mid := lo + (hi - lo) / 2) in *.
  assert (Hhalf : mid - lo < 2 ^ Z.of_nat iters /\ hi - (mid + 1) < 2 ^ Z.of_nat iters)
    by (subst mid; Z.div_mod_to_equations; lia).
  rewrite array_lookup_nat by lia.
  destruct (lookup_lt_is_Some_2 rows (Z.to_nat mid)) as [em Hem]; [lia|]. rewrite Hem.
  assert (Hemwf : row_wf em) by (by eapply Forall_lookup_1).
  destruct Hemwf as (? & ? & Hend). unfold row_covers in Hc.
  rewrite (u64_small _ Hend), (u32_small (mid + 1)) by (split; lia).
  destruct (lt_eq_lt_dec i (Z.to_nat mid)) as [[Hlt| ->]|Hgt].
  - pose proof (Hsort _ _ _ _ Hlt Hi Hem).
    destruct (Z.ltb_spec pc (pc_start em)); [|lia]. apply IH; lia || done.
  - assert (em = e) as -> by congruence.
    destruct (Z.ltb_spec pc (pc_start e)); [lia|].
    destruct (Z.leb_spec (pc_start e + pc_end_delta e) pc); [lia|done].
  - pose proof (Hsort _ _ _ _ Hgt Hem Hi).
    destruct (Z.ltb_spec pc (pc_start em)); [lia|].
    destruct (Z.leb_spec (pc_start em + pc_end_delta em) pc); [|lia]. apply IH; lia || done.
Qed.

(** With as many rows as [2 ^ iters] the search for the first one runs out of
    iterations with one row left. *)
Lemma cfi_search_exhausts iters rows pc e :
  rows_sorted rows -> 2 ^ Z.of_nat iters <= Z.of_nat (length rows) ->
  2 ^ Z.of_nat iters < 4294967296 ->
  rows !! 0%nat = Some e -> row_covers pc e ->
  cfi_search iters rows pc 0 (2 ^ Z.of_nat iters) = None.
Proof.
  intros [Hwf Hsort] Hlen H32 H0 Hc. induction iters as [|iters IH]; [done|].
  rewrite Nat2Z.inj_succ, Z.pow_succ_r in * by lia.
  assert (0 < 2 ^ Z.of_nat iters) by (apply Z.pow_pos_nonneg; lia).
  cbn [cfi_search]. destruct (Z.leb_spec (2 * 2 ^ Z.of_nat iters) 0); [done|].
  destruct (search_mid 0 (2 * 2 ^ Z.of_nat iters)) as [-> _]; [lia..|].
  replace (0 + (2 * 2 ^ Z.of_nat iters - 0) / 2) with (2 ^ Z.of_nat iters)
    by (Z.div_mod_to_equations; lia).
  rewrite array_lookup_nat by lia.
  destruct (lookup_lt_is_Some_2 rows (Z.to_nat (2 ^ Z.of_nat iters))) as [em Hem]; [lia|].
  rewrite Hem. assert (pc_start e + pc_end_delta e <= pc_start em) by (eapply Hsort; [|exact H0|exact Hem]; lia). unfold row_covers in Hc.
  destruct (Z.ltb_spec pc (pc_start em)); [|lia]. apply IH; lia.
Qed.

Lemma in_span_spec rel_pc s : in_span rel_pc s = true <-> s.1 <= rel_pc < s.2.
Proof. unfold in_span. bool_cases; intuition (lia || done). Qed.

Lemma inside_spans_spec rel_pc ss :
  inside_spans rel_pc ss = true <->
  exists s, s ∈ take HANDOFF_MAX_RANGES ss /\ s.1 <= rel_pc < s.2.
Proof.
  unfold inside_spans. generalize (take HANDOFF_MAX_RANGES ss) as l. intros l.
  enough (H : forall b, fold_left (fun inside s => if in_span rel_pc s then true else inside) l b = true
            <-> b = true \/ exists s, s ∈ l /\ s.1 <= rel_pc < s.2).
  { rewrite H. split; [intros [?|?]; done|by right]. }
  induction l as [|s l IH]; intros b; simpl.
  - split; [by left|]. intros [?|(s & ?%not_elem_of_nil & _)]; done.
  - rewrite IH. destruct (in_span rel_pc s) eqn:E.
    + apply in_span_spec in E. split; [|by left]. intros _. right. exists s. split; [left|lia].
    + assert (~ s.1 <= rel_pc < s.2) by (rewrite <- in_span_spec, E; done).
      split; (intros [?|(s' & Hin & ?)]; [by left|]); right.
      * exists s'. split; [by right|lia].
      * apply elem_of_cons in Hin as [->|]; [lia|]. by exists s'.
Qed.

(** ** The lookups against their specification *)

(** The bounded scan is a search for the first mapping: for every table of
    mappings, every recorded length and every PC, [mapping_for_pc] answers with
    the first of the live entries (at most 256) whose half-open address range
    contains the PC, rebased by its load bias modulo 2^64, and answers "not
    found" exactly when there is none. *)
Theorem mapping_for_pc_first t pid pc :
  mapping_for_pc t pid pc =
  match pid_mappings t !! pid, pid_mapping_lengths t !! pid with
  | Some inner, Some len =>
      match snd <$> list_find (vma_covers pc) (take (Z.to_nat (Z.min len 256)) inner) with
      | Some m => MappingResult (table_id m) (u64 (pc - load_bias m)) true
      | None => no_mapping
      end
  | _, _ => no_mapping
  end.
Proof.
  unfold mapping_for_pc. destruct (pid_mappings t !! pid) as [inner|]; [|done].
  destruct (pid_mapping_lengths t !! pid) as [len|]; [|done].
  destruct (Z.eqb_spec len 0) as [->|Hne]; [done|].
  assert (Hmin : (if MAX_PID_MAPPINGS <? len then MAX_PID_MAPPINGS else len) = Z.min len 256)
    by (unfold MAX_PID_MAPPINGS; bool_cases; lia).
  cbv zeta. rewrite Hmin. unfold bpf_loop.
  rewrite mapping_loop_spec; [by rewrite drop_0|done|done|unfold MAX_PID_MAPPINGS; lia].
Qed.

(** A table whose rows are installed whole. *)
Definition table_installed (t : tables) (id : Z) (rows : list cfi_entry) : Prop :=
  cfi_rules t !! id = Some rows /\ cfi_lengths t !! id = Some (Z.of_nat (length rows)).

(** C8: The 24-step binary search is complete and sound for every table of
    fewer than 2^24 sorted, disjoint rows: it returns a row exactly when the
    table has a row covering the PC, and returns that row. *)
Theorem cfi_lookup_correct t id rows rel_pc e :
  table_installed t id rows -> rows_sorted rows -> Z.of_nat (length rows) < 2 ^ 24 ->
  cfi_lookup t id rel_pc = Some e <-> e ∈ rows /\ row_covers rel_pc e.
Proof.
  intros [Hr Hl] Hs Hlen. unfold cfi_lookup. rewrite Hr, Hl.
  destruct (Z.eqb_spec (Z.of_nat (length rows)) 0) as [H0|Hne].
  { destruct rows; [|done]. split; [done|]. by intros [?%not_elem_of_nil _]. }
  split.
  - intros [Hin Hc]%cfi_search_sound. split; [done|].
    destruct Hs as [Hwf _]. destruct (proj1 (list.Forall_forall _ _) Hwf e Hin) as (_ & _ & Hu).
    by rewrite u64_small in Hc.
  - intros [[i Hi]%list_elem_of_lookup_1 Hc].
    pose proof (lookup_lt_Some _ _ _ Hi). change (2 ^ 24) with 16777216 in Hlen.
    eapply cfi_search_complete; try done;
      change (2 ^ Z.of_nat BINARY_SEARCH_MAX_ITERS) with 16777216; lia.
Qed.

Definition row_at (i : nat) : cfi_entry :=
  CfiEntry (Z.of_nat i) 1 8 0 (-8) CFA_TYPE_SP FP_TYPE_SAME_VALUE RA_TYPE_OFFSET_CFA.

(** A table of [n] one-byte rows. *)
Definition rows_n (n : nat) : list cfi_entry := row_at <$> seq 0 n.

Definition tables_with (rows : list cfi_entry) : tables :=
  Tables {[ 1 := rows ]} {[ 1 := Z.of_nat (length rows) ]} ∅ ∅ ∅ false.

Lemma rows_n_lookup n i e : rows_n n !! i = Some e -> e = row_at i /\ (i < n)%nat.
Proof.
  unfold rows_n. rewrite list_lookup_fmap. intros (j & Hj & ->)%fmap_Some.
  apply lookup_seq in Hj as [-> ?]. done.
Qed.

Lemma rows_n_sorted n : Z.of_nat n < 2 ^ 64 -> rows_sorted (rows_n n).
Proof.
  change (2 ^ 64) with 18446744073709551616. intros Hn. split.
  - apply Forall_lookup. intros i e [-> Hi]%rows_n_lookup. unfold row_wf, is_u64; simpl. lia.
  - intros i j ei ej Hij [-> _]%rows_n_lookup [-> _]%rows_n_lookup. simpl. lia.
Qed.

Lemma rows_n_length n : length (rows_n n) = n.
Proof. unfold rows_n. by rewrite length_fmap, length_seq. Qed.

Lemma tables_with_installed rows : table_installed (tables_with rows) 1 rows.
Proof. split; simpl; by rewrite lookup_singleton_eq. Qed.

Lemma cfi_lookup_correct_witness :
  cfi_lookup (tables_with (rows_n 5)) 1 3 = Some (row_at 3) <->
  row_at 3 ∈ rows_n 5 /\ row_covers 3 (row_at 3).
Proof.
  apply (cfi_lookup_correct (tables_with (rows_n 5)) 1 (rows_n 5) 3 (row_at 3)).
  - apply tables_with_installed.
  - apply rows_n_sorted. lia.
  - rewrite rows_n_length. lia.
Defined.

(** At exactly 2^24 rows, the size the table installer still accepts, the
    first row is unreachable: a search for a PC it covers spends all 24
    iterations narrowing to it and gives up with one row left. *)
Theorem cfi_lookup_loses_first_row t id rows rel_pc e :
  table_installed t id rows -> rows_sorted rows -> Z.of_nat (length rows) = 2 ^ 24 ->
  rows !! 0%nat = Some e -> row_covers rel_pc e ->
  cfi_lookup t id rel_pc = None.
Proof.
  intros [Hr Hl] Hs Hlen He Hc. unfold cfi_lookup. rewrite Hr, Hl, Hlen.
  destruct (Z.eqb_spec (2 ^ 24) 0); [done|].
  change 24 with (Z.of_nat BINARY_SEARCH_MAX_ITERS). eapply cfi_search_exhausts; try done.
  by rewrite Hlen.
Qed.

Lemma cfi_lookup_loses_first_row_witness :
  cfi_lookup (tables_with (rows_n (Z.to_nat 16777216))) 1 0 = None.
Proof.
  apply (cfi_lookup_loses_first_row (tables_with (rows_n (Z.to_nat 16777216))) 1
           (rows_n (Z.to_nat 16777216)) 0 (row_at 0)).
  - apply tables_with_installed.
  - apply rows_n_sorted. rewrite Z2Nat.id; done.
  - rewrite rows_n_length, Z2Nat.id; done.
  - unfold rows_n. rewrite list_lookup_fmap, lookup_seq_lt; [done|]. apply Nat2Z.inj_lt.
    rewrite Z2Nat.id; done.
  - split; simpl; lia.
Defined.

(** A frame is handed to unwinder [u] exactly when the frame's binary is
    claimed by [u], the PC lies in one of the claim's three spans, and [u] has
    not already finished this walk's frames; every other frame stays native. *)
Theorem next_unwinder_claims t id rel_pc done stats u :
  u <> UNWINDER_NATIVE ->
  (next_unwinder t id rel_pc done stats).1 = u <->
  exists h, handoff_ranges t !! id = Some h /\ unwinder_id h = u /\
    (exists s, s ∈ take 3 (spans h) /\ s.1 <= rel_pc < s.2) /\
    Z.testbit done (u mod 32) = false.
Proof.
  intros Hu. unfold next_unwinder.
  destruct (handoff_ranges t !! id) as [h|]; simpl.
  2:{ split; [by intros <-|]. intros (h & ? & _). done. }
  pose proof (inside_spans_spec rel_pc (spans h)) as Hin.
  assert (Hbit : forall v, has_flag done (Z.shiftl 1 (Z.land v 31)) = Z.testbit done (v mod 32)).
  { intros v. change 31 with (Z.ones 5). rewrite Z.land_ones by done. apply has_flag_bit.
    change (2 ^ 5) with 32. apply Z.mod_pos_bound. done. }
  rewrite Hbit. destruct (inside_spans rel_pc (spans h)); simpl.
  - destruct (Z.testbit done (unwinder_id h mod 32)) eqn:Eb; simpl.
    + split; [by intros <-|]. intros (h' & [= <-] & <- & _ & ?). congruence.
    + split; [intros <-; exists h; split_and!; try done; by apply Hin|].
      intros (h' & [= <-] & ? & _). done.
  - split; [by intros <-|]. intros (h' & [= <-] & _ & Hs & _). apply Hin in Hs. done.
Qed.

Definition one_claim : tables :=
  Tables ∅ ∅ ∅ ∅ {[ 9 := HandoffRange [(0, 0); (16, 32); (0, 0)] 1 ]} true.

Lemma next_unwinder_claims_witness :
  (next_unwinder one_claim 9 20 0 (replicate 7 0)).1 = 1 <->
  exists h, handoff_ranges one_claim !! 9 = Some h /\ unwinder_id h = 1 /\
    (exists s, s ∈ take 3 (spans h) /\ s.1 <= 20 < s.2) /\ Z.testbit 0 (1 mod 32) = false.
Proof. apply (next_unwinder_claims one_claim 9 20 0 (replicate 7 0) 1). done. Defined.

(** ** The rate limit on miss notifications *)

Section ratelimit.
  Context (ev : env).
  (** bpf_ktime_get_ns is monotonic and fits its type; an LRU map that is not
      full stores every entry it is given. *)
  Context (Hclock : forall n m, (n <= m)%nat -> 0 <= e_ktime ev n <= e_ktime ev m /\
                                e_ktime ev m < 18446744073709551616).
  Context (Hlru : forall m k v, e_lru ev m k v = <[k := v]> m).

Definition ev_key (e : cfi_miss_event) : Z * Z := (ev_pid e, ev_table_id e).

Record rated (s : miss_state) : Prop := {
  rated_apart : forall i j ei ej, (i < j)%nat ->
    rb_events (cfi_miss_events s) !! i = Some ei -> rb_events (cfi_miss_events s) !! j = Some ej ->
    ev_key ei = ev_key ej -> ev_ktime_ns ei + CFI_MISS_PERIOD <= ev_ktime_ns ej;
  rated_recorded : forall e, e ∈ rb_events (cfi_miss_events s) ->
    exists last, cfi_miss_ratelimit s !! ev_key e = Some last /\ ev_ktime_ns e <= last;
  rated_past : forall k last, cfi_miss_ratelimit s !! k = Some last ->
    0 <= last <= e_ktime ev (ktime_calls s);
}.

Lemma rated_init : rated (MissState ∅ (Ringbuf [] 0) 0).
Proof using Type.
  split; simpl.
  - intros ????? H. by rewrite lookup_nil in H.
  - intros e H. by apply not_elem_of_nil in H.
  - intros k last. by rewrite lookup_empty.
Qed.

(** Storing the time of an accepted notification. *)
Lemma rated_store s key now tries :
  rated s -> now = e_ktime ev (ktime_calls s) ->
  rated (MissState (<[key := now]> (cfi_miss_ratelimit s))
           (Ringbuf (rb_events (cfi_miss_events s)) tries) (S (ktime_calls s))).
Proof using Hclock.
  intros [H1 H2 H3] ->. split; simpl; [done| |].
  - intros e He. destruct (H2 e He) as (last & Hl & Hle). destruct (decide (key = ev_key e)) as [->|].
    + rewrite lookup_insert_eq. eexists; split; [done|]. specialize (H3 _ _ Hl). lia.
    + rewrite lookup_insert_ne by done. eauto.
  - intros k last. destruct (Hclock (ktime_calls s) (S (ktime_calls s)) ltac:(lia)).
    destruct (decide (key = k)) as [->|]; [rewrite lookup_insert_eq; intros [= <-]; lia|].
    rewrite lookup_insert_ne by done. intros Hl%H3. lia.
Qed.

Lemma rated_event s e tries :
  rated s -> cfi_miss_ratelimit s !! ev_key e = Some (ev_ktime_ns e) ->
  (forall e', e' ∈ rb_events (cfi_miss_events s) -> ev_key e' = ev_key e ->
     ev_ktime_ns e' + CFI_MISS_PERIOD <= ev_ktime_ns e) ->
  rated (MissState (cfi_miss_ratelimit s) (Ringbuf (rb_events (cfi_miss_events s) ++ [e]) tries)
           (ktime_calls s)).
Proof using Type.
  intros [H1 H2 H3] Hk Hold. split; simpl; [|intros e'|done].
  - intros i j ei ej Hij Hi [Hj|[Hj Hx]]%lookup_app_Some.
    + rewrite lookup_app_l in Hi by (apply lookup_lt_Some in Hj; lia). eauto.
    + apply list_lookup_singleton_Some in Hx as [Hx ->].
      rewrite lookup_app_l in Hi by lia. apply list_elem_of_lookup_2 in Hi. auto.
  - rewrite elem_of_app, list_elem_of_singleton. intros [He| ->]; [by apply H2|].
    eexists; split; [done|lia].
Qed.

Lemma emit_rated pid tid pc s : rated s -> rated (emit_cfi_miss ev pid tid pc s).
Proof using Hclock Hlru.
  intros Hr. unfold emit_cfi_miss, ktime_get_ns; simpl. set (now := e_ktime ev (ktime_calls s)).
  destruct (Hclock (ktime_calls s) (S (ktime_calls s)) ltac:(lia)) as [Hc1 Hc2].
  assert (Hnow : u64 now = now) by (apply u64_small; subst now; word_lia). rewrite Hnow.
  destruct (match cfi_miss_ratelimit s !! (pid, tid) with
            | Some last => u64 (now - last) <? CFI_MISS_PERIOD | None => false end) eqn:El.
  - destruct Hr as [H1 H2 H3]. split; simpl; [done..|]. intros k last Hk%H3. lia.
  - rewrite Hlru. unfold ringbuf_output.
    pose proof (rated_store s (pid, tid) now (S (rb_tries (cfi_miss_events s))) Hr eq_refl) as Hst.
    destruct (e_miss_room ev _); [|done].
    apply (rated_event _ (MissEvent pid tid pc now) _ Hst); simpl.
    + by rewrite lookup_insert_eq.
    + intros e' He' Hkey. destruct (rated_recorded s Hr e' He') as (last & Hl & Hle).
      rewrite Hkey in Hl. unfold ev_key in Hl; simpl in Hl. rewrite Hl in El.
      pose proof (rated_past s Hr _ _ Hl). subst now. rewrite u64_small in El by word_lia.
      apply Z.ltb_ge in El. lia.
Qed.

Definition emit_all (calls : list (Z * Z * Z)) (s : miss_state) : miss_state :=
  foldl (fun s c => emit_cfi_miss ev c.1.1 c.1.2 c.2 s) s calls.

(** Over any sequence of misses, in any order and for any mix of processes
    and binaries, two notifications for the same process and binary are at
    least one second apart, whether or not earlier ones found room in the ring
    buffer. *)
Theorem emit_cfi_miss_rate calls i j ei ej :
  let s := emit_all calls (MissState ∅ (Ringbuf [] 0) 0) in
  (i < j)%nat ->
  rb_events (cfi_miss_events s) !! i = Some ei -> rb_events (cfi_miss_events s) !! j = Some ej ->
  ev_pid ei = ev_pid ej -> ev_table_id ei = ev_table_id ej ->
  ev_ktime_ns ei + 1000000000 <= ev_ktime_ns ej.
Proof using Hclock Hlru.
  intros s Hij Hi Hj Hp Ht. assert (Hr : rated s).
  { subst s. unfold emit_all.
    enough (H : forall calls s0, rated s0 -> rated (emit_all calls s0)) by by apply H, rated_init.
    clear -Hclock Hlru. induction calls as [|c calls IH]; intros s0 Hs0; [done|].
    apply IH. by apply emit_rated. }
  apply (rated_apart s Hr i j); [done..|]. unfold ev_key. congruence.
Qed.
End ratelimit.

(** A clock that ticks 0.6s per reading and is frozen after three. *)
Definition slow_env : env :=
  Env (fun _ => None) (fun n => 600000000 * Z.of_nat (Nat.min n 2)) (fun _ => true) (fun _ => true)
      (fun m k v => <[k := v]> m).

Lemma emit_cfi_miss_rate_witness :
  length (rb_events (cfi_miss_events
    (emit_all slow_env [(7, 1, 2); (7, 1, 3); (7, 1, 4)] (MissState ∅ (Ringbuf [] 0) 0)))) = 2%nat /\
  0 + 1000000000 <= 1200000000.
Proof.
  split; [reflexivity|].
  apply (emit_cfi_miss_rate slow_env ltac:(simpl; lia) ltac:(done) [(7, 1, 2); (7, 1, 3); (7, 1, 4)]
    0 1 (MissEvent 7 1 2 0) (MissEvent 7 1 4 1200000000)); reflexivity || lia.
Defined.
