(* ===== verification/Walker.v ===== *)
(** * Walker: one frame of the hybrid unwinder

    Models [struct walk_ctx], the walker flags, [frame_push_native],
    [fp_chain_ended], [unwind_frame] and [walk_step] of
    src/bpf/unwind_common.h: how one frame is recorded, offered to another
    unwinder and left behind, by CFI row or by frame pointer. *)
From S2P Require Import Prelude Bpf Record Tables.

(** ** State *)

Record walk_ctx := WalkCtx {
  wc_pc : Z;
  wc_fp : Z;
  wc_sp : Z;
  wc_pid : Z;
  wc_n_pcs : Z;
  wc_rec : sample_record;
  wc_pending_unwinder : Z;
  wc_interp_done : Z;
}.

(** The context together with the maps one step may write. *)
Record wstate := WState {
  ws_ctx : walk_ctx;
  ws_stats : list Z;
  ws_miss : miss_state;
}.

Definition WALKER_FLAG_FP_TERMINATED : Z := 0x01.
Definition WALKER_FLAG_DWARF_USED : Z := 0x02.
Definition WALKER_FLAG_CFI_MISS : Z := 0x04.
Definition WALKER_FLAG_RA_UNDEFINED : Z := 0x08.
Definition WALKER_FLAG_FP_EXHAUSTED : Z := 0x10.
Definition WALKER_FLAG_FP_NONMONOTONIC : Z := 0x20.
Definition WALKER_FLAG_ROOT_DISAGREEMENT : Z := 0x40.
Definition WALKER_FLAG_RA_ZERO : Z := 0x100.

Definition ctx_flags (c : walk_ctx) : Z := flags_of (wc_rec c).

Definition set_rec (c : walk_ctx) (n : Z) (r : sample_record) : walk_ctx :=
  WalkCtx (wc_pc c) (wc_fp c) (wc_sp c) (wc_pid c) n r (wc_pending_unwinder c) (wc_interp_done c).
Definition set_regs (c : walk_ctx) (pc fp sp : Z) : walk_ctx :=
  WalkCtx pc fp sp (wc_pid c) (wc_n_pcs c) (wc_rec c) (wc_pending_unwinder c) (wc_interp_done c).
Definition set_wc_pending (c : walk_ctx) (u : Z) : walk_ctx :=
  WalkCtx (wc_pc c) (wc_fp c) (wc_sp c) (wc_pid c) (wc_n_pcs c) (wc_rec c) u (wc_interp_done c).

(** [ctx->rec->hdr.walker_flags |= f] *)
Definition raise (c : walk_ctx) (f : Z) : walk_ctx := set_rec c (wc_n_pcs c) (or_flags (wc_rec c) f).

(** ** Operations *)

Definition frame_push_native (c : walk_ctx) (pc : Z) : bool * walk_ctx :=
  let '(refused, r, n) := record_push_native (wc_rec c) (wc_n_pcs c) pc in
  (refused, set_rec c n r).

Definition fp_chain_ended (c : walk_ctx) : bool := has_flag (ctx_flags c) WALKER_FLAG_FP_TERMINATED.

(** The frame has a CFI row. [true] stops the walk. *)
Definition cfi_step (mem : umem) (e : cfi_entry) (c : walk_ctx) : bool * walk_ctx :=
  let base := if decide (cfa_type e = CFA_TYPE_FP) then wc_fp c else wc_sp c in
  let cfa := u64 (base + cfa_offset e) in
  match ra_type e with
  | RA_TYPE_OFFSET_CFA =>
      if fp_chain_ended c then (true, raise c WALKER_FLAG_ROOT_DISAGREEMENT)
      else match read_u64 mem (u64 (cfa + ra_offset e)) with
      | None => (true, c)
      | Some ret_addr =>
          if ret_addr =? 0 then (true, raise c WALKER_FLAG_RA_ZERO)
          else
            let new_fp := match fp_type e with
                          | FP_TYPE_OFFSET_CFA => read_u64 mem (u64 (cfa + fp_offset e))
                          | FP_TYPE_SAME_VALUE => Some (wc_fp c)
                          | _ => Some 0
                          end in
            match new_fp with
            | None => (true, c)
            | Some fp => (false, raise (set_regs c ret_addr fp cfa) WALKER_FLAG_DWARF_USED)
            end
      end
  | RA_TYPE_UNDEFINED => (true, raise c WALKER_FLAG_RA_UNDEFINED)
  | _ => (true, c)
  end.

(** The frame has no CFI row: the frame-pointer chain. *)
Definition fp_step (mem : umem) (c : walk_ctx) : bool * walk_ctx :=
  if wc_fp c =? 0 then
    if fp_chain_ended c then (true, c) else (true, raise c WALKER_FLAG_FP_EXHAUSTED)
  else
    match read_u64 mem (wc_fp c) with
    | None => (true, c)
    | Some saved_fp =>
        match read_u64 mem (u64 (wc_fp c + 8)) with
        | None => (true, c)
        | Some ret_addr =>
            if saved_fp <=? wc_fp c then
              if saved_fp =? 0 then
                let c := raise c WALKER_FLAG_FP_TERMINATED in
                if ret_addr =? 0 then (true, c)
                else (false, set_regs c ret_addr 0 (u64 (wc_fp c + 16)))
              else
                let c := raise c WALKER_FLAG_FP_NONMONOTONIC in
                if ret_addr =? 0 then (true, c)
                else (true, snd (frame_push_native c ret_addr))
            else (false, set_regs c ret_addr saved_fp (u64 (wc_fp c + 16)))
        end
    end.

(** Everything after the mapping lookup and the handoff: choose the row or the
    chain, and flag a gap in compiled tables. *)
Definition leave_frame (ev : env) (ep : option cfi_entry) (have_tables : bool) (c : walk_ctx)
  : bool * walk_ctx :=
  match ep with
  | Some e => cfi_step (e_mem ev) e c
  | None =>
      let c := if have_tables then raise c WALKER_FLAG_CFI_MISS else c in
      fp_step (e_mem ev) c
  end.

(** One frame: record it ([lead]), offer it, leave it. [true] stops the walk. *)
Definition unwind_frame (ev : env) (t : tables) (lead : bool) (s : wstate) : bool * wstate :=
  let '(refused, c) := if lead then frame_push_native (ws_ctx s) (wc_pc (ws_ctx s))
                       else (false, ws_ctx s) in
  if refused then (true, WState c (ws_stats s) (ws_miss s))
  else
    let m := mapping_for_pc t (wc_pid c) (wc_pc c) in
    if m_found m then
      let '(u, stats) :=
        if interp_enabled t && lead
        then next_unwinder t (m_table_id m) (m_rel_pc m) (wc_interp_done c) (ws_stats s)
        else (UNWINDER_NATIVE, ws_stats s) in
      if negb (u =? UNWINDER_NATIVE)
      then (true, WState (set_wc_pending c u) (interp_count INTERP_STAT_CLAIMED stats) (ws_miss s))
      else
        let have_tables := bool_decide (is_Some (cfi_lengths t !! m_table_id m)) in
        let miss := if have_tables then ws_miss s
                    else emit_cfi_miss ev (wc_pid c) (m_table_id m) (m_rel_pc m) (ws_miss s) in
        let '(stop, c) := leave_frame ev (cfi_lookup t (m_table_id m) (m_rel_pc m)) have_tables c in
        (stop, WState c stats miss)
    else
      let '(stop, c) := leave_frame ev None false c in
      (stop, WState c (ws_stats s) (ws_miss s)).

Definition walk_step (ev : env) (t : tables) (idx : Z) (s : wstate) : bool * wstate :=
  unwind_frame ev t true s.

(** ** Moving between the stack context and the persisted state *)

Definition walk_load (st : walk_persist) (rec : sample_record) : walk_ctx :=
  WalkCtx (st_pc st) (st_fp st) (st_sp st) (st_pid st) (st_n_pcs st) rec
          (st_pending_unwinder st) (st_interp_done st).

Definition walk_save (st : walk_persist) (c : walk_ctx) : walk_persist :=
  Persist (wc_pc c) (wc_fp c) (wc_sp c) (st_interp_scratch st) (wc_pid c) (st_tid st)
          (wc_n_pcs c) (wc_pending_unwinder c) (wc_interp_done c) (st_stopped st)
          (st_tail_calls st).

Definition unwind_walk_begin (rec : sample_record) (pid tid pc fp sp : Z)
  : walk_persist * sample_record :=
  (Persist pc fp sp [0; 0; 0; 0] pid tid 0 UNWINDER_NATIVE 0 0 0, set_flags rec 0).

(** ** Invariants of a walk *)

(** The five bits that say why a walk ended. *)
Definition ending_flags : list Z :=
  [WALKER_FLAG_RA_UNDEFINED; WALKER_FLAG_FP_EXHAUSTED; WALKER_FLAG_FP_NONMONOTONIC;
   WALKER_FLAG_ROOT_DISAGREEMENT; WALKER_FLAG_RA_ZERO].

Definition endings (f : Z) : nat := length (filter (fun g => has_flag f g = true) ending_flags).

(** A walk that may take another step: the cursor is inside the record, the
    record reads as frames, no ending has been recorded, and the frame pointer
    is zero once the chain has ended. *)
Record live (c : walk_ctx) : Prop := {
  live_frames : exists fs, holds (wc_rec c) (wc_n_pcs c) fs;
  live_open : endings (ctx_flags c) = 0%nat;
  live_root : fp_chain_ended c = true -> wc_fp c = 0;
}.

(** The flags of a finished walk: at most one ending, a disagreement only past
    the end of the chain, and the three failures only before it. *)
Record flags_final (f : Z) : Prop := {
  ff_once : (endings f <= 1)%nat;
  ff_disagree : has_flag f WALKER_FLAG_ROOT_DISAGREEMENT = true ->
    has_flag f WALKER_FLAG_FP_TERMINATED = true;
  ff_failures : has_flag f WALKER_FLAG_FP_TERMINATED = true ->
    has_flag f WALKER_FLAG_FP_EXHAUSTED = false /\
    has_flag f WALKER_FLAG_FP_NONMONOTONIC = false /\
    has_flag f WALKER_FLAG_RA_ZERO = false;
}.

Record ended (c : walk_ctx) : Prop := {
  ended_frames : exists fs, holds (wc_rec c) (wc_n_pcs c) fs;
  ended_flags : flags_final (ctx_flags c);
}.

(** The endings as booleans, for rewriting with [has_flag_lor]. *)
Lemma endings_unfold f :
  endings f = (Nat.b2n (has_flag f WALKER_FLAG_RA_UNDEFINED) +
               Nat.b2n (has_flag f WALKER_FLAG_FP_EXHAUSTED) +
               Nat.b2n (has_flag f WALKER_FLAG_FP_NONMONOTONIC) +
               Nat.b2n (has_flag f WALKER_FLAG_ROOT_DISAGREEMENT) +
               Nat.b2n (has_flag f WALKER_FLAG_RA_ZERO))%nat.
Proof.
  unfold endings, ending_flags.
  rewrite !filter_cons, filter_nil.
  repeat match goal with |- context [has_flag f ?g] => destruct (has_flag f g) end; done.
Qed.

(** No ending yet: each of the five bits is clear. *)
Lemma endings_0 f :
  endings f = 0%nat <->
  has_flag f WALKER_FLAG_RA_UNDEFINED = false /\ has_flag f WALKER_FLAG_FP_EXHAUSTED = false /\
  has_flag f WALKER_FLAG_FP_NONMONOTONIC = false /\
  has_flag f WALKER_FLAG_ROOT_DISAGREEMENT = false /\ has_flag f WALKER_FLAG_RA_ZERO = false.
Proof.
  rewrite endings_unfold.
  do 5 (destruct (has_flag f _)); simpl; intuition (lia || done).
Qed.

(** Raising a bit that is not an ending keeps a walk open. *)
Lemma endings_lor_quiet f g :
  endings g = 0%nat -> endings f = 0%nat -> endings (Z.lor f g) = 0%nat.
Proof.
  rewrite !endings_0, !has_flag_lor. intros (-> & -> & -> & -> & ->) (-> & -> & -> & -> & ->). done.
Qed.

Lemma ctx_flags_raise c f : ctx_flags (raise c f) = Z.lor (ctx_flags c) f.
Proof. done. Qed.

Lemma flags_final_open f : endings f = 0%nat -> flags_final f.
Proof.
  intros Ho. apply endings_0 in Ho as Ho'. split; [lia|intuition congruence|intuition].
Qed.

Lemma live_ended c : live c -> ended c.
Proof. intros [Hf Ho Hr]. split; [done|]. by apply flags_final_open. Qed.

(** An ending raised on an open walk. *)
Lemma live_raise_ended c f :
  live c -> (endings f = 1)%nat ->
  has_flag f WALKER_FLAG_FP_TERMINATED = false ->
  (has_flag f WALKER_FLAG_ROOT_DISAGREEMENT = true -> fp_chain_ended c = true) ->
  (has_flag f WALKER_FLAG_RA_UNDEFINED = false ->
   has_flag f WALKER_FLAG_ROOT_DISAGREEMENT = false -> fp_chain_ended c = false) ->
  ended (raise c f).
Proof.
  intros [Hf Ho Hr] H1 Ht Hd Hx. split; [done|].
  rewrite ctx_flags_raise. unfold fp_chain_ended in *. apply endings_0 in Ho.
  destruct Ho as (E1 & E2 & E3 & E4 & E5). rewrite endings_unfold in H1.
  split; rewrite ?endings_unfold, ?has_flag_lor, ?E1, ?E2, ?E3, ?E4, ?E5, ?Ht; simpl.
  - lia.
  - intros Hroot. by rewrite Hd.
  - rewrite orb_false_r. intros Hterm. rewrite Hterm in Hx.
    destruct (has_flag f WALKER_FLAG_RA_UNDEFINED), (has_flag f WALKER_FLAG_ROOT_DISAGREEMENT),
      (has_flag f WALKER_FLAG_FP_EXHAUSTED), (has_flag f WALKER_FLAG_FP_NONMONOTONIC),
      (has_flag f WALKER_FLAG_RA_ZERO); simpl in *; try lia; try done;
      discriminate (Hx eq_refl eq_refl).
Qed.

(** What a step never changes, and how it may change the record: it appends. *)
Record grows (c c' : walk_ctx) : Prop := {
  grows_pid : wc_pid c' = wc_pid c;
  grows_pending : wc_pending_unwinder c' = wc_pending_unwinder c;
  grows_done : wc_interp_done c' = wc_interp_done c;
  grows_frames : exists more, Forall is_native more /\ forall fs,
    holds (wc_rec c) (wc_n_pcs c) fs -> holds (wc_rec c') (wc_n_pcs c') (fs ++ more);
}.

Lemma grows_refl c : grows c c.
Proof. split; try done. exists []. split; [done|]. intros fs. by rewrite app_nil_r. Qed.

Lemma grows_trans c1 c2 c3 : grows c1 c2 -> grows c2 c3 -> grows c1 c3.
Proof.
  intros [p1 q1 d1 (m1 & N1 & H1)] [p2 q2 d2 (m2 & N2 & H2)]. split; try congruence.
  exists (m1 ++ m2). split; [by apply Forall_app_2|]. intros fs Hfs. rewrite app_assoc. auto.
Qed.

Lemma grows_raise c f : grows c (raise c f).
Proof. split; try done. exists []. split; [done|]. intros fs. by rewrite app_nil_r. Qed.

Lemma grows_regs c pc fp sp : grows c (set_regs c pc fp sp).
Proof. split; try done. exists []. split; [done|]. intros fs. by rewrite app_nil_r. Qed.

#[export] Hint Resolve grows_refl grows_raise grows_regs live_ended : perf.

Lemma live_set_regs c pc fp sp :
  live c -> (fp_chain_ended c = true -> fp = 0) -> live (set_regs c pc fp sp).
Proof. intros [Hf Ho Hr] H. by split. Qed.

Lemma live_raise_quiet c f :
  live c -> endings f = 0%nat -> has_flag f WALKER_FLAG_FP_TERMINATED = false -> live (raise c f).
Proof.
  intros [Hf Ho Hr] He Ht. split; [done| |].
  - by apply endings_lor_quiet.
  - unfold fp_chain_ended in *. rewrite ctx_flags_raise, has_flag_lor, Ht, orb_false_r. done.
Qed.

(** A push: the frame lands, or the record was full and only the refusal is
    recorded. *)
Lemma frame_push_native_cases c pc fs :
  holds (wc_rec c) (wc_n_pcs c) fs ->
  (MAX_FRAMES <= wc_n_pcs c /\
   frame_push_native c pc = (true, raise c WALKER_FLAG_FRAME_PUSH_REFUSED)) \/
  (wc_n_pcs c < MAX_FRAMES /\ exists rec',
   frame_push_native c pc = (false, set_rec c (wc_n_pcs c + 1) rec') /\
   holds rec' (wc_n_pcs c + 1) (fs ++ [Native pc]) /\ rec_hdr rec' = rec_hdr (wc_rec c)).
Proof.
  intros Hf. unfold frame_push_native.
  destruct (Z.leb_spec MAX_FRAMES (wc_n_pcs c)) as [Hfull|Hroom]; [left|right].
  - unfold record_push_native. by rewrite (proj2 (Z.leb_le _ _)).
  - split; [done|].
    destruct (record_push_native_ok (wc_rec c) (wc_n_pcs c) pc fs Hf Hroom)
      as (rec' & -> & Hh & Hhdr & _). by exists rec'.
Qed.

Lemma grows_push c pc : (exists fs, holds (wc_rec c) (wc_n_pcs c) fs) ->
  grows c (frame_push_native c pc).2.
Proof.
  intros [fs Hf]. destruct (frame_push_native_cases c pc fs Hf)
    as [[_ ->]|(_ & rec' & -> & Hh & _)]; simpl; [auto with perf|].
  split; try done. exists [Native pc]. split; [by repeat constructor|].
  intros gs (_ & _ & Hg). simpl.
  destruct Hf as (_ & _ & Hd). assert (gs = fs) as -> by congruence. done.
Qed.

(** A push moves no register and raises at most the refusal bit. *)
Lemma push_flags c pc : (exists fs, holds (wc_rec c) (wc_n_pcs c) fs) ->
  exists g, (g = 0 \/ g = WALKER_FLAG_FRAME_PUSH_REFUSED) /\
    ctx_flags (frame_push_native c pc).2 = Z.lor (ctx_flags c) g /\
    wc_pc (frame_push_native c pc).2 = wc_pc c /\
    wc_fp (frame_push_native c pc).2 = wc_fp c /\
    wc_sp (frame_push_native c pc).2 = wc_sp c.
Proof.
  intros [fs Hf]. destruct (frame_push_native_cases c pc fs Hf)
    as [[_ ->]|(_ & rec' & -> & _ & Hhdr)]; simpl.
  - exists WALKER_FLAG_FRAME_PUSH_REFUSED. auto.
  - exists 0. split_and!; try done; [by left|]. unfold ctx_flags, flags_of. simpl.
    by rewrite Hhdr, Z.lor_0_r.
Qed.

Lemma push_frames c pc : (exists fs, holds (wc_rec c) (wc_n_pcs c) fs) ->
  exists fs, holds (wc_rec (frame_push_native c pc).2) (wc_n_pcs (frame_push_native c pc).2) fs.
Proof.
  intros Hf. destruct (grows_push c pc Hf) as [_ _ _ (more & _ & Hm)]. destruct Hf as [fs Hf].
  exists (fs ++ more). auto.
Qed.

Lemma live_push c pc : live c -> live (frame_push_native c pc).2.
Proof.
  intros [Hf Ho Hr]. destruct (push_flags c pc Hf) as (g & Hg & Hfl & _ & Hfp & _).
  split; [by apply push_frames| |].
  - rewrite Hfl. apply endings_lor_quiet; [by destruct Hg as [-> | ->]|done].
  - unfold fp_chain_ended in *. rewrite Hfl, Hfp, has_flag_lor.
    destruct Hg as [-> | ->]; by rewrite orb_false_r.
Qed.

Lemma ended_push c pc : ended c -> ended (frame_push_native c pc).2.
Proof.
  intros [Hf [H1 H2 H3]]. destruct (push_flags c pc Hf) as (g & Hg & Hfl & _).
  split; [by apply push_frames|]. rewrite Hfl.
  split; rewrite ?endings_unfold, ?has_flag_lor in *;
    destruct Hg as [-> | ->]; rewrite ?orb_false_r; done.
Qed.

Definition step_ok (c : walk_ctx) (r : bool * walk_ctx) : Prop :=
  (if r.1 then ended r.2 else live r.2) /\ grows c r.2.

Lemma step_ok_stay c : live c -> step_ok c (true, c).
Proof. intros. split; simpl; auto with perf. Qed.

Lemma cfi_step_ok mem e c : live c -> step_ok c (cfi_step mem e c).
Proof.
  intros Hl. unfold cfi_step.
  destruct (ra_type e); try (by apply step_ok_stay).
  - split; simpl; auto with perf. apply live_raise_ended; done.
  - destruct (fp_chain_ended c) eqn:Ee.
    { split; simpl; auto with perf. apply live_raise_ended; done. }
    destruct (read_u64 mem _) as [ra|]; [|by apply step_ok_stay].
    destruct (ra =? 0).
    { split; simpl; auto with perf. apply live_raise_ended; done. }
    case_match; [|by apply step_ok_stay].
    split; simpl; [|by eapply grows_trans; auto with perf].
    apply live_raise_quiet; [|done..]. apply live_set_regs; [done|]. by rewrite Ee.
Qed.

Lemma live_no_root c : live c -> wc_fp c <> 0 -> fp_chain_ended c = false.
Proof. intros [_ _ Hr] Hne. destruct (fp_chain_ended c); [|done]. by specialize (Hr eq_refl). Qed.

Lemma raise_terminated_live c : live c -> wc_fp c <> 0 ->
  endings (ctx_flags (raise c WALKER_FLAG_FP_TERMINATED)) = 0%nat.
Proof. intros [_ Ho _] _. by apply endings_lor_quiet. Qed.

Lemma fp_step_ok mem c : live c -> step_ok c (fp_step mem c).
Proof.
  intros Hl. unfold fp_step. destruct (Z.eqb_spec (wc_fp c) 0) as [Hz|Hnz].
  { destruct (fp_chain_ended c) eqn:Ee; [by apply step_ok_stay|].
    split; simpl; auto with perf. apply live_raise_ended; done. }
  pose proof (live_no_root c Hl Hnz) as Hroot. pose proof (raise_terminated_live c Hl Hnz) as Ht.
  destruct (read_u64 mem (wc_fp c)) as [saved|]; [|by apply step_ok_stay].
  destruct (read_u64 mem (u64 (wc_fp c + 8))) as [ra|]; [|by apply step_ok_stay].
  destruct (saved <=? wc_fp c); [destruct (saved =? 0)|].
  - assert (Hend : ended (raise c WALKER_FLAG_FP_TERMINATED)).
    { split; [exact (live_frames c Hl)|]. by apply flags_final_open. }
    destruct (ra =? 0); [by split; simpl; auto with perf|].
    split; simpl; [|eapply grows_trans; [apply grows_raise|apply grows_regs]].
    split; [exact (live_frames c Hl)|done|done].
  - assert (Hx : ended (raise c WALKER_FLAG_FP_NONMONOTONIC)) by (apply live_raise_ended; done).
    destruct (ra =? 0); [by split; simpl; auto with perf|].
    split; simpl; [by apply ended_push|]. eapply grows_trans; [by apply grows_raise|].
    by apply grows_push, ended_frames.
  - split; simpl; auto with perf. apply live_set_regs; [done|]. by rewrite Hroot.
Qed.

Lemma leave_frame_ok ev ep have c : live c -> step_ok c (leave_frame ev ep have c).
Proof.
  intros Hl. unfold leave_frame. destruct ep as [e|]; [by apply cfi_step_ok|].
  destruct have; [|by apply fp_step_ok].
  destruct (fp_step_ok (e_mem ev) (raise c WALKER_FLAG_CFI_MISS)) as [H1 H2].
  { by apply live_raise_quiet. }
  split; [done|]. eapply grows_trans; [apply grows_raise|done].
Qed.

(** How one frame, or a run of frames, moves the dispatch counters: at most one
    claim, and only a claim that was found and in range. *)
Record walk_delta (claimed : bool) (d : Z -> Z) : Prop := {
  wd_claimed : d INTERP_STAT_CLAIMED = if claimed then 1 else 0;
  wd_in_range : d INTERP_STAT_CLAIMED <= d INTERP_STAT_IN_RANGE;
  wd_range_hit : d INTERP_STAT_IN_RANGE <= d INTERP_STAT_RANGE_HIT;
  wd_dispatched : d INTERP_STAT_DISPATCHED = 0;
  wd_failed : d INTERP_STAT_TAILCALL_FAILED = 0;
  wd_budget : d INTERP_STAT_BUDGET = 0;
  wd_resumed : d INTERP_STAT_RESUMED = 0;
}.

Lemma walk_delta_zero : walk_delta false (fun _ => 0).
Proof. by split. Qed.

Lemma walk_delta_add b d1 d2 :
  walk_delta false d1 -> walk_delta b d2 -> walk_delta b (fun i => d1 i + d2 i).
Proof. intros [] []. split; lia. Qed.

Definition handoff_wf (t : tables) : Prop :=
  forall tid h, handoff_ranges t !! tid = Some h -> 0 <= unwinder_id h < 4294967295.

Lemma next_unwinder_ok t tid rel done stats u stats' :
  length stats = 7%nat -> next_unwinder t tid rel done stats = (u, stats') ->
  exists d, shifted stats stats' d /\
    (forall b, (b = true -> u <> 0) ->
      walk_delta b (fun i => d i + if b then only INTERP_STAT_CLAIMED i else 0)) /\
    (handoff_wf t -> 0 <= u < 4294967295).
Proof.
  unfold next_unwinder. intros Hl.
  pose proof (shifted_count INTERP_STAT_RANGE_HIT stats Hl ltac:(done)) as H1.
  destruct (handoff_ranges t !! tid) as [h|] eqn:Eh; [|intros [= <- <-]].
  2:{ exists (fun _ => 0). split; [apply shifted_refl|]. split; [|done].
      intros [] Hb; [by specialize (Hb eq_refl)|by split]. }
  pose proof (shifted_count INTERP_STAT_IN_RANGE (interp_count INTERP_STAT_RANGE_HIT stats)
    ltac:(rewrite (shifted_length _ _ _ H1); done) ltac:(done)) as H2.
  pose proof (shifted_trans _ _ _ _ _ H1 H2) as H12.
  destruct (inside_spans _ _); simpl; [destruct (has_flag _ _)|]; intros [= <- <-].
  - eexists; split; [exact H12|]. split; [|done].
    intros [] Hb; [by specialize (Hb eq_refl)|by split].
  - eexists; split; [exact H12|]. split; [|by intros Hh; apply (Hh _ _ Eh)].
    intros [] Hb; by split.
  - eexists; split; [exact H1|]. split; [|done].
    intros [] Hb; [by specialize (Hb eq_refl)|by split].
Qed.

(** One step, seen from outside: the walk goes on, ends, or is claimed. *)
Definition step_result (t : tables) (lead : bool) (s : wstate) (r : bool * wstate) : Prop :=
  exists c d, grows (ws_ctx s) c /\ shifted (ws_stats s) (ws_stats r.2) d /\
   ((exists u, r.1 = true /\ lead = true /\ interp_enabled t = true /\
      ws_ctx r.2 = set_wc_pending c u /\ u <> 0 /\
      (handoff_wf t -> 0 <= u < 4294967295) /\ live c /\ walk_delta true d) \/
    (ws_ctx r.2 = c /\ walk_delta false d /\ if r.1 then ended c else live c)).


(** The frame at the head of a step: recorded when it leads. *)
Lemma lead_push_ok (lead : bool) s :
  live (ws_ctx s) -> exists refused c,
    (if lead then frame_push_native (ws_ctx s) (wc_pc (ws_ctx s)) else (false, ws_ctx s)) = (refused, c) /\
    live c /\ grows (ws_ctx s) c.
Proof.
  intros Hl. destruct lead; [|eexists _, _; auto with perf].
  pose proof (live_push _ (wc_pc (ws_ctx s)) Hl).
  pose proof (grows_push _ (wc_pc (ws_ctx s)) (live_frames _ Hl)).
  destruct (frame_push_native _ _). eauto.
Qed.

(** The frame's offer to another unwinder, when offers are made at all. *)
Lemma offer_ok t (offered : bool) tid rel done stats :
  length stats = 7%nat ->
  exists u stats' d, (if offered then next_unwinder t tid rel done stats
                      else (UNWINDER_NATIVE, stats)) = (u, stats') /\ shifted stats stats' d /\
    (forall b, (b = true -> u <> 0) ->
      walk_delta b (fun i => d i + if b then only INTERP_STAT_CLAIMED i else 0)) /\
    (u <> 0 -> offered = true) /\ (handoff_wf t -> 0 <= u < 4294967295).
Proof.
  intros Hlen. destruct offered.
  - destruct (next_unwinder _ _ _ _ _) as [u stats'] eqn:En.
    apply next_unwinder_ok in En as (d & H1 & H2 & H3); [|done]. exists u, stats', d. auto.
  - eexists _, _, _. split; [done|]. split; [apply shifted_refl|].
    split; [intros [] Hb; [by specialize (Hb eq_refl)|by split]|]. done.
Qed.

(** A step that neither claims nor moves a claim counter. *)
Lemma step_quiet t lead s c r stats miss d :
  grows (ws_ctx s) c -> shifted (ws_stats s) stats d -> walk_delta false d ->
  step_ok c r -> step_result t lead s (r.1, WState r.2 stats miss).
Proof.
  intros Hg Hs Hd [Hr Hgr]. exists r.2, d. split; [by eapply grows_trans|].
  split; [done|]. right. auto.
Qed.

Lemma unwind_frame_ok ev t lead s :
  live (ws_ctx s) -> length (ws_stats s) = 7%nat ->
  step_result t lead s (unwind_frame ev t lead s).
Proof.
  intros Hl Hlen. unfold unwind_frame.
  destruct (lead_push_ok lead s Hl) as (refused & c & -> & Hc & Hg).
  destruct refused.
  { apply (step_quiet t lead s c (true, c) _ _ _ Hg (shifted_refl _) walk_delta_zero).
    by apply step_ok_stay. }
  destruct (m_found _).
  2:{ pose proof (leave_frame_ok ev None false c Hc) as Hlf.
      destruct (leave_frame _ _ _ _) as [stop c'].
      exact (step_quiet t lead s c _ _ _ _ Hg (shifted_refl _) walk_delta_zero Hlf). }
  set (m := mapping_for_pc _ _ _).
  destruct (offer_ok t (interp_enabled t && lead) (m_table_id m) (m_rel_pc m) (wc_interp_done c)
    (ws_stats s) Hlen) as (u & stats & d & -> & Hs & Hd & He & Hu).
  destruct (Z.eqb_spec u UNWINDER_NATIVE) as [->|Hne]; simpl.
  - pose proof (leave_frame_ok ev (cfi_lookup t (m_table_id m) (m_rel_pc m))
      (bool_decide (is_Some (cfi_lengths t !! m_table_id m))) c Hc) as Hlf.
    destruct (leave_frame _ _ _ _) as [stop c'].
    refine (step_quiet t lead s c _ _ _ (fun i => d i + 0) Hg _ (Hd false ltac:(done)) Hlf).
    eapply shifted_trans; [done|apply shifted_refl].
  - exists c, (fun i => d i + only INTERP_STAT_CLAIMED i). split; [done|]. split; simpl.
    + eapply shifted_trans; [done|]. apply shifted_count; [|done].
      by rewrite (shifted_length _ _ _ Hs).
    + left. exists u. apply andb_true_iff in He as [-> ->]; [|done]. split_and!; try done.
      by apply (Hd true).
Qed.

(** ** Past the root

    Once the frame-pointer chain has ended, no step goes on. *)

Lemma leave_frame_past_root ev ep have c :
  fp_chain_ended c = true -> wc_fp c = 0 ->
  exists c', leave_frame ev ep have c = (true, c') /\
    forall fs, holds (wc_rec c) (wc_n_pcs c) fs -> holds (wc_rec c') (wc_n_pcs c') fs.
Proof.
  intros He Hz. unfold leave_frame, cfi_step, fp_step. destruct ep as [e|].
  - rewrite He. destruct (ra_type e); by eexists.
  - exists (if have then raise c WALKER_FLAG_CFI_MISS else c). destruct have; simpl; rewrite ?Hz; simpl.
    + unfold fp_chain_ended in *. rewrite ctx_flags_raise, has_flag_lor, He. done.
    + by rewrite He.
Qed.

Lemma holds_unique r n fs gs : holds r n fs -> holds r n gs -> gs = fs.
Proof. intros (_ & _ & H1) (_ & _ & H2). congruence. Qed.

(** The walk takes at most one frame past the end of the frame-pointer
    chain: after a step that read the outermost-frame marker, the next step
    stops the walk whatever the unwind tables, the handoff ranges and the
    memory say, having recorded at most that one caller. *)
Theorem one_step_past_root ev t s fs :
  live (ws_ctx s) -> fp_chain_ended (ws_ctx s) = true ->
  holds (wc_rec (ws_ctx s)) (wc_n_pcs (ws_ctx s)) fs ->
  (unwind_frame ev t true s).1 = true /\
  exists more, (length more <= 1)%nat /\
    holds (wc_rec (ws_ctx (unwind_frame ev t true s).2))
          (wc_n_pcs (ws_ctx (unwind_frame ev t true s).2)) (fs ++ more).
Proof.
  intros Hl He Hfs. pose proof (live_root _ Hl He) as Hz. unfold unwind_frame.
  destruct (frame_push_native_cases _ (wc_pc (ws_ctx s)) fs Hfs)
    as [[_ ->]|(Hn & rec' & -> & Hh & Hhdr)].
  { split; [done|]. exists []. split; [simpl; lia|]. simpl. by rewrite app_nil_r. }
  set (c := set_rec _ _ _).
  assert (Hc : fp_chain_ended c = true).
  { revert He. unfold fp_chain_ended, ctx_flags, flags_of. simpl. by rewrite Hhdr. }
  assert (Hleave : forall ep have, exists c', leave_frame ev ep have c = (true, c') /\
            holds (wc_rec c') (wc_n_pcs c') (fs ++ [Native (wc_pc (ws_ctx s))])).
  { intros ep have. destruct (leave_frame_past_root ev ep have c Hc Hz) as (c' & -> & Hc').
    exists c'. auto. }
  destruct (m_found _).
  - destruct (if _ && _ then _ else _) as [u stats]. destruct (negb _).
    + split; [done|]. exists [Native (wc_pc (ws_ctx s))]. by split.
    + match goal with |- context [leave_frame ev ?ep ?h c] =>
        destruct (Hleave ep h) as (c' & -> & Hc') end.
      split; [done|]. exists [Native (wc_pc (ws_ctx s))]. by split.
  - destruct (Hleave None false) as (c' & -> & Hc'). split; [done|].
    exists [Native (wc_pc (ws_ctx s))]. by split.
Qed.

Definition empty_tables : tables := Tables ∅ ∅ ∅ ∅ ∅ false.
Definition no_env : env :=
  Env (fun _ => None) (fun _ => 0) (fun _ => false) (fun _ => false) (fun m _ _ => m).
Definition no_misses : miss_state := MissState ∅ (Ringbuf [] 0) 0.

(** A walk one frame past the root, over a stale record. *)
Definition at_root : wstate :=
  WState (WalkCtx 0x1000 0 0x7000 42 0
            (set_flags stale_record WALKER_FLAG_FP_TERMINATED) 0 0) (replicate 7 0) no_misses.

Lemma at_root_live : live (ws_ctx at_root).
Proof. split; [by exists []|done|done]. Qed.

Lemma one_step_past_root_witness :
  (unwind_frame no_env empty_tables true at_root).1 = true /\
  exists more, (length more <= 1)%nat /\
    holds (wc_rec (ws_ctx (unwind_frame no_env empty_tables true at_root).2))
          (wc_n_pcs (ws_ctx (unwind_frame no_env empty_tables true at_root).2)) ([] ++ more).
Proof. apply (one_step_past_root no_env empty_tables at_root []); [apply at_root_live|done..]. Defined.

(** ** Recovering a whole stack

    An independent description of a well-formed stack: what the psABI's
    frame-pointer chain and the CFI rows say the callers are.  The walker finds
    all of them. *)

Section recovery.
  Context (ev : env) (t : tables) (pid : Z).

(** No interpreter unwinder claims the frame: handoffs are off, or its PC is in
    no mapping, in a binary without a handoff range, or outside its spans. *)
Definition unclaimed (pc : Z) : Prop :=
  let m := mapping_for_pc t pid pc in
  interp_enabled t = true -> m_found m = true -> forall h, handoff_ranges t !! m_table_id m = Some h ->
  inside_spans (m_rel_pc m) (spans h) = false.

Lemma unclaimed_next pc done stats :
  unclaimed pc -> let m := mapping_for_pc t pid pc in m_found m = true ->
  exists stats', (if interp_enabled t && true then next_unwinder t (m_table_id m) (m_rel_pc m) done stats else (UNWINDER_NATIVE, stats))
    = (UNWINDER_NATIVE, stats').
Proof using Type.
  intros Hu m Hf. subst m. destruct (interp_enabled t) eqn:He; simpl; [|by eexists]. unfold next_unwinder.
  destruct (handoff_ranges t !! _) as [h|] eqn:Eh; [|by eexists]. rewrite (Hu He Hf h Eh). by eexists.
Qed.

(** The unwind row that covers a PC of the process. *)
Definition row_for (pc : Z) : option cfi_entry :=
  let m := mapping_for_pc t pid pc in
  if m_found m then cfi_lookup t (m_table_id m) (m_rel_pc m) else None.

Definition row_cfa (e : cfi_entry) (fp sp : Z) : Z :=
  u64 ((if decide (cfa_type e = CFA_TYPE_FP) then fp else sp) + cfa_offset e).

Inductive caller_fp (e : cfi_entry) (cfa fp : Z) : Z -> Prop :=
| fp_saved v : fp_type e = FP_TYPE_OFFSET_CFA ->
    read_u64 (e_mem ev) (u64 (cfa + fp_offset e)) = Some v -> caller_fp e cfa fp v
| fp_unchanged : fp_type e = FP_TYPE_SAME_VALUE -> caller_fp e cfa fp fp
| fp_lost : fp_type e = FP_TYPE_UNDEFINED \/ fp_type e = FP_TYPE_REGISTER -> caller_fp e cfa fp 0.

Inductive stack : Z -> Z -> Z -> list Z -> Prop :=
(** The CFI marks this frame outermost. *)
| stack_outermost pc fp sp e :
    row_for pc = Some e -> ra_type e = RA_TYPE_UNDEFINED -> stack pc fp sp [pc]
(** The CFI locates the caller. *)
| stack_dwarf pc fp sp e ra fp' pcs :
    row_for pc = Some e -> ra_type e = RA_TYPE_OFFSET_CFA ->
    read_u64 (e_mem ev) (u64 (row_cfa e fp sp + ra_offset e)) = Some ra -> ra <> 0 ->
    caller_fp e (row_cfa e fp sp) fp fp' ->
    stack ra fp' (row_cfa e fp sp) pcs -> stack pc fp sp (pc :: pcs)
(** The frame pointer locates the caller. *)
| stack_fp pc fp sp saved ra pcs :
    row_for pc = None -> fp <> 0 -> fp < saved -> ra <> 0 ->
    read_u64 (e_mem ev) fp = Some saved -> read_u64 (e_mem ev) (u64 (fp + 8)) = Some ra ->
    stack ra saved (u64 (fp + 16)) pcs -> stack pc fp sp (pc :: pcs)
(** The chain ends here, and the frame names no caller. *)
| stack_root pc fp sp :
    row_for pc = None -> 0 < fp ->
    read_u64 (e_mem ev) fp = Some 0 -> read_u64 (e_mem ev) (u64 (fp + 8)) = Some 0 ->
    stack pc fp sp [pc]
(** The chain ends here, at the callee of the outermost function. *)
| stack_root_caller pc fp sp ra :
    row_for pc = None -> 0 < fp -> ra <> 0 ->
    read_u64 (e_mem ev) fp = Some 0 -> read_u64 (e_mem ev) (u64 (fp + 8)) = Some ra ->
    (forall e, row_for ra = Some e -> ra_type e = RA_TYPE_UNDEFINED) ->
    stack pc fp sp [pc; ra].

(** The walk is about to record the frame at [pc] after [fs]. *)
Record at_frame (ended : bool) (c : walk_ctx) (pc fp sp : Z) (fs : list frame) : Prop := {
  af_pc : wc_pc c = pc;
  af_fp : wc_fp c = fp;
  af_sp : wc_sp c = sp;
  af_pid : wc_pid c = pid;
  af_holds : holds (wc_rec c) (wc_n_pcs c) fs;
  af_len : wc_n_pcs c = Z.of_nat (length fs);
  af_root : fp_chain_ended c = ended;
  af_open : endings (ctx_flags c) = 0%nat;
  af_native : wc_pending_unwinder c = UNWINDER_NATIVE;
}.

(** A walk that found the end of the stack, and says so. *)
Record complete (c : walk_ctx) : Prop := {
  comp_end : has_flag (ctx_flags c) WALKER_FLAG_FP_TERMINATED = true \/
             has_flag (ctx_flags c) WALKER_FLAG_RA_UNDEFINED = true;
  comp_fail : Forall (fun f => has_flag (ctx_flags c) f = false)
    [WALKER_FLAG_FP_EXHAUSTED; WALKER_FLAG_FP_NONMONOTONIC; WALKER_FLAG_ROOT_DISAGREEMENT;
     WALKER_FLAG_RA_ZERO];
}.

(** The frames are in the record, and the walk hands off to nobody. *)
Definition recorded (c : walk_ctx) (fs : list frame) : Prop :=
  (holds (wc_rec c) (wc_n_pcs c) fs /\ wc_n_pcs c = Z.of_nat (length fs)) /\ wc_pending_unwinder c = UNWINDER_NATIVE.

(** At a frame nobody claims, a step with room is: record, then leave by the
    row. *)
Lemma native_step s pc fp sp b fs :
  at_frame b (ws_ctx s) pc fp sp fs -> unclaimed pc -> (length fs < 127)%nat ->
  exists c have stats miss, at_frame b c pc fp sp (fs ++ [Native pc]) /\
    walk_step ev t 0 s =
    ((leave_frame ev (row_for pc) have c).1,
     WState (leave_frame ev (row_for pc) have c).2 stats miss).
Proof using Type.
  intros [<- <- <- Hpid Hh Hlen Hr Ho Hp] Hu Hroom. unfold walk_step, unwind_frame, row_for.
  destruct (frame_push_native_cases _ (wc_pc (ws_ctx s)) fs Hh)
    as [[Hfull _]|(Hn & rec' & -> & Hh' & Hhdr)]; [unfold MAX_FRAMES in *; lia|].
  set (c := set_rec _ _ _). cbn [wc_pid wc_pc set_rec]. change (wc_pid c) with (wc_pid (ws_ctx s)). change (wc_pc c) with (wc_pc (ws_ctx s)). rewrite Hpid.
  assert (Hc : at_frame b c (wc_pc (ws_ctx s)) (wc_fp (ws_ctx s)) (wc_sp (ws_ctx s))
                 (fs ++ [Native (wc_pc (ws_ctx s))])).
  { split; try done.
    - rewrite length_app. simpl. lia.
    - revert Hr. unfold fp_chain_ended, ctx_flags, flags_of. simpl. by rewrite Hhdr.
    - revert Ho. unfold ctx_flags, flags_of. simpl. by rewrite Hhdr. }
  destruct (m_found _) eqn:Ef.
  - destruct (unclaimed_next (wc_pc (ws_ctx s)) (wc_interp_done c) (ws_stats s) Hu Ef) as [stats ->]. simpl.
    match goal with |- context [leave_frame ev _ ?h c] => eexists c, h, _, _ end.
    split; [exact Hc|]. by destruct (leave_frame _ _ _ _).
  - exists c, false, (ws_stats s), (ws_miss s). split; [exact Hc|]. simpl. by destruct (fp_step (e_mem ev) c).
Qed.

(** What leaving a frame does, by the kind of frame. *)
Lemma leave_miss c have pc fp sp b fs :
  at_frame b c pc fp sp fs ->
  at_frame b (if have : bool then raise c WALKER_FLAG_CFI_MISS else c) pc fp sp fs.
Proof using Type.
  intros Ha. destruct have; [|done]. destruct Ha as [H1 H2 H3 H4 H5 H6 H7 H8 H9]. split; try done.
  - unfold fp_chain_ended in *. by rewrite ctx_flags_raise, has_flag_lor, H7, orb_false_r.
  - rewrite ctx_flags_raise. by apply endings_lor_quiet.
Qed.

Lemma leave_dwarf have c pc fp sp fs e ra fp' :
  at_frame false c pc fp sp fs -> ra_type e = RA_TYPE_OFFSET_CFA ->
  read_u64 (e_mem ev) (u64 (row_cfa e fp sp + ra_offset e)) = Some ra -> ra <> 0 ->
  caller_fp e (row_cfa e fp sp) fp fp' ->
  exists c', leave_frame ev (Some e) have c = (false, c') /\
    at_frame false c' ra fp' (row_cfa e fp sp) fs.
Proof using Type.
  intros [<- <- <- Hpid Hh Hlen Hr Ho Hp] Hra Hread Hnz Hfp.
  exists (raise (set_regs c ra fp' (row_cfa e (wc_fp c) (wc_sp c))) WALKER_FLAG_DWARF_USED). split.
  - simpl. unfold cfi_step. rewrite Hra, Hr. unfold row_cfa in *. rewrite Hread.
    rewrite (proj2 (Z.eqb_neq ra 0) Hnz).
    destruct Hfp as [v -> ->| -> |[-> | ->]]; done.
  - split; try done.
    + unfold fp_chain_ended in *. rewrite ctx_flags_raise, has_flag_lor. by rewrite orb_false_r.
    + rewrite ctx_flags_raise. by apply endings_lor_quiet.
Qed.

Lemma leave_fp have c pc fp sp fs saved ra :
  at_frame false c pc fp sp fs -> fp <> 0 -> fp < saved ->
  read_u64 (e_mem ev) fp = Some saved -> read_u64 (e_mem ev) (u64 (fp + 8)) = Some ra ->
  exists c', leave_frame ev None have c = (false, c') /\
    at_frame false c' ra saved (u64 (fp + 16)) fs.
Proof using Type.
  intros Ha Hnz Hlt Hs Hra. apply (leave_miss _ have) in Ha. simpl.
  destruct Ha as [<- Hfp <- Hpid Hh Hlen Hr Ho Hp].
  set (c1 := if have then _ else c) in *. exists (set_regs c1 ra saved (u64 (fp + 16))).
  unfold fp_step. rewrite Hfp, Hs, Hra, (proj2 (Z.eqb_neq fp 0) Hnz), (proj2 (Z.leb_gt saved fp) Hlt).
  by split.
Qed.

Lemma complete_raise c f :
  endings (ctx_flags c) = 0%nat -> f = WALKER_FLAG_RA_UNDEFINED \/ f = WALKER_FLAG_FP_TERMINATED ->
  complete (raise c f).
Proof using Type.
  intros (E1 & E2 & E3 & E4 & E5)%endings_0 Hf.
  split; rewrite ?ctx_flags_raise.
  - rewrite !has_flag_lor. destruct Hf as [-> | ->]; rewrite orb_true_r; auto.
  - repeat apply Forall_cons_2; try apply Forall_nil_2; rewrite has_flag_lor, ?E2, ?E3, ?E4, ?E5;
      by destruct Hf as [-> | ->].
Qed.

Lemma leave_outermost have c b pc fp sp fs e :
  at_frame b c pc fp sp fs -> ra_type e = RA_TYPE_UNDEFINED ->
  exists c', leave_frame ev (Some e) have c = (true, c') /\ recorded c' fs /\ complete c'.
Proof using Type.
  intros [<- <- <- Hpid Hh Hlen Hr Ho Hp] Hra. eexists. simpl. unfold cfi_step. rewrite Hra.
  split; [done|]. split; [by split|]. apply complete_raise; auto.
Qed.

Lemma leave_root have c pc fp sp fs :
  at_frame false c pc fp sp fs -> 0 < fp ->
  read_u64 (e_mem ev) fp = Some 0 -> read_u64 (e_mem ev) (u64 (fp + 8)) = Some 0 ->
  exists c', leave_frame ev None have c = (true, c') /\ recorded c' fs /\ complete c'.
Proof using Type.
  intros Ha Hpos Hs Hra. apply (leave_miss _ have) in Ha. simpl.
  destruct Ha as [<- Hfp <- Hpid Hh Hlen Hr Ho Hp].
  set (c1 := if have then _ else c) in *. exists (raise c1 WALKER_FLAG_FP_TERMINATED).
  unfold fp_step. rewrite Hfp, Hs, Hra, (proj2 (Z.eqb_neq fp 0)), (proj2 (Z.leb_le 0 fp)) by lia.
  split; [done|]. split; [by split|]. apply complete_raise; auto.
Qed.

Lemma leave_root_caller have c pc fp sp fs ra :
  at_frame false c pc fp sp fs -> 0 < fp -> ra <> 0 ->
  read_u64 (e_mem ev) fp = Some 0 -> read_u64 (e_mem ev) (u64 (fp + 8)) = Some ra ->
  exists c', leave_frame ev None have c = (false, c') /\
    at_frame true c' ra 0 (u64 (fp + 16)) fs.
Proof using Type.
  intros Ha Hpos Hnz Hs Hra. apply (leave_miss _ have) in Ha. simpl.
  destruct Ha as [<- Hfp <- Hpid Hh Hlen Hr Ho Hp].
  set (c1 := if have then _ else c) in *.
  exists (set_regs (raise c1 WALKER_FLAG_FP_TERMINATED) ra 0 (u64 (fp + 16))).
  unfold fp_step. rewrite Hfp, Hs, Hra, (proj2 (Z.eqb_neq fp 0)), (proj2 (Z.leb_le 0 fp)) by lia.
  simpl. rewrite (proj2 (Z.eqb_neq ra 0) Hnz), Hfp. split; [done|]. split; try done.
  - unfold fp_chain_ended, ctx_flags, raise, or_flags, flags_of; simpl.
    rewrite has_flag_lor. by rewrite orb_true_r.
  - by apply endings_lor_quiet.
Qed.

Lemma leave_past_root have c pc sp fs :
  at_frame true c pc 0 sp fs ->
  exists c', leave_frame ev None have c = (true, c') /\ recorded c' fs /\ complete c'.
Proof using Type.
  intros Ha. apply (leave_miss _ have) in Ha. simpl.
  destruct Ha as [<- Hfp <- Hpid Hh Hlen Hr Ho Hp].
  set (c1 := if have then _ else c) in *. exists c1. unfold fp_step. rewrite Hfp, Hr. simpl.
  split; [done|]. split; [by split|]. apply endings_0 in Ho as (E1 & E2 & E3 & E4 & E5).
  split; [by left|]. repeat apply Forall_cons_2; try apply Forall_nil_2; done.
Qed.

(** The recovered frames so far, from a walk that may have stopped. *)
Lemma recover n idx s pc fp sp pcs fs :
  stack pc fp sp pcs -> Forall unclaimed pcs -> at_frame false (ws_ctx s) pc fp sp fs ->
  (n + length fs = 127)%nat ->
  let s' := bpf_loop_from (walk_step ev t) n idx s in
  recorded (ws_ctx s') (fs ++ (Native <$> take n pcs)) /\
  ((length pcs <= n)%nat -> complete (ws_ctx s')).
Proof using Type.
  intros Hstack. revert n idx s fs. induction Hstack as
    [pc fp sp e He Hra|pc fp sp e ra fp' pcs He Hra Hread Hnz Hfp _ IH
    |pc fp sp saved ra pcs He Hnz Hlt Hz Hs Hra _ IH|pc fp sp He Hpos Hs Hra|pc fp sp ra He Hpos Hnz Hs Hra Hout];
    intros n idx s fs [Hu Hus]%Forall_cons_1 Ha Hn.
  all: destruct n as [|n]; [simpl; rewrite app_nil_r; split; [by destruct Ha|simpl; lia]|].
  all: destruct (native_step s pc fp sp false fs Ha Hu ltac:(lia)) as (c & have & stats & miss & Hc & Hstep);
    cbn [bpf_loop_from]; change (walk_step ev t idx s) with (walk_step ev t 0 s);
    rewrite Hstep, He.
  - destruct (leave_outermost have c _ _ _ _ _ e Hc Hra) as (c' & -> & Hrec & Hcomp).
    simpl. rewrite take_nil. by split.
  - destruct (leave_dwarf have c _ _ _ _ e ra fp' Hc Hra Hread Hnz Hfp) as (c' & -> & Hc'). simpl.
    destruct (IH n (idx + 1) (WState c' stats miss) _ Hus Hc') as [H1 H2];
      [rewrite length_app; simpl; lia|].
    rewrite <- app_assoc in H1. split; [done|]. intros. apply H2. lia.
  - destruct (leave_fp have c _ _ _ _ saved ra Hc Hnz Hlt Hs Hra) as (c' & -> & Hc'). simpl.
    destruct (IH n (idx + 1) (WState c' stats miss) _ Hus Hc') as [H1 H2];
      [rewrite length_app; simpl; lia|].
    rewrite <- app_assoc in H1. split; [done|]. intros. apply H2. lia.
  - destruct (leave_root have c _ _ _ _ Hc Hpos Hs Hra) as (c' & -> & Hrec & Hcomp).
    simpl. rewrite take_nil. by split.
  - destruct (leave_root_caller have c _ _ _ _ ra Hc Hpos Hnz Hs Hra) as (c' & -> & Hc'). simpl.
    destruct n as [|n]; simpl.
    { split; [by destruct Hc'|lia]. }
    apply Forall_cons_1 in Hus as [Hu2 _].
    destruct (native_step (WState c' stats miss) ra 0 (u64 (fp + 16)) true _ Hc' Hu2)
      as (c2 & have2 & stats2 & miss2 & Hc2 & Hstep2); [rewrite length_app; simpl; lia|].
    change (walk_step ev t (idx + 1)) with (walk_step ev t 0). rewrite Hstep2, take_nil.
    rewrite <- app_assoc in Hc2. destruct (row_for ra) as [e|] eqn:Er.
    + destruct (leave_outermost have2 c2 _ _ _ _ _ e Hc2 (Hout e eq_refl)) as (c3 & -> & Hrec & Hcomp).
      by split.
    + destruct (leave_past_root have2 c2 _ _ _ Hc2) as (c3 & -> & Hrec & Hcomp). by split.
Qed.

(** C1: The hybrid walk recovers a whole native stack. For every stack whose
    callers are given, frame by frame, by a CFI row or by the frame-pointer
    chain, in any mixture and with nonzero return addresses, and none of whose
    frames an interpreter unwinder claims, a fresh walk over a record holding
    anything records exactly its program counters in order, up to 127 of them,
    and hands off to nobody; and a stack that fits is reported as ended, with
    none of the failure bits. *)
Theorem walk_recovers_stack rec tid pc fp sp pcs stats miss :
  record_wf rec -> stack pc fp sp pcs -> Forall unclaimed pcs ->
  let st := unwind_walk_begin rec pid tid pc fp sp in
  let c := ws_ctx (bpf_loop (walk_step ev t) MAX_FRAMES (WState (walk_load st.1 st.2) stats miss)) in
  recorded c (Native <$> take 127 pcs) /\ ((length pcs <= 127)%nat -> complete c).
Proof using Type.
  intros Hwf Hstack Hu st c. subst c. unfold bpf_loop.
  destruct (recover (Z.to_nat MAX_FRAMES) 0 (WState (walk_load st.1 st.2) stats miss) pc fp sp pcs [])
    as [H1 H2]; [done|done| |done|by split].
  subst st. by split.
Qed.
End recovery.

(** A leaf compiled without a frame pointer, called from a frame-pointer chain
    that ends in the function [0x400]; a handoff range of its binary covers other
    code, and handoffs are on. *)
Definition mixed_tables : tables :=
  Tables {[ 1 := [CfiEntry 0 0x100 16 0 (-8) CFA_TYPE_SP FP_TYPE_SAME_VALUE RA_TYPE_OFFSET_CFA] ]}
         {[ 1 := 1 ]} {[ 42 := [PidMapping 0x1000 0x2000 0x1000 1] ]} {[ 42 := 1 ]}
         {[ 1 := HandoffRange [(0x800, 0x900)] 1 ]} true.
Definition mixed_words : list (Z * Z) :=
  [(0x508, 0x200); (0x600, 0x700); (0x608, 0x300); (0x700, 0); (0x708, 0x400)].
Definition mixed_env : env :=
  Env (words mixed_words) (fun _ => 0) (fun _ => true) (fun _ => true) (fun m _ _ => m).
Definition mixed_pcs : list Z := [0x1010; 0x200; 0x300; 0x400].

(** The stack in any memory that holds its words. *)
Lemma mixed_stack_in ev :
  Forall (fun x => read_u64 (e_mem ev) x.1 = Some x.2) mixed_words ->
  stack ev mixed_tables 42 0x1010 0x600 0x500 mixed_pcs.
Proof.
  unfold mixed_words. rewrite !list.Forall_cons. simpl. intros (H1 & H2 & H3 & H4 & H5 & _).
  eapply stack_dwarf; [by vm_compute|done|exact H1|done|by apply fp_unchanged|].
  eapply stack_fp; [by vm_compute|done| | |exact H2|exact H3|]; [lia|lia|].
  eapply stack_root_caller; [by vm_compute|done| |exact H4|exact H5|]; [lia|].
  intros e He. by vm_compute in He.
Qed.
Lemma mixed_stack : stack mixed_env mixed_tables 42 0x1010 0x600 0x500 mixed_pcs.
Proof. apply mixed_stack_in. unfold mixed_words. repeat constructor. Qed.
Lemma mixed_handoff_wf : handoff_wf mixed_tables.
Proof. intros tid h. simpl. intros [_ <-]%lookup_singleton_Some. simpl. lia. Qed.
Lemma mixed_unclaimed : Forall (unclaimed mixed_tables 42) mixed_pcs.
Proof.
  repeat (apply List.Forall_cons; [|]); [| | | |apply List.Forall_nil]; intros _ Hf h Hh; [|by vm_compute in Hf..].
  assert (E : handoff_ranges mixed_tables !! m_table_id (mapping_for_pc mixed_tables 42 0x1010) = Some (HandoffRange [(0x800, 0x900)] 1))
    by (vm_compute; reflexivity). rewrite E in Hh. injection Hh as <-. vm_compute. reflexivity.
Qed.

Lemma walk_recovers_stack_witness :
  let st := unwind_walk_begin stale_record 42 43 0x1010 0x600 0x500 in
  let c := ws_ctx (bpf_loop (walk_step mixed_env mixed_tables) MAX_FRAMES
             (WState (walk_load st.1 st.2) (replicate 7 0) no_misses)) in
  recorded c [Native 0x1010; Native 0x200; Native 0x300; Native 0x400] /\ ((4 <= 127)%nat -> complete c).
Proof.
  apply (walk_recovers_stack mixed_env mixed_tables 42 stale_record 43 0x1010 0x600 0x500
           mixed_pcs (replicate 7 0) no_misses); [done|apply mixed_stack|apply mixed_unclaimed].
Defined.

(** ** The frame-pointer path and a zero return address *)

(** A frame outside every mapping, with room in the record: pushed, then left
    by the frame-pointer chain. *)
Lemma unmapped_step ev t s fs :
  holds (wc_rec (ws_ctx s)) (wc_n_pcs (ws_ctx s)) fs -> wc_n_pcs (ws_ctx s) < MAX_FRAMES ->
  m_found (mapping_for_pc t (wc_pid (ws_ctx s)) (wc_pc (ws_ctx s))) = false ->
  exists c, (unwind_frame ev t true s).1 = (fp_step (e_mem ev) c).1 /\
    ws_ctx (unwind_frame ev t true s).2 = (fp_step (e_mem ev) c).2 /\
    c = (frame_push_native (ws_ctx s) (wc_pc (ws_ctx s))).2 /\
    holds (wc_rec c) (wc_n_pcs c) (fs ++ [Native (wc_pc (ws_ctx s))]) /\
    wc_n_pcs c = wc_n_pcs (ws_ctx s) + 1 /\ wc_fp c = wc_fp (ws_ctx s) /\
    wc_pid c = wc_pid (ws_ctx s) /\ ctx_flags c = ctx_flags (ws_ctx s).
Proof.
  intros Hfs Hn Hm. unfold unwind_frame.
  destruct (frame_push_native_cases _ (wc_pc (ws_ctx s)) fs Hfs)
    as [[Hfull _]|(_ & rec' & E & Hh & Hhdr)]; [lia|].
  rewrite E. exists (set_rec (ws_ctx s) (wc_n_pcs (ws_ctx s) + 1) rec'). simpl. rewrite Hm. simpl.
  destruct (fp_step _ _). split_and!; try done. unfold ctx_flags, flags_of. simpl. by rewrite Hhdr.
Qed.

(** The frame-pointer path takes a return address of zero for a frame. Where
    the saved frame pointer still climbs and the return-address slot beside it
    holds zero, the step continues at address zero with no flag raised, and the
    next step records the zero as a frame; the CFI path refuses the same value
    with its own flag. *)
Theorem fp_chain_records_zero_pc ev t s fs saved :
  live (ws_ctx s) -> holds (wc_rec (ws_ctx s)) (wc_n_pcs (ws_ctx s)) fs ->
  wc_n_pcs (ws_ctx s) + 1 < MAX_FRAMES ->
  m_found (mapping_for_pc t (wc_pid (ws_ctx s)) (wc_pc (ws_ctx s))) = false ->
  m_found (mapping_for_pc t (wc_pid (ws_ctx s)) 0) = false ->
  wc_fp (ws_ctx s) <> 0 -> wc_fp (ws_ctx s) < saved ->
  read_u64 (e_mem ev) (wc_fp (ws_ctx s)) = Some saved ->
  read_u64 (e_mem ev) (u64 (wc_fp (ws_ctx s) + 8)) = Some 0 ->
  let '(stop, s1) := unwind_frame ev t true s in
  let s2 := (unwind_frame ev t true s1).2 in
  stop = false /\ ctx_flags (ws_ctx s1) = ctx_flags (ws_ctx s) /\
  exists more, holds (wc_rec (ws_ctx s2)) (wc_n_pcs (ws_ctx s2))
                 (fs ++ [Native (wc_pc (ws_ctx s)); Native 0] ++ more).
Proof.
  intros Hl Hfs Hn Hm H0 Hz Hlt R1 R2.
  destruct (unmapped_step ev t s fs Hfs ltac:(lia) Hm) as (c & E1 & E2 & Hc & Hh & Hcn & Hcf & Hcp & Hcfl).
  assert (Hlc : live c) by (rewrite Hc; by apply live_push).
  assert (Hstep : fp_step (e_mem ev) c = (false, set_regs c 0 saved (u64 (wc_fp c + 16)))).
  { unfold fp_step. rewrite Hcf, (proj2 (Z.eqb_neq _ _) Hz), R1, R2.
    by rewrite (proj2 (Z.leb_gt _ _) Hlt). }
  destruct (unwind_frame ev t true s) as [stop s1]. simpl in *. rewrite Hstep in E1, E2. simpl in *.
  assert (Hl1 : live (ws_ctx s1)).
  { rewrite E2. apply live_set_regs; [done|]. rewrite (live_no_root c Hlc) by congruence. done. }
  assert (Hh1 : holds (wc_rec (ws_ctx s1)) (wc_n_pcs (ws_ctx s1)) (fs ++ [Native (wc_pc (ws_ctx s))]))
    by (by rewrite E2).
  destruct (unmapped_step ev t s1 _ Hh1) as (c2 & _ & F2 & Hc2 & Hh2 & _);
    [rewrite E2; simpl; lia|rewrite E2; simpl; by rewrite Hcp|].
  split_and!; [done|by rewrite E2|].
  destruct (fp_step_ok (e_mem ev) c2) as [_ [_ _ _ (more & _ & Hmore)]];
    [rewrite Hc2; by apply live_push|].
  exists more. rewrite F2. specialize (Hmore _ Hh2). rewrite E2 in Hmore. simpl in Hmore.
  by rewrite <- !app_assoc in Hmore.
Qed.

Definition zero_ra_env : env :=
  Env (words [(0x600, 0x700); (0x608, 0)]) (fun _ => 0) (fun _ => true) (fun _ => true) (fun m _ _ => m).
Definition zero_ra_start : wstate :=
  let st := unwind_walk_begin stale_record 42 43 0x200 0x600 0x500 in
  WState (walk_load st.1 st.2) (replicate 7 0) no_misses.

Lemma fp_chain_records_zero_pc_witness :
  let '(stop, s1) := unwind_frame zero_ra_env empty_tables true zero_ra_start in
  let s2 := (unwind_frame zero_ra_env empty_tables true s1).2 in
  stop = false /\ ctx_flags (ws_ctx s1) = ctx_flags (ws_ctx zero_ra_start) /\
  exists more, holds (wc_rec (ws_ctx s2)) (wc_n_pcs (ws_ctx s2))
                 ([] ++ [Native 0x200; Native 0] ++ more).
Proof.
  apply (fp_chain_records_zero_pc zero_ra_env empty_tables zero_ra_start [] 0x700).
  - split; [by exists []|done|done].
  - done.
  - by vm_compute.
  - by vm_compute.
  - by vm_compute.
  - done.
  - by vm_compute.
  - by vm_compute.
  - by vm_compute.
Defined.
