(* ===== verification/Driver.v ===== *)
(** * Driver: running a walk, handing off in the middle of it, finishing it

    Models [unwind_walk], the budget on round trips and the two resume programs
    [INTERP_DEFINE_PROGRAMS] defines (src/bpf/unwind_common.h), for any driver:
    a driver is the function that finishes a sample once the walk has returned
    the number of slots written. *)
From S2P Require Import Prelude Bpf Record Tables Walker.

Definition INTERP_TAIL_CALL_BUDGET : Z := 10.

(** The maps of a driver object: those the walker writes, and its own. *)
Record driver (P : Type) := Drv { d_miss : miss_state; d_priv : P }.
Arguments Drv {P}.
Arguments d_miss {P}.
Arguments d_priv {P}.

Section driver.
  Context (ev : env) (t : tables) {P M : Type}.
  Local Abbreviation W := (world (driver P) M).

(** Write the walk's state back through the pointers. *)
Definition commit (w : W) (st : walk_persist) (s : wstate) : W :=
  World (array_store (walker_scratch w) 0 (wc_rec (ws_ctx s)))
        (array_store (walk_states w) 0 (walk_save st (ws_ctx s)))
        (ws_stats s) (Drv (ws_miss s) (d_priv (drv w))) (mdl w).

Definition count_ws (slot : Z) (s : wstate) : wstate :=
  WState (ws_ctx s) (interp_count slot (ws_stats s)) (ws_miss s).

Definition start_ws (w : W) (st : walk_persist) (rec : sample_record) : wstate :=
  WState (walk_load st rec) (interp_stats w) (d_miss (drv w)).

Definition clamp_pcs (n : Z) : Z := if MAX_FRAMES <? n then MAX_FRAMES else n.

Definition add_tail_call (st : walk_persist) : walk_persist :=
  Persist (st_pc st) (st_fp st) (st_sp st) (st_interp_scratch st) (st_pid st) (st_tid st)
          (st_n_pcs st) (st_pending_unwinder st) (st_interp_done st) (st_stopped st)
          (u32 (st_tail_calls st + 1)).

Definition set_stopped (st : walk_persist) : walk_persist :=
  Persist (st_pc st) (st_fp st) (st_sp st) (st_interp_scratch st) (st_pid st) (st_tid st)
          (st_n_pcs st) (st_pending_unwinder st) (st_interp_done st) 1 (st_tail_calls st).

(** [k n w] is the rest of the driver once the walk returned [n]. *)
Definition unwind_walk (resumed : bool) (w : W) (st : walk_persist) (rec : sample_record)
    (k : Z -> W -> W) : outcome W :=
  let s := start_ws w st rec in
  if negb resumed || (st_stopped st =? 0) then
    let s := bpf_loop (walk_step ev t) MAX_FRAMES s in
    let claimed := interp_enabled t && negb (wc_pending_unwinder (ws_ctx s) =? UNWINDER_NATIVE) in
    let s := if claimed && (INTERP_TAIL_CALL_BUDGET <=? st_tail_calls st)
             then count_ws INTERP_STAT_BUDGET s else s in
    let n := clamp_pcs (wc_n_pcs (ws_ctx s)) in
    if claimed && (st_tail_calls st <? INTERP_TAIL_CALL_BUDGET) then
      let slot := wc_pending_unwinder (ws_ctx s) in
      let s := WState (set_wc_pending (ws_ctx s) UNWINDER_NATIVE) (ws_stats s) (ws_miss s) in
      let st := add_tail_call (walk_save st (ws_ctx s)) in
      let s := count_ws INTERP_STAT_DISPATCHED s in
      TailCall (INTERP_SLOT_UNWINDER slot) (commit w st s)
               (k n (commit w st (count_ws INTERP_STAT_TAILCALL_FAILED s)))
    else Done (k n (commit w st s))
  else Done (k (clamp_pcs (wc_n_pcs (ws_ctx s))) (commit w st s)).

(** A driver's walk function: look the two maps up, walk, finish. *)
Definition walk_fn (finish : Z -> W -> W) (resumed : bool) (w : W) : outcome W :=
  match walk_state_get w, walk_record_get w with
  | Some st, Some rec => unwind_walk resumed w st rec finish
  | _, _ => Done w
  end.

Definition interp_resume_step (w : W) : outcome W :=
  let w' :=
    match walk_state_get w, walk_record_get w with
    | Some st, Some rec =>
        let s := count_ws INTERP_STAT_RESUMED (start_ws w st rec) in
        let '(stop, s) := unwind_frame ev t false s in
        commit w (if stop then set_stopped st else st) s
    | _, _ => w
    end in
  TailCall INTERP_SLOT_RESUME_WALK w' w'.

Definition interp_resume_walk (finish : Z -> W -> W) (w : W) : outcome W :=
  walk_fn finish true w.

(** The tail-call table as user space fills it: the driver's two resume
    programs and whatever modules are installed. *)
Definition interp_progs (finish : Z -> W -> W) (modules : Z -> option (W -> outcome W))
    (slot : Z) : option (W -> outcome W) :=
  if slot =? INTERP_SLOT_RESUME_STEP then Some interp_resume_step
  else if slot =? INTERP_SLOT_RESUME_WALK then Some (interp_resume_walk finish)
  else if slot <? INTERP_MAX_UNWINDERS then modules (slot - 1)
  else None.

(** A whole sample: the entry program's walk and everything it tail-calls. *)
Definition run_sample (finish : Z -> W -> W) (modules : Z -> option (W -> outcome W)) (w : W)
  : W * nat :=
  run (interp_progs finish modules) MAX_TAIL_CALL_CNT (walk_fn finish false w).
End driver.

(** ** The loop *)

Definition loop_result (t : tables) (s s' : wstate) : Prop :=
  exists c d, grows (ws_ctx s) c /\ shifted (ws_stats s) (ws_stats s') d /\
   ((exists u, interp_enabled t = true /\ ws_ctx s' = set_wc_pending c u /\ u <> 0 /\
      (handoff_wf t -> 0 <= u < 4294967295) /\ live c /\ walk_delta true d) \/
    (ws_ctx s' = c /\ walk_delta false d /\ ended c)).

Lemma walk_loop_ok ev t n s :
  live (ws_ctx s) -> length (ws_stats s) = 7%nat ->
  loop_result t s (bpf_loop (walk_step ev t) n s).
Proof.
  intros Hl Hlen.
  set (I := fun s' => exists d, grows (ws_ctx s) (ws_ctx s') /\ live (ws_ctx s') /\
              shifted (ws_stats s) (ws_stats s') d /\ walk_delta false d).
  destruct (bpf_loop_inv (walk_step ev t) I (loop_result t s) n s) as [H|(d & H1 & H2 & H3 & H4)].
  - intros i s1 (d1 & Hg1 & Hl1 & Hs1 & Hd1). unfold walk_step.
    destruct (unwind_frame_ok ev t true s1 Hl1) as (c & d2 & Hg2 & Hs2 & Hr).
    { by rewrite (shifted_length _ _ _ Hs1). }
    pose proof (grows_trans _ _ _ Hg1 Hg2) as Hg. pose proof (shifted_trans _ _ _ _ _ Hs1 Hs2) as Hs.
    destruct Hr as [(u & -> & _ & He & Hc & Hu & Hur & Hlc & Hd)|(Hc & Hd & Hlc)].
    + exists c, (fun j => d1 j + d2 j). split_and!; try done. left. exists u.
      split_and!; try done. by apply walk_delta_add.
    + pose proof (walk_delta_add _ _ _ Hd1 Hd). destruct (unwind_frame _ _ _ _) as [[] s2]; simpl in *.
      * exists c, (fun j => d1 j + d2 j). split_and!; try done. by right.
      * subst c. exists (fun j => d1 j + d2 j). done.
  - exists (fun _ => 0). split_and!; auto with perf; [apply shifted_refl|apply walk_delta_zero].
  - done.
  - eexists _, d. split_and!; try done. right. auto with perf.
Qed.

(** The clock readings taken so far. *)
Definition readings {P M} (w : world (driver P) M) : nat := ktime_calls (d_miss (drv w)).

(** A walk only takes readings: it never gives one back. *)
Lemma unwind_frame_clock ev t lead s :
  (ktime_calls (ws_miss s) <= ktime_calls (ws_miss (unwind_frame ev t lead s).2))%nat.
Proof.
  unfold unwind_frame, emit_cfi_miss, ktime_get_ns. simpl.
  repeat (case_match; simplify_eq/=; try lia).
Qed.

Lemma walk_loop_clock ev t n s :
  (ktime_calls (ws_miss s) <= ktime_calls (ws_miss (bpf_loop (walk_step ev t) n s)))%nat.
Proof.
  set (I := fun s' => (ktime_calls (ws_miss s) <= ktime_calls (ws_miss s'))%nat).
  destruct (bpf_loop_inv (walk_step ev t) I I n s) as [H|H]; [|exact (Nat.le_refl _)|done|done].
  intros i s1 H1. unfold walk_step. pose proof (unwind_frame_clock ev t true s1).
  subst I; simpl in *. destruct (unwind_frame _ _ _ _) as [[] ?]; simpl in *; lia.
Qed.

(** Growth, whatever became of the pending unwinder. *)
Record extends (c c' : walk_ctx) : Prop := {
  ex_pid : wc_pid c' = wc_pid c;
  ex_done : wc_interp_done c' = wc_interp_done c;
  ex_frames : exists more, Forall is_native more /\ forall fs,
    holds (wc_rec c) (wc_n_pcs c) fs -> holds (wc_rec c') (wc_n_pcs c') (fs ++ more);
}.

Lemma grows_extends c c' : grows c c' -> extends c c'.
Proof. intros []. by split. Qed.
Lemma extends_pending c c' u : extends c c' -> extends c (set_wc_pending c' u).
Proof. intros []. by split. Qed.

#[export] Hint Resolve grows_extends extends_pending : perf.

(** ** What a module promises the walker

    It hands control back through the resume slot; it moves none of the
    registers, the identity or the round-trip count; it only appends to the
    record, interpreter frames, and raises at most the refusal bit. *)

Record module_step {D M} (w w' : world D M) (st : walk_persist) (rec : sample_record) : Prop := {
  ms_wf : world_wf w';
  ms_drv : drv w' = drv w;
  ms_stats : interp_stats w' = interp_stats w;
  ms_state : exists st' rec', walk_state_get w' = Some st' /\ walk_record_get w' = Some rec' /\
    st_pc st' = st_pc st /\ st_fp st' = st_fp st /\ st_sp st' = st_sp st /\
    st_pid st' = st_pid st /\ st_tid st' = st_tid st /\ st_pending_unwinder st' = 0 /\
    st_stopped st' = st_stopped st /\ st_tail_calls st' = st_tail_calls st /\
    (flags_of rec' = flags_of rec \/
     flags_of rec' = Z.lor (flags_of rec) WALKER_FLAG_FRAME_PUSH_REFUSED) /\
    (exists more, Forall is_interp more /\ forall fs, holds rec (st_n_pcs st) fs ->
       holds rec' (st_n_pcs st') (fs ++ more));
}.

Class Unwinder {D M} (m : world D M -> outcome (world D M)) : Prop :=
  unwinder_returns : forall w st rec,
    world_wf w -> walk_state_get w = Some st -> walk_record_get w = Some rec ->
    (exists fs, holds rec (st_n_pcs st) fs) ->
    exists w', m w = TailCall INTERP_SLOT_RESUME_STEP w' w' /\ module_step w w' st rec.

(** ** Whole samples *)

Section runs.
  Context (ev : env) (t : tables) {P M : Type}.
  Local Abbreviation W := (world (driver P) M).
  Context (finish : Z -> W -> W) (modules : Z -> option (W -> outcome W)).
  Context (Hhandoff : handoff_wf t).
  Context (Hmodules : forall id m, modules id = Some m -> Unwinder m).

  (** An invariant of what the modules own: their words of the walk state, the
      sample's process, the interpreter frames recorded so far and their maps. *)
  Context (J : list Z -> Z -> Z -> list frame -> M -> Prop).

Definition J_at (w : W) : Prop :=
  exists st rec fs, walk_state_get w = Some st /\ walk_record_get w = Some rec /\
    holds rec (st_n_pcs st) fs /\
    J (st_interp_scratch st) (st_interp_done st) (st_pid st) (interp_frames fs) (mdl w).

  Context (HJ : forall id m w slot w' wf, modules id = Some m -> world_wf w -> J_at w ->
    m w = TailCall slot w' wf -> J_at w').

(** From one program's entry to a later one's: the sample keeps its identity
    and the driver's own maps, and its record only grows. *)
Record progress (w w' : W) (d : Z -> Z) : Prop := {
  pr_wf : world_wf w';
  pr_priv : d_priv (drv w') = d_priv (drv w);
  pr_stats : shifted (interp_stats w) (interp_stats w') d;
  pr_state : forall st rec, walk_state_get w = Some st -> walk_record_get w = Some rec ->
    exists st' rec', walk_state_get w' = Some st' /\ walk_record_get w' = Some rec' /\
      st_pid st' = st_pid st /\ st_tid st' = st_tid st /\
      exists more, forall fs, holds rec (st_n_pcs st) fs -> holds rec' (st_n_pcs st') (fs ++ more);
  pr_inv : J_at w -> J_at w';
  pr_clock : (readings w <= readings w')%nat;
}.

Lemma progress_trans w1 w2 w3 d1 d2 :
  progress w1 w2 d1 -> progress w2 w3 d2 -> progress w1 w3 (fun i => d1 i + d2 i).
Proof.
  intros [W1 P1 S1 H1 J1 C1] [W2 P2 S2 H2 J2 C2].
  split; [done|congruence|by eapply shifted_trans| |auto|lia].
  intros st rec Hst Hrec. destruct (H1 st rec Hst Hrec) as (st1 & rec1 & Hs1 & Hr1 & E1 & E2 & m1 & F1).
  destruct (H2 st1 rec1 Hs1 Hr1) as (st2 & rec2 & Hs2 & Hr2 & E3 & E4 & m2 & F2).
  exists st2, rec2. split_and!; try done; try congruence.
  exists (m1 ++ m2). intros fs Hfs. rewrite app_assoc. auto.
Qed.

(** The entry of a walk after [b] round trips. *)
Definition walk_entry (resumed : bool) (b : Z) (w : W) : Prop :=
  world_wf w /\ exists st rec, walk_state_get w = Some st /\ walk_record_get w = Some rec /\
    st_pending_unwinder st = 0 /\ st_tail_calls st = b /\
    ((st_stopped st = 0 /\ live (walk_load st rec)) \/
     (st_stopped st = 1 /\ resumed = true /\ ended (walk_load st rec))).

(** The entry of a module or of the resume step. *)
Definition handoff_entry (b : Z) (w : W) : Prop :=
  world_wf w /\ exists st rec, walk_state_get w = Some st /\ walk_record_get w = Some rec /\
    st_pending_unwinder st = 0 /\ st_tail_calls st = b /\ st_stopped st = 0 /\
    live (walk_load st rec).

(** What [finish] is called with. *)
Definition walk_final (n : Z) (w : W) : Prop :=
  exists st rec, walk_state_get w = Some st /\ walk_record_get w = Some rec /\
    n = st_n_pcs st /\ ended (walk_load st rec).

(** The books of a whole sample. *)
Record balanced (d : Z -> Z) : Prop := {
  bal_claimed : d INTERP_STAT_CLAIMED = d INTERP_STAT_DISPATCHED + d INTERP_STAT_BUDGET;
  bal_dispatched : d INTERP_STAT_DISPATCHED = d INTERP_STAT_TAILCALL_FAILED + d INTERP_STAT_RESUMED;
  bal_in_range : d INTERP_STAT_CLAIMED <= d INTERP_STAT_IN_RANGE;
  bal_range_hit : d INTERP_STAT_IN_RANGE <= d INTERP_STAT_RANGE_HIT;
  bal_nonneg : 0 <= d INTERP_STAT_TAILCALL_FAILED /\ 0 <= d INTERP_STAT_RESUMED /\
    0 <= d INTERP_STAT_BUDGET;
}.

Lemma commit_get w st s :
  world_wf w ->
  walk_state_get (commit w st s) = Some (walk_save st (ws_ctx s)) /\
  walk_record_get (commit (P:=P) (M:=M) w st s) = Some (wc_rec (ws_ctx s)).
Proof. intros Hwf. by apply (put_walk_get w). Qed.

Lemma commit_wf w st s :
  world_wf w -> length (ws_stats s) = 7%nat -> world_wf (commit (P:=P) (M:=M) w st s).
Proof. intros Hwf Hs. destruct Hwf as (H1 & H2 & _). unfold world_wf, commit, array_store; simpl.
  rewrite H1, H2; simpl. by rewrite !length_insert. Qed.

(** Committing a state the walk grew into. *)
Lemma commit_progress w st rec st' s d :
  world_wf w -> walk_state_get w = Some st -> walk_record_get w = Some rec ->
  st_tid st' = st_tid st -> st_interp_scratch st' = st_interp_scratch st ->
  extends (walk_load st rec) (ws_ctx s) ->
  shifted (interp_stats w) (ws_stats s) d -> (readings w <= ktime_calls (ws_miss s))%nat ->
  progress w (commit w st' s) d.
Proof.
  intros Hwf Hst Hrec Htid Hscr [Hpid Hdone (more & Hnat & Hg)] Hd Hclock.
  destruct (commit_get w st' s Hwf) as [G1 G2]. split.
  - apply commit_wf; [done|]. rewrite (shifted_length _ _ _ Hd). by destruct Hwf as (_ & _ & ?).
  - done.
  - done.
  - intros st0 rec0 H1 H2. assert (st0 = st) as -> by congruence. assert (rec0 = rec) as -> by congruence.
    eexists _, _. split; [exact G1|]. split; [exact G2|]. split_and!; [done..|]. by exists more.
  - intros (st0 & rec0 & fs & H1 & H2 & Hh & HJ0). assert (st0 = st) as -> by congruence.
    assert (rec0 = rec) as -> by congruence.
    eexists _, _, (fs ++ more). split; [exact G1|]. split; [exact G2|]. split; [by apply Hg|].
    rewrite interp_frames_app, (interp_frames_native more), app_nil_r by done. simpl.
    by rewrite Hscr, Hdone, Hpid.
  - done.
Qed.

Lemma clamp_pcs_small n : n <= MAX_FRAMES -> clamp_pcs n = n.
Proof. unfold clamp_pcs. intros. destruct (Z.ltb_spec MAX_FRAMES n); lia. Qed.

Lemma holds_bound r n fs : holds r n fs -> 0 <= n <= MAX_FRAMES.
Proof. by intros (_ & ? & _). Qed.

Lemma ended_clamp c : ended c -> clamp_pcs (wc_n_pcs c) = wc_n_pcs c.
Proof. intros [[fs Hf] _]. apply clamp_pcs_small. apply holds_bound in Hf. lia. Qed.

(** [ended] and [live] do not look at the pending unwinder. *)
Lemma live_pending c u : live (set_wc_pending c u) <-> live c.
Proof. split; intros []; by split. Qed.

Lemma walk_load_save st c : walk_load (walk_save st c) (wc_rec c) = c.
Proof. by destruct c. Qed.

Lemma final_commit w st s :
  world_wf w -> ended (ws_ctx s) ->
  walk_final (clamp_pcs (wc_n_pcs (ws_ctx s))) (commit w st s).
Proof.
  intros Hwf He. destruct (commit_get w st s Hwf) as [G1 G2].
  exists (walk_save st (ws_ctx s)), (wc_rec (ws_ctx s)).
  rewrite walk_load_save. split_and!; try done. by apply ended_clamp.
Qed.

(** The two ways a walk leaves its program. *)
Inductive walk_exit (b : Z) (w : W) : outcome W -> Prop :=
| exit_done n w0 d : progress w w0 d -> walk_final n w0 -> balanced d ->
    d INTERP_STAT_DISPATCHED = 0 -> walk_exit b w (Done (finish n w0))
| exit_claim u n w1 w2 d1 d2 :
    0 < u < 4294967295 -> b < INTERP_TAIL_CALL_BUDGET ->
    progress w w1 d1 -> handoff_entry (b + 1) w1 ->
    walk_delta true (fun i => d1 i - only INTERP_STAT_DISPATCHED i) ->
    progress w w2 d2 -> walk_final n w2 -> balanced d2 -> d2 INTERP_STAT_DISPATCHED = 1 ->
    walk_exit b w (TailCall (INTERP_SLOT_UNWINDER u) w1 (finish n w2)).

Lemma balanced_quiet d : walk_delta false d -> balanced d.
Proof. intros []. split; lia. Qed.

Lemma balanced_budget d :
  walk_delta true d -> balanced (fun i => d i + only INTERP_STAT_BUDGET i).
Proof. intros []. split; unfold only; simpl; lia. Qed.

Lemma balanced_failed d :
  walk_delta true d ->
  balanced (fun i => d i + only INTERP_STAT_DISPATCHED i + only INTERP_STAT_TAILCALL_FAILED i).
Proof. intros []. split; unfold only; simpl; lia. Qed.

(** A walk claimed by [u] that has round trips left. *)
Lemma claimed_exit b w st rec c u stats miss d :
  world_wf w -> walk_state_get w = Some st -> walk_record_get w = Some rec ->
  st_tail_calls st = b -> st_stopped st = 0 -> 0 <= b < INTERP_TAIL_CALL_BUDGET ->
  grows (walk_load st rec) c -> live c -> 0 < u < 4294967295 ->
  shifted (interp_stats w) stats d -> walk_delta true d -> (readings w <= ktime_calls miss)%nat ->
  let s := WState (set_wc_pending c UNWINDER_NATIVE) stats miss in
  let st' := add_tail_call (walk_save st (ws_ctx s)) in
  walk_exit b w (TailCall (INTERP_SLOT_UNWINDER u)
    (commit w st' (count_ws INTERP_STAT_DISPATCHED s))
    (finish (clamp_pcs (wc_n_pcs c))
       (commit w st' (count_ws INTERP_STAT_TAILCALL_FAILED (count_ws INTERP_STAT_DISPATCHED s))))).
Proof using Type.
  intros Hwf Hst Hrec Hb Hstop Hlt Hg Hl Hu Hs Hd Hclock s st'.
  assert (Hlen : length stats = 7%nat).
  { rewrite (shifted_length _ _ _ Hs). by destruct Hwf as (_ & _ & ?). }
  pose proof (shifted_trans _ _ _ _ _ Hs (shifted_count INTERP_STAT_DISPATCHED stats Hlen ltac:(done))) as Hs1.
  assert (Hs2 := shifted_trans _ _ _ _ _ Hs1 (shifted_count INTERP_STAT_TAILCALL_FAILED
    (interp_count INTERP_STAT_DISPATCHED stats)
    ltac:(rewrite (shifted_length _ _ _ Hs1); by destruct Hwf as (_ & _ & ?)) ltac:(done))).
  assert (Hex : extends (walk_load st rec) (ws_ctx s)) by (apply extends_pending; auto with perf).
  set (s1 := count_ws INTERP_STAT_DISPATCHED s).
  set (s2 := count_ws INTERP_STAT_TAILCALL_FAILED s1).
  assert (Htc : u32 (b + 1) = b + 1) by (apply u32_small; unfold INTERP_TAIL_CALL_BUDGET in *; word_lia).
  eapply (exit_claim b w u _ _ _ _ _); [done|lia| | | | | | |].
  - eapply (commit_progress w st rec st' s1); done.
  - split; [apply commit_wf; [done|exact (eq_trans (shifted_length _ _ _ Hs1) (proj2 (proj2 Hwf)))]|].
    destruct (commit_get w st' s1 Hwf) as [G1 G2]. eexists _, _. split; [exact G1|].
    split; [exact G2|]. rewrite walk_load_save. split_and!; try done.
    + simpl. by rewrite Hb.
    + by apply live_pending.
  - destruct Hd. split; unfold only; simpl; lia.
  - eapply (commit_progress w st rec st' s2); done.
  - apply (final_commit w st' s2); [done|]. apply live_ended. by apply live_pending.
  - by apply balanced_failed.
  - destruct Hd. unfold only; simpl; lia.
Qed.

(** Ending the walk here and finishing: the state [s] was grown into. *)
Lemma done_exit b w st rec s d :
  world_wf w -> walk_state_get w = Some st -> walk_record_get w = Some rec ->
  extends (walk_load st rec) (ws_ctx s) ->
  shifted (interp_stats w) (ws_stats s) d -> balanced d -> d INTERP_STAT_DISPATCHED = 0 ->
  ended (ws_ctx s) -> (readings w <= ktime_calls (ws_miss s))%nat ->
  walk_exit b w (Done (finish (clamp_pcs (wc_n_pcs (ws_ctx s))) (commit w st s))).
Proof using Type.
  intros Hwf Hst Hrec Hex Hs Hbal Hd He Hclock.
  eapply exit_done; [by eapply commit_progress|by apply final_commit|done|done].
Qed.

Lemma ended_pending c u : ended (set_wc_pending c u) <-> ended c.
Proof. split; intros []; by split. Qed.

(** The entry program's walk and the resume walk leave in one of two ways. *)
Lemma walk_fn_exit resumed b w :
  walk_entry resumed b w -> 0 <= b <= INTERP_TAIL_CALL_BUDGET ->
  walk_exit b w (walk_fn ev t finish resumed w).
Proof using Hhandoff.
  intros (Hwf & st & rec & Hst & Hrec & Hpend & Hb & Hstop) Hrange.
  unfold walk_fn. rewrite Hst, Hrec. unfold unwind_walk.
  destruct Hstop as [[Hz Hl]|(H1 & -> & He)].
  2:{ rewrite H1. simpl. apply (done_exit b w st rec (start_ws w st rec) (fun _ => 0)); try done.
      - apply grows_extends, grows_refl.
      - apply shifted_refl. }
  rewrite Hz, orb_true_r.
  destruct (walk_loop_ok ev t MAX_FRAMES (start_ws w st rec) Hl (proj2 (proj2 Hwf)))
    as (c & d & Hg & Hs & Hcase). cbn [ws_ctx ws_stats start_ws] in Hs.
  pose proof (walk_loop_clock ev t MAX_FRAMES (start_ws w st rec)) as Hclock.
  set (s := bpf_loop (walk_step ev t) MAX_FRAMES (start_ws w st rec)) in *.
  destruct Hcase as [(u & Hen & Hc & Hu & Hur & Hlc & Hd)|(Hc & Hd & He)].
  - specialize (Hur Hhandoff). rewrite Hen, Hc. simpl.
    rewrite (proj2 (Z.eqb_neq u UNWINDER_NATIVE)) by done. simpl. rewrite Hb.
    destruct (Z.leb_spec INTERP_TAIL_CALL_BUDGET b), (Z.ltb_spec b INTERP_TAIL_CALL_BUDGET); try lia.
    + eapply (done_exit b w st rec (count_ws INTERP_STAT_BUDGET s)).
      1-3: done.
      * simpl. rewrite Hc. auto with perf.
      * eapply shifted_trans; [exact Hs|]. apply shifted_count; [|done].
        rewrite (shifted_length _ _ _ Hs). apply Hwf.
      * by apply balanced_budget.
      * destruct Hd. unfold only; simpl; lia.
      * simpl. rewrite Hc. by apply ended_pending, live_ended.
      * exact Hclock.
    + rewrite Hc. unfold set_wc_pending at 1 2 3 4; simpl.
      eapply (claimed_exit b w st rec c u (ws_stats s) (ws_miss s) d); try done; lia.
  - assert (Hp : wc_pending_unwinder (ws_ctx s) = 0).
    { rewrite Hc, (grows_pending _ _ Hg). exact Hpend. }
    rewrite Hp, andb_false_r. simpl.
    apply (done_exit b w st rec s d); try done; rewrite ?Hc; try done.
    + auto with perf.
    + by apply balanced_quiet.
    + apply Hd.
Qed.

(** A module keeps the walk live and hands it back. *)
Lemma module_exit id m b w :
  modules id = Some m -> handoff_entry b w ->
  exists w', m w = TailCall INTERP_SLOT_RESUME_STEP w' w' /\
    progress w w' (fun _ => 0) /\ handoff_entry b w'.
Proof using Hmodules HJ.
  intros Hm (Hwf & st & rec & Hst & Hrec & Hp & Hb & Hz & [Hf Ho Hr]).
  destruct (Hmodules id m Hm w st rec Hwf Hst Hrec Hf) as (w' & Hmw & [Hwf' Hdrv Hstats Hstate]).
  destruct Hstate as (st' & rec' & Hst' & Hrec' & Epc & Efp & Esp & Epid & Etid & Epend & Estop &
    Etc & Hflags & more & Hint & Hmore).
  exists w'. split; [done|]. split.
  - split; [done|by rewrite Hdrv|rewrite Hstats; apply shifted_refl| |intros Hj; exact (HJ id m w _ w' w' Hm Hwf Hj Hmw)|
      unfold readings; by rewrite Hdrv].
    intros st0 rec0 H1 H2. assert (st0 = st) as -> by congruence.
    assert (rec0 = rec) as -> by congruence.
    exists st', rec'. split_and!; try done. by exists more.
  - split; [done|]. exists st', rec'. split_and!; try done; try congruence.
    destruct Hf as [fs Hf].
    unfold fp_chain_ended, ctx_flags in *. simpl in *.
    split; unfold fp_chain_ended, ctx_flags; simpl.
    + exists (fs ++ more). auto.
    + destruct Hflags as [-> | ->]; [done|]. by apply endings_lor_quiet.
    + rewrite Efp. destruct Hflags as [-> | ->]; [done|].
      rewrite has_flag_lor, orb_false_r. done.
Qed.

(** The one step past the frame the handoff stopped at. *)
Lemma resume_step_exit b w :
  handoff_entry b w ->
  exists w' d, interp_resume_step ev t w = TailCall INTERP_SLOT_RESUME_WALK w' w' /\
    progress w w' (fun i => only INTERP_STAT_RESUMED i + d i) /\ walk_delta false d /\
    walk_entry true b w'.
Proof using Type.
  intros (Hwf & st & rec & Hst & Hrec & Hp & Hb & Hz & Hl).
  unfold interp_resume_step. rewrite Hst, Hrec.
  set (s := count_ws INTERP_STAT_RESUMED (start_ws w st rec)).
  pose proof (shifted_count INTERP_STAT_RESUMED (interp_stats w) (proj2 (proj2 Hwf)) ltac:(done)) as H0.
  destruct (unwind_frame_ok ev t false s Hl) as (c & d & Hg & Hs & Hr).
  { simpl. rewrite (shifted_length _ _ _ H0). apply Hwf. }
  pose proof (unwind_frame_clock ev t false s) as Hclock.
  destruct (unwind_frame ev t false s) as [stop s']. simpl in Hs, Hr.
  destruct Hr as [(u & _ & Hlead & _)|(Hc & Hd & He)]; [done|].
  pose proof (shifted_trans _ _ _ _ _ H0 Hs) as Hs'.
  eexists _, d. split; [done|]. split; [|split; [done|]].
  - eapply (commit_progress w st rec); try done.
    + by destruct stop.
    + by destruct stop.
    + rewrite Hc. auto with perf.
  - set (st' := if stop then set_stopped st else st).
    destruct (commit_get w st' s' Hwf) as [G1 G2]. split.
    { apply commit_wf; [done|]. rewrite (shifted_length _ _ _ Hs'). apply Hwf. }
    eexists _, _. split; [exact G1|]. split; [exact G2|]. rewrite walk_load_save, Hc.
    split; [simpl; rewrite (grows_pending _ _ Hg); done|].
    subst st'. destruct stop; simpl; (split; [done|]); [right|left]; done.
Qed.

Lemma unwinder_slot u : 0 < u < 4294967295 ->
  INTERP_SLOT_UNWINDER u <> INTERP_SLOT_RESUME_STEP /\
  INTERP_SLOT_UNWINDER u <> INTERP_SLOT_RESUME_WALK.
Proof.
  intros. unfold INTERP_SLOT_UNWINDER, INTERP_SLOT_RESUME_STEP, INTERP_SLOT_RESUME_WALK.
  rewrite u32_small by word_lia. lia.
Qed.

Lemma progs_step : interp_progs ev t finish modules INTERP_SLOT_RESUME_STEP = Some (interp_resume_step ev t).
Proof. done. Qed.
Lemma progs_walk :
  interp_progs ev t finish modules INTERP_SLOT_RESUME_WALK = Some (interp_resume_walk ev t finish).
Proof. done. Qed.

(** Books of a round trip followed by the rest of the sample. *)
Lemma balanced_round d1 d2 d3 :
  walk_delta true (fun i => d1 i - only INTERP_STAT_DISPATCHED i) -> walk_delta false d2 ->
  balanced d3 ->
  balanced (fun i => d1 i + (0 + (only INTERP_STAT_RESUMED i + d2 i + d3 i))).
Proof. unfold only. intros [] [] []; simpl in *. split; simpl; lia. Qed.

(** What a sample comes to, from any walk entry with [k] round trips left. *)
Lemma run_walk k resumed b w limit :
  Z.of_nat k = INTERP_TAIL_CALL_BUDGET - b -> 0 <= b -> (3 * k <= limit)%nat ->
  walk_entry resumed b w ->
  exists n w0 d c,
    run (interp_progs ev t finish modules) limit (walk_fn ev t finish resumed w) = (finish n w0, c) /\
    (c <= 3 * k)%nat /\ progress w w0 d /\ walk_final n w0 /\ balanced d.
Proof using Hhandoff Hmodules HJ.
  revert resumed b w limit. induction k as [|k IH]; intros resumed b w limit Hk Hb Hlim He.
  all: destruct (walk_fn_exit resumed b w He ltac:(lia))
    as [n w0 d Hp Hf Hbal _|u n w1 w2 d1 d2 Hu Hlt Hp1 He1 Hd1 Hp2 Hf2 Hbal2 _].
  - exists n, w0, d, 0%nat. destruct limit; by split_and!; auto with lia.
  - lia.
  - exists n, w0, d, 0%nat. destruct limit; split_and!; auto with lia.
  - destruct limit as [|[|[|limit]]]; [lia..|].
    destruct (unwinder_slot u Hu) as [Hs0 Hs1].
    assert (Hstop : exists n0 w0 d c, (finish n w2, 0%nat) = (finish n0 w0, c) /\
      (c <= 3 * S k)%nat /\ progress w w0 d /\ walk_final n0 w0 /\ balanced d)
      by (exists n, w2, d2, 0%nat; split_and!; auto with lia).
    cbn [run]. unfold interp_progs at 1.
    rewrite (proj2 (Z.eqb_neq _ _) Hs0), (proj2 (Z.eqb_neq _ _) Hs1).
    destruct (_ <? _); [|done].
    destruct (modules _) as [m|] eqn:Em; [|done]. clear Hstop.
    destruct (module_exit _ m (b + 1) w1 Em He1) as (w3 & -> & Hp3 & He3).
    cbn [run]. rewrite progs_step.
    destruct (resume_step_exit (b + 1) w3 He3) as (w4 & d4 & -> & Hp4 & Hd4 & He4).
    cbn [run]. rewrite progs_walk. unfold interp_resume_walk at 1.
    destruct (IH true (b + 1) w4 limit ltac:(lia) ltac:(lia) ltac:(lia) He4)
      as (n5 & w5 & d5 & c5 & -> & Hc5 & Hp5 & Hf5 & Hbal5).
    exists n5, w5, (fun i => d1 i + (0 + (only INTERP_STAT_RESUMED i + d4 i + d5 i))), (S (S (S c5))).
    split_and!; [done|lia| |done|by apply balanced_round].
    eapply progress_trans; [done|]. eapply progress_trans; [done|]. by eapply progress_trans.
Qed.

(** A driver's start of a fresh sample. *)
Definition begin_walk (w : W) (rec : sample_record) (pid tid pc fp sp : Z) : W :=
  let '(st, rec) := unwind_walk_begin rec pid tid pc fp sp in put_walk w st rec.

Lemma begin_get w rec pid tid pc fp sp :
  world_wf w ->
  walk_state_get (begin_walk w rec pid tid pc fp sp) =
    Some (unwind_walk_begin rec pid tid pc fp sp).1 /\
  walk_record_get (begin_walk w rec pid tid pc fp sp) = Some (set_flags rec 0).
Proof using Type. intros Hwf. by apply put_walk_get. Qed.

Lemma begin_entry w rec pid tid pc fp sp :
  world_wf w -> record_wf rec -> walk_entry false 0 (begin_walk w rec pid tid pc fp sp).
Proof using Type.
  intros Hwf Hrec. destruct (begin_get w rec pid tid pc fp sp Hwf) as [G1 G2].
  split; [by apply put_walk_wf|]. eexists _, _. split; [exact G1|]. split; [exact G2|].
  split_and!; try done. left. split; [done|]. split; [by exists []|done|done].
Qed.

(** What a whole sample comes to, for any tail-call ceiling of at least 30. *)
Lemma run_fresh limit w rec pid tid pc fp sp :
  world_wf w -> record_wf rec -> (30 <= limit)%nat ->
  let w1 := begin_walk w rec pid tid pc fp sp in
  exists n w0 d c,
    run (interp_progs ev t finish modules) limit (walk_fn ev t finish false w1) = (finish n w0, c) /\
    (c <= 30)%nat /\ progress w1 w0 d /\ walk_final n w0 /\ balanced d.
Proof using Hhandoff Hmodules HJ.
  intros Hwf Hrec Hlim w1. apply (run_walk 10 false 0 w1 limit); [done|done|lia|].
  by apply begin_entry.
Qed.

(** The invariant at the start of a fresh sample and at its end. *)
Lemma begin_J w rec pid tid pc fp sp :
  world_wf w -> record_wf rec -> J [0; 0; 0; 0] 0 pid [] (mdl w) ->
  J_at (begin_walk w rec pid tid pc fp sp).
Proof using Type.
  intros Hwf Hrec Hj. destruct (begin_get w rec pid tid pc fp sp Hwf) as [G1 G2].
  eexists _, _, []. split; [exact G1|]. split; [exact G2|]. by split.
Qed.
End runs.

Section samples.
  Context (ev : env) (t : tables) {P M : Type}.
  Local Abbreviation W := (world (driver P) M).
  Context (finish : Z -> W -> W) (modules : Z -> option (W -> outcome W)).
  Context (Hhandoff : handoff_wf t).
  Context (Hmodules : forall id m, modules id = Some m -> Unwinder m).

(** Without an invariant of the modules' own. *)
Lemma run_plain w rec pid tid pc fp sp :
  world_wf w -> record_wf rec ->
  let w1 := begin_walk w rec pid tid pc fp sp in
  exists n w0 d c,
    run (interp_progs ev t finish modules) MAX_TAIL_CALL_CNT (walk_fn ev t finish false w1) =
    (finish n w0, c) /\
    (c <= 30)%nat /\ progress (fun _ _ _ _ _ => True) w1 w0 d /\ walk_final n w0 /\ balanced d.
Proof using Hhandoff Hmodules.
  intros Hwf Hrec. eapply run_fresh; try done; [|unfold MAX_TAIL_CALL_CNT; lia].
  intros id m w2 slot w' wf Hm Hwf2 Hj Heq. destruct Hj as (st & rec2 & fs & H1 & H2 & H3 & _).
  destruct (Hmodules id m Hm w2 st rec2 Hwf2 H1 H2) as (w3 & Hw3 & [_ _ _ Hs]); [by exists fs|].
  rewrite Hw3 in Heq. injection Heq as _ <- _.
  destruct Hs as (st' & rec' & G1 & G2 & _ & _ & _ & _ & _ & _ & _ & _ & _ & more & _ & Hmore).
  exists st', rec', (fs ++ more). auto.
Qed.

(** C2: Every sample is finished exactly once and the budget always stops it
    before the kernel does. From any state of the maps, with any unwinders
    installed that keep their promise, a fresh sample runs through at most 30
    tail calls and ends in the driver's finishing code, applied to a state in
    which the driver's own maps are as before the sample; so whatever the
    finishing code counts there, one at a time, the sample raises by exactly
    one. The kernel's ceiling on tail calls plays no part in the result. *)
Theorem sample_finishes_once w rec pid tid pc fp sp :
  world_wf w -> record_wf rec ->
  let w1 := begin_walk w rec pid tid pc fp sp in
  (exists n w0 c, run_sample ev t finish modules w1 = (finish n w0, c) /\ (c <= 30)%nat /\
    d_priv (drv w0) = d_priv (drv w) /\
    forall limit, (MAX_TAIL_CALL_CNT <= limit)%nat ->
      run (interp_progs ev t finish modules) limit (walk_fn ev t finish false w1) = (finish n w0, c)) /\
  forall count : P -> Z, (forall n w, count (d_priv (drv (finish n w))) = count (d_priv (drv w)) + 1) ->
    count (d_priv (drv (run_sample ev t finish modules w1).1)) = count (d_priv (drv w)) + 1.
Proof using Hhandoff Hmodules.
  intros Hwf Hrec w1.
  destruct (run_plain w rec pid tid pc fp sp Hwf Hrec) as (n & w0 & d & c & E & Hc & Hp & _).
  pose proof (pr_priv _ _ _ _ Hp) as Hpriv.
  split; [|intros count Hcount; subst w1; unfold run_sample; rewrite E; simpl; by rewrite Hcount, Hpriv].
  exists n, w0, c. split; [exact E|]. split; [done|]. split; [exact Hpriv|]. intros limit Hlim.
  pose proof (run_enough (interp_progs ev t finish modules) MAX_TAIL_CALL_CNT limit
    (walk_fn ev t finish false w1)) as Hen. subst w1. rewrite E in Hen. apply Hen; [|done].
  unfold MAX_TAIL_CALL_CNT. simpl. lia.
Qed.

(** C4: What the driver finishes is a well-formed sample of the thread it
    started: the persisted state still names the same process and thread, the
    record reads as a list of frames of exactly the reported number of slots,
    which fits the 8-bit header field without truncation, and its flags name at
    most one ending, a root disagreement only past a terminated chain and the
    three failures only before it. The driver's own maps are untouched. *)
Theorem sample_record_well_formed w rec pid tid pc fp sp :
  world_wf w -> record_wf rec ->
  exists n w0 c st rec' fs,
    run_sample ev t finish modules (begin_walk w rec pid tid pc fp sp) = (finish n w0, c) /\
    walk_state_get w0 = Some st /\ walk_record_get w0 = Some rec' /\
    st_pid st = pid /\ st_tid st = tid /\ holds rec' n fs /\ u8 n = n /\
    flags_final (flags_of rec') /\ d_priv (drv w0) = d_priv (drv w).
Proof using Hhandoff Hmodules.
  intros Hwf Hrec.
  destruct (run_plain w rec pid tid pc fp sp Hwf Hrec)
    as (n & w0 & d & c & E & _ & Hp & (st & rec' & H1 & H2 & Hn & [Hf Hfl]) & _).
  destruct (begin_get w rec pid tid pc fp sp Hwf) as [G1 G2].
  destruct (pr_state _ _ _ _ Hp _ _ G1 G2) as (st' & rec'' & H1' & H2' & Hpid & Htid & _).
  assert (st' = st) as -> by congruence. destruct Hf as [fs Hf]. simpl in Hf. subst n.
  exists (st_n_pcs st), w0, c, st, rec', fs. split_and!; try done.
  - apply u8_small. apply holds_bound in Hf. unfold MAX_FRAMES in Hf. word_lia.
  - exact (pr_priv _ _ _ _ Hp).
Qed.

(** The dispatch counters of a sample add up. Whatever happened to it, the
    claims it made equal the dispatches plus the budget refusals, the
    dispatches equal the failed tail calls plus the resumptions, and no more
    frames were claimed than were in range, or in range than had a range. *)
Theorem sample_counters_balance w rec pid tid pc fp sp :
  world_wf w -> record_wf rec ->
  exists n w0 c d,
    run_sample ev t finish modules (begin_walk w rec pid tid pc fp sp) = (finish n w0, c) /\
    shifted (interp_stats w) (interp_stats w0) d /\ balanced d.
Proof using Hhandoff Hmodules.
  intros Hwf Hrec.
  destruct (run_plain w rec pid tid pc fp sp Hwf Hrec)
    as (n & w0 & d & c & E & _ & Hp & _ & Hb).
  exists n, w0, c, d. split_and!; [exact E|exact (pr_stats _ _ _ _ Hp)|done].
Qed.
End samples.

(** ** A concrete sample

    A process whose every frame is claimed by unwinder 1, and a module that
    claims nothing back: it returns at once. *)

Definition idle_module {D M} (w : world D M) : outcome (world D M) :=
  match walk_state_get w, walk_record_get w with
  | Some st, Some rec => interp_return_to_native w st rec
  | _, _ => Done w
  end.

#[export] Instance idle_unwinder {D M} : Unwinder (@idle_module D M).
Proof.
  intros w st rec Hwf Hst Hrec _. unfold idle_module. rewrite Hst, Hrec.
  eexists. split; [done|].
  destruct (put_walk_get w (set_pending st 0) rec Hwf) as [G1 G2].
  split; [by apply put_walk_wf|done|done|].
  exists (set_pending st 0), rec. split_and!; try done; [by left|].
  exists []. split; [done|]. intros fs. by rewrite app_nil_r.
Qed.

Definition claimed_tables : tables :=
  Tables ∅ ∅ {[ 42 := [PidMapping 0 0x10000 0 1] ]} {[ 42 := 1 ]}
         {[ 1 := HandoffRange [(0, 0x10000)] 1 ]} true.
Definition idle_modules (id : Z) : option (world (driver Z) unit -> outcome (world (driver Z) unit)) :=
  if id =? 1 then Some idle_module else None.
Definition demo_world : world (driver Z) unit :=
  World [stale_record] [Persist 0 0 0 [] 0 0 0 0 0 0 0] (replicate 7 0) (Drv no_misses 0) tt.
(** A driver that counts the samples it finishes. *)
Definition demo_finish (n : Z) (w : world (driver Z) unit) : world (driver Z) unit :=
  World (walker_scratch w) (walk_states w) (interp_stats w) (Drv (d_miss (drv w)) (d_priv (drv w) + 1)) (mdl w).

Lemma claimed_handoff_wf : handoff_wf claimed_tables.
Proof.
  intros tid h. simpl. intros [_ <-]%lookup_singleton_Some. simpl. lia.
Qed.

Lemma idle_modules_ok : forall id m, idle_modules id = Some m -> Unwinder m.
Proof. unfold idle_modules. intros id m. case_match; [|done]. intros [= <-]. apply _. Qed.

Lemma sample_finishes_once_witness :
  d_priv (drv (run_sample mixed_env claimed_tables demo_finish idle_modules
    (begin_walk demo_world stale_record 42 43 0x1010 0x600 0x500)).1) = 1.
Proof.
  exact (proj2 (sample_finishes_once mixed_env claimed_tables demo_finish idle_modules
    claimed_handoff_wf idle_modules_ok demo_world stale_record 42 43 0x1010 0x600 0x500 ltac:(done) ltac:(done))
    (fun z => z) (fun _ _ => eq_refl)).
Defined.

Lemma sample_record_well_formed_witness :
  exists n w0 c st rec' fs,
    run_sample mixed_env claimed_tables demo_finish idle_modules
      (begin_walk demo_world stale_record 42 43 0x1010 0x600 0x500) = (demo_finish n w0, c) /\
    walk_state_get w0 = Some st /\ walk_record_get w0 = Some rec' /\
    st_pid st = 42 /\ st_tid st = 43 /\ holds rec' n fs /\ u8 n = n /\
    flags_final (flags_of rec') /\ d_priv (drv w0) = 0.
Proof.
  apply (sample_record_well_formed mixed_env claimed_tables demo_finish idle_modules
           claimed_handoff_wf idle_modules_ok demo_world stale_record 42 43 0x1010 0x600 0x500);
    done.
Defined.

Lemma sample_counters_balance_witness :
  exists n w0 c d,
    run_sample mixed_env claimed_tables demo_finish idle_modules
      (begin_walk demo_world stale_record 42 43 0x1010 0x600 0x500) = (demo_finish n w0, c) /\
    shifted (replicate 7 0) (interp_stats w0) d /\ balanced d.
Proof.
  apply (sample_counters_balance mixed_env claimed_tables demo_finish idle_modules
           claimed_handoff_wf idle_modules_ok demo_world stale_record 42 43 0x1010 0x600 0x500);
    done.
Defined.

(** The same sample, evaluated: four frames, the first three dispatched and resumed. *)
Example demo_sample :
  let '(w, c) := run_sample mixed_env claimed_tables demo_finish idle_modules
      (begin_walk demo_world stale_record 42 43 0x1010 0x600 0x500) in
  c = 9%nat /\ interp_stats w = [3; 3; 3; 3; 0; 0; 3].
Proof. vm_compute. done. Qed.
