(* ===== verification/Python.v ===== *)
(** * Python: the CPython frame walker

    Models src/bpf/interp/python/python_walk.h and the three identical programs
    of python_walk.bpf.c: the module the native walker hands a sample to when it
    reaches an eval loop.  It is proved to keep the promise [Unwinder] makes to
    the walker, to record every frame of the interpreter's chain at most once,
    in order and with none skipped, and to count what it counts once. *)
From S2P Require Import Prelude Bpf Record Tables Walker Driver.

(** ** Data *)

Definition INTERP_ID_PYTHON : Z := 1.

Record py_proc_info := PyProcInfo {
  none_addr : Z;
  tss_key : Z;
  pthread_specific1stblock : Z;
  pthread_key_data_size : Z;
  pthread_key_data_off : Z;
  pthread_size : Z;
  frame_previous : Z;
  frame_executable : Z;
  frame_instr_ptr : Z;
  frame_owner : Z;
  threadstate_frame : Z;
  code_argcount : Z;
  code_kwonlyargcount : Z;
  code_flags : Z;
  code_firstlineno : Z;
  frame_owner_max : Z;
  frame_owner_cstack : Z;
  frame_owner_boundary : Z;
  frame_executable_tagged : Z;
  threadstate_frame_indirect : Z;
  py_enabled : Z;
}.

(** The maps of this object: the validated processes, the counters and the
    per-CPU copy of one interpreter frame. *)
Record py_maps := PyMaps {
  py_procs : gmap Z py_proc_info;
  py_walk_counters : list Z;
  py_frame_scratch : list (list Z);
}.

(** What the program reads from the running task: user memory, whether there is
    a current task, and the thread pointer the kernel keeps for it. *)
Inductive arch := X86 | Arm64 | OtherArch.
Record py_env := PyEnv {
  pe_mem : umem;
  pe_task : bool;
  pe_tls : option Z;
  pe_arch : arch;
}.

Definition PY_TSS_KEYS_PER_BLOCK : Z := 32.

Definition PY_CNT_FRAMES_PUSHED : Z := 0.
Definition PY_CNT_TSS_MISS : Z := 1.
Definition PY_CNT_NO_PROC_INFO : Z := 2.
Definition PY_CNT_TSTATE_READ_FAIL : Z := 3.
Definition PY_CNT_FRAME_READ_FAIL : Z := 4.
Definition PY_CNT_OWNER_IMPLAUSIBLE : Z := 5.
Definition PY_CNT_CHAIN_TRUNCATED : Z := 6.
Definition PY_CNT_PUSH_REFUSED : Z := 7.
Definition PY_CNT_NONE_EXECUTABLE : Z := 8.
Definition PY_CNT_CHAIN_ABANDONED : Z := 9.
Definition PY_CNT_MAX : Z := 10.

Definition PY_FRAME_WINDOW : Z := 96.

Definition PY_SCRATCH_FRAME : nat := 0.
Definition PY_SCRATCH_STATE : nat := 1.
Definition PY_CHAIN_UNSTARTED : Z := 0.
Definition PY_CHAIN_ACTIVE : Z := 1.
Definition PY_CHAIN_DONE : Z := 2.

Definition PY_STACKREF_TAG_BITS : Z := 3.

(** [1u << INTERP_ID_PYTHON] *)
Definition PY_DONE_BIT : Z := u32 (Z.shiftl 1 INTERP_ID_PYTHON).

(** ** Counters *)

Definition py_count (slot : Z) (counters : list Z) : list Z :=
  if PY_CNT_MAX <=? slot then counters else bump counters slot.

Definition py_count_undo (slot : Z) (counters : list Z) : list Z :=
  if PY_CNT_MAX <=? slot then counters
  else match array_lookup counters slot with
       | Some d => if 0 <? d then array_store counters slot (u64 (d - 1)) else counters
       | None => counters
       end.

(** ** Reaching the thread state *)

(** Zero is NULL: any failure to read, or a key past the first block. *)
Definition py_tss_get (pe : py_env) (key : Z) (pi : option py_proc_info) : Z :=
  match pi with
  | None => 0
  | Some pi =>
      if PY_TSS_KEYS_PER_BLOCK <=? key then 0
      else if negb (pe_task pe) then 0
      else
        let tls_base :=
          match pe_arch pe with
          | X86 => pe_tls pe
          | Arm64 => (fun b => u64 (b - pthread_size pi)) <$> pe_tls pe
          | OtherArch => None
          end in
        match tls_base with
        | None => 0
        | Some tls_base =>
            let slot := u64 (tls_base + pthread_specific1stblock pi
                             + key * pthread_key_data_size pi + pthread_key_data_off pi) in
            default 0 (read_u64 (pe_mem pe) slot)
        end
  end.

(** ** One segment of the chain *)

Record py_seg := PySeg {
  seg_rec : sample_record;
  seg_pi : option py_proc_info;
  seg_frame : Z;
  seg_n_pcs : Z;
  seg_state : Z;
  seg_stopped : Z;
}.

(** The segment and the maps its callback writes. *)
Record py_step_state := PyStep {
  ps_seg : py_seg;
  ps_counters : list Z;
  ps_window : list (list Z);
}.

Definition seg_end (s : py_seg) (state : Z) : py_seg :=
  PySeg (seg_rec s) (seg_pi s) (seg_frame s) (seg_n_pcs s) state 1.

Definition window_u8 (w : list Z) (off : Z) : Z := u8 (default 0 (w !! Z.to_nat off)).
Definition window_u64 (w : list Z) (off : Z) : Z := le_decode (take 8 (drop (Z.to_nat off) w)).

Definition offsets_fit (pi : py_proc_info) : bool :=
  negb ((PY_FRAME_WINDOW - 1 <? frame_owner pi) || (PY_FRAME_WINDOW - 8 <? frame_previous pi) ||
        (PY_FRAME_WINDOW - 8 <? frame_executable pi) || (PY_FRAME_WINDOW - 8 <? frame_instr_ptr pi)).

(** [exec] after the tag bits a 3.14 stack reference carries are cleared. *)
Definition untag (pi : py_proc_info) (exec : Z) : Z :=
  if negb (frame_executable_tagged pi =? 0)
  then Z.land exec (u64 (Z.lnot PY_STACKREF_TAG_BITS)) else exec.

Definition py_seg_step (pe : py_env) (idx : Z) (ps : py_step_state) : bool * py_step_state :=
  let s := ps_seg ps in
  let stop s counters window := (true, PyStep s counters window) in
  let fail cnt window := stop (seg_end s PY_CHAIN_DONE) (py_count cnt (ps_counters ps)) window in
  match seg_pi s with
  | None => stop (seg_end s PY_CHAIN_DONE) (ps_counters ps) (ps_window ps)
  | Some pi =>
      let frame := seg_frame s in
      if frame =? 0 then stop (seg_end s PY_CHAIN_DONE) (ps_counters ps) (ps_window ps)
      else if negb (offsets_fit pi) then fail PY_CNT_FRAME_READ_FAIL (ps_window ps)
      else
        match array_lookup (ps_window ps) 0 with
        | None => fail PY_CNT_FRAME_READ_FAIL (ps_window ps)
        | Some _ =>
            match probe_read_user (pe_mem pe) frame (Z.to_nat PY_FRAME_WINDOW) with
            | None => (* a failed read clears the buffer *)
                fail PY_CNT_FRAME_READ_FAIL
                     (array_store (ps_window ps) 0 (repeat 0 (Z.to_nat PY_FRAME_WINDOW)))
            | Some w =>
                let window := array_store (ps_window ps) 0 w in
                let owner := window_u8 w (frame_owner pi) in
                if frame_owner_max pi <? owner then fail PY_CNT_OWNER_IMPLAUSIBLE window
                else
                  let prev := window_u64 w (frame_previous pi) in
                  if frame_owner_boundary pi <=? owner then
                    let s := if negb (prev =? 0)
                             then PySeg (seg_rec s) (seg_pi s) prev (seg_n_pcs s) PY_CHAIN_ACTIVE 1
                             else seg_end s PY_CHAIN_DONE in
                    stop s (ps_counters ps) window
                  else
                    let exec := untag pi (window_u64 w (frame_executable pi)) in
                    let instr := window_u64 w (frame_instr_ptr pi) in
                    if (exec =? 0) || (negb (none_addr pi =? 0) && (exec =? none_addr pi))
                    then fail PY_CNT_NONE_EXECUTABLE window
                    else
                      let '(refused, rec, n) :=
                        record_push_interp (seg_rec s) (seg_n_pcs s) INTERP_ID_PYTHON exec instr in
                      if refused then
                        stop (PySeg rec (seg_pi s) frame n PY_CHAIN_DONE 1)
                             (py_count PY_CNT_CHAIN_TRUNCATED
                                (py_count PY_CNT_PUSH_REFUSED (ps_counters ps))) window
                      else
                        (false, PyStep (PySeg rec (seg_pi s) prev n (seg_state s) (seg_stopped s))
                                       (py_count PY_CNT_FRAMES_PUSHED (ps_counters ps)) window)
            end
        end
  end.

(** ** The module *)

Definition set_py (st : walk_persist) (scratch : list Z) (n done : Z) : walk_persist :=
  Persist (st_pc st) (st_fp st) (st_sp st) scratch (st_pid st) (st_tid st) n
          (st_pending_unwinder st) done (st_stopped st) (st_tail_calls st).

Definition put_state (st : walk_persist) (state : Z) : walk_persist :=
  set_py st (<[PY_SCRATCH_STATE := state]> (st_interp_scratch st)) (st_n_pcs st) (st_interp_done st).

Definition mark_done (st : walk_persist) : walk_persist :=
  set_py st (st_interp_scratch st) (st_n_pcs st) (Z.lor (st_interp_done st) PY_DONE_BIT).

Definition unmark_done (st : walk_persist) : walk_persist :=
  set_py st (st_interp_scratch st) (st_n_pcs st)
         (Z.land (st_interp_done st) (u32 (Z.lnot PY_DONE_BIT))).

Definition py_state (st : walk_persist) : Z :=
  u8 (default 0 (st_interp_scratch st !! PY_SCRATCH_STATE)).

(** The frame a fresh chain starts at, or the counter that names why there is
    none. *)
Definition thread_frame (pe : py_env) (pi : py_proc_info) : Z + Z :=
  let tstate := py_tss_get pe (tss_key pi) (Some pi) in
  if tstate =? 0 then inr PY_CNT_TSS_MISS
  else match read_u64 (pe_mem pe) (u64 (tstate + threadstate_frame pi)) with
       | None => inr PY_CNT_TSTATE_READ_FAIL
       | Some p =>
           if negb (threadstate_frame_indirect pi =? 0) then
             if p =? 0 then inr PY_CNT_TSTATE_READ_FAIL
             else match read_u64 (pe_mem pe) p with
                  | None => inr PY_CNT_TSTATE_READ_FAIL
                  | Some q => inl q
                  end
           else inl p
       end.

(** From the cursor on: walk, then record where the chain stands. *)
Definition py_walk_from (pe : py_env) (pi : py_proc_info) (frame : Z) (st : walk_persist)
    (rec : sample_record) (m : py_maps) : walk_persist * sample_record * py_maps :=
  let ps := bpf_loop (py_seg_step pe) MAX_FRAMES
              (PyStep (PySeg rec (Some pi) frame (st_n_pcs st) PY_CHAIN_DONE 0)
                      (py_walk_counters m) (py_frame_scratch m)) in
  let seg := ps_seg ps in
  let st := set_py st (st_interp_scratch st) (seg_n_pcs seg) (st_interp_done st) in
  let '(state, counters) :=
    if seg_stopped seg =? 0 then (PY_CHAIN_DONE, py_count PY_CNT_CHAIN_TRUNCATED (ps_counters ps))
    else (seg_state seg, ps_counters ps) in
  let st := put_state st state in
  let cursor := if state =? PY_CHAIN_ACTIVE then seg_frame seg else 0 in
  let st := set_py st (<[PY_SCRATCH_FRAME := cursor]> (st_interp_scratch st)) (st_n_pcs st)
                   (st_interp_done st) in
  if state =? PY_CHAIN_ACTIVE
  then (st, seg_rec seg, PyMaps (py_procs m) (py_count PY_CNT_CHAIN_ABANDONED counters) (ps_window ps))
  else (mark_done st, seg_rec seg, PyMaps (py_procs m) counters (ps_window ps)).

Definition with_counters (m : py_maps) (c : list Z) : py_maps :=
  PyMaps (py_procs m) c (py_frame_scratch m).

Definition py_walk_segment (pe : py_env) (st : walk_persist) (rec : sample_record) (m : py_maps)
  : walk_persist * sample_record * py_maps :=
  let state := py_state st in
  if state =? PY_CHAIN_DONE then (mark_done st, rec, m)
  else
    match py_procs m !! st_pid st with
    | Some pi =>
        if py_enabled pi =? 0 then
          (mark_done (put_state st PY_CHAIN_DONE), rec,
           if state =? PY_CHAIN_UNSTARTED
           then with_counters m (py_count PY_CNT_NO_PROC_INFO (py_walk_counters m)) else m)
        else if state =? PY_CHAIN_UNSTARTED then
          let st := mark_done (put_state st PY_CHAIN_DONE) in
          match thread_frame pe pi with
          | inr cnt => (st, rec, with_counters m (py_count cnt (py_walk_counters m)))
          | inl frame => py_walk_from pe pi frame (unmark_done st) rec m
          end
        else
          let frame := default 0 (st_interp_scratch st !! PY_SCRATCH_FRAME) in
          py_walk_from pe pi frame st rec
            (with_counters m (py_count_undo PY_CNT_CHAIN_ABANDONED (py_walk_counters m)))
    | None =>
        (mark_done (put_state st PY_CHAIN_DONE), rec,
         if state =? PY_CHAIN_UNSTARTED
         then with_counters m (py_count PY_CNT_NO_PROC_INFO (py_walk_counters m)) else m)
    end.

Definition py_walk {D} (pe : py_env) (w : world D py_maps) : outcome (world D py_maps) :=
  match walk_state_get w, walk_record_get w with
  | Some st, Some rec =>
      let '(st, rec, m) := py_walk_segment pe st rec (mdl w) in
      interp_return_to_native (put_mdl w m) st rec
  | _, _ => Done w
  end.

(** The entry points, one per program type, all the same. *)
Definition interp_python_perf_event {D} (pe : py_env) (w : world D py_maps) := py_walk pe w.
Definition interp_python_sched_switch {D} (pe : py_env) (w : world D py_maps) := py_walk pe w.
Definition interp_python_uprobe {D} (pe : py_env) (w : world D py_maps) := py_walk pe w.

(** ** The interpreter's chain, as CPython lays it out *)

Section chain.
  Context (pe : py_env) (pi : py_proc_info).

(** A frame that can be read and whose owner byte is one this version has. *)
Definition readable (f : Z) (w : list Z) : Prop :=
  f <> 0 /\ offsets_fit pi = true /\
  probe_read_user (pe_mem pe) f (Z.to_nat PY_FRAME_WINDOW) = Some w /\
  window_u8 w (frame_owner pi) <= frame_owner_max pi.

Definition exec_of (w : list Z) : Z := untag pi (window_u64 w (frame_executable pi)).
Definition instr_of (w : list Z) : Z := window_u64 w (frame_instr_ptr pi).
Definition prev_of (w : list Z) : Z := window_u64 w (frame_previous pi).

Inductive chain_step : Z -> option frame -> Z -> Prop :=
(** A frame that runs Python code. *)
| code_frame f w : readable f w ->
    window_u8 w (frame_owner pi) < frame_owner_boundary pi ->
    exec_of w <> 0 -> (none_addr pi = 0 \/ exec_of w <> none_addr pi) ->
    chain_step f (Some (Interp INTERP_ID_PYTHON (exec_of w) (instr_of w))) (prev_of w)
(** The frame through which C entered the interpreter: no code of its own. *)
| entry_frame f w : readable f w ->
    frame_owner_boundary pi <= window_u8 w (frame_owner pi) -> prev_of w <> 0 ->
    chain_step f None (prev_of w).

(** [py_path f fs g]: from [f], the [previous] links lead to [g] through the
    code frames [fs], in this order. *)
Inductive py_path (f : Z) : list frame -> Z -> Prop :=
| path_start : py_path f [] f
| path_code fs g fr h : py_path f fs g -> chain_step g (Some fr) h -> py_path f (fs ++ [fr]) h
| path_entry fs g h : py_path f fs g -> chain_step g None h -> py_path f fs h.

Lemma path_app f fs g gs h : py_path f fs g -> py_path g gs h -> py_path f (fs ++ gs) h.
Proof using Type.
  intros H1 H2. induction H2 as [|gs g' fr h' _ IH Hs|gs g' h' _ IH Hs].
  - by rewrite app_nil_r.
  - rewrite app_assoc. by eapply path_code.
  - by eapply path_entry.
Qed.
End chain.

(** ** Exact counters

    A sample moves each counter by less than 256, so with that much room below
    2^64 the increments add up exactly. *)

Definition roomy (c : list Z) : Prop :=
  length c = 10%nat /\ forall i, 0 <= stat c i < 18446744073709551616 - 256.

Definition counted (c0 c : list Z) (d : Z -> Z) : Prop :=
  length c = 10%nat /\ forall i, stat c i = stat c0 i + d i.

Lemma counted_bump c0 c d slot :
  roomy c0 -> counted c0 c d -> 0 <= slot < PY_CNT_MAX -> 0 <= d slot < 255 ->
  counted c0 (py_count slot c) (fun i => d i + only slot i).
Proof.
  unfold PY_CNT_MAX. intros [_ Hr] [Hl Hc] Hs Hd. unfold py_count, PY_CNT_MAX.
  rewrite (proj2 (Z.leb_gt 10 slot)) by lia. split; [by rewrite bump_length|].
  intros i. rewrite stat_bump by lia. unfold only. destruct (Z.eqb_spec i slot) as [->|]; rewrite Hc; [|lia].
  specialize (Hr slot). rewrite u64_small by word_lia. lia.
Qed.

Lemma counted_undo c0 c d slot :
  roomy c0 -> counted c0 c d -> 0 <= slot < PY_CNT_MAX -> 1 <= d slot < 256 ->
  counted c0 (py_count_undo slot c) (fun i => d i - only slot i).
Proof.
  unfold PY_CNT_MAX. intros [_ Hr] [Hl Hc] Hs Hd. unfold py_count_undo, PY_CNT_MAX.
  rewrite (proj2 (Z.leb_gt 10 slot)) by lia.
  rewrite stat_lookup by lia. specialize (Hr slot). rewrite Hc.
  destruct (Z.ltb_spec 0 (stat c0 slot + d slot)); [|lia].
  rewrite u64_small by word_lia. split; [by rewrite array_store_length|]. intros i. unfold only.
  rewrite stat_store by lia. destruct (Z.eqb_spec i slot) as [->|]; rewrite ?Hc; lia.
Qed.

(** Nothing but frames counted so far. *)
Definition quiet (d : Z -> Z) : Prop := forall i, 1 <= i <= 9 -> d i = 0.

(** At most one reason for giving up; a refused push is counted in two slots. *)
Record one_cause (d : Z -> Z) : Prop := {
  oc_nonneg : forall i, 1 <= i <= 9 -> 0 <= d i;
  oc_refused : d PY_CNT_CHAIN_TRUNCATED = d PY_CNT_PUSH_REFUSED;
  oc_one : d PY_CNT_TSS_MISS + d PY_CNT_NO_PROC_INFO + d PY_CNT_TSTATE_READ_FAIL +
    d PY_CNT_FRAME_READ_FAIL + d PY_CNT_OWNER_IMPLAUSIBLE + d PY_CNT_PUSH_REFUSED +
    d PY_CNT_NONE_EXECUTABLE <= 1;
  oc_finished : d PY_CNT_CHAIN_ABANDONED = 0;
}.

Definition causes : list Z :=
  [PY_CNT_TSS_MISS; PY_CNT_NO_PROC_INFO; PY_CNT_TSTATE_READ_FAIL; PY_CNT_FRAME_READ_FAIL;
   PY_CNT_OWNER_IMPLAUSIBLE; PY_CNT_NONE_EXECUTABLE].

Ltac each_slot H :=
  pose proof (H 1 ltac:(lia)); pose proof (H 2 ltac:(lia)); pose proof (H 3 ltac:(lia));
  pose proof (H 4 ltac:(lia)); pose proof (H 5 ltac:(lia)); pose proof (H 6 ltac:(lia));
  pose proof (H 7 ltac:(lia)); pose proof (H 8 ltac:(lia)); pose proof (H 9 ltac:(lia)).

Lemma quiet_one_cause d : quiet d -> one_cause d.
Proof.
  intros H. each_slot H. split; [intros i Hi; rewrite H; lia|..];
    unfold PY_CNT_TSS_MISS, PY_CNT_NO_PROC_INFO, PY_CNT_TSTATE_READ_FAIL, PY_CNT_FRAME_READ_FAIL,
      PY_CNT_OWNER_IMPLAUSIBLE, PY_CNT_PUSH_REFUSED, PY_CNT_NONE_EXECUTABLE, PY_CNT_CHAIN_TRUNCATED,
      PY_CNT_CHAIN_ABANDONED; lia.
Qed.

Lemma cause_one_cause d k : quiet d -> k ∈ causes -> one_cause (fun i => d i + only k i).
Proof.
  intros H Hk. each_slot H. unfold causes in Hk.
  split; [intros i Hi; rewrite H by lia; unfold only; case_match; lia|..];
    repeat (apply elem_of_cons in Hk as [->|Hk]); try (by apply not_elem_of_nil in Hk);
    unfold only; simpl; unfold PY_CNT_TSS_MISS, PY_CNT_NO_PROC_INFO, PY_CNT_TSTATE_READ_FAIL,
      PY_CNT_FRAME_READ_FAIL, PY_CNT_OWNER_IMPLAUSIBLE, PY_CNT_PUSH_REFUSED,
      PY_CNT_NONE_EXECUTABLE, PY_CNT_CHAIN_TRUNCATED, PY_CNT_CHAIN_ABANDONED; lia.
Qed.

Lemma refusal_one_cause d :
  quiet d ->
  one_cause (fun i => d i + only PY_CNT_PUSH_REFUSED i + only PY_CNT_CHAIN_TRUNCATED i).
Proof.
  intros H. each_slot H.
  split; [intros i Hi; rewrite H by lia; unfold only; repeat case_match; lia|..];
    unfold only; simpl; unfold PY_CNT_TSS_MISS, PY_CNT_NO_PROC_INFO, PY_CNT_TSTATE_READ_FAIL,
      PY_CNT_FRAME_READ_FAIL, PY_CNT_OWNER_IMPLAUSIBLE, PY_CNT_PUSH_REFUSED,
      PY_CNT_NONE_EXECUTABLE, PY_CNT_CHAIN_TRUNCATED, PY_CNT_CHAIN_ABANDONED; lia.
Qed.

(** ** A segment *)

Section segment.
  Context (pe : py_env) (pi : py_proc_info) (c0 : list Z).
  Context (rec0 : sample_record) (gs : list frame) (f0 : Z).

(** What the record and the counters hold [fs] frames into the segment. *)
Record seg_at (s : py_step_state) (fs : list frame) (d : Z -> Z) : Prop := {
  sa_interp : Forall is_interp fs;
  sa_holds : holds (seg_rec (ps_seg s)) (seg_n_pcs (ps_seg s)) (gs ++ fs);
  sa_counted : roomy c0 -> counted c0 (ps_counters s) d;
  sa_frames : d PY_CNT_FRAMES_PUSHED = Z.of_nat (length (interp_frames gs) + length fs);
}.

(** Before the [i]-th iteration. *)
Definition seg_running (i : Z) (s : py_step_state) : Prop :=
  exists fs d, seg_at s fs d /\ seg_pi (ps_seg s) = Some pi /\
    py_path pe pi f0 fs (seg_frame (ps_seg s)) /\ quiet d /\
    flags_of (seg_rec (ps_seg s)) = flags_of rec0 /\ 2 * i <= seg_n_pcs (ps_seg s).

(** When the callback has ended the segment. *)
Definition seg_ended (s : py_step_state) : Prop :=
  exists fs g d, seg_at s fs d /\ py_path pe pi f0 fs g /\ seg_stopped (ps_seg s) = 1 /\
    (flags_of (seg_rec (ps_seg s)) = flags_of rec0 \/
     flags_of (seg_rec (ps_seg s)) = Z.lor (flags_of rec0) WALKER_FLAG_FRAME_PUSH_REFUSED) /\
    ((seg_state (ps_seg s) = PY_CHAIN_ACTIVE /\ seg_frame (ps_seg s) = g /\ g <> 0 /\ quiet d) \/
     (seg_state (ps_seg s) = PY_CHAIN_DONE /\ one_cause d)).

(** Ending a running segment in the same record, for a named cause. *)
Lemma seg_fail i s k window :
  seg_running i s -> k ∈ causes ->
  seg_ended (PyStep (seg_end (ps_seg s) PY_CHAIN_DONE) (py_count k (ps_counters s)) window).
Proof using Type.
  intros (fs & d & [H1 H2 H3 H4] & Hpi & Hpath & Hq & Hfl & _) Hk.
  assert (Hrange : 1 <= k <= 9).
  { unfold causes in Hk. repeat (apply elem_of_cons in Hk as [->|Hk]);
      try (by apply not_elem_of_nil in Hk); done. }
  eexists fs, _, (fun i => d i + only k i). split; [split; simpl; try done|].
  - intros Hroomy. apply counted_bump; [done|auto|unfold PY_CNT_MAX; lia|rewrite Hq; lia].
  - rewrite <- H4. unfold only, PY_CNT_FRAMES_PUSHED. destruct (Z.eqb_spec 0 k); lia.
  - split_and!; [done|done|by left|]. right. split; [done|]. by apply cause_one_cause.
Qed.

(** Ending it for no cause at all. *)
Lemma seg_finish i s window :
  seg_running i s ->
  seg_ended (PyStep (seg_end (ps_seg s) PY_CHAIN_DONE) (ps_counters s) window).
Proof using Type.
  intros (fs & d & [H1 H2 H3 H4] & Hpi & Hpath & Hq & Hfl & _).
  eexists fs, _, d. split; [by split|]. split_and!; [done|done|by left|]. right.
  split; [done|]. by apply quiet_one_cause.
Qed.

Lemma frames_room s fs d : seg_at s fs d -> 0 <= d PY_CNT_FRAMES_PUSHED < 127.
Proof using Type.
  intros [H1 H2 _ H4]. rewrite H4. pose proof (holds_widths _ _ _ H2) as Hw.
  pose proof (interp_frames_widths (gs ++ fs)) as Hi. destruct H2 as (_ & Hn & _).
  rewrite interp_frames_app, (interp_frames_all fs), length_app in Hi by done.
  unfold MAX_FRAMES in Hn. lia.
Qed.

(** A code frame: pushed, or the record is full. *)
Lemma seg_push i s w window :
  seg_running i s -> seg_frame (ps_seg s) <> 0 ->
  chain_step pe pi (seg_frame (ps_seg s))
    (Some (Interp INTERP_ID_PYTHON (exec_of pi w) (instr_of pi w))) (prev_of pi w) ->
  let '(refused, rec, n) := record_push_interp (seg_rec (ps_seg s)) (seg_n_pcs (ps_seg s))
                              INTERP_ID_PYTHON (exec_of pi w) (instr_of pi w) in
  if refused
  then seg_ended (PyStep (PySeg rec (seg_pi (ps_seg s)) (seg_frame (ps_seg s)) n PY_CHAIN_DONE 1)
         (py_count PY_CNT_CHAIN_TRUNCATED (py_count PY_CNT_PUSH_REFUSED (ps_counters s))) window)
  else seg_running (i + 1)
         (PyStep (PySeg rec (seg_pi (ps_seg s)) (prev_of pi w) n (seg_state (ps_seg s))
                    (seg_stopped (ps_seg s)))
            (py_count PY_CNT_FRAMES_PUSHED (ps_counters s)) window).
Proof using Type.
  intros (fs & d & Hat & Hpi & Hpath & Hq & Hfl & Hi) Hnz Hstep.
  pose proof (frames_room s fs d Hat) as Hroom. destruct Hat as [H1 H2 H3 H4].
  destruct (Z.leb_spec (seg_n_pcs (ps_seg s)) (MAX_FRAMES - 2)) as [Hle|Hgt].
  - edestruct (record_push_interp_ok (seg_rec (ps_seg s)) (seg_n_pcs (ps_seg s)) INTERP_ID_PYTHON
      (exec_of pi w) (instr_of pi w) (gs ++ fs) H2 Hle) as (rec' & -> & Hh & Hhdr & _); [done|].
    exists (fs ++ [Interp INTERP_ID_PYTHON (exec_of pi w) (instr_of pi w)]),
      (fun j => d j + only PY_CNT_FRAMES_PUSHED j).
    split; [split; simpl; try done|].
    + apply Forall_app_2; [done|]. by repeat constructor.
    + by rewrite app_assoc.
    + intros Hroomy. apply counted_bump; auto; [done|lia].
    + rewrite H4, length_app. simpl. unfold only; simpl. lia.
    + split_and!; try done; simpl; [by eapply path_code| | |lia].
      * intros j Hj. rewrite Hq by lia. unfold only, PY_CNT_FRAMES_PUSHED.
        destruct (Z.eqb_spec j 0); lia.
      * unfold flags_of in *. by rewrite Hhdr.
  - unfold record_push_interp. rewrite (proj2 (Z.ltb_lt _ _)) by lia.
    eexists fs, _, (fun j => d j + only PY_CNT_PUSH_REFUSED j + only PY_CNT_CHAIN_TRUNCATED j).
    split; [split; simpl; try done|].
    + intros Hroomy. apply counted_bump; [done|apply counted_bump; auto; [done|]|done|];
        rewrite (Hq _) by (unfold PY_CNT_PUSH_REFUSED, PY_CNT_CHAIN_TRUNCATED; lia); done.
    + rewrite <- H4. unfold only; simpl. lia.
    + split_and!; [done|done| |].
      * right. unfold or_flags, flags_of in *; simpl. by rewrite Hfl.
      * right. split; [done|]. by apply refusal_one_cause.
Qed.

Lemma seg_step_ok i s :
  seg_running i s ->
  if (py_seg_step pe i s).1 then seg_ended (py_seg_step pe i s).2
  else seg_running (i + 1) (py_seg_step pe i s).2.
Proof using Type.
  intros Hr. pose proof Hr as (fs & d & [H1 H2 H3 H4] & Hpi & Hpath & Hq & Hfl & Hi).
  unfold py_seg_step. rewrite Hpi.
  destruct (Z.eqb_spec (seg_frame (ps_seg s)) 0) as [Hz|Hnz]; [by eapply seg_finish|].
  destruct (offsets_fit pi) eqn:Hfit; simpl; [|by eapply seg_fail; [|set_solver]].
  destruct (array_lookup (ps_window s) 0); simpl; [|by eapply seg_fail; [|set_solver]].
  destruct (probe_read_user _ _ _) as [w|] eqn:Hw; simpl; [|by eapply seg_fail; [|set_solver]].
  destruct (Z.ltb_spec (frame_owner_max pi) (window_u8 w (frame_owner pi))); simpl.
  { eapply seg_fail; [done|set_solver]. }
  assert (Hread : readable pe pi (seg_frame (ps_seg s)) w) by (by split_and!).
  destruct (Z.leb_spec (frame_owner_boundary pi) (window_u8 w (frame_owner pi))); simpl.
  { destruct (Z.eqb_spec (window_u64 w (frame_previous pi)) 0); simpl; [by eapply seg_finish|].
    eexists fs, _, d. split; [by split; simpl; auto|].
    split; [eapply path_entry; [done|by apply entry_frame]|].
    split_and!; [done|by left|]. by left. }
  destruct (_ || _) eqn:Hnone; simpl; [by eapply seg_fail; [|set_solver]|].
  apply orb_false_iff in Hnone as [Hx%Z.eqb_neq Hn].
  assert (Hcode : chain_step pe pi (seg_frame (ps_seg s))
    (Some (Interp INTERP_ID_PYTHON (exec_of pi w) (instr_of pi w))) (prev_of pi w)).
  { apply code_frame; [done|done|done|]. apply andb_false_iff in Hn as [Hn|Hn].
    - left. apply negb_false_iff in Hn. by apply Z.eqb_eq.
    - right. by apply Z.eqb_neq. }
  pose proof (seg_push i s w (array_store (ps_window s) 0 w) Hr Hnz Hcode) as Hp.
  unfold exec_of, instr_of, prev_of in Hp. rewrite Hpi in Hp.
  destruct (record_push_interp _ _ _ _ _) as [[[] rec] n]; simpl; done.
Qed.

(** The bound of the loop is never what ends a segment. *)
Lemma seg_loop_ok s : seg_running 0 s -> seg_ended (bpf_loop (py_seg_step pe) MAX_FRAMES s).
Proof using Type.
  intros Hr. unfold bpf_loop.
  destruct (bpf_loop_from_count (py_seg_step pe) seg_running seg_ended (Z.to_nat MAX_FRAMES) 0 s
    seg_step_ok Hr) as [H|(fs & d & [_ H _ _] & _ & _ & _ & _ & Hi)]; [done|].
  destruct H as (_ & Hn & _). by destruct (Z.le_trans _ _ _ Hi (proj2 Hn)).
Qed.
End segment.

(** ** The module's effect on a sample *)

(** What the module never touches of the walk state. *)
Record same_walk (st st' : walk_persist) : Prop := {
  sw_pc : st_pc st' = st_pc st;
  sw_fp : st_fp st' = st_fp st;
  sw_sp : st_sp st' = st_sp st;
  sw_pid : st_pid st' = st_pid st;
  sw_tid : st_tid st' = st_tid st;
  sw_pending : st_pending_unwinder st' = st_pending_unwinder st;
  sw_stopped : st_stopped st' = st_stopped st;
  sw_tail_calls : st_tail_calls st' = st_tail_calls st;
}.

Definition same_flags (rec rec' : sample_record) : Prop :=
  flags_of rec' = flags_of rec \/
  flags_of rec' = Z.lor (flags_of rec) WALKER_FLAG_FRAME_PUSH_REFUSED.

Definition cursor_of (st : walk_persist) : Z := default 0 (st_interp_scratch st !! PY_SCRATCH_FRAME).

(** Where a sample's chain stands, given the counters [c0] it started from. *)
Section standing.
  Context (pe : py_env) (procs : gmap Z py_proc_info) (c0 : list Z).

(** The recorded frames are those of the thread's chain up to [g]. *)
Definition recorded_chain (pid : Z) (ifs : list frame) (g : Z) : Prop :=
  exists pi f0, procs !! pid = Some pi /\ py_enabled pi <> 0 /\ thread_frame pe pi = inl f0 /\
    py_path pe pi f0 ifs g.

Inductive standing (scratch : list Z) (done pid : Z) (ifs : list frame) (d : Z -> Z) : Prop :=
| st_unstarted : scratch !! PY_SCRATCH_STATE = Some PY_CHAIN_UNSTARTED -> ifs = [] -> quiet d ->
    Z.testbit done INTERP_ID_PYTHON = false -> standing scratch done pid ifs d
| st_active g : scratch !! PY_SCRATCH_STATE = Some PY_CHAIN_ACTIVE ->
    scratch !! PY_SCRATCH_FRAME = Some g -> g <> 0 -> recorded_chain pid ifs g ->
    quiet (fun i => d i - only PY_CNT_CHAIN_ABANDONED i) ->
    Z.testbit done INTERP_ID_PYTHON = false -> standing scratch done pid ifs d
| st_done : scratch !! PY_SCRATCH_STATE = Some PY_CHAIN_DONE ->
    (ifs = [] \/ exists g, recorded_chain pid ifs g) -> one_cause d ->
    Z.testbit done INTERP_ID_PYTHON = true -> standing scratch done pid ifs d.

(** The invariant of the module's own state over a sample. *)
Definition py_inv (scratch : list Z) (done pid : Z) (ifs : list frame) (m : py_maps) : Prop :=
  length scratch = 4%nat /\ py_procs m = procs /\
  exists d, counted c0 (py_walk_counters m) d /\
    d PY_CNT_FRAMES_PUSHED = Z.of_nat (length ifs) /\ standing scratch done pid ifs d.
End standing.

Lemma done_bit_lor a : Z.testbit (Z.lor a PY_DONE_BIT) INTERP_ID_PYTHON = true.
Proof. rewrite Z.lor_spec. by rewrite orb_true_r. Qed.

Lemma done_bit_cleared a :
  Z.testbit (Z.land a (u32 (Z.lnot PY_DONE_BIT))) INTERP_ID_PYTHON = false.
Proof. rewrite Z.land_spec. by rewrite andb_false_r. Qed.

(** One walk from a cursor, whatever the counters hold. *)
Lemma walk_from_shape pe pi c0 st rec m gs f0 d :
  holds rec (st_n_pcs st) gs -> (roomy c0 -> counted c0 (py_walk_counters m) d) -> quiet d ->
  d PY_CNT_FRAMES_PUSHED = Z.of_nat (length (interp_frames gs)) ->
  exists st' rec' m' fs g d', py_walk_from pe pi f0 st rec m = (st', rec', m') /\
    same_walk st st' /\ same_flags rec rec' /\ Forall is_interp fs /\
    holds rec' (st_n_pcs st') (gs ++ fs) /\ py_procs m' = py_procs m /\ py_path pe pi f0 fs g /\
    (roomy c0 -> counted c0 (py_walk_counters m') d') /\
    d' PY_CNT_FRAMES_PUSHED = Z.of_nat (length (interp_frames (gs ++ fs))) /\
    ((st_interp_scratch st' =
        <[PY_SCRATCH_FRAME := g]> (<[PY_SCRATCH_STATE := PY_CHAIN_ACTIVE]> (st_interp_scratch st)) /\
      g <> 0 /\ st_interp_done st' = st_interp_done st /\
      quiet (fun i => d' i - only PY_CNT_CHAIN_ABANDONED i)) \/
     (st_interp_scratch st' =
        <[PY_SCRATCH_FRAME := 0]> (<[PY_SCRATCH_STATE := PY_CHAIN_DONE]> (st_interp_scratch st)) /\
      st_interp_done st' = Z.lor (st_interp_done st) PY_DONE_BIT /\ one_cause d')).
Proof.
  intros Hh Hcnt Hq Hd0. unfold py_walk_from. set (s0 := PyStep _ _ _).
  destruct (seg_loop_ok pe pi c0 rec gs f0 s0) as
    (fs & g & d' & [H1 H2 H3 H4] & Hp & Hst & Hfl & Hcase).
  { exists [], d. split; [split; simpl; rewrite ?app_nil_r; try done|].
    - rewrite Hd0. f_equal. lia.
    - split_and!; try done; [apply path_start|]. simpl. destruct Hh as (_ & ? & _). lia. }
  set (ps := bpf_loop (py_seg_step pe) MAX_FRAMES s0) in *. rewrite Hst. simpl.
  assert (Hlen : d' PY_CNT_FRAMES_PUSHED = Z.of_nat (length (interp_frames (gs ++ fs)))).
  { rewrite H4, interp_frames_app, (interp_frames_all fs), length_app by done. done. }
  destruct Hcase as [(-> & Hg & Hgz & Hq')|[-> Hoc]]; simpl.
  - eexists _, _, _, fs, g, (fun i => d' i + only PY_CNT_CHAIN_ABANDONED i).
    split; [done|]. split_and!; try done; simpl.
    + intros Hroomy. apply counted_bump; auto; [done|]. by rewrite Hq'.
    + rewrite <- Hlen. unfold only; simpl. lia.
    + left. rewrite Hg. split_and!; try done. intros i Hi. rewrite Hq' by lia. lia.
  - eexists _, _, _, fs, g, d'. split; [done|]. split_and!; try done. by right.
Qed.

(** ** A dispatch *)

(** The part of a dispatch the walker relies on. *)
Record dispatch (st : walk_persist) (rec : sample_record) (gs : list frame)
    (r : walk_persist * sample_record * py_maps) (fs : list frame) : Prop := {
  dp_walk : same_walk st r.1.1;
  dp_flags : same_flags rec r.1.2;
  dp_interp : Forall is_interp fs;
  dp_holds : holds r.1.2 (st_n_pcs r.1.1) (gs ++ fs);
}.

(** A dispatch that appends nothing. *)
Lemma dispatch_none st rec gs st' m :
  same_walk st st' -> st_n_pcs st' = st_n_pcs st -> holds rec (st_n_pcs st) gs ->
  dispatch st rec gs (st', rec, m) [].
Proof.
  intros Hw Hn Hh. split; simpl; [done|by left|done|]. by rewrite app_nil_r, Hn.
Qed.

Lemma walk_from_dispatch pe pi f0 st rec m gs :
  holds rec (st_n_pcs st) gs -> exists fs, dispatch st rec gs (py_walk_from pe pi f0 st rec m) fs.
Proof.
  intros Hh. destruct (walk_from_shape pe pi [] st rec m gs f0
    (fun i => if i =? 0 then Z.of_nat (length (interp_frames gs)) else 0) Hh)
    as (st' & rec' & m' & fs & g & d' & -> & H1 & H2 & H3 & H4 & _).
  - by intros [? _].
  - intros i Hi. destruct (Z.eqb_spec i 0); lia.
  - done.
  - exists fs. by split.
Qed.

Lemma segment_dispatch pe st rec m gs :
  holds rec (st_n_pcs st) gs -> exists fs, dispatch st rec gs (py_walk_segment pe st rec m) fs.
Proof.
  intros Hh. unfold py_walk_segment.
  destruct (_ =? PY_CHAIN_DONE); [by exists []; apply dispatch_none|].
  destruct (py_procs m !! st_pid st) as [pi|]; [|by exists []; apply dispatch_none].
  destruct (py_enabled pi =? 0); [by exists []; apply dispatch_none|].
  destruct (_ =? PY_CHAIN_UNSTARTED).
  - destruct (thread_frame pe pi) as [f|cnt]; [|by exists []; apply dispatch_none].
    destruct (walk_from_dispatch pe pi f (unmark_done (mark_done (put_state st PY_CHAIN_DONE))) rec m gs Hh)
      as [fs [H1 H2 H3 H4]]. exists fs. split; try done. destruct H1. by split.
  - by apply walk_from_dispatch.
Qed.

(** The module keeps its promise to the walker, whatever its maps hold. *)
#[export] Instance py_unwinder {D} pe : Unwinder (@py_walk D pe).
Proof.
  intros w st rec Hwf Hst Hrec [gs Hh]. unfold py_walk. rewrite Hst, Hrec.
  destruct (segment_dispatch pe st rec (mdl w) gs Hh) as [fs [[] H2 H3 H4]].
  destruct (py_walk_segment pe st rec (mdl w)) as [[st' rec'] m']. simpl in *.
  unfold interp_return_to_native. eexists. split; [done|].
  assert (Hwf' : world_wf (put_mdl w m')) by exact Hwf.
  destruct (put_walk_get (put_mdl w m') (set_pending st' 0) rec' Hwf') as [G1 G2].
  split; [by apply put_walk_wf|done|done|].
  exists (set_pending st' 0), rec'. split_and!; try done.
  exists fs. split; [done|]. intros gs' Hgs'. by rewrite (holds_unique _ _ _ _ Hh Hgs').
Qed.

Lemma thread_frame_cause pe pi k : thread_frame pe pi = inr k -> k ∈ causes.
Proof. unfold thread_frame. repeat case_match; intros [= <-]; set_solver. Qed.

Section invariant.
  Context (pe : py_env) (procs : gmap Z py_proc_info) (c0 : list Z) (Hroomy : roomy c0).

(** Giving up before any frame was recorded, for a named cause. *)
Lemma stop_before_walk scratch done pid ifs d k counters m :
  length scratch = 4%nat -> py_procs m = procs -> ifs = [] -> quiet d -> k ∈ causes ->
  counted c0 counters d -> d PY_CNT_FRAMES_PUSHED = Z.of_nat (length ifs) ->
  py_inv pe procs c0 (<[PY_SCRATCH_STATE := PY_CHAIN_DONE]> scratch) (Z.lor done PY_DONE_BIT) pid ifs
    (with_counters m (py_count k counters)).
Proof using Hroomy.
  intros Hlen Hp -> Hq Hk Hc Hd. split; [by rewrite length_insert|]. split; [done|].
  assert (Hr : 1 <= k <= 9).
  { unfold causes in Hk. repeat (apply elem_of_cons in Hk as [->|Hk]);
      try (by apply not_elem_of_nil in Hk); done. }
  exists (fun i => d i + only k i). split_and!.
  - apply counted_bump; try done; [unfold PY_CNT_MAX; lia|rewrite Hq; lia].
  - rewrite Hd. unfold only, PY_CNT_FRAMES_PUSHED. destruct (Z.eqb_spec 0 k); simpl; lia.
  - apply st_done; [by rewrite list_lookup_insert_eq by (unfold PY_SCRATCH_STATE; lia)|by left| |].
    + by apply cause_one_cause.
    + apply done_bit_lor.
Qed.

(** Walking from a cursor keeps the invariant. *)
Lemma walk_from_inv pi f0 h0 st rec m gs d st' rec' m' fs :
  holds rec (st_n_pcs st) gs -> length (st_interp_scratch st) = 4%nat -> py_procs m = procs ->
  counted c0 (py_walk_counters m) d -> quiet d ->
  d PY_CNT_FRAMES_PUSHED = Z.of_nat (length (interp_frames gs)) ->
  Z.testbit (st_interp_done st) INTERP_ID_PYTHON = false ->
  procs !! st_pid st = Some pi -> py_enabled pi <> 0 -> thread_frame pe pi = inl h0 ->
  py_path pe pi h0 (interp_frames gs) f0 ->
  py_walk_from pe pi f0 st rec m = (st', rec', m') -> holds rec' (st_n_pcs st') (gs ++ fs) ->
  py_inv pe procs c0 (st_interp_scratch st') (st_interp_done st') (st_pid st')
    (interp_frames (gs ++ fs)) m'.
Proof using Hroomy.
  intros Hh Hscr Hprocs Hcnt Hq Hd0 Hbit Hpi Hen Htf Hpath Heq Hfs.
  destruct (walk_from_shape pe pi c0 st rec m gs f0 d Hh (fun _ => Hcnt) Hq Hd0)
    as (st1 & rec1 & m1 & fs1 & g & d' & E & Hsw & _ & Hint & Hh1 & Hpr & Hp1 & Hc1 & Hd1 & Hcase).
  rewrite Heq in E. injection E as <- <- <-.
  assert (fs1 = fs) as -> by (eapply app_inv_head; symmetry; by eapply holds_unique).
  destruct (st_interp_scratch st) as [|x0 [|x1 [|x2 [|x3 [|]]]]] eqn:Escr; try done.
  assert (Hchain : recorded_chain pe procs (st_pid st') (interp_frames (gs ++ fs)) g).
  { exists pi, h0. rewrite (sw_pid _ _ Hsw). split_and!; try done.
    rewrite interp_frames_app, (interp_frames_all fs) by done. by eapply path_app. }
  destruct Hcase as [(Hs & Hg & Hdn & Hq')|(Hs & Hdn & Hoc)]; rewrite Hs, Hdn; simpl.
  - split_and!; [done|congruence|]. exists d'. split_and!; auto.
    by apply st_active with g.
  - split_and!; [done|congruence|]. exists d'. split_and!; auto.
    apply st_done; simpl; [done|by right; exists g|done|apply done_bit_lor].
Qed.

Lemma segment_inv st rec m gs st' rec' m' fs :
  holds rec (st_n_pcs st) gs ->
  py_inv pe procs c0 (st_interp_scratch st) (st_interp_done st) (st_pid st) (interp_frames gs) m ->
  py_walk_segment pe st rec m = (st', rec', m') -> holds rec' (st_n_pcs st') (gs ++ fs) ->
  py_inv pe procs c0 (st_interp_scratch st') (st_interp_done st') (st_pid st')
    (interp_frames (gs ++ fs)) m'.
Proof using Hroomy.
  intros Hh (Hscr & Hprocs & d & Hcnt & Hd0 & Hstand) Heq Hfs.
  assert (Hsame : rec' = rec -> st_n_pcs st' = st_n_pcs st -> fs = []).
  { intros -> Hn. rewrite Hn in Hfs. apply (holds_unique _ _ _ _ Hh) in Hfs.
    rewrite <- (app_nil_r gs) in Hfs at 2. by apply app_inv_head in Hfs. }
  unfold py_walk_segment, py_state in Heq. rewrite Hprocs in Heq.
  destruct Hstand as [Hs Hnil Hq Hb|g Hs Hg Hgz Hch Hq Hb|Hs Hch Hoc Hb]; rewrite Hs in Heq; simpl in Heq.
  - destruct (procs !! st_pid st) as [pi|] eqn:Hpi; [destruct (Z.eqb_spec (py_enabled pi) 0)|].
    2: destruct (thread_frame pe pi) as [f|k] eqn:Htf.
    2:{ eapply (walk_from_inv pi f f) with (st := unmark_done (mark_done (put_state st PY_CHAIN_DONE)));
          try done; simpl.
        - by rewrite length_insert.
        - apply done_bit_cleared.
        - rewrite Hnil. apply path_start. }
    all: injection Heq as <- <- <-; rewrite (Hsame eq_refl eq_refl), app_nil_r; eapply stop_before_walk; try done.
    + set_solver.
    + by eapply thread_frame_cause.
    + set_solver.
  - destruct Hch as (pi & h0 & Hpi & Hen & Htf & Hpath). rewrite Hpi in Heq.
    destruct (Z.eqb_spec (py_enabled pi) 0); [done|]. rewrite Hg in Heq. simpl in Heq.
    eapply (walk_from_inv pi g h0) with (d := fun i => d i - only PY_CNT_CHAIN_ABANDONED i)
      (m := with_counters m (py_count_undo PY_CNT_CHAIN_ABANDONED (py_walk_counters m))); try done.
    + apply counted_undo; try done. specialize (Hq PY_CNT_CHAIN_ABANDONED ltac:(done)).
      unfold only in Hq; simpl in Hq. lia.
    + unfold only; simpl. by rewrite Z.sub_0_r.
  - injection Heq as <- <- <-. rewrite (Hsame eq_refl eq_refl), app_nil_r.
    split_and!; try done. exists d. split_and!; try done. apply st_done; try done. apply done_bit_lor.
Qed.
End invariant.

(** ** Whole samples with the module installed *)

(** The tail-call table with the module at its slot. *)
Definition py_modules {D} (pe : py_env) (id : Z)
  : option (world D py_maps -> outcome (world D py_maps)) :=
  if id =? INTERP_ID_PYTHON then Some (py_walk pe) else None.

Lemma py_modules_ok {D} pe id m : py_modules (D:=D) pe id = Some m -> Unwinder m.
Proof. unfold py_modules. case_match; [|done]. intros [= <-]. apply _. Qed.

Section samples.
  Context (ev : env) (t : tables) {P : Type} (pe : py_env).
  Local Abbreviation W := (world (driver P) py_maps).
  Context (finish : Z -> W -> W).
  Context (Hhandoff : handoff_wf t).

Lemma py_dispatch_inv procs c0 (w : W) slot w' wf :
  roomy c0 -> world_wf w ->
  J_at (py_inv pe procs c0) w -> py_walk pe w = TailCall slot w' wf -> J_at (py_inv pe procs c0) w'.
Proof using Type.
  intros Hroomy Hwf (st & rec & gs & Hst & Hrec & Hh & HJ) Heq.
  unfold py_walk in Heq. rewrite Hst, Hrec in Heq.
  destruct (segment_dispatch pe st rec (mdl w) gs Hh) as [fs [_ _ _ H4]].
  destruct (py_walk_segment pe st rec (mdl w)) as [[st' rec'] m'] eqn:E. simpl in H4.
  unfold interp_return_to_native in Heq. injection Heq as _ <- _.
  assert (Hwf' : world_wf (put_mdl w m')) by exact Hwf.
  destruct (put_walk_get (put_mdl w m') (set_pending st' 0) rec' Hwf') as [G1 G2].
  exists (set_pending st' 0), rec', (gs ++ fs). split_and!; try done.
  exact (segment_inv pe procs c0 Hroomy st rec (mdl w) gs st' rec' m' fs Hh HJ E H4).
Qed.

(** Where the module stands when a sample is finished. *)
Lemma py_sample w rec pid tid pc fp sp :
  world_wf w -> record_wf rec -> roomy (py_walk_counters (mdl w)) ->
  exists n w0 c st rec' fs,
    run_sample ev t finish (py_modules pe) (begin_walk w rec pid tid pc fp sp) = (finish n w0, c) /\
    walk_state_get w0 = Some st /\ walk_record_get w0 = Some rec' /\ holds rec' n fs /\
    st_pid st = pid /\
    py_inv pe (py_procs (mdl w)) (py_walk_counters (mdl w)) (st_interp_scratch st)
      (st_interp_done st) pid (interp_frames fs) (mdl w0).
Proof using Hhandoff.
  intros Hwf Hrec Hroomy.
  set (J := py_inv pe (py_procs (mdl w)) (py_walk_counters (mdl w))).
  destruct (run_fresh ev t finish (py_modules pe) Hhandoff (py_modules_ok pe) J) with
    (limit := MAX_TAIL_CALL_CNT) (w := w) (rec := rec) (pid := pid) (tid := tid) (pc := pc) (fp := fp)
    (sp := sp) as (n & w0 & d & c & E & _ & Hp & (st & rec' & H1 & H2 & Hn & _) & _); try done.
  { intros id m w1 slot w' wf Hm. unfold py_modules in Hm. case_match; [|done].
    injection Hm as <-. intros Hwf1 HJ1 Heq. by eapply py_dispatch_inv. }
  { unfold MAX_TAIL_CALL_CNT. lia. }
  destruct (pr_inv _ _ _ _ Hp) as (st1 & rec1 & fs & G1 & G2 & Hh & HJ1).
  { apply begin_J; [done|done|]. split; [done|]. split; [done|]. exists (fun _ => 0). split_and!.
    - split; [apply Hroomy|]. intros i. lia.
    - done.
    - by apply st_unstarted. }
  assert (st1 = st) as -> by congruence. assert (rec1 = rec') as -> by congruence.
  destruct (begin_get w rec pid tid pc fp sp Hwf) as [B1 B2].
  destruct (pr_state _ _ _ _ Hp _ _ B1 B2) as (st2 & rec2 & S1 & _ & Hpid & _).
  assert (st2 = st) as -> by congruence. simpl in Hpid. subst n.
  exists (st_n_pcs st), w0, c, st, rec', fs. split_and!; try done. by rewrite Hpid in HJ1.
Qed.

(** C5: The interpreter frames of a finished sample are those of the thread's
    own chain. With the Python module installed, however often the native walk
    dispatched to it and resumed, the interpreter frames in the record, read in
    order, are the code frames met on following the [previous] links from the
    thread's current frame: each at most once, none skipped, none invented, the
    entry frames left out. A sample whose chain could not be started has none. *)
Theorem python_frames_follow_chain w rec pid tid pc fp sp :
  world_wf w -> record_wf rec -> roomy (py_walk_counters (mdl w)) ->
  exists n w0 c rec' fs,
    run_sample ev t finish (py_modules pe) (begin_walk w rec pid tid pc fp sp) = (finish n w0, c) /\
    walk_record_get w0 = Some rec' /\ holds rec' n fs /\
    (interp_frames fs = [] \/
     exists pi f0 g, py_procs (mdl w) !! pid = Some pi /\ py_enabled pi <> 0 /\
       thread_frame pe pi = inl f0 /\ py_path pe pi f0 (interp_frames fs) g).
Proof using Hhandoff.
  intros Hwf Hrec Hroomy. destruct (py_sample w rec pid tid pc fp sp Hwf Hrec Hroomy)
    as (n & w0 & c & st & rec' & fs & E & _ & H2 & Hh & _ & _ & _ & d & _ & _ & Hs).
  exists n, w0, c, rec', fs. split_and!; try done.
  destruct Hs as [_ Hnil _ _|g _ _ _ (pi & f0 & ?) _ _|_ [Hnil|(g & pi & f0 & ?)] _ _]; eauto 10.
Qed.

(** The module's counters mean what they say. Over one sample the frame
    counter moves by exactly the number of interpreter frames recorded; of the
    reasons for giving up at most one is counted, and once, a refused push
    being the one that shows in two counters; and the provisional count of
    abandoned chains stands exactly when the sample ends with an outer segment
    still waiting. *)
Theorem python_counters_exact w rec pid tid pc fp sp :
  world_wf w -> record_wf rec -> roomy (py_walk_counters (mdl w)) ->
  exists n w0 c st rec' fs d,
    run_sample ev t finish (py_modules pe) (begin_walk w rec pid tid pc fp sp) = (finish n w0, c) /\
    walk_state_get w0 = Some st /\ walk_record_get w0 = Some rec' /\ holds rec' n fs /\
    counted (py_walk_counters (mdl w)) (py_walk_counters (mdl w0)) d /\
    d PY_CNT_FRAMES_PUSHED = Z.of_nat (length (interp_frames fs)) /\
    (if bool_decide (st_interp_scratch st !! PY_SCRATCH_STATE = Some PY_CHAIN_ACTIVE)
     then d PY_CNT_CHAIN_ABANDONED = 1 /\ forall i, 1 <= i <= 8 -> d i = 0
     else one_cause d).
Proof using Hhandoff.
  intros Hwf Hrec Hroomy. destruct (py_sample w rec pid tid pc fp sp Hwf Hrec Hroomy)
    as (n & w0 & c & st & rec' & fs & E & H1 & H2 & Hh & _ & _ & _ & d & Hc & Hd & Hs).
  exists n, w0, c, st, rec', fs, d. split_and!; try done.
  destruct Hs as [Hst _ Hq _|g Hst _ _ _ Hq _|Hst _ Hoc _]; rewrite Hst.
  - rewrite bool_decide_eq_false_2 by done. by apply quiet_one_cause.
  - rewrite bool_decide_eq_true_2 by done. unfold quiet, only in Hq. split.
    + specialize (Hq 9 ltac:(lia)). simpl in Hq. unfold PY_CNT_CHAIN_ABANDONED. lia.
    + intros i Hi. specialize (Hq i ltac:(lia)). unfold PY_CNT_CHAIN_ABANDONED in Hq.
      destruct (Z.eqb_spec i 9); lia.
  - by rewrite bool_decide_eq_false_2 by done.
Qed.
End samples.

(** ** Segments, one by one *)

(** An iteration ends the segment and says so, or spends two slots. *)
Lemma seg_step_spends pe i s :
  let r := py_seg_step pe i s in
  if r.1 then seg_stopped (ps_seg r.2) = 1
  else seg_n_pcs (ps_seg s) <= MAX_FRAMES - 2 /\
       seg_n_pcs (ps_seg r.2) = u32 (seg_n_pcs (ps_seg s) + 2).
Proof.
  unfold py_seg_step, record_push_interp. cbv zeta.
  repeat (case_match; simpl in *; try done); bool_cases; simplify_eq; simpl; try done; lia.
Qed.

(** The loop bound never ends a Python segment. From any cursor, any record,
    any 32-bit slot count and any chain in memory, including a cyclic one, the
    callback itself ends the segment within the 127 iterations, so the branch
    that handles a bound running out is unreachable. *)
Theorem python_segment_stops pe s :
  is_u32 (seg_n_pcs (ps_seg s)) ->
  seg_stopped (ps_seg (bpf_loop (py_seg_step pe) MAX_FRAMES s)) = 1.
Proof.
  intros Hn. unfold bpf_loop.
  set (I := fun i s => 0 <= i /\ 2 * i <= seg_n_pcs (ps_seg s) /\
              (i = 0 \/ seg_n_pcs (ps_seg s) <= MAX_FRAMES)).
  destruct (bpf_loop_from_count (py_seg_step pe) I (fun s => seg_stopped (ps_seg s) = 1)
    (Z.to_nat MAX_FRAMES) 0 s) as [H|(_ & H1 & [H2|H2])]; [| |done|done|].
  - intros i s1 (Hi & H1 & H2). pose proof (seg_step_spends pe i s1) as Hs. simpl in Hs.
    destruct (py_seg_step pe i s1) as [[] s2]; simpl in *; [done|].
    destruct Hs as [Hle Hs]. unfold I, MAX_FRAMES in *. rewrite Hs, u32_small by word_lia.
    split_and!; lia.
  - split_and!; [done|word_lia|by left].
  - by destruct (Z.le_trans _ _ _ H1 H2).
Qed.

(** Code frames only, one after another. *)
Inductive code_run (pe : py_env) (pi : py_proc_info) : Z -> list frame -> Z -> Prop :=
| run_nil f : code_run pe pi f [] f
| run_cons f fr h fs g : chain_step pe pi f (Some fr) h -> code_run pe pi h fs g ->
    code_run pe pi f (fr :: fs) g.

Lemma seg_step_code pe pi f fr h i rec n state stopped counters window gs :
  chain_step pe pi f (Some fr) h -> holds rec n gs -> n <= MAX_FRAMES - 2 ->
  length window = 1%nat ->
  exists rec' counters' window',
    py_seg_step pe i (PyStep (PySeg rec (Some pi) f n state stopped) counters window) =
    (false, PyStep (PySeg rec' (Some pi) h (n + 2) state stopped) counters' window') /\
    holds rec' (n + 2) (gs ++ [fr]) /\ length window' = 1%nat.
Proof.
  intros Hstep Hh Hn Hw. inversion Hstep as [f' w (Hnz & Hfit & Hread & Hmax) Hown Hx Hnone Ef Efr Eh|].
  subst. destruct window as [|b [|]]; try done. unfold py_seg_step. simpl.
  rewrite (proj2 (Z.eqb_neq f 0) Hnz), Hfit. simpl. rewrite Hread.
  rewrite (proj2 (Z.ltb_ge _ _) Hmax), (proj2 (Z.leb_gt _ _) Hown).
  fold (exec_of pi w) (instr_of pi w) (prev_of pi w).
  rewrite (proj2 (Z.eqb_neq _ _) Hx). simpl.
  assert (Hg : negb (none_addr pi =? 0) && (exec_of pi w =? none_addr pi) = false).
  { destruct Hnone as [-> | Hne]; [done|]. by rewrite (proj2 (Z.eqb_neq _ _) Hne), andb_false_r. }
  rewrite Hg.
  destruct (record_push_interp_ok rec n INTERP_ID_PYTHON (exec_of pi w) (instr_of pi w) gs Hh Hn)
    as (rec' & -> & Hh' & _ & _); [done|]. eexists _, _, _. split; [done|]. done.
Qed.

Lemma seg_step_entry pe pi g w i rec n state stopped counters window :
  readable pe pi g w -> frame_owner_boundary pi <= window_u8 w (frame_owner pi) ->
  length window = 1%nat ->
  exists window',
    py_seg_step pe i (PyStep (PySeg rec (Some pi) g n state stopped) counters window) =
    (true, PyStep (if prev_of pi w =? 0 then PySeg rec (Some pi) g n PY_CHAIN_DONE 1
                   else PySeg rec (Some pi) (prev_of pi w) n PY_CHAIN_ACTIVE 1) counters window').
Proof.
  intros (Hnz & Hfit & Hread & Hmax) Hown Hw. destruct window as [|b [|]]; try done.
  eexists. unfold py_seg_step. simpl. rewrite (proj2 (Z.eqb_neq g 0) Hnz), Hfit. simpl.
  rewrite Hread, (proj2 (Z.ltb_ge _ _) Hmax), (proj2 (Z.leb_le _ _) Hown).
  fold (prev_of pi w). by destruct (prev_of pi w =? 0).
Qed.

Lemma seg_run_code pe pi f fs g k idx rec n state stopped counters window gs :
  code_run pe pi f fs g -> holds rec n gs -> n + 2 * Z.of_nat (length fs) <= MAX_FRAMES ->
  length window = 1%nat ->
  exists rec' counters' window' n' idx',
    bpf_loop_from (py_seg_step pe) (length fs + k) idx
      (PyStep (PySeg rec (Some pi) f n state stopped) counters window) =
    bpf_loop_from (py_seg_step pe) k idx'
      (PyStep (PySeg rec' (Some pi) g n' state stopped) counters' window') /\
    holds rec' n' (gs ++ fs) /\ length window' = 1%nat.
Proof.
  intros Hrun. revert idx rec n counters window gs.
  induction Hrun as [f|f fr h fs g Hstep _ IH]; intros idx rec n counters window gs Hh Hn Hw.
  { simpl. eexists _, _, _, _, _. split; [done|]. by rewrite app_nil_r. }
  rewrite length_cons in Hn.
  destruct (seg_step_code pe pi f fr h idx rec n state stopped counters window gs Hstep Hh)
    as (rec1 & c1 & w1 & E & Hh1 & Hw1); [lia|done|].
  destruct (IH (idx + 1) rec1 (n + 2) c1 w1 (gs ++ [fr]) Hh1) as (rec' & c' & w' & n' & i' & E' & Hh' & Hw');
    [lia|done|]. exists rec', c', w', n', i'. rewrite <- app_assoc in Hh'. split; [|done].
  simpl. by rewrite E, E'.
Qed.

(** A dispatch records a whole segment. Where the chain in memory runs
    through code frames to the entry frame by which C called the interpreter,
    and the record has room, one dispatch appends exactly those frames, in
    order, and leaves the cursor beyond the entry frame: live when an outer
    segment waits there, done when the chain ends. *)
Theorem python_segment_complete pe pi f fs g w st rec m gs :
  code_run pe pi f fs g -> readable pe pi g w ->
  frame_owner_boundary pi <= window_u8 w (frame_owner pi) ->
  holds rec (st_n_pcs st) gs -> st_n_pcs st + 2 * Z.of_nat (length fs) <= MAX_FRAMES ->
  length (py_frame_scratch m) = 1%nat -> length (st_interp_scratch st) = 4%nat ->
  let '(st', rec', m') := py_walk_from pe pi f st rec m in
  holds rec' (st_n_pcs st') (gs ++ fs) /\
  st_interp_scratch st' !! PY_SCRATCH_FRAME = Some (prev_of pi w) /\
  st_interp_scratch st' !! PY_SCRATCH_STATE =
    Some (if prev_of pi w =? 0 then PY_CHAIN_DONE else PY_CHAIN_ACTIVE).
Proof.
  intros Hrun Hread Hown Hh Hn Hwin Hscr. unfold py_walk_from, bpf_loop.
  pose proof Hh as (_ & Hn0 & _). unfold MAX_FRAMES in Hn, Hn0.
  destruct (seg_run_code pe pi f fs g (S (126 - length fs)) 0 rec (st_n_pcs st) PY_CHAIN_DONE 0
    (py_walk_counters m) (py_frame_scratch m) gs Hrun Hh Hn Hwin)
    as (rec' & c' & w' & n' & i' & E & Hh' & Hw').
  replace (length fs + S (126 - length fs))%nat with (Z.to_nat MAX_FRAMES) in E
    by (unfold MAX_FRAMES; lia). rewrite E. clear E.
  destruct (seg_step_entry pe pi g w i' rec' n' PY_CHAIN_DONE 0 c' w' Hread Hown Hw') as [w2 E2].
  cbn [bpf_loop_from]. rewrite E2.
  destruct (st_interp_scratch st) as [|x0 [|x1 [|x2 [|x3 [|]]]]] eqn:Escr; try done.
  destruct (Z.eqb_spec (prev_of pi w) 0) as [Hz|Hp]; simpl; rewrite ?Hz; by split_and!.
Qed.

(** ** A concrete process

    Two eval loops on one native stack, called one from the other through C:
    the chain has two segments, each ended by an entry frame. *)

Definition frame_words (addr exec prev instr owner : Z) : list (Z * Z) :=
  [(addr, exec); (addr + 8, prev); (addr + 16, 0); (addr + 24, 0); (addr + 32, 0); (addr + 40, 0);
   (addr + 48, 0); (addr + 56, instr); (addr + 64, Z.shiftl owner 48); (addr + 72, 0);
   (addr + 80, 0); (addr + 88, 0)].

Definition demo_mem : umem :=
  words ([(0x600, 0x700); (0x608, 0x1020); (0x700, 0); (0x708, 0x300); (0x1318, 0x2000);
          (0x2048, 0x3000)] ++
         frame_words 0x3000 0x5000 0x3100 0x5010 0 ++ frame_words 0x3100 0x9000 0x3200 0 3 ++
         frame_words 0x3200 0x6000 0x3300 0x6010 0 ++ frame_words 0x3300 0x9000 0 0 3).

Definition demo_proc : py_proc_info :=
  PyProcInfo 0x9000 0 0x310 16 8 0 8 0 56 70 0x48 0 0 0 0 3 3 3 0 0 1.
Definition demo_py : py_env := PyEnv demo_mem true (Some 0x1000) X86.
Definition demo_ev : env :=
  Env demo_mem (fun _ => 0) (fun _ => true) (fun _ => true) (fun m _ _ => m).
Definition demo_tables : tables :=
  Tables ∅ ∅ {[ 42 := [PidMapping 0x1000 0x2000 0x1000 1] ]} {[ 42 := 1 ]}
         {[ 1 := HandoffRange [(0, 0x100)] INTERP_ID_PYTHON ]} true.
Definition demo_maps : py_maps := PyMaps {[ 42 := demo_proc ]} (replicate 10 0) [[]].
Definition py_demo_world : world (driver unit) py_maps :=
  World [stale_record] [Persist 0 0 0 [] 0 0 0 0 0 0 0] (replicate 7 0) (Drv no_misses tt) demo_maps.
Definition py_demo_finish (n : Z) (w : world (driver unit) py_maps) := w.
Definition py_demo_run :=
  run_sample demo_ev demo_tables py_demo_finish (py_modules demo_py)
    (begin_walk py_demo_world stale_record 42 43 0x1010 0x600 0x500).

Example py_demo_frames :
  (fun rec => decode (slots rec 7)) <$> walk_record_get py_demo_run.1 =
  Some (Some [Native 0x1010; Interp 1 0x5000 0x5010; Native 0x1020; Interp 1 0x6000 0x6010;
              Native 0x300]) /\
  py_walk_counters (mdl py_demo_run.1) = [2; 0; 0; 0; 0; 0; 0; 0; 0; 0] /\ py_demo_run.2 = 6%nat.
Proof. vm_compute. done. Qed.

Lemma demo_handoff_wf : handoff_wf demo_tables.
Proof.
  intros tid h. simpl. intros [_ <-]%lookup_singleton_Some. simpl. unfold INTERP_ID_PYTHON. lia.
Qed.

Lemma zeros_roomy : roomy (replicate 10 0).
Proof.
  split; [done|]. intros i. unfold stat, array_lookup. case_match; [|simpl; lia].
  destruct (replicate 10 0 !! Z.to_nat i) as [x|] eqn:E; [|simpl; lia].
  apply lookup_replicate in E as [-> _]. simpl. lia.
Qed.

Lemma python_frames_follow_chain_witness :
  exists n w0 c rec' fs,
    py_demo_run = (py_demo_finish n w0, c) /\ walk_record_get w0 = Some rec' /\ holds rec' n fs /\
    (interp_frames fs = [] \/
     exists pi f0 g, py_procs demo_maps !! 42 = Some pi /\ py_enabled pi <> 0 /\
       thread_frame demo_py pi = inl f0 /\ py_path demo_py pi f0 (interp_frames fs) g).
Proof.
  apply (python_frames_follow_chain demo_ev demo_tables demo_py py_demo_finish demo_handoff_wf
           py_demo_world stale_record 42 43 0x1010 0x600 0x500); [done|done|apply zeros_roomy].
Defined.

Lemma python_counters_exact_witness :
  exists n w0 c st rec' fs d,
    py_demo_run = (py_demo_finish n w0, c) /\
    walk_state_get w0 = Some st /\ walk_record_get w0 = Some rec' /\ holds rec' n fs /\
    counted (replicate 10 0) (py_walk_counters (mdl w0)) d /\
    d PY_CNT_FRAMES_PUSHED = Z.of_nat (length (interp_frames fs)) /\
    (if bool_decide (st_interp_scratch st !! PY_SCRATCH_STATE = Some PY_CHAIN_ACTIVE)
     then d PY_CNT_CHAIN_ABANDONED = 1 /\ forall i, 1 <= i <= 8 -> d i = 0
     else one_cause d).
Proof.
  apply (python_counters_exact demo_ev demo_tables demo_py py_demo_finish demo_handoff_wf
           py_demo_world stale_record 42 43 0x1010 0x600 0x500); [done|done|apply zeros_roomy].
Defined.

(** A one-frame chain whose frame is its own caller. *)
Definition cyclic_py : py_env :=
  PyEnv (words (frame_words 0x3000 0x5000 0x3000 0x5010 0)) true (Some 0x1000) X86.
Definition cyclic_start : py_step_state :=
  PyStep (PySeg stale_record (Some demo_proc) 0x3000 1 PY_CHAIN_DONE 0) (replicate 10 0) [[]].

Lemma python_segment_stops_witness :
  seg_stopped (ps_seg (bpf_loop (py_seg_step cyclic_py) MAX_FRAMES cyclic_start)) = 1.
Proof. apply (python_segment_stops cyclic_py cyclic_start). unfold is_u32; simpl; lia. Defined.

(** The innermost segment of the process above. *)
Definition entry_window : list Z :=
  default [] (probe_read_user demo_mem 0x3100 (Z.to_nat PY_FRAME_WINDOW)).
Definition code_window : list Z :=
  default [] (probe_read_user demo_mem 0x3000 (Z.to_nat PY_FRAME_WINDOW)).
Definition one_native : sample_record := store_slot stale_record 0 FRAME_TAG_NATIVE 0x1010.

Lemma demo_code_run : code_run demo_py demo_proc 0x3000 [Interp 1 0x5000 0x5010] 0x3100.
Proof.
  eapply run_cons; [|apply run_nil]. apply (code_frame demo_py demo_proc 0x3000 code_window).
  - by vm_compute.
  - by vm_compute.
  - by vm_compute.
  - right. by vm_compute.
Qed.

Lemma python_segment_complete_witness :
  let '(st', rec', m') := py_walk_from demo_py demo_proc 0x3000
    (Persist 0x1010 0x600 0x500 [0; 0; 0; 0] 42 43 1 0 0 0 1) one_native demo_maps in
  holds rec' (st_n_pcs st') ([Native 0x1010] ++ [Interp 1 0x5000 0x5010]) /\
  st_interp_scratch st' !! PY_SCRATCH_FRAME = Some (prev_of demo_proc entry_window) /\
  st_interp_scratch st' !! PY_SCRATCH_STATE =
    Some (if prev_of demo_proc entry_window =? 0 then PY_CHAIN_DONE else PY_CHAIN_ACTIVE).
Proof.
  apply (python_segment_complete demo_py demo_proc 0x3000 [Interp 1 0x5000 0x5010] 0x3100 entry_window
    (Persist 0x1010 0x600 0x500 [0; 0; 0; 0] 42 43 1 0 0 0 1) one_native demo_maps [Native 0x1010]).
  - apply demo_code_run.
  - split_and!; by vm_compute.
  - by vm_compute.
  - split_and!; [done|done|done|by vm_compute].
  - done.
  - done.
  - done.
Defined.
