(* ===== verification/Sampling.v ===== *)
(** * Sampling: what the sampler programs share

    The scheduler's view of a task, the load-time configuration, and the header
    the DWARF samplers complete once a walk has returned
    (src/bpf/perf_dwarf.bpf.c, src/bpf/offcpu_dwarf.bpf.c; the configuration
    also src/bpf/perf.bpf.c and src/bpf/offcpu.bpf.c). *)
From S2P Require Import Prelude Bpf Record Tables Walker Driver.

Definition PF_KTHREAD : Z := 0x00200000.

(** The fields the programs read of a task_struct; its user registers, when
    [bpf_task_pt_regs] returns them, are the program counter, frame pointer
    and stack pointer. *)
Record task := Task {
  t_pid : Z;
  t_tgid : Z;
  t_flags : Z;
  t_state : Z;
  t_regs : option (Z * Z * Z);
}.

Record pid_config := PidConfig {
  pc_type : Z;
  collect_user : Z;
  collect_kernel : Z;
}.

(** The load-time constants and the process filter. *)
Record sampler_cfg := SamplerCfg {
  system_wide : bool;
  kernel_stacks_enabled : bool;
  pids : gmap Z pid_config;
}.

(** [bpf_get_stackid] behind its gate: [-1] when kernel stacks are off. *)
Definition kern_stack_of (cfg : sampler_cfg) (stackid : Z) : Z :=
  if kernel_stacks_enabled cfg then stackid else -1.

(** The header, completed after the walk. *)
Definition fill_header (rec : sample_record) (pid tid time value n kern : Z) : sample_record :=
  SampleRecord
    (Header pid tid time value
       (if has_flag (flags_of rec) WALKER_FLAG_DWARF_USED then MODE_FP_LESS else MODE_FP_SAFE)
       (u8 n) (flags_of rec) kern)
    (rec_pcs rec) (rec_tags rec).

Lemma fill_header_holds rec pid tid time value n kern fs :
  holds rec n fs -> holds (fill_header rec pid tid time value n kern) (u8 n) fs.
Proof.
  intros Hh. pose proof (holds_bound _ _ _ Hh). unfold MAX_FRAMES in *.
  rewrite u8_small by word_lia. exact Hh.
Qed.

(** A record buffer that has its one entry, of the declared size. *)
Definition buffers_wf {D M} (w : world D M) : Prop :=
  world_wf w /\ forall rec, walk_record_get w = Some rec -> record_wf rec.

Lemma buffers_get {D M} (w : world D M) :
  buffers_wf w -> exists st rec, walk_state_get w = Some st /\ walk_record_get w = Some rec /\
    record_wf rec.
Proof.
  intros [Hwf Hrec]. destruct (world_wf_get w Hwf) as (st & rec & H1 & H2).
  exists st, rec. auto.
Qed.

(** ** A walk nobody interrupts

    Where no frame is claimed the entry program walks and finishes by itself. *)

Section alone.
  Context (ev : env) (t : tables) {P M : Type}.
  Local Abbreviation W := (world (driver P) M).
  Context (finish : Z -> W -> W) (modules : Z -> option (W -> outcome W)).

Lemma run_native w rec pid tid pc fp sp pcs :
  world_wf w -> record_wf rec -> stack ev t pid pc fp sp pcs -> Forall (unclaimed t pid) pcs ->
  exists n w0 st rec',
    run_sample ev t finish modules (begin_walk w rec pid tid pc fp sp) = (finish n w0, 0%nat) /\
    world_wf w0 /\ walk_state_get w0 = Some st /\ walk_record_get w0 = Some rec' /\
    st_pid st = pid /\ st_tid st = tid /\ d_priv (drv w0) = d_priv (drv w) /\
    holds rec' n (Native <$> take 127 pcs) /\ n = st_n_pcs st /\
    ((length pcs <= 127)%nat -> complete (walk_load st rec')).
Proof using Type.
  intros Hwf Hrec Hstack Hu. destruct (begin_get w rec pid tid pc fp sp Hwf) as [G1 G2].
  unfold run_sample, walk_fn. rewrite G1, G2. unfold unwind_walk. cbn [negb orb].
  set (w1 := begin_walk w rec pid tid pc fp sp) in *. set (s0 := start_ws _ _ _).
  assert (Hwf1 : world_wf w1) by (by apply put_walk_wf).
  destruct (recover ev t pid (Z.to_nat MAX_FRAMES) 0 s0 pc fp sp pcs []) as [[[Hh Hlen] Hp] Hcomp];
    [done|done|by split|done|].
  destruct (walk_loop_ok ev t MAX_FRAMES s0) as (c & d & Hg & Hs & Hcase).
  { split; [by exists []|done|done]. }
  { apply Hwf. }
  unfold bpf_loop in *. set (s := bpf_loop_from (walk_step ev t) (Z.to_nat MAX_FRAMES) 0 s0) in *.
  rewrite Hp, andb_false_r. cbn [andb]. rewrite clamp_pcs_small by (apply holds_bound in Hh; lia).
  destruct (commit_get w1 (unwind_walk_begin rec pid tid pc fp sp).1 s Hwf1) as [C1 C2].
  eexists _, _, _, _. split; [done|]. split.
  { apply commit_wf; [done|]. rewrite (shifted_length _ _ _ Hs). apply Hwf. }
  split; [exact C1|]. split; [exact C2|]. rewrite walk_load_save.
  split_and!; try done.
  - destruct Hcase as [(u & _ & Eu & Hne & _)|[-> _]]; [|exact (grows_pid _ _ Hg)]. rewrite Eu in Hp. by destruct Hne.
Qed.
End alone.
