(* ===== verification/PerfDwarf.v ===== *)
(** * PerfDwarf: the on-CPU DWARF sampler

    Models src/bpf/perf_dwarf.bpf.c: the perf-event program that filters,
    starts a walk on the task's user registers, and emits one record when the
    walk returns, whichever program it returns in. *)
From S2P Require Import Prelude Bpf Record Tables Walker Driver Sampling Python.

(** The driver's own map. *)
Record perf_priv := PerfPriv { stack_events : ringbuf sample_record }.

Section perf_dwarf.
  Context (ev : env) (t : tables) (cfg : sampler_cfg) {M : Type}.
  Local Abbreviation W := (world (driver perf_priv) M).
  (** What [bpf_get_stackid] returns for the sampled context. *)
  Context (stackid : Z).

(** The rest of [perf_dwarf_walk] once [unwind_walk] has returned [n_pcs]. *)
Definition perf_dwarf_emit (n_pcs : Z) (w : W) : W :=
  match walk_state_get w, walk_record_get w with
  | Some st, Some rec =>
      let kern := kern_stack_of cfg stackid in
      let '(now, miss) := ktime_get_ns ev (d_miss (drv w)) in
      let rec := fill_header rec (st_pid st) (st_tid st) now 1 n_pcs kern in
      let '(_, rb) := ringbuf_output (e_room ev) (stack_events (d_priv (drv w))) rec in
      put_drv (put_record w rec) (Drv miss (PerfPriv rb))
  | _, _ => w
  end.

Definition perf_dwarf_walk (resumed : bool) (w : W) : outcome W :=
  walk_fn ev t perf_dwarf_emit resumed w.

(** The tests before any state is touched. *)
Definition perf_dwarf_accepts (task : option task) (tgid : Z) : bool :=
  match task with
  | None => false
  | Some tk =>
      negb (tgid =? 0) && negb (has_flag (t_flags tk) PF_KTHREAD) &&
      (system_wide cfg || bool_decide (is_Some (pids cfg !! tgid)))
  end.

(** One sample: the entry program and every program it tail-calls. *)
Definition perf_dwarf (modules : Z -> option (W -> outcome W)) (task : option task) (tgid tid : Z)
    (w : W) : W :=
  if negb (perf_dwarf_accepts task tgid) then w
  else match walk_record_get w, walk_state_get w, task with
  | Some rec, Some _, Some tk =>
      match t_regs tk with
      | None => w
      | Some (ip, fp, sp) =>
          (run (interp_progs ev t perf_dwarf_emit modules) MAX_TAIL_CALL_CNT
             (perf_dwarf_walk false (begin_walk w rec tgid tid ip fp sp))).1
      end
  | _, _, _ => w
  end.

(** What the finishing code does to the ring buffer. *)
Lemma perf_emit_ring n w st rec :
  walk_state_get w = Some st -> walk_record_get w = Some rec ->
  exists now, stack_events (d_priv (drv (perf_dwarf_emit n w))) =
    (ringbuf_output (e_room ev) (stack_events (d_priv (drv w)))
       (fill_header rec (st_pid st) (st_tid st) now 1 n (kern_stack_of cfg stackid))).2.
Proof using Type.
  intros H1 H2. unfold perf_dwarf_emit. rewrite H1, H2.
  exists (u64 (e_ktime ev (ktime_calls (d_miss (drv w))))). simpl. by destruct (ringbuf_output _ _ _).
Qed.

(** A sample that passes the filter. *)
Definition sampled (tk : task) (tgid ip fp sp : Z) : Prop :=
  perf_dwarf_accepts (Some tk) tgid = true /\ t_regs tk = Some (ip, fp, sp).

Lemma perf_dwarf_runs modules tk tgid tid ip fp sp w rec :
  sampled tk tgid ip fp sp -> walk_record_get w = Some rec -> is_Some (walk_state_get w) ->
  perf_dwarf modules (Some tk) tgid tid w =
  (run_sample ev t perf_dwarf_emit modules (begin_walk w rec tgid tid ip fp sp)).1.
Proof using Type.
  intros [Ha Hr] Hrec [st Hst]. unfold perf_dwarf. by rewrite Ha, Hrec, Hst, Hr.
Qed.

(** Every accepted sample is emitted exactly once. Whatever interpreter
    modules are installed and however often the walk was handed off, one record
    is offered to the ring buffer; it names the sampled process and thread,
    counts one, its 8-bit slot count is exact, its slots read as frames, its
    flags name at most one ending, and its mode says whether CFI was used. A
    sample the filter rejects changes nothing. *)
Theorem perf_dwarf_emits_once modules task tgid tid w :
  handoff_wf t -> (forall id m, modules id = Some m -> Unwinder m) -> buffers_wf w ->
  let w' := perf_dwarf modules task tgid tid w in
  (perf_dwarf_accepts task tgid = false -> w' = w) /\
  forall tk ip fp sp, task = Some tk -> sampled tk tgid ip fp sp ->
    exists rec fs, stack_events (d_priv (drv w')) =
        (ringbuf_output (e_room ev) (stack_events (d_priv (drv w))) rec).2 /\
      hdr_pid (rec_hdr rec) = tgid /\ hdr_tid (rec_hdr rec) = tid /\ hdr_value (rec_hdr rec) = 1 /\
      holds rec (hdr_n_pcs (rec_hdr rec)) fs /\ flags_final (flags_of rec) /\
      (hdr_mode (rec_hdr rec) = MODE_FP_LESS <->
       has_flag (flags_of rec) WALKER_FLAG_DWARF_USED = true).
Proof using Type.
  intros Hh Hm Hb w'. split; [intros Ha; subst w'; unfold perf_dwarf; by rewrite Ha|].
  intros tk ip fp sp -> Hs. destruct (buffers_get w Hb) as (st0 & rec0 & G1 & G2 & Hrec0).
  subst w'. rewrite (perf_dwarf_runs modules tk tgid tid ip fp sp w rec0 Hs G2) by done.
  destruct (run_plain ev t perf_dwarf_emit modules Hh Hm w rec0 tgid tid ip fp sp (proj1 Hb) Hrec0)
    as (n & w0 & d & c & E & _ & Hp & (st & rec & H1 & H2 & Hn & [[fs Hf] Hfl]) & _).
  unfold run_sample. rewrite E. simpl.
  destruct (begin_get w rec0 tgid tid ip fp sp (proj1 Hb)) as [B1 B2].
  destruct (pr_state _ _ _ _ Hp _ _ B1 B2) as (st' & rec' & H1' & _ & Hpid & Htid & _).
  assert (st' = st) as -> by congruence.
  destruct (perf_emit_ring n w0 st rec H1 H2) as [now Hring].
  rewrite Hring, (pr_priv _ _ _ _ Hp). eexists _, fs. split; [done|]. simpl in *. subst n.
  split_and!; try done; [by apply fill_header_holds|].
  unfold fill_header, flags_of at 2. simpl. by destruct (has_flag _ _).
Qed.

(** C16: The record of an uninterrupted sample is the task's stack. When the
    user stack is described frame by frame by the CFI rows and the
    frame-pointer chain, with nonzero return addresses, and no interpreter
    unwinder claims a frame of it, the emitted record reads back as exactly its program
    counters, innermost first, up to 127, and a stack that fits is marked as
    walked to its end with no failure bit. *)
Theorem perf_dwarf_emits_stack modules tk tgid tid ip fp sp pcs w :
  buffers_wf w -> sampled tk tgid ip fp sp ->
  stack ev t tgid ip fp sp pcs -> Forall (unclaimed t tgid) pcs ->
  exists rec, stack_events (d_priv (drv (perf_dwarf modules (Some tk) tgid tid w))) =
      (ringbuf_output (e_room ev) (stack_events (d_priv (drv w))) rec).2 /\
    hdr_pid (rec_hdr rec) = tgid /\ hdr_tid (rec_hdr rec) = tid /\
    holds rec (hdr_n_pcs (rec_hdr rec)) (Native <$> take 127 pcs) /\
    ((length pcs <= 127)%nat ->
     (has_flag (flags_of rec) WALKER_FLAG_FP_TERMINATED = true \/
      has_flag (flags_of rec) WALKER_FLAG_RA_UNDEFINED = true) /\
     Forall (fun f => has_flag (flags_of rec) f = false)
       [WALKER_FLAG_FP_EXHAUSTED; WALKER_FLAG_FP_NONMONOTONIC; WALKER_FLAG_ROOT_DISAGREEMENT;
        WALKER_FLAG_RA_ZERO]).
Proof using Type.
  intros Hb Hs Hstack Hu. destruct (buffers_get w Hb) as (st0 & rec0 & G1 & G2 & Hrec0).
  rewrite (perf_dwarf_runs modules tk tgid tid ip fp sp w rec0 Hs G2) by done.
  destruct (run_native ev t perf_dwarf_emit modules w rec0 tgid tid ip fp sp pcs (proj1 Hb) Hrec0 Hstack Hu)
    as (n & w0 & st & rec & E & _ & H1 & H2 & Hpid & Htid & Hpriv & Hf & Hn & Hc).
  rewrite E. simpl. destruct (perf_emit_ring n w0 st rec H1 H2) as [now Hring].
  rewrite Hring, Hpriv. eexists. split; [done|]. simpl. split_and!; try done.
  - by apply fill_header_holds.
  - intros Hlen. by destruct (Hc Hlen).
Qed.
End perf_dwarf.

(** ** Concrete samples *)

Definition perf_cfg : sampler_cfg := SamplerCfg false true {[ 42 := PidConfig 0 1 1 ]}.
Definition perf_world {M} (m : M) : world (driver perf_priv) M :=
  World [stale_record] [Persist 0 0 0 [] 0 0 0 0 0 0 0] (replicate 7 0)
        (Drv no_misses (PerfPriv (Ringbuf [] 0))) m.
Definition perf_task : task := Task 43 42 0 0 (Some (0x1010, 0x600, 0x500)).

Lemma perf_world_wf {M} (m : M) : buffers_wf (perf_world m).
Proof. split; [done|]. intros rec [= <-]. done. Qed.

Lemma perf_task_sampled : sampled perf_cfg perf_task 42 0x1010 0x600 0x500.
Proof. by vm_compute. Qed.

(** The two-segment Python process, sampled. *)
Lemma perf_dwarf_emits_once_witness :
  let w' := perf_dwarf demo_ev demo_tables perf_cfg 77 (py_modules demo_py) (Some perf_task) 42 43
              (perf_world demo_maps) in
  (perf_dwarf_accepts perf_cfg (Some perf_task) 42 = false -> w' = perf_world demo_maps) /\
  forall tk ip fp sp, Some perf_task = Some tk -> sampled perf_cfg tk 42 ip fp sp ->
    exists rec fs, stack_events (d_priv (drv w')) =
        (ringbuf_output (e_room demo_ev) (Ringbuf [] 0) rec).2 /\
      hdr_pid (rec_hdr rec) = 42 /\ hdr_tid (rec_hdr rec) = 43 /\ hdr_value (rec_hdr rec) = 1 /\
      holds rec (hdr_n_pcs (rec_hdr rec)) fs /\ flags_final (flags_of rec) /\
      (hdr_mode (rec_hdr rec) = MODE_FP_LESS <->
       has_flag (flags_of rec) WALKER_FLAG_DWARF_USED = true).
Proof.
  apply (perf_dwarf_emits_once demo_ev demo_tables perf_cfg 77 (py_modules demo_py) (Some perf_task)
           42 43 (perf_world demo_maps)).
  - apply demo_handoff_wf.
  - apply py_modules_ok.
  - apply perf_world_wf.
Defined.

Lemma perf_dwarf_emits_stack_witness :
  exists rec, stack_events (d_priv (drv (perf_dwarf mixed_env mixed_tables perf_cfg 77 (fun _ => None)
      (Some perf_task) 42 43 (perf_world tt)))) =
      (ringbuf_output (e_room mixed_env) (Ringbuf [] 0) rec).2 /\
    hdr_pid (rec_hdr rec) = 42 /\ hdr_tid (rec_hdr rec) = 43 /\
    holds rec (hdr_n_pcs (rec_hdr rec)) (Native <$> take 127 mixed_pcs) /\
    ((length mixed_pcs <= 127)%nat ->
     (has_flag (flags_of rec) WALKER_FLAG_FP_TERMINATED = true \/
      has_flag (flags_of rec) WALKER_FLAG_RA_UNDEFINED = true) /\
     Forall (fun f => has_flag (flags_of rec) f = false)
       [WALKER_FLAG_FP_EXHAUSTED; WALKER_FLAG_FP_NONMONOTONIC; WALKER_FLAG_ROOT_DISAGREEMENT;
        WALKER_FLAG_RA_ZERO]).
Proof.
  apply (perf_dwarf_emits_stack mixed_env mixed_tables perf_cfg 77 (fun _ => None) perf_task 42 43
           0x1010 0x600 0x500 mixed_pcs (perf_world tt)).
  - apply perf_world_wf.
  - apply perf_task_sampled.
  - apply mixed_stack.
  - apply mixed_unclaimed.
Defined.
