(* ===== verification/OffCpuDwarf.v ===== *)
(** * OffCpuDwarf: the off-CPU DWARF sampler

    Models src/bpf/offcpu_dwarf.bpf.c: on every context switch the record of
    the task coming back is emitted with the time it was away, then the stack
    of the task going away is walked and stashed. *)
From S2P Require Import Prelude Bpf Record Tables Walker Driver Sampling Python.

Definition OFFCPU_START_SIZE : Z := 2048.

(** The driver's own maps; a stash is keyed by (pid, tgid). *)
Record off_priv := OffPriv {
  offcpu_start : gmap (Z * Z) sample_record;
  off_events : ringbuf sample_record;
}.

Definition set_value (rec : sample_record) (v : Z) : sample_record :=
  let h := rec_hdr rec in
  SampleRecord (Header (hdr_pid h) (hdr_tid h) (hdr_time_ns h) v (hdr_mode h) (hdr_n_pcs h)
                       (hdr_walker_flags h) (hdr_kern_stack h)) (rec_pcs rec) (rec_tags rec).

Section offcpu_dwarf.
  Context (ev : env) (t : tables) (cfg : sampler_cfg) {M : Type}.
  Local Abbreviation W := (world (driver off_priv) M).
  Context (modules : Z -> option (W -> outcome W)).

Definition starts (w : W) : gmap (Z * Z) sample_record := offcpu_start (d_priv (drv w)).
Definition events (w : W) : ringbuf sample_record := off_events (d_priv (drv w)).

(** The rest of [offcpu_dwarf_walk] once [unwind_walk] has returned [n_pcs]:
    the timestamp is parked in the weight field. *)
Definition offcpu_dwarf_stash (stackid n_pcs : Z) (w : W) : W :=
  match walk_state_get w, walk_record_get w with
  | Some st, Some rec =>
      let kern := kern_stack_of cfg stackid in
      let '(now, miss) := ktime_get_ns ev (d_miss (drv w)) in
      let rec := fill_header rec (st_pid st) (st_tid st) now now n_pcs kern in
      let '(_, start) := hash_update OFFCPU_START_SIZE BPF_ANY (starts w) (st_tid st, st_pid st) rec in
      put_drv (put_record w rec) (Drv miss (OffPriv start (events w)))
  | _, _ => w
  end.

Definition offcpu_dwarf_walk (stackid : Z) (resumed : bool) (w : W) : outcome W :=
  walk_fn ev t (offcpu_dwarf_stash stackid) resumed w.

Definition offcpu_accepts (prev : task) : bool :=
  negb ((t_pid prev =? 0) || (t_tgid prev =? 0)) && negb (has_flag (t_flags prev) PF_KTHREAD) &&
  (system_wide cfg || bool_decide (is_Some (pids cfg !! t_tgid prev))).

Definition handle_switch_out (stackid : Z) (prev : task) (w : W) : W :=
  if negb (offcpu_accepts prev) then w
  else match walk_record_get w, walk_state_get w with
  | Some rec, Some _ =>
      match t_regs prev with
      | None => w
      | Some (ip, fp, sp) =>
          (run (interp_progs ev t (offcpu_dwarf_stash stackid) modules) MAX_TAIL_CALL_CNT
             (offcpu_dwarf_walk stackid false
                (begin_walk w rec (t_tgid prev) (t_pid prev) ip fp sp))).1
      end
  | _, _ => w
  end.

Definition handle_switch_in (next : task) (w : W) : W :=
  let k := (t_pid next, t_tgid next) in
  if t_pid next =? 0 then w
  else match starts w !! k with
  | None => w
  | Some saved =>
      if hdr_value (rec_hdr saved) =? 0 then w
      else
        let '(now, miss) := ktime_get_ns ev (d_miss (drv w)) in
        let delta := u64 (now - hdr_value (rec_hdr saved)) in
        let saved := set_value saved delta in
        let start := <[k := saved]> (starts w) in
        let '(_, rb) := ringbuf_output (e_room ev) (events w) saved in
        put_drv w (Drv miss (OffPriv (delete k start) rb))
  end.

Definition offcpu_dwarf_sched_switch (stackid : Z) (prev next : task) (w : W) : W :=
  handle_switch_out stackid prev (handle_switch_in next w).

(** ** Lemmas *)

Context (Hhandoff : handoff_wf t) (Hmodules : forall id m, modules id = Some m -> Unwinder m).

Definition key_of (tk : task) : Z * Z := (t_pid tk, t_tgid tk).

(** What a finished walk stashes, with the reading it takes. *)
Definition stash_of (stackid n : Z) (w : W) (st : walk_persist) (rec : sample_record) : sample_record :=
  let now := u64 (e_ktime ev (readings w)) in
  fill_header rec (st_pid st) (st_tid st) now now n (kern_stack_of cfg stackid).

Lemma stash_starts stackid n w st rec :
  walk_state_get w = Some st -> walk_record_get w = Some rec ->
  let w' := offcpu_dwarf_stash stackid n w in
  starts w' = (hash_update OFFCPU_START_SIZE BPF_ANY (starts w) (st_tid st, st_pid st)
                 (stash_of stackid n w st rec)).2 /\
  events w' = events w /\ readings w' = S (readings w).
Proof using Type.
  intros H1 H2 w'. subst w'. unfold offcpu_dwarf_stash. rewrite H1, H2. simpl.
  fold (readings w). fold (stash_of stackid n w st rec). by destruct (hash_update _ _ _ _ _).
Qed.

Lemma stash_wf stackid n w st rec :
  world_wf w -> record_wf rec -> walk_state_get w = Some st -> walk_record_get w = Some rec ->
  buffers_wf (offcpu_dwarf_stash stackid n w).
Proof using Type.
  intros Hwf Hr H1 H2. unfold offcpu_dwarf_stash. rewrite H1, H2. simpl.
  set (rec1 := fill_header _ _ _ _ _ _ _). destruct (hash_update _ _ _ _ _) as [e start]. split.
  - exact (put_record_wf w rec1 Hwf).
  - intros r Hget. pose proof (put_record_get w rec1 Hwf) as P2.
    assert (r = rec1) as -> by (unfold walk_record_get in *; simpl in *; congruence). exact Hr.
Qed.

(** The identity, the clock reading [k] and the kernel stack of a stash. *)
Record stashed (stackid : Z) (prev : task) (k : nat) (rec : sample_record) : Prop := {
  sd_pid : hdr_pid (rec_hdr rec) = t_tgid prev;
  sd_tid : hdr_tid (rec_hdr rec) = t_pid prev;
  sd_time : hdr_time_ns (rec_hdr rec) = u64 (e_ktime ev k);
  sd_value : hdr_value (rec_hdr rec) = u64 (e_ktime ev k);
  sd_kern : hdr_kern_stack (rec_hdr rec) = kern_stack_of cfg stackid;
  sd_frames : exists fs, holds rec (hdr_n_pcs (rec_hdr rec)) fs;
}.

(** What an accepted switch-out stashes. *)
Lemma switch_out_stash stackid prev ip fp sp w :
  buffers_wf w -> offcpu_accepts prev = true -> t_regs prev = Some (ip, fp, sp) ->
  let w' := handle_switch_out stackid prev w in
  buffers_wf w' /\ events w' = events w /\
  exists rec k, starts w' = (hash_update OFFCPU_START_SIZE BPF_ANY (starts w) (key_of prev) rec).2 /\
    (readings w <= k)%nat /\ readings w' = S k /\ stashed stackid prev k rec.
Proof using Hhandoff Hmodules.
  intros Hb Ha Hr w'. destruct (buffers_get w Hb) as (st0 & rec0 & G1 & G2 & Hrec0).
  subst w'. unfold handle_switch_out. rewrite Ha, G2, G1, Hr. cbn [negb].
  destruct (run_plain ev t (offcpu_dwarf_stash stackid) modules Hhandoff Hmodules w rec0 (t_tgid prev)
    (t_pid prev) ip fp sp (proj1 Hb) Hrec0)
    as (n & w0 & d & c & E & _ & Hp & (st & rec & H1 & H2 & Hn & [[fs Hf] Hfl]) & _).
  unfold offcpu_dwarf_walk. rewrite E. cbn [fst].
  destruct (begin_get w rec0 (t_tgid prev) (t_pid prev) ip fp sp (proj1 Hb)) as [B1 B2].
  destruct (pr_state _ _ _ _ Hp _ _ B1 B2) as (st' & rec' & H1' & _ & Hpid & Htid & _).
  assert (st' = st) as -> by congruence. simpl in Hf, Hpid, Htid. subst n.
  destruct (stash_starts stackid (st_n_pcs st) w0 st rec H1 H2) as (S1 & S2 & S3).
  pose proof (pr_clock _ _ _ _ Hp) as Hclock.
  split; [|split].
  - apply (stash_wf _ _ w0 st rec); try done; [apply (pr_wf _ _ _ _ Hp)|apply Hf].
  - rewrite S2. unfold events. by rewrite (pr_priv _ _ _ _ Hp).
  - eexists _, (readings w0). rewrite S1, Hpid, Htid. unfold starts at 1. rewrite (pr_priv _ _ _ _ Hp).
    split; [done|]. split; [exact Hclock|]. split; [done|].
    split; [exact Hpid|exact Htid|done|done|done|]. exists fs. by apply fill_header_holds.
Qed.

(** A stack the rows and the frame-pointer chain describe, none of it claimed,
    is stashed frame by frame. *)
Lemma switch_out_stack stackid prev ip fp sp pcs w :
  buffers_wf w -> offcpu_accepts prev = true -> t_regs prev = Some (ip, fp, sp) ->
  stack ev t (t_tgid prev) ip fp sp pcs -> Forall (unclaimed t (t_tgid prev)) pcs ->
  exists rec, starts (handle_switch_out stackid prev w) =
      (hash_update OFFCPU_START_SIZE BPF_ANY (starts w) (key_of prev) rec).2 /\
    holds rec (hdr_n_pcs (rec_hdr rec)) (Native <$> take 127 pcs).
Proof using Type.
  intros Hb Ha Hr Hstack Hu. destruct (buffers_get w Hb) as (st0 & rec0 & G1 & G2 & Hrec0).
  unfold handle_switch_out. rewrite Ha, G2, G1, Hr. cbn [negb].
  destruct (run_native ev t (offcpu_dwarf_stash stackid) modules w rec0 (t_tgid prev) (t_pid prev)
    ip fp sp pcs (proj1 Hb) Hrec0 Hstack Hu)
    as (n & w0 & st & rec & E & _ & H1 & H2 & Hpid & Htid & Hpriv & Hf & Hn & _).
  unfold offcpu_dwarf_walk. unfold run_sample in E. rewrite E. cbn [fst].
  destruct (stash_starts stackid n w0 st rec H1 H2) as (S1 & _).
  eexists. rewrite S1, Hpid, Htid. unfold starts at 1. rewrite Hpriv. split; [done|].
  by apply fill_header_holds.
Qed.

(** A switch-out touches no other task's stash and no event, and keeps the
    buffers well-formed. *)
Lemma switch_out_frame stackid prev w k :
  buffers_wf w -> k <> key_of prev ->
  let w' := handle_switch_out stackid prev w in
  buffers_wf w' /\ events w' = events w /\ starts w' !! k = starts w !! k.
Proof using Hhandoff Hmodules.
  intros Hb Hk w'. destruct (offcpu_accepts prev) eqn:Ha.
  2:{ subst w'. unfold handle_switch_out. by rewrite Ha. }
  destruct (t_regs prev) as [[[ip fp] sp]|] eqn:Hr.
  - destruct (switch_out_stash stackid prev ip fp sp w Hb Ha Hr) as (H1 & H2 & rec & k0 & H3 & _).
    subst w'. split_and!; try done. rewrite H3. by apply hash_update_other.
  - destruct (buffers_get w Hb) as (st0 & rec0 & G1 & G2 & _).
    subst w'. unfold handle_switch_out. by rewrite Ha, G2, G1, Hr.
Qed.

Lemma switch_in_frame next w k :
  k <> key_of next -> buffers_wf w ->
  buffers_wf (handle_switch_in next w) /\ starts (handle_switch_in next w) !! k = starts w !! k.
Proof using Type.
  intros Hk Hb. unfold handle_switch_in. fold (key_of next).
  destruct (t_pid next =? 0); [done|]. destruct (starts w !! key_of next); [|done].
  destruct (_ =? 0); [done|]. simpl. destruct (ringbuf_output _ _ _). split; [done|].
  unfold starts; simpl. by rewrite lookup_delete_ne, lookup_insert_ne by done.
Qed.

(** A run of switches, each with the stack id it captures. *)
Definition switches (l : list (Z * task * task)) (w : W) : W :=
  foldl (fun w e => offcpu_dwarf_sched_switch e.1.1 e.1.2 e.2 w) w l.

Lemma switches_frame l w k :
  buffers_wf w -> Forall (fun e => k <> key_of e.1.2 /\ k <> key_of e.2) l ->
  buffers_wf (switches l w) /\ starts (switches l w) !! k = starts w !! k.
Proof using Hhandoff Hmodules.
  revert w. induction l as [|[[sid prev] next] l IH]; intros w Hb Hl; [done|].
  apply Forall_cons_1 in Hl as [[Hp Hn] Hl]. simpl in *.
  destruct (switch_in_frame next w k Hn Hb) as [Hb1 H1].
  destruct (switch_out_frame sid prev (handle_switch_in next w) k Hb1 Hp) as (Hb2 & _ & H2).
  destruct (IH (offcpu_dwarf_sched_switch sid prev next w) Hb2 Hl) as [Hb3 H3].
  split; [exact Hb3|]. etrans; [exact H3|]. etrans; [exact H2|exact H1].
Qed.

(** C17: An off-CPU interval is reported whole. A task switched out is stashed
    under its own identity with the clock reading the switch-out took; when its
    user stack is described by the CFI rows and the frame-pointer chain and no
    interpreter claims a frame, the stash reads back as exactly that stack, up
    to 127 frames. Through any number of switches of other tasks the stash
    stays as it was; and when the task is switched back in, that very record is
    offered to the ring buffer once, weighted by the time between the reading
    of the switch-out and the reading of the switch-in, and the stash is
    removed. (The code takes a reading of zero for no stash.) *)
Theorem offcpu_dwarf_interval sid prev next ip fp sp mid w :
  buffers_wf w -> offcpu_accepts prev = true -> t_regs prev = Some (ip, fp, sp) ->
  key_of next <> key_of prev ->
  Z.of_nat (size (starts (handle_switch_in next w))) < OFFCPU_START_SIZE ->
  Forall (fun e => key_of prev <> key_of e.1.2 /\ key_of prev <> key_of e.2) mid ->
  let w0 := handle_switch_in next w in
  let w1 := switches mid (handle_switch_out sid prev w0) in
  let w2 := handle_switch_in prev w1 in
  exists rec k, starts w1 !! key_of prev = Some rec /\ stashed sid prev k rec /\
    (readings w0 <= k)%nat /\ readings (handle_switch_out sid prev w0) = S k /\
    (forall pcs, stack ev t (t_tgid prev) ip fp sp pcs -> Forall (unclaimed t (t_tgid prev)) pcs ->
       holds rec (hdr_n_pcs (rec_hdr rec)) (Native <$> take 127 pcs)) /\
    (u64 (e_ktime ev k) <> 0 ->
     events w2 = (ringbuf_output (e_room ev) (events w1)
       (set_value rec (u64 (u64 (e_ktime ev (readings w1)) - u64 (e_ktime ev k))))).2 /\
     starts w2 !! key_of prev = None).
Proof using Hhandoff Hmodules.
  intros Hb Ha Hr Hne Hroom Hmid w0 w1 w2.
  destruct (switch_in_frame next w (key_of prev) ltac:(done) Hb) as [Hb1 _]. fold w0 in Hb1, Hroom.
  destruct (switch_out_stash sid prev ip fp sp w0 Hb1 Ha Hr)
    as (Hb2 & _ & rec & k & Hst & Hk & Hk' & Hsd).
  destruct (switches_frame mid (handle_switch_out sid prev w0) (key_of prev) Hb2 Hmid) as [Hb3 Hs].
  assert (Hrec : starts w1 !! key_of prev = Some rec).
  { etrans; [exact Hs|]. rewrite Hst. by apply hash_update_any. }
  assert (Hpz : t_pid prev <> 0).
  { intros Hz. unfold offcpu_accepts in Ha. by rewrite Hz in Ha. }
  exists rec, k. do 4 (split; [done|]). split.
  - intros pcs Hstack Hu. destruct (switch_out_stack sid prev ip fp sp pcs w0 Hb1 Ha Hr Hstack Hu)
      as (rec' & Hst' & Hh). enough (rec' = rec) as -> by done.
    assert (Some rec' = Some rec) as [= ->]; [|done].
    transitivity (starts (handle_switch_out sid prev w0) !! key_of prev);
      [rewrite Hst'|rewrite Hst]; [symmetry|]; by apply hash_update_any.
  - intros Hnz. subst w2. unfold handle_switch_in at 1 2. fold (key_of prev).
    rewrite (proj2 (Z.eqb_neq _ _) Hpz), Hrec, (sd_value _ _ _ _ Hsd), (proj2 (Z.eqb_neq _ _) Hnz).
    unfold ktime_get_ns. cbv zeta beta iota. fold (readings w1).
    destruct (ringbuf_output _ _ _) as [ok rb]. unfold events, starts; simpl.
    by rewrite lookup_delete_eq.
Qed.
End offcpu_dwarf.

(** ** A concrete interval *)

Definition off_world : world (driver off_priv) unit :=
  World [stale_record] [Persist 0 0 0 [] 0 0 0 0 0 0 0] (replicate 7 0)
        (Drv no_misses (OffPriv ∅ (Ringbuf [] 0))) tt.
Definition off_cfg : sampler_cfg := SamplerCfg true false ∅.
Definition blocked_task : task := Task 43 42 0 1 (Some (0x1010, 0x600, 0x500)).
Definition other_task : task := Task 51 50 0 0 None.
Definition third_task : task := Task 61 60 0 0 None.
Definition off_env : env :=
  Env (e_mem mixed_env) (fun n => 1000 * Z.of_nat (S n)) (fun _ => true) (fun _ => true) (fun m _ _ => m).

Lemma off_world_wf : buffers_wf off_world.
Proof. split; [done|]. intros rec [= <-]. done. Qed.

Lemma off_stack : stack off_env mixed_tables 42 0x1010 0x600 0x500 mixed_pcs.
Proof. apply mixed_stack_in. unfold mixed_words. repeat constructor. Qed.

(** A task blocked on the four-frame stack, with another switch in between:
    one microsecond away, and the four program counters it left with. *)
Lemma offcpu_dwarf_interval_witness :
  let w1 := switches off_env mixed_tables off_cfg (fun _ => None) [(6, other_task, third_task)]
              (handle_switch_out off_env mixed_tables off_cfg (fun _ => None) 5 blocked_task
                 (handle_switch_in off_env other_task off_world)) in
  let w2 := handle_switch_in off_env blocked_task w1 in
  exists rec, events w2 = (ringbuf_output (e_room off_env) (events w1) (set_value rec 1000)).2 /\
    hdr_time_ns (rec_hdr rec) = 1000 /\
    holds rec (hdr_n_pcs (rec_hdr rec)) [Native 0x1010; Native 0x200; Native 0x300; Native 0x400] /\
    starts w2 !! key_of blocked_task = None.
Proof.
  destruct (offcpu_dwarf_interval off_env mixed_tables off_cfg (fun _ => None) mixed_handoff_wf
           ltac:(done) 5 blocked_task other_task 0x1010 0x600 0x500 [(6, other_task, third_task)]
           off_world) as (rec & k & _ & Hsd & _ & Hk & Hpcs & Hev).
  - apply off_world_wf.
  - reflexivity.
  - reflexivity.
  - done.
  - reflexivity.
  - repeat constructor; done.
  - assert (k = 0%nat) as -> by (apply (f_equal pred) in Hk; symmetry; exact Hk).
    destruct Hev as [Hev Hgone]; [done|].
    exists rec. split; [exact Hev|]. split; [apply (sd_time _ _ _ _ _ _ Hsd)|].
    split; [exact (Hpcs mixed_pcs off_stack mixed_unclaimed)|exact Hgone].
Defined.

(** The same interval, evaluated. *)
Example off_interval_value :
  let w := handle_switch_in off_env blocked_task
             (switches off_env mixed_tables off_cfg (fun _ => None)
                [(5, blocked_task, other_task); (6, other_task, third_task)] off_world) in
  (fun r => (hdr_value (rec_hdr r), take 4 (rec_pcs r))) <$> rb_events (events w) = [(1000, mixed_pcs)].
Proof. vm_compute. done. Qed.
