(* ===== verification/OffCpu.v ===== *)
(** * OffCpu: the frame-pointer off-CPU profiler

    Models src/bpf/offcpu.bpf.c: how long tasks were off the CPU, aggregated in
    the kernel by stack.  The bounded maps are proved to implement the list of
    off-CPU intervals of the trace. *)
From S2P Require Import Prelude Bpf Sampling.

Definition OFFCPU_MAPS_SIZE : Z := 16384.
Definition START_MAPS_SIZE : Z := 10240.

Record start_val := StartVal {
  sv_timestamp : Z;
  sv_kern_stack : Z;
  sv_user_stack : Z;
}.

(** A thread is (pid, tgid); an aggregation key is (pid, kernel, user stack). *)
Abbreviation start_key := (Z * Z)%type.
Abbreviation offcpu_key := (Z * Z * Z)%type.

Record offcpu_state := OffState {
  start : gmap start_key start_val;
  offcpu_counts : gmap offcpu_key Z;
}.

Record offcpu_cfg := OffCfg {
  off_system_wide : bool;
  off_kernel_stacks : bool;
  pid_filter : gmap Z Z;
}.

(** A context switch: the time, the two tasks, and what [bpf_get_stackid]
    returns for the kernel and user stack of the one leaving. *)
Record switch := Switch {
  sw_now : Z;
  sw_prev : task;
  sw_next : task;
  sw_kern : Z;
  sw_user : Z;
}.

Section offcpu.
  Context (cfg : offcpu_cfg).

Definition should_track (tgid : Z) : bool :=
  off_system_wide cfg || bool_decide (is_Some (pid_filter cfg !! tgid)).

Definition switch_out (e : switch) (s : offcpu_state) : offcpu_state :=
  let prev := sw_prev e in
  if negb (t_pid prev =? 0) && should_track (t_tgid prev) &&
     negb (has_flag (t_flags prev) PF_KTHREAD)
  then
    let kern := if off_kernel_stacks cfg then sw_kern e else -1 in
    let sv := StartVal (sw_now e) kern (sw_user e) in
    OffState (hash_update START_MAPS_SIZE BPF_ANY (start s) (t_pid prev, t_tgid prev) sv).2
             (offcpu_counts s)
  else s.

Definition switch_in (e : switch) (s : offcpu_state) : offcpu_state :=
  let next := sw_next e in
  if negb (t_pid next =? 0) && should_track (t_tgid next) then
    let sk := (t_pid next, t_tgid next) in
    match start s !! sk with
    | Some sv =>
        if 0 <? sv_timestamp sv then
          let delta := u64 (sw_now e - sv_timestamp sv) in
          let ok := (t_tgid next, sv_kern_stack sv, sv_user_stack sv) in
          let counts :=
            match offcpu_counts s !! ok with
            | Some val => <[ok := u64 (val + delta)]> (offcpu_counts s)
            | None => (hash_update OFFCPU_MAPS_SIZE BPF_NOEXIST (offcpu_counts s) ok delta).2
            end in
          OffState (delete sk (start s)) counts
        else s
    | None => s
    end
  else s.

(** Both halves of a switch, in the order of the source. *)
Definition handle_sched_switch (e : switch) (s : offcpu_state) : offcpu_state :=
  switch_in e (switch_out e s).

Definition run_switches (l : list switch) (s : offcpu_state) : offcpu_state :=
  foldl (fun s e => handle_sched_switch e s) s l.

(** ** The intervals of a trace

    The abstract machine: which threads are away and since when, without any
    bound, and the finished intervals in order. *)

Definition leaves (e : switch) : option (start_key * start_val) :=
  let prev := sw_prev e in
  if negb (t_pid prev =? 0) && should_track (t_tgid prev) && negb (has_flag (t_flags prev) PF_KTHREAD)
  then Some ((t_pid prev, t_tgid prev),
             StartVal (sw_now e) (if off_kernel_stacks cfg then sw_kern e else -1) (sw_user e))
  else None.

Definition returns (e : switch) : option start_key :=
  let next := sw_next e in
  if negb (t_pid next =? 0) && should_track (t_tgid next) then Some (t_pid next, t_tgid next) else None.

Record away_state := Away {
  away : gmap start_key start_val;
  intervals : list (offcpu_key * Z);
}.

Definition away_step (e : switch) (a : away_state) : away_state :=
  let m := match leaves e with Some (k, sv) => <[k := sv]> (away a) | None => away a end in
  match returns e with
  | None => Away m (intervals a)
  | Some k =>
      match m !! k with
      | Some sv =>
          if 0 <? sv_timestamp sv
          then Away (delete k m)
                 (intervals a ++ [((k.2, sv_kern_stack sv, sv_user_stack sv),
                                   u64 (sw_now e - sv_timestamp sv))])
          else Away m (intervals a)
      | None => Away m (intervals a)
      end
  end.

Definition run_away (l : list switch) (a : away_state) : away_state :=
  foldl (fun a e => away_step e a) a l.

Lemma intervals_grow i l a : i ∈ intervals a -> i ∈ intervals (run_away l a).
Proof using Type.
  revert a. induction l as [|e l IH]; intros a Ha; [done|]. simpl. apply IH. unfold away_step.
  repeat case_match; simpl; try done; apply elem_of_app; by left.
Qed.

(** The time recorded under a key, when any was. *)
Definition time_of (k : offcpu_key) (l : list (offcpu_key * Z)) : option Z :=
  match filter (fun i => i.1 = k) l with
  | [] => None
  | found => Some (u64 (foldr (fun i n => i.2 + n) 0 found))
  end.

Lemma time_of_snoc k l k' d :
  is_u64 d ->
  time_of k (l ++ [(k', d)]) =
  if decide (k' = k) then Some (u64 (default 0 (time_of k l) + d)) else time_of k l.
Proof using Type.
  intros Hd. unfold time_of. rewrite list.filter_app. simpl.
  destruct (decide (k' = k)) as [->|Hne].
  - rewrite filter_cons_True by done. rewrite filter_nil.
    destruct (filter _ l) as [|[k1 d1] l']; simpl.
    + do 2 f_equal. lia.
    + f_equal. rewrite foldr_app. simpl.
      assert (Hshift : forall x, foldr (fun i n => i.2 + n) x l' = foldr (fun (i : offcpu_key * Z) n => i.2 + n) 0 l' + x).
      { clear. induction l' as [|i l' IH]; intros x; simpl; [lia|]. rewrite IH. lia. }
      rewrite Hshift. unfold u64. rewrite Z.add_mod_idemp_l by done. f_equal. lia.
  - rewrite filter_cons_False, filter_nil, app_nil_r by done. done.
Qed.

(** ** Refinement *)

Context (threads : gset start_key) (keys : gset offcpu_key).
Context (Hthreads : Z.of_nat (size threads) <= START_MAPS_SIZE).
Context (Hkeys : Z.of_nat (size keys) <= OFFCPU_MAPS_SIZE).

Record refines (s : offcpu_state) (a : away_state) : Prop := {
  ref_start : start s = away a;
  ref_threads : dom (away a) ⊆ threads;
  ref_keys : dom (offcpu_counts s) ⊆ keys;
  ref_counts : forall k, offcpu_counts s !! k = time_of k (intervals a);
}.

Lemma switch_out_refines e s a :
  refines s a -> (forall k sv, leaves e = Some (k, sv) -> k ∈ threads) ->
  refines (switch_out e s)
    (Away (match leaves e with Some (k, sv) => <[k := sv]> (away a) | None => away a end) (intervals a)).
Proof using Hthreads Hkeys.
  intros [H1 H2 H3 H4] Hk. unfold switch_out, leaves in *. destruct (_ && _ && _); [|by split].
  specialize (Hk _ _ eq_refl). split; simpl; [|set_solver|done|done].
  rewrite H1. by rewrite (hash_update_within _ _ _ threads) by (done || by right).
Qed.

(** Adding an interval to the counts. *)
Lemma add_interval counts l k d :
  dom counts ⊆ keys -> (forall j, counts !! j = time_of j l) -> k ∈ keys -> is_u64 d ->
  let counts' := match counts !! k with
                 | Some val => <[k := u64 (val + d)]> counts
                 | None => (hash_update OFFCPU_MAPS_SIZE BPF_NOEXIST counts k d).2
                 end in
  dom counts' ⊆ keys /\ forall j, counts' !! j = time_of j (l ++ [(k, d)]).
Proof using Hthreads Hkeys.
  intros Hd Hc Hk Hu counts'.
  assert (Hc' : counts' = <[k := u64 (default 0 (counts !! k) + d)]> counts).
  { subst counts'. destruct (counts !! k) eqn:E; [done|]. simpl.
    rewrite (hash_update_within _ _ _ keys) by (done || by left). simpl. by rewrite u64_small. }
  rewrite Hc'. split; [set_solver|]. intros j. rewrite time_of_snoc by done.
  destruct (decide (k = j)) as [->|Hne].
  - by rewrite lookup_insert_eq, Hc.
  - by rewrite lookup_insert_ne.
Qed.

Lemma switch_refines e s a :
  refines s a -> (forall k sv, leaves e = Some (k, sv) -> k ∈ threads) ->
  (forall i, i ∈ intervals (away_step e a) -> i.1 ∈ keys) ->
  refines (handle_sched_switch e s) (away_step e a).
Proof using Hthreads Hkeys.
  intros Hr Hk Hi. apply (switch_out_refines e) in Hr as [H1 H2 H3 H4]; [|done].
  unfold handle_sched_switch, away_step in *. simpl in H1, H2.
  set (m := match leaves e with Some (k, sv) => _ | None => _ end) in *.
  unfold switch_in, returns in *. destruct (_ && _); [|by split].
  rewrite H1. destruct (m !! (t_pid (sw_next e), t_tgid (sw_next e))) as [sv|] eqn:Em; [|by split].
  destruct (0 <? sv_timestamp sv); [|by split]. simpl in *.
  destruct (add_interval (offcpu_counts (switch_out e s)) (intervals a)
    (t_tgid (sw_next e), sv_kern_stack sv, sv_user_stack sv) (u64 (sw_now e - sv_timestamp sv)))
    as [Hd Hc]; try done; [|apply u64_range|].
  - eapply (Hi (_, _)). apply elem_of_app. right. by apply list_elem_of_singleton.
  - split; simpl; [done| |done|done]. rewrite dom_delete. set_solver.
Qed.

Lemma run_refines l s a :
  refines s a -> Forall (fun e => forall k sv, leaves e = Some (k, sv) -> k ∈ threads) l ->
  (forall i, i ∈ intervals (run_away l a) -> i.1 ∈ keys) ->
  refines (run_switches l s) (run_away l a).
Proof using Hthreads Hkeys.
  revert s a. induction l as [|e l IH]; intros s a Hr Hl Hi; [done|].
  apply Forall_cons_1 in Hl as [He Hl]. simpl in *. apply IH; [|done|done].
  apply switch_refines; [done|done|]. intros i Hin. apply Hi.
  by apply intervals_grow.
Qed.

Definition no_switches : offcpu_state := OffState ∅ ∅.
Definition nobody_away : away_state := Away ∅ [].

Lemma init_refines : refines no_switches nobody_away.
Proof using Type.
  split; simpl; [done|by rewrite dom_empty|by rewrite dom_empty|]. intros k. by rewrite lookup_empty.
Qed.

(** A trace whose threads and whose stacks fit the two maps. *)
Definition fits (l : list switch) : Prop :=
  Forall (fun e => forall k sv, leaves e = Some (k, sv) -> k ∈ threads) l /\
  forall i, i ∈ intervals (run_away l nobody_away) -> i.1 ∈ keys.

(** C20: The aggregated map is the sum of the off-CPU intervals. For every trace
    of context switches whose threads and stacks fit the two bounded maps, the
    value under each key is the total length, modulo 2^64, of the intervals of
    that process and those stacks, and a key is present exactly when there was
    one; the map of threads that are away is exact as well. *)
Theorem offcpu_counts_sum_intervals l :
  fits l ->
  let s := run_switches l no_switches in
  let a := run_away l nobody_away in
  start s = away a /\ forall k, offcpu_counts s !! k = time_of k (intervals a).
Proof using Hthreads Hkeys.
  intros [Hl Hi] s a. destruct (run_refines l no_switches nobody_away init_refines Hl Hi). done.
Qed.

(** A thread untouched by a run of switches stays as it was. *)
Lemma away_frame k l a :
  Forall (fun e => (forall sv, leaves e <> Some (k, sv)) /\ returns e <> Some k) l ->
  away (run_away l a) !! k = away a !! k.
Proof using Type.
  revert a. induction l as [|e l IH]; intros a Hl; [done|].
  apply Forall_cons_1 in Hl as [[H1 H2] Hl]. simpl. rewrite IH by done. unfold away_step.
  assert (Hm : (match leaves e with Some (k, sv) => <[k := sv]> (away a) | None => away a end) !! k =
               away a !! k).
  { destruct (leaves e) as [[k' sv]|] eqn:E; [|done]. apply lookup_insert_ne. intros ->. by apply (H1 sv). }
  set (m := match leaves e with Some (k, sv) => _ | None => _ end) in *.
  destruct (returns e) as [k'|] eqn:Er; [|done]. destruct (m !! k'); [|done].
  destruct (0 <? _); [|done]. simpl. rewrite lookup_delete_ne; [done|congruence].
Qed.

(** An interval is counted when it ends, for its full length. If a thread
    leaves the CPU in [e1], takes no part in the switches [l2] after it and
    returns in [e2], then [e2] adds to the counts exactly one interval: under
    the thread's process and the stacks captured in [e1], of length the
    difference of the two switch times. *)
Theorem offcpu_interval_counted l1 e1 l2 e2 k sv :
  fits (l1 ++ e1 :: l2) -> fits ((l1 ++ e1 :: l2) ++ [e2]) ->
  leaves e1 = Some (k, sv) -> returns e1 <> Some k ->
  Forall (fun e => (forall sv, leaves e <> Some (k, sv)) /\ returns e <> Some k) l2 ->
  (forall sv, leaves e2 <> Some (k, sv)) -> returns e2 = Some k -> 0 < sw_now e1 ->
  exists ivs,
    (forall j, offcpu_counts (run_switches (l1 ++ e1 :: l2) no_switches) !! j = time_of j ivs) /\
    (forall j, offcpu_counts (run_switches ((l1 ++ e1 :: l2) ++ [e2]) no_switches) !! j =
       time_of j (ivs ++ [((k.2, sv_kern_stack sv, sv_user_stack sv),
                           u64 (sw_now e2 - sw_now e1))])).
Proof using Hthreads Hkeys.
  intros [F1 F2] [G1 G2] Hl1 Hr1 Hmid Hl2 Hr2 Hpos.
  destruct (run_refines _ no_switches nobody_away init_refines F1 F2) as [_ _ _ HA].
  destruct (run_refines _ no_switches nobody_away init_refines G1 G2) as [_ _ _ HB].
  exists (intervals (run_away (l1 ++ e1 :: l2) nobody_away)). split; [done|].
  intros j. rewrite HB. f_equal. unfold run_away. rewrite foldl_app. simpl.
  fold (run_away (l1 ++ e1 :: l2) nobody_away). set (a := run_away (l1 ++ e1 :: l2) nobody_away).
  assert (Ha : away a !! k = Some sv).
  { subst a. unfold run_away. rewrite foldl_app. simpl. fold (run_away l1 nobody_away).
    fold (run_away l2 (away_step e1 (run_away l1 nobody_away))).
    rewrite away_frame by done. unfold away_step. rewrite Hl1.
    destruct (returns e1) as [k'|] eqn:E; [|simpl; by rewrite lookup_insert_eq].
    assert (Hne : k' <> k) by congruence.
    destruct (<[k := sv]> (away (run_away l1 nobody_away)) !! k'); [|simpl; by rewrite lookup_insert_eq].
    destruct (0 <? _); simpl; [rewrite lookup_delete_ne by done|]; by rewrite lookup_insert_eq. }
  assert (Ht : sv_timestamp sv = sw_now e1).
  { revert Hl1. unfold leaves. case_match; [|done]. by intros [= <- <-]. }
  unfold away_step. rewrite Hr2.
  assert (Hm : (match leaves e2 with Some (k, sv) => <[k := sv]> (away a) | None => away a end) !! k =
               Some sv).
  { destruct (leaves e2) as [[k' sv']|] eqn:E; [|done]. rewrite lookup_insert_ne; [done|].
    intros ->. by apply (Hl2 sv'). }
  rewrite Hm, Ht, (proj2 (Z.ltb_lt _ _) Hpos). done.
Qed.
End offcpu.

(** ** A concrete trace *)

Definition off_demo_cfg : offcpu_cfg := OffCfg false false {[ 42 := 1 ]}.
Definition tracked_task : task := Task 43 42 0 1 None.
Definition idle_task : task := Task 0 0 0 0 None.
Definition untracked_task : task := Task 91 90 0 0 None.
Definition leave_at (now : Z) : switch := Switch now tracked_task idle_task 5 6.
Definition other_at (now : Z) : switch := Switch now idle_task untracked_task 7 8.
Definition return_at (now : Z) : switch := Switch now untracked_task tracked_task 9 10.
Definition demo_threads : gset (Z * Z) := {[ (43, 42) ]}.
Definition demo_keys : gset (Z * Z * Z) := {[ (42, -1, 6) ]}.

Lemma demo_fits_prefix : fits off_demo_cfg demo_threads demo_keys ([] ++ leave_at 100 :: [other_at 150]).
Proof.
  split; [|by intros i ?%not_elem_of_nil].
  repeat apply Forall_cons_2; try apply Forall_nil_2; intros k sv; vm_compute; intros [= <- <-] || done.
  set_solver.
Qed.

Lemma demo_fits : fits off_demo_cfg demo_threads demo_keys
  (([] ++ leave_at 100 :: [other_at 150]) ++ [return_at 175]).
Proof.
  split.
  - repeat apply Forall_cons_2; try apply Forall_nil_2; intros k sv; vm_compute; intros [= <- <-] || done.
    set_solver.
  - intros i Hi. vm_compute in Hi. apply list_elem_of_singleton in Hi as ->. vm_compute. set_solver.
Qed.

Lemma offcpu_counts_sum_intervals_witness :
  let l := ([] ++ leave_at 100 :: [other_at 150]) ++ [return_at 175] in
  let s := run_switches off_demo_cfg l no_switches in
  let a := run_away off_demo_cfg l nobody_away in
  start s = away a /\ forall k, offcpu_counts s !! k = time_of k (intervals a).
Proof.
  apply (offcpu_counts_sum_intervals off_demo_cfg demo_threads demo_keys).
  - by vm_compute.
  - by vm_compute.
  - apply demo_fits.
Defined.

Lemma offcpu_interval_counted_witness :
  exists ivs,
    (forall j, offcpu_counts (run_switches off_demo_cfg ([] ++ leave_at 100 :: [other_at 150]) no_switches) !! j =
       time_of j ivs) /\
    (forall j, offcpu_counts (run_switches off_demo_cfg
         (([] ++ leave_at 100 :: [other_at 150]) ++ [return_at 175]) no_switches) !! j =
       time_of j (ivs ++ [((42, -1, 6), u64 (175 - 100))])).
Proof.
  apply (offcpu_interval_counted off_demo_cfg demo_threads demo_keys ltac:(by vm_compute) ltac:(by vm_compute)
    [] (leave_at 100) [other_at 150] (return_at 175) (43, 42) (StartVal 100 (-1) 6)).
  - apply demo_fits_prefix.
  - apply demo_fits.
  - reflexivity.
  - done.
  - repeat constructor; done.
  - done.
  - reflexivity.
  - done.
Defined.
