(* ===== verification/Perf.v ===== *)
(** * Perf: the frame-pointer on-CPU profiler

    Models src/bpf/perf.bpf.c: a perf event counts one sample under the process
    and the two stack ids the kernel returns. *)
From S2P Require Import Prelude Bpf Sampling.

Definition PROFILE_MAPS_SIZE : Z := 16384.

Record sample_key := SampleKey {
  sk_pid : Z;
  sk_flags : Z;
  sk_kern_stack : Z;
  sk_user_stack : Z;
}.

#[export] Instance sample_key_eq_dec : EqDecision sample_key.
Proof. solve_decision. Defined.
#[export] Instance sample_key_countable : Countable sample_key.
Proof.
  refine (inj_countable' (fun k => (sk_pid k, sk_flags k, sk_kern_stack k, sk_user_stack k))
            (fun '(a, b, c, d) => SampleKey a b c d) _).
  by intros [].
Defined.

(** One overflow of the counter: the process, the current task when there is
    one, and what [bpf_get_stackid] returns for each half of the stack. *)
Record overflow := Overflow {
  ov_tgid : Z;
  ov_task : option task;
  ov_kern : Z;
  ov_user : Z;
}.

Section profile.
  Context (cfg : sampler_cfg).

(** The filter and the key it leads to; [None] is an early return. *)
Definition sample_key_of (o : overflow) : option sample_key :=
  match ov_task o with
  | None => None
  | Some tk =>
      if ov_tgid o =? 0 then None
      else if has_flag (t_flags tk) PF_KTHREAD then None
      else
        let config := if system_wide cfg then None else pids cfg !! ov_tgid o in
        if negb (system_wide cfg) && bool_decide (config = None) then None
        else
          let collects f := if system_wide cfg then true
                            else match config with Some c => negb (f c =? 0) | None => false end in
          let kern := if kernel_stacks_enabled cfg && collects collect_kernel then ov_kern o else -1 in
          let user := if collects collect_user then ov_user o else -1 in
          Some (SampleKey (ov_tgid o) 0 kern user)
  end.

Definition count_sample (key : sample_key) (counts : gmap sample_key Z) : gmap sample_key Z :=
  match counts !! key with
  | Some val => <[key := u64 (val + 1)]> counts
  | None => (hash_update PROFILE_MAPS_SIZE BPF_NOEXIST counts key 1).2
  end.

Definition profile (counts : gmap sample_key Z) (o : overflow) : gmap sample_key Z :=
  match sample_key_of o with
  | None => counts
  | Some key => count_sample key counts
  end.

Definition profile_all (os : list overflow) : gmap sample_key Z := foldl profile ∅ os.

(** The samples of a trace that count under [k]. *)
Definition samples_of (k : sample_key) (os : list overflow) : list overflow :=
  filter (fun o => sample_key_of o = Some k) os.

Context (keys : gset sample_key) (Hkeys : Z.of_nat (size keys) <= PROFILE_MAPS_SIZE).

Lemma count_sample_within counts key :
  dom counts ⊆ keys -> key ∈ keys ->
  count_sample key counts = <[key := u64 (default 0 (counts !! key) + 1)]> counts.
Proof using Hkeys.
  intros Hd Hk. unfold count_sample. destruct (counts !! key) eqn:E; [done|]. simpl.
  rewrite (hash_update_within _ _ _ keys) by (done || by left). done.
Qed.

(** The profile counts samples. For every sequence of counter overflows
    whose stacks fit the map, the count under a key is the number of accepted
    samples with that process and those stacks, modulo 2^64, and a key is
    present exactly when there was one. *)
Theorem profile_counts_samples os k :
  Forall (fun o => forall j, sample_key_of o = Some j -> j ∈ keys) os ->
  profile_all os !! k =
  if decide (samples_of k os = []) then None else Some (u64 (Z.of_nat (length (samples_of k os)))).
Proof using Hkeys.
  intros Hos.
  enough (H : dom (profile_all os) ⊆ keys /\ forall k, profile_all os !! k =
    if decide (samples_of k os = []) then None else Some (u64 (Z.of_nat (length (samples_of k os)))))
    by apply H.
  clear k. unfold profile_all. induction os as [|o os IH] using rev_ind.
  { split; [simpl; by rewrite dom_empty|]. intros k. simpl. by rewrite lookup_empty. }
  apply Forall_app in Hos as [Hos Ho]. apply Forall_inv in Ho. specialize (IH Hos) as [Hd Hc].
  rewrite foldl_app. simpl. unfold profile at 1 3. set (c := foldl profile ∅ os) in *.
  assert (Hsnoc : forall k, samples_of k (os ++ [o]) =
    samples_of k os ++ (if decide (sample_key_of o = Some k) then [o] else [])).
  { intros k. unfold samples_of. rewrite list.filter_app, filter_cons, filter_nil. by case_decide. }
  destruct (sample_key_of o) as [key|] eqn:Ek.
  - specialize (Ho key eq_refl). rewrite count_sample_within by done. split.
    { rewrite dom_insert. set_solver. }
    intros k. rewrite Hsnoc. destruct (decide (key = k)) as [->|Hne].
    + rewrite lookup_insert_eq, (decide_True (P := Some k = Some k)) by done.
      rewrite decide_False by (by destruct (samples_of k os)).
      f_equal. rewrite length_app. simpl. rewrite Hc.
      destruct (decide (samples_of k os = [])) as [->|]; [done|]. simpl.
      unfold u64. rewrite Z.add_mod_idemp_l by done. f_equal. lia.
    + rewrite lookup_insert_ne, (decide_False (P := Some key = Some k)), app_nil_r by congruence. apply Hc.
  - split; [done|]. intros k. rewrite Hsnoc, (decide_False (P := None = Some k)), app_nil_r by done. apply Hc.
Qed.

End profile.

Definition prof_cfg : sampler_cfg := SamplerCfg false true {[ 42 := PidConfig 0 1 0 ]}.
Definition prof_sample : overflow := Overflow 42 (Some (Task 43 42 0 0 None)) 11 12.
Definition prof_other : overflow := Overflow 7 (Some (Task 7 7 0 0 None)) 11 12.

Lemma profile_counts_samples_witness :
  profile_all prof_cfg [prof_sample; prof_other; prof_sample] !! SampleKey 42 0 (-1) 12 = Some 2.
Proof.
  change (Some 2) with
    (if decide (samples_of prof_cfg (SampleKey 42 0 (-1) 12) [prof_sample; prof_other; prof_sample] = [])
     then None else Some (u64 (Z.of_nat (length
       (samples_of prof_cfg (SampleKey 42 0 (-1) 12) [prof_sample; prof_other; prof_sample]))))).
  apply (profile_counts_samples prof_cfg {[ SampleKey 42 0 (-1) 12 ]}).
  - by vm_compute.
  - repeat constructor; intros j Hj; vm_compute in Hj; simplify_eq; set_solver.
Defined.
