(* ===== verification/OnCpus.v ===== *)
(** * OnCpus: the frame-pointer profilers on several CPUs

    src/bpf/offcpu.bpf.c and src/bpf/perf.bpf.c run on every CPU and share their
    maps.  OffCpu and Perf take a run of a program as one step; here the CPUs
    interleave between the accesses to the maps, one per step: a lookup, an
    update, a delete, the atomic addition of the off-CPU profiler, and the load
    and the store that the plain increment of [val] of the on-CPU profiler is. *)
From S2P Require Import Prelude Bpf Sampling OffCpu Perf.

(** ** The off-CPU profiler *)

(** Where a CPU is in [handle_sched_switch]: before the update of [start] for the
    task that leaves, before the lookup for the one that returns; with an
    interval read, before the lookup of its key, before the addition through the
    pointer found or before the insertion when none was; before the delete. *)
Inductive spc :=
| SwOut (e : switch)
| SwIn (e : switch)
| SwFind (sk : start_key) (ok : offcpu_key) (delta : Z)
| SwAdd (sk : start_key) (ok : offcpu_key) (delta : Z)
| SwInsert (sk : start_key) (ok : offcpu_key) (delta : Z)
| SwDelete (sk : start_key).

(** What became of an interval: the two ways of counting it, and the two errors
    [bpf_map_update_elem] can return, which the program ignores. *)
Inductive fate := Added | Inserted | Raced | Full.
#[export] Instance fate_eq_dec : EqDecision fate.
Proof. solve_decision. Defined.

Record smp := Smp {
  m_start : gmap start_key start_val;
  m_counts : gmap offcpu_key Z;
  m_cpu : gmap nat spc;
  (** the accesses to [start] so far: [true] for the task that leaves *)
  m_half : list (bool * switch);
  m_done : list (offcpu_key * Z * fate);
}.
Definition smp_init : smp := Smp ∅ ∅ ∅ [] [].

Inductive smp_op := Begin (c : nat) (e : switch) | Go (c : nat).
Definition cpu_of (o : smp_op) : nat := match o with Begin c _ | Go c => c end.

Section offcpu.
  Context (cfg : offcpu_cfg).

(** The error of an insertion, by its return value. *)
Definition fate_of (rc : Z) : fate := if rc =? 0 then Inserted else if rc =? - EEXIST then Raced else Full.

Definition smp_go (c : nat) (m : smp) : option smp :=
  let at_ p := <[c := p]> (m_cpu m) in
  match m_cpu m !! c with
  | None => None
  | Some (SwOut e) =>
      Some (Smp (match leaves cfg e with Some (k, sv) => (hash_update START_MAPS_SIZE BPF_ANY (m_start m) k sv).2 | None => m_start m end)
              (m_counts m) (at_ (SwIn e)) (m_half m ++ [(true, e)]) (m_done m))
  | Some (SwIn e) =>
      let idle := Smp (m_start m) (m_counts m) (delete c (m_cpu m)) (m_half m ++ [(false, e)]) (m_done m) in
      match returns cfg e with
      | None => Some idle
      | Some sk =>
          match m_start m !! sk with
          | None => Some idle
          | Some sv =>
              if 0 <? sv_timestamp sv
              then Some (Smp (m_start m) (m_counts m)
                     (at_ (SwFind sk (sk.2, sv_kern_stack sv, sv_user_stack sv) (u64 (sw_now e - sv_timestamp sv))))
                     (m_half m ++ [(false, e)]) (m_done m))
              else Some idle
          end
      end
  | Some (SwFind sk ok d) =>
      let p := match m_counts m !! ok with Some _ => SwAdd sk ok d | None => SwInsert sk ok d end in
      Some (Smp (m_start m) (m_counts m) (at_ p) (m_half m) (m_done m))
  | Some (SwAdd sk ok d) =>
      Some (Smp (m_start m) (<[ok := u64 (default 0 (m_counts m !! ok) + d)]> (m_counts m)) (at_ (SwDelete sk)) (m_half m)
              (m_done m ++ [(ok, d, Added)]))
  | Some (SwInsert sk ok d) =>
      let '(rc, counts) := hash_update OFFCPU_MAPS_SIZE BPF_NOEXIST (m_counts m) ok d in
      Some (Smp (m_start m) counts (at_ (SwDelete sk)) (m_half m) (m_done m ++ [(ok, d, fate_of rc)]))
  | Some (SwDelete sk) => Some (Smp (delete sk (m_start m)) (m_counts m) (delete c (m_cpu m)) (m_half m) (m_done m))
  end.

Definition smp_step (m : smp) (o : smp_op) : option smp :=
  match o with
  | Begin c e =>
      match m_cpu m !! c with
      | None => Some (Smp (m_start m) (m_counts m) (<[c := SwOut e]> (m_cpu m)) (m_half m) (m_done m))
      | Some _ => None
      end
  | Go c => smp_go c m
  end.
Fixpoint smp_run (m : smp) (os : list smp_op) : option smp :=
  match os with [] => Some m | o :: l => m' ← smp_step m o; smp_run m' l end.

(** One CPU alone runs [handle_sched_switch]. *)
Lemma smp_alone e start counts half done :
  exists n half' done',
    smp_run (Smp start counts ∅ half done) (Begin 0%nat e :: replicate n (Go 0%nat)) =
    let s := handle_sched_switch cfg e (OffState start counts) in
    Some (Smp (OffCpu.start s) (offcpu_counts s) ∅ half' done').
Proof using Type.
  unfold handle_sched_switch. set (st1 := switch_out cfg e (OffState start counts)).
  assert (E1 : OffCpu.start st1 = match leaves cfg e with Some (k, sv) => (hash_update START_MAPS_SIZE BPF_ANY start k sv).2 | None => start end /\
    offcpu_counts st1 = counts).
  { subst st1. unfold switch_out, leaves. by destruct (_ && _ && _). }
  destruct st1 as [start1 counts1]. simpl in E1. destruct E1 as [E1 ->].
  set (m1 := Smp start1 counts (<[0%nat := SwIn e]> ∅) (half ++ [(true, e)]) done).
  assert (Hstep : forall n m, smp_go 0 m1 = Some m ->
    smp_run (Smp start counts ∅ half done) (Begin 0%nat e :: replicate (S (S n)) (Go 0%nat)) = smp_run m (replicate n (Go 0%nat))).
  { intros n m Hm. set (m0 := Smp start counts (<[0%nat := SwOut e]> ∅) half done).
    assert (H0 : smp_step (Smp start counts ∅ half done) (Begin 0%nat e) = Some m0)
      by (cbn [smp_step m_cpu]; by rewrite lookup_empty).
    assert (H1 : smp_step m0 (Go 0%nat) = Some m1).
    { cbn [smp_step]. unfold smp_go, m0. cbn [m_cpu m_start m_counts m_half m_done]. by rewrite lookup_insert_eq, insert_insert_eq, <- E1. }
    cbn [smp_run replicate]. rewrite H0. cbn [mbind option_bind]. rewrite H1. cbn [mbind option_bind smp_step]. by rewrite Hm. }
  assert (Hgo : forall m, smp_go 0 m1 = m -> m = match returns cfg e with
    | None => Some (Smp start1 counts ∅ (half ++ [(true, e)] ++ [(false, e)]) done)
    | Some sk => match start1 !! sk with
      | None => Some (Smp start1 counts ∅ (half ++ [(true, e)] ++ [(false, e)]) done)
      | Some sv => if 0 <? sv_timestamp sv
        then Some (Smp start1 counts (<[0%nat := SwFind sk (sk.2, sv_kern_stack sv, sv_user_stack sv) (u64 (sw_now e - sv_timestamp sv))]> ∅)
                     (half ++ [(true, e)] ++ [(false, e)]) done)
        else Some (Smp start1 counts ∅ (half ++ [(true, e)] ++ [(false, e)]) done) end end).
  { intros m <-. unfold smp_go, m1. cbn [m_cpu m_start m_counts m_half m_done].
    rewrite lookup_insert_eq, delete_insert_eq, delete_empty, <- app_assoc.
    destruct (returns cfg e) as [sk|]; [|done]. destruct (start1 !! sk) as [sv|]; [|done]. by rewrite insert_insert_eq. }
  specialize (Hgo _ eq_refl). unfold switch_in, returns in *. cbn [OffCpu.start offcpu_counts]. destruct (_ && _).
  2: { exists 2%nat. do 2 eexists. by rewrite (Hstep 0%nat _ Hgo). }
  destruct (start1 !! _) as [sv|].
  2: { exists 2%nat. do 2 eexists. by rewrite (Hstep 0%nat _ Hgo). }
  destruct (0 <? sv_timestamp sv).
  2: { exists 2%nat. do 2 eexists. by rewrite (Hstep 0%nat _ Hgo). }
  destruct (counts !! _) eqn:Ec; [|destruct (hash_update _ _ _ _ _) as [rc cs] eqn:Eh];
    (exists 5%nat; do 2 eexists; rewrite (Hstep 3%nat _ Hgo); cbn [smp_run smp_step replicate snd];
     unfold smp_go at 3; cbn [m_cpu m_start m_counts m_half m_done]; rewrite lookup_insert_eq, insert_insert_eq, Ec; cbn [mbind option_bind];
     unfold smp_go at 2; cbn [m_cpu m_start m_counts m_half m_done]; rewrite lookup_insert_eq, insert_insert_eq, ?Ec, ?Eh;
     cbn [mbind option_bind default from_option]; unfold smp_go; cbn [m_cpu m_start m_counts m_half m_done];
     by rewrite lookup_insert_eq, delete_insert_eq, delete_empty).
Qed.

(** *** What the CPUs together should count

    The abstract machine of OffCpu, by halves of a switch, in the order in which
    the CPUs reach [start]. *)
Definition half_step (a : away_state) (h : bool * switch) : away_state :=
  if h.1 then Away (match leaves cfg h.2 with Some (k, sv) => <[k := sv]> (away a) | None => away a end) (intervals a)
  else match returns cfg h.2 with
       | None => a
       | Some k =>
           match away a !! k with
           | Some sv =>
               if 0 <? sv_timestamp sv
               then Away (delete k (away a)) (intervals a ++ [((k.2, sv_kern_stack sv, sv_user_stack sv), u64 (sw_now h.2 - sv_timestamp sv))])
               else a
           | None => a
           end
       end.
Definition seen (hs : list (bool * switch)) : away_state := foldl half_step nobody_away hs.

Lemma away_step_halves e a : away_step cfg e a = half_step (half_step a (true, e)) (false, e).
Proof using Type. unfold away_step, half_step. simpl. destruct (returns cfg e); [|done]. by repeat case_match. Qed.

(** The intervals that were counted, and those of a key lost to a race. *)
Definition kept (l : list (offcpu_key * Z * fate)) : list (offcpu_key * Z) :=
  fst <$> filter (fun x => x.2 = Added \/ x.2 = Inserted) l.
Definition raced (ok : offcpu_key) (l : list (offcpu_key * Z * fate)) : nat :=
  length (filter (fun x => x.1.1 = ok /\ x.2 = Raced) l).

(** What a CPU has read of [start] and not deleted yet; the interval it has in
    hand; whether it is about to insert. *)
Definition pending (p : spc) : list start_key :=
  match p with SwFind sk _ _ | SwAdd sk _ _ | SwInsert sk _ _ | SwDelete sk => [sk] | _ => [] end.
Definition in_hand (p : spc) : list (offcpu_key * Z) :=
  match p with SwFind _ ok d | SwAdd _ ok d | SwInsert _ ok d => [(ok, d)] | _ => [] end.
Definition inserting (ok : offcpu_key) (p : spc) : list unit :=
  match p with SwInsert _ ok' _ => if decide (ok' = ok) then [tt] else [] | _ => [] end.

(** The task whose entry the next step of a CPU is about. *)
Definition touches (p : spc) : option start_key :=
  match p with SwOut e => fst <$> leaves cfg e | SwIn e => returns cfg e | _ => None end.

(** The scheduler runs a task on one CPU at a time: while a CPU handles the return
    of a task, no other handles the task. *)
Definition exclusive (m : smp) (o : smp_op) : Prop :=
  match o with
  | Begin _ _ => True
  | Go c => forall p k, m_cpu m !! c = Some p -> touches p = Some k -> k ∉ hands pending (m_cpu m)
  end.
Definition exclusiveb (m : smp) (o : smp_op) : bool :=
  match o with
  | Begin _ _ => true
  | Go c => match m_cpu m !! c ≫= touches with Some k => bool_decide (k ∉ hands pending (m_cpu m)) | None => true end
  end.
Lemma exclusiveb_spec m o : exclusiveb m o = true -> exclusive m o.
Proof using Type.
  destruct o as [|c]; [done|]. simpl. intros H p k Hp Hk. rewrite Hp in H. simpl in H. rewrite Hk in H.
  by apply bool_decide_eq_true in H.
Qed.
Fixpoint scheduled (m : smp) (os : list smp_op) : bool :=
  match os with
  | [] => true
  | o :: l => exclusiveb m o && match smp_step m o with Some m' => scheduled m' l | None => true end
  end.

Context (n : nat) (threads : gset start_key) (Hthreads : Z.of_nat (size threads) <= START_MAPS_SIZE).

(** The CPUs are the first [n], the tasks that leave fit the map. *)
Definition op_ok (o : smp_op) : Prop :=
  match o with
  | Begin c e => (c < n)%nat /\ forall k sv, leaves cfg e = Some (k, sv) -> k ∈ threads
  | Go _ => True
  end.

(** What holds of a CPU by its place. *)
Definition place_ok (counts : gmap offcpu_key Z) (c : nat) (p : spc) : Prop :=
  (c < n)%nat /\ (forall ok d, (ok, d) ∈ in_hand p -> is_u64 d) /\
  match p with
  | SwOut e => forall k sv, leaves cfg e = Some (k, sv) -> k ∈ threads
  | SwAdd _ ok _ => is_Some (counts !! ok)
  | _ => True
  end.

Record smp_inv (m : smp) : Prop := {
  si_start : forall k, k ∉ hands pending (m_cpu m) -> m_start m !! k = away (seen (m_half m)) !! k;
  si_pend : forall k, k ∈ hands pending (m_cpu m) -> away (seen (m_half m)) !! k = None;
  si_nodup : NoDup (hands pending (m_cpu m));
  si_threads : dom (m_start m) ⊆ threads;
  si_place : forall c p, m_cpu m !! c = Some p -> place_ok (m_counts m) c p;
  si_counts : forall ok, m_counts m !! ok = time_of ok (kept (m_done m));
  si_flow : intervals (seen (m_half m)) ≡ₚ map fst (m_done m) ++ hands in_hand (m_cpu m);
  si_race : forall ok, match m_counts m !! ok with
    | None => raced ok (m_done m) = 0%nat
    | Some _ => (raced ok (m_done m) + length (hands (inserting ok) (m_cpu m)) < n)%nat
    end;
  si_full : forall ok d, (ok, d, Full) ∈ m_done m -> OFFCPU_MAPS_SIZE <= Z.of_nat (size (m_counts m));
}.

Lemma smp_init_inv : smp_inv smp_init.
Proof using Type.
  split; unfold smp_init; cbn [m_start m_counts m_cpu m_half m_done]; try done.
  all: try (intros; rewrite ?lookup_empty in *; done).
  all: try (intros * H; by apply not_elem_of_nil in H).
  - apply NoDup_nil_2.
Qed.

Lemma seen_snoc hs h : seen (hs ++ [h]) = half_step (seen hs) h.
Proof using Type. unfold seen. by rewrite foldl_app. Qed.

Lemma place_insert (P : nat -> spc -> Prop) (cpu : gmap nat spc) c p :
  (forall c q, cpu !! c = Some q -> P c q) -> P c p -> forall c' q, <[c := p]> cpu !! c' = Some q -> P c' q.
Proof using Type.
  intros H Hc c' q. destruct (decide (c = c')) as [->|]; [rewrite lookup_insert_eq; by intros [= <-]|].
  rewrite lookup_insert_ne by done. apply H.
Qed.
Lemma place_delete (P : nat -> spc -> Prop) (cpu : gmap nat spc) c :
  (forall c q, cpu !! c = Some q -> P c q) -> forall c' q, delete c cpu !! c' = Some q -> P c' q.
Proof using Type. intros H c' q. rewrite lookup_delete_Some. intros [_ Hq]. eauto. Qed.


(** A step of one CPU that changes neither map: it goes to [q], or is through. *)
Lemma quiet_move m cpu' half' :
  smp_inv m -> hands pending cpu' ≡ₚ hands pending (m_cpu m) -> hands in_hand cpu' ≡ₚ hands in_hand (m_cpu m) ->
  (forall ok, m_counts m !! ok <> None -> hands (inserting ok) cpu' ≡ₚ hands (inserting ok) (m_cpu m)) ->
  (forall c p, cpu' !! c = Some p -> place_ok (m_counts m) c p) -> seen half' = seen (m_half m) ->
  smp_inv (Smp (m_start m) (m_counts m) cpu' half' (m_done m)).
Proof using Type.
  intros [A B C D E F G H I] Hp Hh Hi Hpl Hs.
  split; cbn [m_start m_counts m_cpu m_half m_done]; rewrite ?Hs; try done.
  - intros k. rewrite Hp. apply A.
  - intros k. rewrite Hp. apply B.
  - by rewrite Hp.
  - by rewrite Hh.
  - intros ok. specialize (H ok). destruct (m_counts m !! ok) eqn:Ec; [|done].
    by rewrite (Permutation_length (Hi ok ltac:(congruence))).
Qed.

Lemma begin_inv m c e :
  smp_inv m -> op_ok (Begin c e) -> m_cpu m !! c = None ->
  smp_inv (Smp (m_start m) (m_counts m) (<[c := SwOut e]> (m_cpu m)) (m_half m) (m_done m)).
Proof using Type.
  intros H [Hc He] Hn. apply quiet_move; try done; intros; rewrite ?hands_insert by done; try done.
  revert c0 p H0. apply place_insert; [apply H|]. split_and!; [done| |done]. intros ok d []%elem_of_nil.
Qed.

Lemma out_inv m c e :
  smp_inv m -> m_cpu m !! c = Some (SwOut e) -> exclusive m (Go c) ->
  forall m', smp_go c m = Some m' -> smp_inv m'.
Proof using Hthreads.
  intros Hm Hc Hx m' Hgo. unfold smp_go in Hgo. rewrite Hc in Hgo. injection Hgo as <-.
  pose proof Hm as [A B C D E F G H I]. destruct (E _ _ Hc) as (Hn & _ & Hl).
  assert (Hpl : forall c' p, <[c := SwIn e]> (m_cpu m) !! c' = Some p -> place_ok (m_counts m) c' p).
  { apply place_insert; [done|]. split_and!; [done| |done]. intros ok d []%elem_of_nil. }
  pose proof (hands_same pending _ _ _ (SwIn e) Hc eq_refl) as Hp.
  pose proof (hands_same in_hand _ _ _ (SwIn e) Hc eq_refl) as Hh.
  split; cbn [m_start m_counts m_cpu m_half m_done]; rewrite ?seen_snoc; unfold half_step; cbn [fst snd away intervals]; try done.
  - intros k. rewrite Hp. intros Hk. destruct (leaves cfg e) as [[k' sv]|] eqn:El; [|by apply A].
    rewrite (hash_update_within _ _ _ threads) by (eauto || by right). simpl. by destruct (decide (k' = k)) as [->|];
      [rewrite !lookup_insert_eq|rewrite !lookup_insert_ne by done; apply A].
  - intros k. rewrite Hp. intros Hk. destruct (leaves cfg e) as [[k' sv]|] eqn:El; [|by apply B].
    rewrite lookup_insert_ne; [by apply B|]. intros ->. apply (Hx _ k Hc); [simpl; by rewrite El|done].
  - by rewrite Hp.
  - destruct (leaves cfg e) as [[k' sv]|] eqn:El; [|done].
    rewrite (hash_update_within _ _ _ threads) by (eauto || by right). simpl. rewrite dom_insert. specialize (Hl _ _ eq_refl). set_solver.
  - by rewrite Hh.
  - intros ok. specialize (H ok). by rewrite (Permutation_length (hands_same (inserting ok) _ _ _ (SwIn e) Hc eq_refl)).
Qed.

(** The return of a task: nothing to report, or its entry is taken. *)
Lemma in_inv m c e :
  smp_inv m -> m_cpu m !! c = Some (SwIn e) -> exclusive m (Go c) ->
  forall m', smp_go c m = Some m' -> smp_inv m'.
Proof using Type.
  intros Hm Hc Hx m' Hgo. pose proof Hm as [A B C D E F G H I]. destruct (E _ _ Hc) as (Hn & _ & _).
  assert (Hidle : seen (m_half m ++ [(false, e)]) = seen (m_half m) ->
    smp_inv (Smp (m_start m) (m_counts m) (delete c (m_cpu m)) (m_half m ++ [(false, e)]) (m_done m))).
  { intros Hs. apply quiet_move; try done; intros; try (by eapply hands_gone). by eapply place_delete. }
  unfold smp_go in Hgo. rewrite Hc, seen_snoc in *. unfold half_step in Hidle. cbn [fst snd] in Hidle.
  destruct (returns cfg e) as [sk|] eqn:Er; [|injection Hgo as <-; by apply Hidle].
  pose proof (Hx _ sk Hc Er) as Hsk. rewrite (A sk Hsk) in Hgo.
  destruct (away (seen (m_half m)) !! sk) as [sv|] eqn:Ea; [|injection Hgo as <-; by apply Hidle].
  destruct (0 <? sv_timestamp sv) eqn:Et; [|injection Hgo as <-; by apply Hidle]. injection Hgo as <-. clear Hidle.
  set (q := SwFind sk _ _). pose proof (hands_update pending _ _ _ q Hc) as Hp.
  pose proof (hands_update in_hand _ _ _ q Hc) as Hh. cbn in Hp, Hh.
  split; cbn [m_start m_counts m_cpu m_half m_done]; rewrite ?seen_snoc; unfold half_step; cbn [fst snd]; rewrite ?Er, ?Ea, ?Et;
    cbn [away intervals]; try done.
  - intros k. rewrite Hp, not_elem_of_cons. intros [Hne Hk]. rewrite lookup_delete_ne by done. by apply A.
  - intros k. rewrite Hp, elem_of_cons. intros [->|Hk]; [by rewrite lookup_delete_eq|].
    rewrite lookup_delete_ne; [by apply B|]. by intros ->.
  - rewrite Hp. by constructor.
  - apply place_insert; [done|]. split_and!; [done| |done]. intros ok d. simpl. rewrite list_elem_of_singleton. intros [= -> ->]. apply u64_range.
  - rewrite Hh, G, <- app_assoc. apply Permutation_app_head. by rewrite Permutation_app_comm.
  - intros ok. specialize (H ok). by rewrite (Permutation_length (hands_same (inserting ok) _ _ _ q Hc eq_refl)).
Qed.

Lemma find_inv m c sk ok d :
  smp_inv m -> m_cpu m !! c = Some (SwFind sk ok d) -> forall m', smp_go c m = Some m' -> smp_inv m'.
Proof using Type.
  intros Hm Hc m' Hgo. unfold smp_go in Hgo. rewrite Hc in Hgo. injection Hgo as <-. destruct (si_place m Hm _ _ Hc) as (Hn & Hu & _).
  set (q := match m_counts m !! ok with Some _ => SwAdd sk ok d | None => _ end).
  apply quiet_move; try done.
  - apply (hands_same pending _ _ _ _ Hc). subst q. by case_match.
  - apply (hands_same in_hand _ _ _ _ Hc). subst q. by case_match.
  - intros ok' Hok. apply (hands_same (inserting ok') _ _ _ _ Hc). subst q. case_match; [done|]. simpl.
    rewrite decide_False; [done|]. by intros ->.
  - apply place_insert; [apply Hm|]. subst q. destruct (m_counts m !! ok) eqn:Ec; by split_and!.
Qed.

Lemma kept_snoc l x : kept (l ++ [x]) = kept l ++ (if decide (x.2 = Added \/ x.2 = Inserted) then [x.1] else []).
Proof using Type. unfold kept. rewrite list.filter_app, fmap_app, filter_cons. by case_decide. Qed.
Lemma raced_snoc ok l x : raced ok (l ++ [x]) = (raced ok l + (if decide (x.1.1 = ok /\ x.2 = Raced) then 1 else 0))%nat.
Proof using Type. unfold raced. rewrite list.filter_app, length_app, filter_cons. by case_decide. Qed.

(** An interval leaves a CPU's hand with some fate; the counts grow or stay. *)
Lemma counted_inv m c p sk ok d ft counts' :
  smp_inv m -> m_cpu m !! c = Some p -> pending p = [sk] -> in_hand p = [(ok, d)] ->
  (forall j, counts' !! j = time_of j (kept (m_done m ++ [(ok, d, ft)]))) ->
  (forall j, is_Some (m_counts m !! j) -> is_Some (counts' !! j)) -> (size (m_counts m) <= size counts')%nat ->
  (forall j, match counts' !! j with
    | None => raced j (m_done m ++ [(ok, d, ft)]) = 0%nat
    | Some _ => (raced j (m_done m ++ [(ok, d, ft)]) + length (hands (inserting j) (<[c := SwDelete sk]> (m_cpu m))) < n)%nat
    end) ->
  (ft = Full -> OFFCPU_MAPS_SIZE <= Z.of_nat (size counts')) ->
  smp_inv (Smp (m_start m) counts' (<[c := SwDelete sk]> (m_cpu m)) (m_half m) (m_done m ++ [(ok, d, ft)])).
Proof using Type.
  intros [A B C D E F G H I] Hc Hpp Hph Hcounts Hgrow Hsize Hrace Hfull. destruct (E _ _ Hc) as (Hn & _ & _).
  pose proof (hands_same pending _ _ _ (SwDelete sk) Hc Hpp) as Hp.
  pose proof (hands_update in_hand _ _ _ (SwDelete sk) Hc) as Hh. rewrite Hph in Hh. cbn in Hh.
  split; cbn [m_start m_counts m_cpu m_half m_done]; try done.
  - intros k. rewrite Hp. apply A.
  - intros k. rewrite Hp. apply B.
  - by rewrite Hp.
  - apply place_insert; [|split_and!; [done| |done]; intros ok' d' []%elem_of_nil].
    intros c' q Hq. destruct (E _ _ Hq) as (H1 & H2 & H3). split_and!; [done|done|]. destruct q; try done. by apply Hgrow.
  - rewrite G, map_app, <- app_assoc. simpl. by rewrite <- Hh.
  - intros ok' d'. rewrite elem_of_app, list_elem_of_singleton. intros [Hin|[= -> -> <-]]; [specialize (I _ _ Hin); lia|by apply Hfull].
Qed.

Lemma size_cpus m : smp_inv m -> (size (m_cpu m) <= n)%nat.
Proof using Type.
  intros Hm. rewrite <- size_dom. transitivity (size (set_seq 0 n : gset nat)); [|by rewrite size_set_seq].
  apply subseteq_size. intros c [p Hp]%elem_of_dom. apply elem_of_set_seq. destruct (si_place m Hm _ _ Hp). lia.
Qed.

Lemma smp_add_inv m c sk ok d :
  smp_inv m -> m_cpu m !! c = Some (SwAdd sk ok d) -> forall m', smp_go c m = Some m' -> smp_inv m'.
Proof using Type.
  intros Hm Hc m' Hgo. unfold smp_go in Hgo. rewrite Hc in Hgo. injection Hgo as <-.
  destruct (si_place m Hm _ _ Hc) as (_ & Hu & [v Hv]). assert (Hd : is_u64 d) by (apply (Hu ok); by left).
  apply (counted_inv m c (SwAdd sk ok d) sk ok d Added); try done.
  - intros j. rewrite kept_snoc, decide_True by (by left). simpl. rewrite time_of_snoc by done. rewrite (si_counts m Hm ok).
    destruct (decide (ok = j)) as [->|]; [by rewrite lookup_insert_eq|by rewrite lookup_insert_ne, (si_counts m Hm j)].
  - intros j Hj. destruct (decide (ok = j)) as [->|]; [rewrite lookup_insert_eq; eauto|by rewrite lookup_insert_ne].
  - by rewrite map_size_insert_Some by eauto.
  - intros j. rewrite raced_snoc, decide_False by (by intros []). rewrite Nat.add_0_r.
    rewrite (Permutation_length (hands_same (inserting j) _ _ _ (SwDelete sk) Hc eq_refl)). pose proof (si_race m Hm j) as Hr.
    destruct (decide (ok = j)) as [->|]; [rewrite lookup_insert_eq; by rewrite Hv in Hr|by rewrite lookup_insert_ne].
Qed.

Lemma insert_inv m c sk ok d :
  smp_inv m -> m_cpu m !! c = Some (SwInsert sk ok d) -> forall m', smp_go c m = Some m' -> smp_inv m'.
Proof using Type.
  intros Hm Hc m' Hgo. unfold smp_go in Hgo. rewrite Hc in Hgo. pose proof (si_race m Hm) as Hr.
  destruct (si_place m Hm _ _ Hc) as (_ & Hu & _). assert (Hd : is_u64 d) by (apply (Hu ok); by left).
  assert (Hi : forall j, (length (inserting j (SwInsert sk ok d)) + length (hands (inserting j) (<[c := SwDelete sk]> (m_cpu m))) =
    length (hands (inserting j) (m_cpu m)))%nat).
  { intros j. pose proof (Permutation_length (hands_update (inserting j) _ _ _ (SwDelete sk) Hc)) as E. by rewrite length_app in E. }
  cbn [inserting] in Hi. unfold hash_update in Hgo. destruct (m_counts m !! ok) as [v|] eqn:Ec.
  - cbn in Hgo. injection Hgo as <-. apply (counted_inv m c (SwInsert sk ok d) sk ok d Raced); try done.
    + intros j. rewrite kept_snoc, decide_False, app_nil_r by (by intros []). apply Hm.
    + intros j. specialize (Hr j). specialize (Hi j). rewrite raced_snoc. simpl. destruct (decide (ok = j)) as [->|].
      * rewrite decide_True by done. rewrite Ec in *. simpl in Hi. lia.
      * rewrite decide_False by (by intros []). rewrite Nat.add_0_r. simpl in Hi. destruct (m_counts m !! j); [lia|done].
  - destruct (Z.ltb_spec (Z.of_nat (size (m_counts m))) OFFCPU_MAPS_SIZE); cbn in Hgo; injection Hgo as <-.
    + apply (counted_inv m c (SwInsert sk ok d) sk ok d Inserted); try done.
      * intros j. rewrite kept_snoc, decide_True by (by right). simpl. rewrite time_of_snoc by done.
        destruct (decide (ok = j)) as [->|]; [rewrite lookup_insert_eq, <- (si_counts m Hm j), Ec; simpl; by rewrite u64_small|by rewrite lookup_insert_ne, (si_counts m Hm j)].
      * intros j Hj. destruct (decide (ok = j)) as [->|]; [rewrite lookup_insert_eq; eauto|by rewrite lookup_insert_ne].
      * rewrite map_size_insert_None by done. lia.
      * intros j. rewrite raced_snoc, decide_False by (by intros []). rewrite Nat.add_0_r. specialize (Hr j). specialize (Hi j).
        destruct (decide (ok = j)) as [->|].
        -- rewrite lookup_insert_eq. rewrite Ec in Hr. rewrite Hr. simpl in Hi.
           assert (Hlen : (length (hands (inserting j) (m_cpu m)) <= n)%nat); [|lia].
           etrans; [apply length_hands|by apply size_cpus]. intros []; simpl; try lia. case_decide; simpl; lia.
        -- rewrite lookup_insert_ne by done. simpl in Hi. destruct (m_counts m !! j); [lia|done].
    + apply (counted_inv m c (SwInsert sk ok d) sk ok d Full); try done.
      * intros j. rewrite kept_snoc, decide_False, app_nil_r by (by intros []). apply Hm.
      * intros j. rewrite raced_snoc, decide_False by (by intros []). rewrite Nat.add_0_r. specialize (Hr j). specialize (Hi j).
        destruct (m_counts m !! j) eqn:Ej; [|done]. destruct (decide (ok = j)) as [->|]; [congruence|]. simpl in Hi. lia.
Qed.

Lemma delete_inv m c sk :
  smp_inv m -> m_cpu m !! c = Some (SwDelete sk) -> forall m', smp_go c m = Some m' -> smp_inv m'.
Proof using Type.
  intros [A B C D E F G H I] Hc m' Hgo. unfold smp_go in Hgo. rewrite Hc in Hgo. injection Hgo as <-.
  pose proof (hands_delete pending _ _ _ Hc) as Hp. cbn in Hp. pose proof (hands_gone in_hand _ _ _ Hc eq_refl) as Hh.
  rewrite <- Hp in C. apply list.NoDup_cons in C as [Hnot Hnd].
  split; cbn [m_start m_counts m_cpu m_half m_done]; try done.
  - intros k Hk. destruct (decide (k = sk)) as [->|Hne].
    + rewrite lookup_delete_eq, B; [done|]. rewrite <- Hp. by left.
    + rewrite lookup_delete_ne by done. apply A. rewrite <- Hp, not_elem_of_cons. done.
  - intros k Hk. apply B. rewrite <- Hp. by right.
  - rewrite dom_delete. clear Hthreads. set_solver.
  - by apply place_delete.
  - by rewrite Hh.
  - intros ok. specialize (H ok). by rewrite (Permutation_length (hands_gone (inserting ok) _ _ _ Hc eq_refl)).
Qed.

Lemma smp_step_inv m o m' : smp_inv m -> op_ok o -> exclusive m o -> smp_step m o = Some m' -> smp_inv m'.
Proof using Hthreads.
  intros Hm Hok Hx Hs. destruct o as [c e|c]; simpl in Hs.
  - destruct (m_cpu m !! c) eqn:Ec; [done|]. injection Hs as <-. by apply begin_inv.
  - destruct (m_cpu m !! c) as [p|] eqn:Ec; [|unfold smp_go in Hs; by rewrite Ec in Hs].
    destruct p; eauto using out_inv, in_inv, find_inv, smp_add_inv, insert_inv, delete_inv.
Qed.

Lemma smp_run_inv os m m' :
  smp_inv m -> Forall op_ok os -> scheduled m os = true -> smp_run m os = Some m' -> smp_inv m'.
Proof using Hthreads.
  revert m. induction os as [|o os IH]; intros m Hm Ho Hs Hr; simpl in *; [by injection Hr as <-|].
  apply Forall_cons_1 in Ho as [Ho Hos]. apply andb_true_iff in Hs as [Hx%exclusiveb_spec Hs].
  apply bind_Some in Hr as (m1 & E & Hr). rewrite E in Hs. apply (IH m1); [by eapply smp_step_inv|done|done|done].
Qed.

(** C15: Off-CPU time on several CPUs.  Let [n] CPUs handle any context switches,
    interleaved in any way between their accesses to the shared maps, where the
    scheduler runs a task on one CPU at a time and the tasks fit the map of those
    away.  Once no CPU is inside the program, the intervals its runs have dealt
    with are exactly the tasks' intervals off the CPU.  Under every key the map
    has the total length, modulo 2^64, of those that were counted; of a key at
    most [n - 1] intervals are lost to the race for its first insertion, whatever
    the length of the run; and nothing else is lost unless the map is full. *)
Theorem offcpu_on_cpus os m :
  Forall op_ok os -> scheduled smp_init os = true -> smp_run smp_init os = Some m -> m_cpu m = ∅ ->
  intervals (seen (m_half m)) ≡ₚ map fst (m_done m) /\
  (forall ok, m_counts m !! ok = time_of ok (kept (m_done m))) /\
  (forall ok, (raced ok (m_done m) <= n - 1)%nat) /\
  (forall ok d, (ok, d, Full) ∈ m_done m -> OFFCPU_MAPS_SIZE <= Z.of_nat (size (m_counts m))) /\
  m_start m = away (seen (m_half m)).
Proof using Hthreads.
  intros Ho Hs Hr Hidle. destruct (smp_run_inv os smp_init m smp_init_inv Ho Hs Hr) as [A B C D E F G H I].
  rewrite Hidle in *. split_and!; [by rewrite G, app_nil_r|done| |done|].
  - intros ok. specialize (H ok). destruct (m_counts m !! ok); lia.
  - apply map_eq. intros k. apply A. apply not_elem_of_nil.
Qed.
End offcpu.

(** *** Two CPUs

    Two threads of a process block with the same stack and return at the same
    time, on two CPUs.  Both find no entry; the second insertion is refused and
    its interval is lost.  From then on the key is there and every interval is
    added. *)
Definition smp_cfg : offcpu_cfg := OffCfg true false ∅.
Definition worker (pid : Z) : task := Task pid 42 0 1 None.
Definition blocks (pid now : Z) : switch := Switch now (worker pid) idle_task 5 6.
Definition wakes (pid now : Z) : switch := Switch now idle_task (worker pid) 5 6.
Definition smp_threads : gset start_key := {[ (43, 42); (44, 42) ]}.
Definition goes (c k : nat) : list smp_op := replicate k (Go c).
Definition race_ops : list smp_op :=
  Begin 0 (blocks 43 100) :: goes 0 2 ++ Begin 1 (blocks 44 110) :: goes 1 2
  ++ Begin 0 (wakes 43 200) :: Begin 1 (wakes 44 210) :: goes 0 3 ++ goes 1 3 ++ goes 0 2 ++ goes 1 2
  ++ Begin 0 (blocks 43 300) :: goes 0 2 ++ Begin 0 (wakes 43 350) :: goes 0 5.
Definition race_end : smp := default smp_init (smp_run smp_cfg smp_init race_ops).

Lemma race_run : smp_run smp_cfg smp_init race_ops = Some race_end.
Proof. vm_compute. reflexivity. Qed.

Example offcpu_race_loses_interval :
  m_done race_end = [((42, -1, 6), 100, Inserted); ((42, -1, 6), 100, Raced); ((42, -1, 6), 50, Added)] /\
  m_counts race_end !! (42, -1, 6) = Some 150.
Proof. vm_compute. done. Qed.

Lemma race_ops_ok : Forall (op_ok smp_cfg 2 smp_threads) race_ops.
Proof.
  repeat constructor; try (intros k sv; vm_compute; intros [= <- <-]; reflexivity || done); try (intros k sv; vm_compute; discriminate).
Qed.

Lemma offcpu_on_cpus_witness :
  m_counts race_end !! (42, -1, 6) = time_of (42, -1, 6) [((42, -1, 6), 100); ((42, -1, 6), 50)] /\
  (raced (42, -1, 6)%Z (m_done race_end) <= 1)%nat.
Proof.
  destruct (offcpu_on_cpus smp_cfg 2 smp_threads ltac:(vm_compute; discriminate) race_ops race_end race_ops_ok
    ltac:(vm_compute; reflexivity) race_run ltac:(vm_compute; reflexivity)) as (_ & H1 & H2 & _).
  split; [rewrite H1; vm_compute; reflexivity|exact (H2 (42, -1, 6))].
Defined.

(** ** The on-CPU profiler

    Where a CPU is in [profile], after the filter: before the lookup, before the
    load and before the store of the increment, before the insertion. *)
Inductive ppc :=
| PrFind (key : sample_key)
| PrLoad (key : sample_key)
| PrStore (key : sample_key) (val : Z)
| PrInsert (key : sample_key).

Record psmp := PSmp {
  p_counts : gmap sample_key Z;
  p_cpu : gmap nat ppc;
  (** the samples whose run is over *)
  p_done : list sample_key;
}.
Definition psmp_init : psmp := PSmp ∅ ∅ [].

Inductive psmp_op := Sample (c : nat) (o : overflow) | PGo (c : nat).

Section profile.
  Context (cfg : sampler_cfg).

Definition psmp_step (m : psmp) (o : psmp_op) : option psmp :=
  match o with
  | Sample c o =>
      match p_cpu m !! c with
      | Some _ => None
      | None =>
          match sample_key_of cfg o with
          | None => Some m
          | Some key => Some (PSmp (p_counts m) (<[c := PrFind key]> (p_cpu m)) (p_done m))
          end
      end
  | PGo c =>
      match p_cpu m !! c with
      | None => None
      | Some (PrFind key) =>
          let p := match p_counts m !! key with Some _ => PrLoad key | None => PrInsert key end in
          Some (PSmp (p_counts m) (<[c := p]> (p_cpu m)) (p_done m))
      | Some (PrLoad key) => Some (PSmp (p_counts m) (<[c := PrStore key (default 0 (p_counts m !! key))]> (p_cpu m)) (p_done m))
      | Some (PrStore key val) => Some (PSmp (<[key := u64 (val + 1)]> (p_counts m)) (delete c (p_cpu m)) (p_done m ++ [key]))
      | Some (PrInsert key) =>
          Some (PSmp (hash_update PROFILE_MAPS_SIZE BPF_NOEXIST (p_counts m) key 1).2 (delete c (p_cpu m)) (p_done m ++ [key]))
      end
  end.
Fixpoint psmp_run (m : psmp) (os : list psmp_op) : option psmp :=
  match os with [] => Some m | o :: l => m' ← psmp_step m o; psmp_run m' l end.

Definition times (k : sample_key) (l : list sample_key) : Z := Z.of_nat (length (filter (fun j => j = k) l)).
Lemma times_snoc k l j : times k (l ++ [j]) = times k l + (if decide (j = k) then 1 else 0).
Proof using Type. unfold times. rewrite list.filter_app, length_app, filter_cons. case_decide; simpl; lia. Qed.
Lemma times_le k l : 0 <= times k l <= Z.of_nat (length l).
Proof using Type. unfold times. pose proof (length_filter (fun j => j = k) l). lia. Qed.

Lemma done_grows m o m' : psmp_step m o = Some m' -> (length (p_done m') <= S (length (p_done m)))%nat.
Proof using Type. unfold psmp_step. intros H. repeat case_match; simplify_eq/=; rewrite ?length_app; simpl; lia. Qed.

(** *** Never too many *)

Definition at_most (m : psmp) : Prop :=
  (forall k v, p_counts m !! k = Some v -> 1 <= v <= times k (p_done m)) /\
  (forall c p, p_cpu m !! c = Some p ->
    match p with
    | PrLoad k => is_Some (p_counts m !! k)
    | PrStore k v => 1 <= v <= times k (p_done m)
    | _ => True
    end).

(** A run that writes [v] under [k] is over; the other CPUs stand. *)
Lemma at_most_write m c k v :
  at_most m -> 1 <= v <= times k (p_done m) + 1 -> at_most (PSmp (<[k := v]> (p_counts m)) (delete c (p_cpu m)) (p_done m ++ [k])).
Proof using Type.
  intros [A B] Hv. split; simpl.
  - intros j w. rewrite times_snoc. destruct (decide (k = j)) as [->|].
    + rewrite lookup_insert_eq. by intros [= <-].
    + rewrite lookup_insert_ne by done. intros Hj%A. lia.
  - intros c' p. rewrite lookup_delete_Some. intros [_ Hp]. specialize (B _ _ Hp). destruct p as [j|j|j w|j]; try done.
    + destruct (decide (k = j)) as [->|]; [rewrite lookup_insert_eq; eauto|by rewrite lookup_insert_ne].
    + rewrite times_snoc. case_decide; lia.
Qed.

Lemma at_most_step m o m' :
  at_most m -> Z.of_nat (length (p_done m)) < 18446744073709551615 -> psmp_step m o = Some m' -> at_most m'.
Proof using Type.
  intros Hm Hb Hs. pose proof Hm as [A B]. destruct o as [c o|c]; simpl in Hs.
  - destruct (p_cpu m !! c) eqn:Ec; [done|]. destruct (sample_key_of cfg o) as [key|]; injection Hs as <-; [|done]. split; [done|]. simpl.
    intros c' p. destruct (decide (c = c')) as [->|]; [rewrite lookup_insert_eq; by intros [= <-]|rewrite lookup_insert_ne by done; apply B].
  - destruct (p_cpu m !! c) as [p|] eqn:Ec; [|done]. pose proof (B _ _ Ec) as Hp. destruct p as [key|key|key val|key]; injection Hs as <-.
    + split; [done|]. simpl. intros c' p. destruct (decide (c = c')) as [->|]; [|rewrite lookup_insert_ne by done; apply B].
      rewrite lookup_insert_eq. destruct (p_counts m !! key) eqn:Ek; intros [= <-]; [by rewrite Ek|done].
    + split; [done|]. simpl. intros c' p. destruct (decide (c = c')) as [->|]; [|rewrite lookup_insert_ne by done; apply B].
      rewrite lookup_insert_eq. intros [= <-]. destruct Hp as [v Hv]. rewrite Hv. simpl. by apply A.
    + pose proof (times_le key (p_done m)). rewrite u64_small by word_lia. apply at_most_write; [done|lia].
    + pose proof (times_le key (p_done m)). unfold hash_update. destruct (p_counts m !! key) eqn:Ek; [|case_match]; simpl.
      2: by apply at_most_write; [|lia].
      all: split; simpl; [intros j w Hj%A; rewrite times_snoc; case_decide; lia|].
      all: intros c' p; rewrite lookup_delete_Some; intros [_ Hq]; specialize (B _ _ Hq); destruct p as [j|j|j w|j]; try done.
      all: rewrite times_snoc; case_decide; lia.
Qed.

(** *** Exactly as many when samples of a key do not overlap *)

Definition key_of (p : ppc) : list sample_key :=
  match p with PrFind k | PrLoad k | PrStore k _ | PrInsert k => [k] end.

(** No sample of a key begins while a CPU handles another of that key. *)
Definition apart_op (m : psmp) (o : psmp_op) : bool :=
  match o with
  | Sample _ o => match sample_key_of cfg o with Some k => bool_decide (k ∉ hands key_of (p_cpu m)) | None => true end
  | PGo _ => true
  end.
Fixpoint apart (m : psmp) (os : list psmp_op) : bool :=
  match os with
  | [] => true
  | o :: l => apart_op m o && match psmp_step m o with Some m' => apart m' l | None => true end
  end.

Context (keys : gset sample_key) (Hkeys : Z.of_nat (size keys) <= PROFILE_MAPS_SIZE).
Definition sample_fits (o : psmp_op) : Prop :=
  match o with Sample _ o => forall k, sample_key_of cfg o = Some k -> k ∈ keys | PGo _ => True end.

Definition counted (m : psmp) (k : sample_key) : option Z :=
  if times k (p_done m) =? 0 then None else Some (times k (p_done m)).

Record exactly (m : psmp) : Prop := {
  ex_counts : forall k, p_counts m !! k = counted m k;
  ex_nodup : NoDup (hands key_of (p_cpu m));
  ex_dom : dom (p_counts m) ⊆ keys;
  ex_place : forall c p, p_cpu m !! c = Some p ->
    (forall k, k ∈ key_of p -> k ∈ keys) /\
    match p with
    | PrFind _ => True
    | PrLoad k => is_Some (p_counts m !! k)
    | PrStore k v => p_counts m !! k = Some v
    | PrInsert k => p_counts m !! k = None
    end;
}.

(** Two CPUs have different keys. *)
Lemma key_apart (cpu : gmap nat ppc) c p k :
  NoDup (hands key_of cpu) -> cpu !! c = Some p -> key_of p = [k] ->
  forall c' q, delete c cpu !! c' = Some q -> k ∉ key_of q.
Proof using Type.
  intros Hnd Hc Hk c' q Hq. pose proof (hands_delete key_of cpu c p Hc) as E. rewrite Hk in E. rewrite <- E in Hnd.
  apply list.NoDup_cons in Hnd as [Hn _]. intros Hin. apply Hn. apply elem_of_hands. eauto.
Qed.

(** A CPU moves on with its key. *)
Lemma exactly_move m c p q :
  exactly m -> p_cpu m !! c = Some p -> key_of q = key_of p ->
  match q with
  | PrFind _ => True | PrLoad k => is_Some (p_counts m !! k) | PrStore k v => p_counts m !! k = Some v | PrInsert k => p_counts m !! k = None
  end -> exactly (PSmp (p_counts m) (<[c := q]> (p_cpu m)) (p_done m)).
Proof using Type.
  intros [A B C D] Hc Hk Hq. split; simpl; try done.
  - by rewrite (hands_same key_of _ _ _ q Hc).
  - intros c' p'. destruct (decide (c = c')) as [->|]; [|rewrite lookup_insert_ne by done; apply D].
    rewrite lookup_insert_eq. intros [= <-]. destruct (D _ _ Hc) as [H _]. rewrite Hk. done.
Qed.

(** A run ends by writing one more than there was. *)
Lemma exactly_write m c p k :
  exactly m -> p_cpu m !! c = Some p -> key_of p = [k] ->
  exactly (PSmp (<[k := times k (p_done m) + 1]> (p_counts m)) (delete c (p_cpu m)) (p_done m ++ [k])).
Proof using Type.
  intros [A B C D] Hc Hk. pose proof (key_apart _ _ _ _ B Hc Hk) as Hap. destruct (D _ _ Hc) as [Hin _].
  split; simpl.
  - intros j. unfold counted. simpl. rewrite times_snoc. pose proof (times_le j (p_done m)). destruct (decide (k = j)) as [->|].
    + rewrite lookup_insert_eq. destruct (Z.eqb_spec (times j (p_done m) + 1) 0); [lia|done].
    + rewrite lookup_insert_ne, Z.add_0_r by done. apply A.
  - pose proof (hands_delete key_of _ _ _ Hc) as E. rewrite Hk in E. rewrite <- E in B. by apply list.NoDup_cons in B as [_ B].
  - rewrite dom_insert. assert (k ∈ keys) by (apply Hin; rewrite Hk; by left). clear Hkeys. set_solver.
  - intros c' q Hq. specialize (Hap _ _ Hq). apply lookup_delete_Some in Hq as [_ Hq]. destruct (D _ _ Hq) as [H1 H2].
    split; [done|]. destruct q as [j|j|j w|j]; try done; (rewrite lookup_insert_ne; [done|]); intros ->; apply Hap; by left.
Qed.

Lemma exactly_step m o m' :
  exactly m -> sample_fits o -> apart_op m o = true -> Z.of_nat (length (p_done m)) < 18446744073709551615 ->
  psmp_step m o = Some m' -> exactly m'.
Proof using Hkeys.
  intros Hm Hf Ha Hb Hs. pose proof Hm as [A B C D]. destruct o as [c o|c]; simpl in *.
  - destruct (p_cpu m !! c) eqn:Ec; [done|]. destruct (sample_key_of cfg o) as [key|]; injection Hs as <-; [|done].
    apply bool_decide_eq_true in Ha. split; simpl; try done.
    + rewrite (hands_insert key_of _ _ _ Ec). simpl. by apply list.NoDup_cons.
    + intros c' p. destruct (decide (c = c')) as [->|]; [|rewrite lookup_insert_ne by done; apply D].
      rewrite lookup_insert_eq. intros [= <-]. split; [|done]. intros k. simpl. rewrite list_elem_of_singleton. intros ->. by apply Hf.
  - destruct (p_cpu m !! c) as [p|] eqn:Ec; [|done]. destruct (D _ _ Ec) as [Hin Hp]. destruct p as [key|key|key val|key]; injection Hs as <-.
    + apply (exactly_move m c (PrFind key)); [done|done|by case_match|]. destruct (p_counts m !! key) eqn:Ek; [by rewrite Ek|done].
    + apply (exactly_move m c (PrLoad key)); [done|done|done|]. destruct Hp as [v ->]. done.
    + pose proof (times_le key (p_done m)). pose proof (A key) as Hk. rewrite Hp in Hk. unfold counted in Hk. case_match; [done|].
      injection Hk as ->. rewrite u64_small by word_lia. by apply (exactly_write m c (PrStore key (times key (p_done m)))).
    + assert (Hkk : key ∈ keys) by (apply Hin; by left). rewrite (hash_update_within _ _ _ keys) by (done || by left). simpl.
      pose proof (A key) as Hk. rewrite Hp in Hk. unfold counted in Hk. destruct (Z.eqb_spec (times key (p_done m)) 0) as [E|]; [|done].
      replace 1 with (times key (p_done m) + 1) by lia. by apply (exactly_write m c (PrInsert key)).
Qed.

(** The profile on several CPUs is never too high: for any samples on any CPUs,
    interleaved in any way between the accesses to the map, a count is at most the
    number of samples of its process and stacks.  It is exact when the samples of
    a key do not overlap in time and the keys fit the map. *)
Theorem profile_on_cpus os m :
  psmp_run psmp_init os = Some m -> Z.of_nat (length os) < 18446744073709551615 ->
  (forall k v, p_counts m !! k = Some v -> 1 <= v <= times k (p_done m)) /\
  (Forall sample_fits os -> apart psmp_init os = true -> forall k, p_counts m !! k = counted m k).
Proof using Hkeys.
  intros Hr Hb.
  enough (H : forall m0, psmp_run m0 os = Some m -> Z.of_nat (length (p_done m0) + length os) < 18446744073709551615 ->
    (at_most m0 -> at_most m) /\ (Forall sample_fits os -> apart m0 os = true -> exactly m0 -> exactly m)).
  { destruct (H psmp_init Hr ltac:(simpl; lia)) as [H1 H2]. split.
    - apply H1. split; intros ? ?; simpl; by rewrite lookup_empty.
    - intros Hf Ha. apply H2; [done|done|]. split; simpl; try (by rewrite dom_empty).
      + intros k. unfold counted. simpl. by rewrite lookup_empty.
      + apply NoDup_nil_2.
      + intros c p. by rewrite lookup_empty. }
  clear Hr Hb. induction os as [|o os IH]; intros m0 Hr Hb; simpl in *; [injection Hr as <-; done|].
  apply bind_Some in Hr as (m1 & E & Hr). pose proof (done_grows _ _ _ E). destruct (IH m1 Hr ltac:(lia)) as [I1 I2]. split.
  - intros H0. apply I1. eapply at_most_step; [done|lia|done].
  - intros Hf Ha H0. apply Forall_cons_1 in Hf as [Hf1 Hf]. apply andb_true_iff in Ha as [Ha1 Ha]. rewrite E in Ha. apply I2; [done|done|].
    eapply exactly_step; [done|done|done|lia|done].
Qed.
End profile.

(** Two threads of a process are sampled in the same stack on two CPUs.  CPU 0
    loads the count and is delayed; CPU 1 counts three samples; the store of CPU 0
    then takes the count back to 2, after five samples. *)
Definition busy (tid : Z) : overflow := Overflow 42 (Some (Task tid 42 0 0 None)) 11 12.
Definition pgoes (c k : nat) : list psmp_op := replicate k (PGo c).
Definition lost_ops : list psmp_op :=
  Sample 0 (busy 43) :: pgoes 0 2 ++ Sample 0 (busy 43) :: pgoes 0 2
  ++ concat (replicate 3 (Sample 1 (busy 44) :: pgoes 1 3)) ++ pgoes 0 1.
Example profile_loses_samples :
  exists m, psmp_run prof_cfg psmp_init lost_ops = Some m /\ p_cpu m = ∅ /\ length (p_done m) = 5%nat /\
    p_counts m !! SampleKey 42 0 (-1) 12 = Some 2.
Proof. eexists. split; [vm_compute; reflexivity|]. done. Qed.
