(* ===== verification/Cpu.v ===== *)
(** * Cpu: on-CPU time, run-queue latency and hardware counters

    Models src/bpf/cpu.bpf.c: the two wakeup programs and the context-switch
    program, over the per-CPU state they share. *)
From S2P Require Import Prelude Bpf Record Sampling OffCpu.

Definition TASK_INTERRUPTIBLE : Z := 0x00000001.
Definition TASK_UNINTERRUPTIBLE : Z := 0x00000002.
Definition STATE_RUNNING : Z := 0.
Definition STATE_INTERRUPTIBLE : Z := 1.
Definition STATE_UNINTERRUPTIBLE : Z := 2.

Record pid_stat_s := PidStat {
  ps_tgid : Z;
  ps_delta_ns : Z;
  ps_runq_latency_ns : Z;
  ps_cycles : Z;
  ps_instructions : Z;
  ps_cache_misses : Z;
  ps_timestamp : Z;
  ps_prev_state : Z;
  ps_preempt : Z;
}.

(** This CPU's copies of the per-CPU arrays. *)
Record percpu := PerCpu {
  prev_cycles : list Z;
  prev_instructions : list Z;
  prev_cache_misses : list Z;
  last_seen : list Z;
}.

Record cpu_state := CpuState {
  cpus : Z -> percpu;
  hw_counters_enabled : list Z;
  rb : ringbuf pid_stat_s;
  wakeup_ts : gmap Z Z;
  pid_runq_latency : gmap Z Z;
}.

Record cpu_cfg := CpuCfg {
  cpu_system_wide : bool;
  cpu_pid_filter : gmap Z Z;
  cpu_room : nat -> bool;
}.

Definition WAKEUP_SIZE : Z := 10240.
Definition LAST_SEEN_SIZE : nat := 128.

(** [bpf_perf_event_read_value], [None] on error; then the difference from the
    last reading, which the new one replaces. *)
Definition read_counter_delta (val : option Z) (prev : list Z) : Z * list Z :=
  match val with
  | None => (0, prev)
  | Some counter =>
      let delta := match array_lookup prev 0 with
                   | Some p => if p <? counter then u64 (counter - p) else 0
                   | None => 0
                   end in
      (delta, array_store prev 0 counter)
  end.

Definition classify_task_state (state : Z) : Z :=
  if has_flag state TASK_INTERRUPTIBLE then STATE_INTERRUPTIBLE
  else if has_flag state TASK_UNINTERRUPTIBLE then STATE_UNINTERRUPTIBLE
  else STATE_RUNNING.

(** A context switch as the program sees it: the clock, the CPU, the tasks and
    the three counter readings. *)
Record cpu_switch := CpuSwitch {
  cs_now : Z;
  cs_cpu : Z;
  cs_preempt : bool;
  cs_prev : task;
  cs_next : task;
  cs_cycles : option Z;
  cs_instructions : option Z;
  cs_cache_misses : option Z;
}.

Section cpu.
  Context (cfg : cpu_cfg).

Definition in_filter (tgid : Z) : bool := bool_decide (is_Some (cpu_pid_filter cfg !! tgid)).

Definition set_wakeups (s : cpu_state) (w : gmap Z Z) : cpu_state :=
  CpuState (cpus s) (hw_counters_enabled s) (rb s) w (pid_runq_latency s).
Definition set_latencies (s : cpu_state) (l : gmap Z Z) : cpu_state :=
  CpuState (cpus s) (hw_counters_enabled s) (rb s) (wakeup_ts s) l.
Definition set_rb (s : cpu_state) (r : ringbuf pid_stat_s) : cpu_state :=
  CpuState (cpus s) (hw_counters_enabled s) r (wakeup_ts s) (pid_runq_latency s).
Definition set_cpu (s : cpu_state) (cpu : Z) (p : percpu) : cpu_state :=
  CpuState (fun c => if c =? cpu then p else cpus s c) (hw_counters_enabled s) (rb s) (wakeup_ts s)
           (pid_runq_latency s).

Definition handle_wakeup (now : Z) (p : task) (s : cpu_state) : cpu_state :=
  if negb (cpu_system_wide cfg) && negb (in_filter (t_tgid p)) then s
  else if has_flag (t_flags p) PF_KTHREAD then s
  else set_wakeups s (hash_update WAKEUP_SIZE BPF_ANY (wakeup_ts s) (t_pid p) now).2.

Definition handle_wakeup_new (now : Z) (p : task) (s : cpu_state) : cpu_state :=
  if negb (cpu_system_wide cfg) && negb (in_filter (t_tgid p)) then s
  else if has_flag (t_flags p) PF_KTHREAD then s
  else set_wakeups s (hash_update WAKEUP_SIZE BPF_ANY (wakeup_ts s) (t_pid p) now).2.

(** The three deltas, when hardware counters are enabled. *)
Definition read_counters (e : cpu_switch) (s : cpu_state) : Z * Z * Z * cpu_state :=
  match array_lookup (hw_counters_enabled s) 0 with
  | Some en =>
      if en =? 0 then (0, 0, 0, s)
      else
        let p := cpus s (cs_cpu e) in
        let '(cycles, pc) := read_counter_delta (cs_cycles e) (prev_cycles p) in
        let '(instrs, pi) := read_counter_delta (cs_instructions e) (prev_instructions p) in
        let '(miss, pm) := read_counter_delta (cs_cache_misses e) (prev_cache_misses p) in
        (cycles, instrs, miss, set_cpu s (cs_cpu e) (PerCpu pc pi pm (last_seen p)))
  | None => (0, 0, 0, s)
  end.

(** Time since the last switch on this CPU; zero before the first. *)
Definition on_cpu_delta (e : cpu_switch) (s : cpu_state) : Z :=
  match array_lookup (last_seen (cpus s (cs_cpu e))) (cs_cpu e) with
  | Some last_ts => if last_ts =? 0 then 0 else u64 (cs_now e - last_ts)
  | None => 0
  end.

Definition next_on_cpu (e : cpu_switch) (s : cpu_state) : cpu_state :=
  let next_pid := t_pid (cs_next e) in
  if next_pid =? 0 then s
  else match wakeup_ts s !! next_pid with
  | Some wake_ts =>
      let runq_lat := u64 (cs_now e - wake_ts) in
      let s := set_latencies s
                 (hash_update WAKEUP_SIZE BPF_ANY (pid_runq_latency s) next_pid runq_lat).2 in
      set_wakeups s (delete next_pid (wakeup_ts s))
  | None => s
  end.

Definition should_track_prev (prev : task) : bool :=
  if cpu_system_wide cfg then negb (has_flag (t_flags prev) PF_KTHREAD)
  else in_filter (t_tgid prev).

Definition prev_off_cpu (e : cpu_switch) (delta cycles instrs miss : Z) (s : cpu_state) : cpu_state :=
  let prev := cs_prev e in
  let prev_pid := t_pid prev in
  if prev_pid =? 0 then s
  else
    let st := classify_task_state (t_state prev) in
    if negb (should_track_prev prev) then s
    else
      let '(ok, r) := ringbuf_reserve (cpu_room cfg) (rb s) in
      let s := set_rb s r in
      let s :=
        if ok then
          let runq := pid_runq_latency s !! prev_pid in
          let s' := match runq with
                    | Some _ => set_latencies s (delete prev_pid (pid_runq_latency s))
                    | None => s
                    end in
          set_rb s' (ringbuf_submit (rb s')
            (PidStat (t_tgid prev) delta (default 0 runq) cycles instrs miss (cs_now e) st
                     (if cs_preempt e then 1 else 0)))
        else s in
      if cs_preempt e || (st =? STATE_RUNNING)
      then set_wakeups s (hash_update WAKEUP_SIZE BPF_ANY (wakeup_ts s) prev_pid (cs_now e)).2
      else s.

Definition handle_switch (e : cpu_switch) (s : cpu_state) : cpu_state :=
  let '(cycles, instrs, miss, s) := read_counters e s in
  let delta := on_cpu_delta e s in
  let s := next_on_cpu e s in
  let s := prev_off_cpu e delta cycles instrs miss s in
  let p := cpus s (cs_cpu e) in
  set_cpu s (cs_cpu e)
    (PerCpu (prev_cycles p) (prev_instructions p) (prev_cache_misses p)
            (array_store (last_seen p) (cs_cpu e) (cs_now e))).

(** The programs as steps of one machine. *)
Inductive cpu_op := Wakeup (now : Z) (p : task) | WakeupNew (now : Z) (p : task) | DoSwitch (e : cpu_switch).

Definition cpu_step (op : cpu_op) (s : cpu_state) : cpu_state :=
  match op with
  | Wakeup now p => handle_wakeup now p s
  | WakeupNew now p => handle_wakeup_new now p s
  | DoSwitch e => handle_switch e s
  end.

Definition cpu_run (ops : list cpu_op) (s : cpu_state) : cpu_state := foldl (fun s op => cpu_step op s) s ops.
End cpu.

(** ** Hardware counters *)

(** Successive readings of one counter, and the deltas they yield. *)
Fixpoint deltas (rs : list (option Z)) (prev : list Z) : list Z :=
  match rs with
  | [] => []
  | r :: rs => let '(d, prev) := read_counter_delta r prev in d :: deltas rs prev
  end.

Definition sum (l : list Z) : Z := foldr Z.add 0 l.

(** A counter that only goes up, with readings that may fail. *)
Fixpoint climbs (p : Z) (rs : list (option Z)) : Prop :=
  match rs with
  | [] => True
  | None :: rs => climbs p rs
  | Some c :: rs => p <= c < 18446744073709551616 /\ climbs c rs
  end.

Fixpoint last_reading (p : Z) (rs : list (option Z)) : Z :=
  match rs with
  | [] => p
  | None :: rs => last_reading p rs
  | Some c :: rs => last_reading c rs
  end.

(** No hardware event is lost or counted twice. Over any sequence of reads
    of a counter that only goes up, some of which may fail, the reported deltas
    add up to the last value read less the value at the start. *)
Theorem counter_deltas_telescope p rs :
  0 <= p -> climbs p rs -> sum (deltas rs [p]) = last_reading p rs - p.
Proof.
  revert p. induction rs as [|[c|] rs IH]; intros p Hp Hc; simpl in *; [lia| |].
  - destruct Hc as [Hle Hc]. unfold array_store, array_lookup; simpl.
    rewrite IH by (lia || done). destruct (Z.ltb_spec p c).
    + rewrite u64_small by word_lia. lia.
    + lia.
  - rewrite IH by done. lia.
Qed.

Lemma counter_deltas_telescope_witness :
  sum (deltas [Some 100; None; Some 100; Some 130] [0]) = 130 - 0.
Proof. apply (counter_deltas_telescope 0 [Some 100; None; Some 100; Some 130]); [lia|simpl; lia]. Defined.

(** ** What each part of a switch leaves alone *)

Section facts.
  Context (cfg : cpu_cfg).

Lemma read_counters_frame e s :
  let s' := (read_counters e s).2 in
  wakeup_ts s' = wakeup_ts s /\ pid_runq_latency s' = pid_runq_latency s /\ rb s' = rb s /\
  forall c, last_seen (cpus s' c) = last_seen (cpus s c).
Proof using Type.
  unfold read_counters. destruct (array_lookup _ _) as [en|]; [|done].
  destruct (en =? 0); [done|]. repeat destruct (read_counter_delta _ _); simpl.
  split_and!; try done. intros c. by destruct (Z.eqb_spec c (cs_cpu e)) as [->|].
Qed.

Lemma next_on_cpu_frame e s k :
  k <> t_pid (cs_next e) ->
  let s' := next_on_cpu e s in
  wakeup_ts s' !! k = wakeup_ts s !! k /\ pid_runq_latency s' !! k = pid_runq_latency s !! k /\
  rb s' = rb s /\ cpus s' = cpus s.
Proof using Type.
  intros Hk. unfold next_on_cpu. destruct (t_pid (cs_next e) =? 0); [done|].
  destruct (wakeup_ts s !! _); [|done]. simpl. split_and!; try done.
  - by rewrite lookup_delete_ne.
  - by apply hash_update_other.
Qed.

Lemma next_on_cpu_rest e s : rb (next_on_cpu e s) = rb s /\ cpus (next_on_cpu e s) = cpus s.
Proof using Type. unfold next_on_cpu. by repeat case_match. Qed.

Lemma prev_off_cpu_frame e d c i m s k :
  k <> t_pid (cs_prev e) ->
  let s' := prev_off_cpu cfg e d c i m s in
  wakeup_ts s' !! k = wakeup_ts s !! k /\ pid_runq_latency s' !! k = pid_runq_latency s !! k.
Proof using Type.
  intros Hk. unfold prev_off_cpu, ringbuf_reserve. destruct (t_pid (cs_prev e) =? 0); [done|].
  destruct (negb _); [done|]. cbv zeta. set (st := classify_task_state _).
  destruct (cpu_room cfg _); [destruct (pid_runq_latency _ !! t_pid (cs_prev e))|];
    destruct (cs_preempt e || (st =? STATE_RUNNING)); simpl;
    rewrite ?hash_update_other, ?lookup_delete_ne by done; done.
Qed.

Lemma prev_off_cpu_cpus e d c i m s : cpus (prev_off_cpu cfg e d c i m s) = cpus s.
Proof using Type. unfold prev_off_cpu, ringbuf_reserve. by repeat case_match. Qed.

(** Whether a step concerns a pid. *)
Definition touches (op : cpu_op) (k : Z) : Prop :=
  match op with
  | Wakeup _ p | WakeupNew _ p => t_pid p = k
  | DoSwitch e => t_pid (cs_prev e) = k \/ t_pid (cs_next e) = k
  end.

Lemma step_frame op s k :
  ~ touches op k ->
  wakeup_ts (cpu_step cfg op s) !! k = wakeup_ts s !! k /\
  pid_runq_latency (cpu_step cfg op s) !! k = pid_runq_latency s !! k.
Proof using Type.
  destruct op as [now p|now p|e]; simpl; intros Hk.
  - unfold handle_wakeup. destruct (_ && _); [done|]. destruct (has_flag _ _); [done|]. simpl.
    by rewrite hash_update_other.
  - unfold handle_wakeup_new. destruct (_ && _); [done|]. destruct (has_flag _ _); [done|]. simpl.
    by rewrite hash_update_other.
  - unfold handle_switch. pose proof (read_counters_frame e s) as (H1 & H2 & _).
    destruct (read_counters e s) as [[[c i] m] s1]. simpl in *.
    destruct (next_on_cpu_frame e s1 k ltac:(intuition)) as (H3 & H4 & _).
    destruct (prev_off_cpu_frame e (on_cpu_delta e s1) c i m (next_on_cpu e s1) k ltac:(intuition))
      as (H5 & H6). simpl. by rewrite H5, H6, H3, H4, H1, H2.
Qed.

Lemma run_frame ops s k :
  Forall (fun op => ~ touches op k) ops ->
  wakeup_ts (cpu_run cfg ops s) !! k = wakeup_ts s !! k /\
  pid_runq_latency (cpu_run cfg ops s) !! k = pid_runq_latency s !! k.
Proof using Type.
  revert s. induction ops as [|op ops IH]; intros s Ho; [done|].
  apply Forall_cons_1 in Ho as [H1 H2]. destruct (IH (cpu_step cfg op s) H2) as [E1 E2].
  destruct (step_frame op s k H1) as [E3 E4]. split; etrans; [exact E1|done|exact E2|done].
Qed.

(** The record a switch emits for the task it takes off the CPU. *)
Lemma switch_emits e s :
  t_pid (cs_prev e) <> 0 -> should_track_prev cfg (cs_prev e) = true ->
  cpu_room cfg (rb_tries (rb s)) = true -> t_pid (cs_prev e) <> t_pid (cs_next e) ->
  exists c i m, rb_events (rb (handle_switch cfg e s)) = rb_events (rb s) ++
    [PidStat (t_tgid (cs_prev e)) (on_cpu_delta e s)
       (default 0 (pid_runq_latency s !! t_pid (cs_prev e))) c i m (cs_now e)
       (classify_task_state (t_state (cs_prev e))) (if cs_preempt e then 1 else 0)].
Proof using Type.
  intros Hp Ht Hr Hne. unfold handle_switch.
  pose proof (read_counters_frame e s) as (H1 & H2 & H3 & H4).
  destruct (read_counters e s) as [[[c i] m] s1]. simpl in *. exists c, i, m.
  destruct (next_on_cpu_frame e s1 (t_pid (cs_prev e)) Hne) as (_ & H5 & H6 & _).
  assert (Hd : on_cpu_delta e s1 = on_cpu_delta e s) by (unfold on_cpu_delta; by rewrite H4).
  rewrite Hd. unfold prev_off_cpu, ringbuf_reserve.
  rewrite (proj2 (Z.eqb_neq _ _) Hp), Ht. cbn [negb]. rewrite H6, H3, Hr. simpl.
  rewrite H5, H2. set (st := classify_task_state _).
  destruct (pid_runq_latency s !! _) as [l|]; simpl;
    by destruct (cs_preempt e || (st =? STATE_RUNNING)).
Qed.

(** A task the programs follow. *)
Definition followed (p : task) : Prop :=
  t_pid p <> 0 /\ has_flag (t_flags p) PF_KTHREAD = false /\
  (cpu_system_wide cfg = true \/ in_filter cfg (t_tgid p) = true).

Lemma wakeup_stores now p s :
  followed p -> Z.of_nat (size (wakeup_ts s)) < WAKEUP_SIZE ->
  wakeup_ts (handle_wakeup cfg now p s) !! t_pid p = Some now.
Proof using Type.
  intros (_ & Hk & Hf) Hs. unfold handle_wakeup. rewrite Hk.
  assert (Hp : negb (cpu_system_wide cfg) && negb (in_filter cfg (t_tgid p)) = false)
    by (destruct Hf as [-> | ->]; [done|by rewrite andb_false_r]).
  rewrite Hp. by apply hash_update_any.
Qed.

Lemma switch_in_latency e s wake :
  wakeup_ts s !! t_pid (cs_next e) = Some wake -> t_pid (cs_next e) <> 0 ->
  t_pid (cs_prev e) <> t_pid (cs_next e) -> Z.of_nat (size (pid_runq_latency s)) < WAKEUP_SIZE ->
  pid_runq_latency (handle_switch cfg e s) !! t_pid (cs_next e) = Some (u64 (cs_now e - wake)).
Proof using Type.
  intros Hw Hz Hne Hs. unfold handle_switch.
  pose proof (read_counters_frame e s) as (H1 & H2 & _).
  destruct (read_counters e s) as [[[c i] m] s1]. simpl in *.
  destruct (prev_off_cpu_frame e (on_cpu_delta e s1) c i m (next_on_cpu e s1) (t_pid (cs_next e))
    ltac:(done)) as (_ & ->).
  unfold next_on_cpu. rewrite (proj2 (Z.eqb_neq _ _) Hz), H1, Hw. simpl.
  rewrite H2. by apply hash_update_any.
Qed.

(** The run-queue latency a task is reported with is the time it waited for
    the CPU: from its wakeup to the switch that put it on the CPU. Nothing that
    happens to other tasks between the wakeup, that switch and the switch that
    takes it off again changes the figure, on whichever CPUs they run. *)
Theorem runq_latency_exact t1 p ops1 e_in ops2 e_out s :
  followed p -> t_pid (cs_next e_in) = t_pid p -> cs_prev e_out = p ->
  t_pid (cs_prev e_in) <> t_pid p -> t_pid (cs_next e_out) <> t_pid p ->
  Forall (fun op => ~ touches op (t_pid p)) ops1 -> Forall (fun op => ~ touches op (t_pid p)) ops2 ->
  let s2 := cpu_run cfg ops1 (handle_wakeup cfg t1 p s) in
  let s4 := cpu_run cfg ops2 (handle_switch cfg e_in s2) in
  Z.of_nat (size (wakeup_ts s)) < WAKEUP_SIZE -> Z.of_nat (size (pid_runq_latency s2)) < WAKEUP_SIZE ->
  cpu_room cfg (rb_tries (rb s4)) = true ->
  exists r, rb_events (rb (handle_switch cfg e_out s4)) = rb_events (rb s4) ++ [r] /\
    ps_tgid r = t_tgid p /\ ps_runq_latency_ns r = u64 (cs_now e_in - t1).
Proof using Type.
  intros Hf Hin Hout Hne1 Hne2 Ho1 Ho2 s2 s4 Hs1 Hs2 Hroom.
  pose proof Hf as (Hz & Hk & Hfil).
  assert (Hw : wakeup_ts s2 !! t_pid p = Some t1).
  { etrans; [apply (run_frame ops1 (handle_wakeup cfg t1 p s) (t_pid p) Ho1)|]. by apply wakeup_stores. }
  assert (Hl : pid_runq_latency s4 !! t_pid p = Some (u64 (cs_now e_in - t1))).
  { etrans; [apply (run_frame ops2 (handle_switch cfg e_in s2) (t_pid p) Ho2)|].
    rewrite <- Hin. apply switch_in_latency; rewrite ?Hin; done. }
  assert (Ht : should_track_prev cfg p = true).
  { unfold should_track_prev. rewrite Hk. by destruct (cpu_system_wide cfg), Hfil. }
  destruct (switch_emits e_out s4) as (c & i & m & E); rewrite ?Hout; try done.
  rewrite E, Hout, Hl. by eexists.
Qed.

(** ** On-CPU time *)

(** The deltas of the switches on one CPU, as a run goes through them. *)
Fixpoint cpu_deltas (cpu : Z) (ops : list cpu_op) (s : cpu_state) : list Z :=
  match ops with
  | [] => []
  | op :: ops =>
      let rest := cpu_deltas cpu ops (cpu_step cfg op s) in
      match op with
      | DoSwitch e => if cs_cpu e =? cpu then on_cpu_delta e s :: rest else rest
      | _ => rest
      end
  end.

(** The times of the switches on one CPU never run backwards. *)
Fixpoint ticking (cpu last : Z) (ops : list cpu_op) : Prop :=
  match ops with
  | [] => True
  | DoSwitch e :: ops =>
      if cs_cpu e =? cpu
      then 0 < cs_now e < 18446744073709551616 /\ last <= cs_now e /\ ticking cpu (cs_now e) ops
      else ticking cpu last ops
  | _ :: ops => ticking cpu last ops
  end.

Fixpoint last_switch (cpu last : Z) (ops : list cpu_op) : Z :=
  match ops with
  | [] => last
  | DoSwitch e :: ops => last_switch cpu (if cs_cpu e =? cpu then cs_now e else last) ops
  | _ :: ops => last_switch cpu last ops
  end.

Definition seen (s : cpu_state) (cpu last : Z) : Prop :=
  0 <= cpu < Z.of_nat (length (last_seen (cpus s cpu))) /\
  array_lookup (last_seen (cpus s cpu)) cpu = Some last.

Lemma switch_last_seen e s :
  last_seen (cpus (handle_switch cfg e s) (cs_cpu e)) =
  array_store (last_seen (cpus s (cs_cpu e))) (cs_cpu e) (cs_now e) /\
  forall c, c <> cs_cpu e -> last_seen (cpus (handle_switch cfg e s) c) = last_seen (cpus s c).
Proof using Type.
  unfold handle_switch. pose proof (read_counters_frame e s) as (_ & _ & _ & H4).
  destruct (read_counters e s) as [[[c i] m] s1]. simpl in *.
  rewrite prev_off_cpu_cpus, (proj2 (next_on_cpu_rest e s1)), Z.eqb_refl. simpl. split.
  - by rewrite H4.
  - intros c' Hc. by rewrite (proj2 (Z.eqb_neq c' (cs_cpu e)) Hc).
Qed.

Lemma seen_switch e s last : seen s (cs_cpu e) last -> seen (handle_switch cfg e s) (cs_cpu e) (cs_now e).
Proof using Type.
  intros [H1 H2]. unfold seen. destruct (switch_last_seen e s) as [-> _]. rewrite array_store_length.
  split; [done|]. by apply array_lookup_store.
Qed.

Lemma seen_other op s cpu last :
  (forall e, op = DoSwitch e -> cs_cpu e <> cpu) -> seen s cpu last -> seen (cpu_step cfg op s) cpu last.
Proof using Type.
  intros Ho Hs. destruct op as [now p|now p|e]; simpl.
  - unfold handle_wakeup. by repeat case_match.
  - unfold handle_wakeup_new. by repeat case_match.
  - unfold seen. by rewrite (proj2 (switch_last_seen e s)) by (intros ->; by apply (Ho e)).
Qed.

Lemma deltas_telescope cpu ops s last :
  0 < last -> seen s cpu last -> ticking cpu last ops ->
  sum (cpu_deltas cpu ops s) = last_switch cpu last ops - last.
Proof using Type.
  revert s last. induction ops as [|op ops IH]; intros s last Hl Hs Ht; [simpl; lia|].
  destruct op as [now p|now p|e]; simpl in *.
  - apply IH; [done| |done]. by apply (seen_other (Wakeup now p)).
  - apply IH; [done| |done]. by apply (seen_other (WakeupNew now p)).
  - destruct (Z.eqb_spec (cs_cpu e) cpu) as [<-|Hne].
    + destruct Ht as (Hn & Hle & Ht). simpl.
      rewrite (IH (handle_switch cfg e s) (cs_now e)); [|lia|by eapply seen_switch|done].
      unfold on_cpu_delta. destruct Hs as [_ ->]. rewrite (proj2 (Z.eqb_neq last 0)) by lia.
      rewrite u64_small by word_lia. lia.
    + apply IH; [done| |done]. apply (seen_other (DoSwitch e)); [|done]. by intros e' [= <-].
Qed.

(** On-CPU time is accounted for without gaps or overlaps. From the first
    switch seen on a CPU on, the deltas computed at the following switches of
    that CPU add up to exactly the time to the last of them, whatever wakeups
    and whatever switches on other CPUs come in between; the first switch itself
    reports zero rather than the time since boot. *)
Theorem on_cpu_time_telescopes e ops s :
  0 < cs_now e < 18446744073709551616 -> seen s (cs_cpu e) 0 -> ticking (cs_cpu e) (cs_now e) ops ->
  on_cpu_delta e s = 0 /\
  sum (cpu_deltas (cs_cpu e) (DoSwitch e :: ops) s) = last_switch (cs_cpu e) (cs_now e) ops - cs_now e.
Proof using Type.
  intros Hn Hs Ht.
  assert (H0 : on_cpu_delta e s = 0) by (unfold on_cpu_delta; by destruct Hs as [_ ->]).
  split; [done|]. simpl. rewrite Z.eqb_refl, H0. simpl.
  rewrite (deltas_telescope (cs_cpu e) ops _ (cs_now e)); [lia|lia|by eapply seen_switch|done].
Qed.
(** The table of last switches has its declared length on [cpu]. *)
Definition last_seen_wf (cpu : Z) (s : cpu_state) : Prop :=
  length (last_seen (cpus s cpu)) = LAST_SEEN_SIZE.

Lemma step_last_seen_wf op s cpu : last_seen_wf cpu s -> last_seen_wf cpu (cpu_step cfg op s).
Proof using Type.
  unfold last_seen_wf. intros Hs. destruct op as [now p|now p|e]; simpl.
  - unfold handle_wakeup. by repeat case_match.
  - unfold handle_wakeup_new. by repeat case_match.
  - destruct (switch_last_seen e s) as [H1 H2]. destruct (decide (cpu = cs_cpu e)) as [->|Hne].
    + by rewrite H1, array_store_length.
    + by rewrite H2.
Qed.

(** The table of last switch times has 128 slots and is indexed by the CPU
    number, so a CPU numbered 128 or above never finds its own: over any run of
    the programs every on-CPU time computed at a switch of such a CPU is zero,
    whatever time has passed. *)
Theorem on_cpu_time_zero_past_table cpu ops s :
  Z.of_nat LAST_SEEN_SIZE <= cpu -> last_seen_wf cpu s ->
  Forall (fun d => d = 0) (cpu_deltas cpu ops s).
Proof using Type.
  intros Hc. revert s. induction ops as [|op ops IH]; intros s Hs; [constructor|].
  pose proof (IH _ (step_last_seen_wf op s cpu Hs)) as Hrest.
  destruct op as [now p|now p|e]; simpl in *; try done.
  destruct (Z.eqb_spec (cs_cpu e) cpu) as [<-|]; [|done]. constructor; [|done].
  unfold on_cpu_delta, array_lookup. rewrite Hs.
  by rewrite (proj2 (Z.ltb_ge _ _) Hc), andb_false_r.
Qed.
End facts.

(** ** Concrete runs *)

Definition cpu_demo_cfg : cpu_cfg := CpuCfg true ∅ (fun _ => true).
Definition cpu_demo_state : cpu_state :=
  CpuState (fun _ => PerCpu [0] [0] [0] (replicate 128 0)) [0] (Ringbuf [] 0) ∅ ∅.
Definition task_a : task := Task 11 10 0 1 None.
Definition task_b : task := Task 21 20 0 0 None.
Definition switch_at (now cpu : Z) (prev next : task) : cpu_switch :=
  CpuSwitch now cpu false prev next None None None.

Lemma runq_latency_exact_witness :
  let s2 := cpu_run cpu_demo_cfg [Wakeup 60 task_b] (handle_wakeup cpu_demo_cfg 50 task_a cpu_demo_state) in
  let s4 := cpu_run cpu_demo_cfg [] (handle_switch cpu_demo_cfg (switch_at 80 3 task_b task_a) s2) in
  exists r, rb_events (rb (handle_switch cpu_demo_cfg (switch_at 95 3 task_a task_b) s4)) =
      rb_events (rb s4) ++ [r] /\
    ps_tgid r = 10 /\ ps_runq_latency_ns r = u64 (80 - 50).
Proof.
  apply (runq_latency_exact cpu_demo_cfg 50 task_a [Wakeup 60 task_b] (switch_at 80 3 task_b task_a) []
           (switch_at 95 3 task_a task_b) cpu_demo_state).
  - split_and!; [done|done|by left].
  - reflexivity.
  - reflexivity.
  - done.
  - done.
  - repeat constructor. done.
  - constructor.
  - by vm_compute.
  - by vm_compute.
  - reflexivity.
Defined.

Lemma on_cpu_time_telescopes_witness :
  on_cpu_delta (switch_at 100 3 task_a task_b) cpu_demo_state = 0 /\
  sum (cpu_deltas cpu_demo_cfg 3
         [DoSwitch (switch_at 100 3 task_a task_b); DoSwitch (switch_at 110 4 task_a task_b);
          DoSwitch (switch_at 130 3 task_b task_a)] cpu_demo_state) = 130 - 100.
Proof.
  apply (on_cpu_time_telescopes cpu_demo_cfg (switch_at 100 3 task_a task_b)
    [DoSwitch (switch_at 110 4 task_a task_b); DoSwitch (switch_at 130 3 task_b task_a)] cpu_demo_state).
  - simpl. lia.
  - split; [simpl; lia|reflexivity].
  - simpl. lia.
Defined.

Lemma on_cpu_time_zero_past_table_witness :
  Forall (fun d => d = 0)
    (cpu_deltas cpu_demo_cfg 130
       [DoSwitch (switch_at 100 130 task_a task_b); DoSwitch (switch_at 900 130 task_b task_a)]
       cpu_demo_state).
Proof. apply (on_cpu_time_zero_past_table cpu_demo_cfg 130); [by vm_compute|reflexivity]. Defined.
