(* ===== verification/GpuUsdt.v ===== *)
(** * GpuUsdt: the consumer of the GPU probes

    Models src/bpf/gpu_usdt.bpf.c: one program serves every probe; most kinds
    are copied to user space as a batch, and a sampled launch also walks the
    launching thread's stack and publishes it under a freshly minted id. *)
From S2P Require Import Prelude Bpf Record Tables Walker Driver Sampling Python.

Definition GPU_E2BIG : Z := 7.

Definition KIND_UNKNOWN : Z := 0.
Definition KIND_LAUNCH : Z := 1.
Definition KIND_EXEC : Z := 2.
Definition KIND_MODULE : Z := 3.
Definition KIND_PC : Z := 4.
Definition KIND_LAUNCH_SAMPLED : Z := 5.
Definition KIND_KERNEL_NAME : Z := 6.
Definition KIND_STALL_MAP : Z := 7.
Definition KIND_SAMPLING_WINDOW : Z := 8.
Definition KIND_CONFIG : Z := 9.
Definition KIND_DROPPED : Z := 10.
Definition KIND_MAX : Z := 16.

Definition REC_LAUNCH : Z := 48.
Definition REC_EXEC : Z := 48.
Definition REC_MODULE : Z := 40.
Definition REC_PC : Z := 40.
Definition REC_LAUNCH_SAMPLED : Z := 56.
Definition REC_KERNEL_NAME : Z := 272.
Definition REC_STALL_MAP : Z := 136.
Definition REC_SAMPLING_WINDOW : Z := 24.
Definition REC_CONFIG : Z := 24.
Definition REC_DROPPED : Z := 16.

Definition MAX_RECORDS_PER_BATCH : Z := 64.
Definition MAX_BATCHED_RECORD_BYTES : Z := 48.
Definition PAYLOAD_BYTES : Z := MAX_RECORDS_PER_BATCH * MAX_BATCHED_RECORD_BYTES.

Definition BATCH_CAP (sz : Z) : Z :=
  if PAYLOAD_BYTES / sz <? MAX_RECORDS_PER_BATCH then PAYLOAD_BYTES / sz else MAX_RECORDS_PER_BATCH.

(** A submitted batch: its header and the bytes that follow. *)
Record batch := Batch {
  b_kind : Z;
  b_count : Z;
  b_seq : Z;
  b_pid : Z;
  b_tid : Z;
  b_bytes : Z;
  b_stack_id : Z;
  b_payload : list Z;
}.

Definition GPU_STACKS_SIZE : Z := 4096.

Record gpu_stack := GpuStack {
  gs_n_pcs : Z;
  gs_walker_flags : Z;
  gs_pcs : list Z;
  gs_tags : list Z;
}.

Definition GPU_STACK_SEQ_BITS : Z := 18.
Definition GPU_STACK_SEQ_MASK : Z := u32 (Z.shiftl 1 GPU_STACK_SEQ_BITS - 1).
Definition GPU_STACK_CPU_MASK : Z := 0x1FFF.

Definition WALK_ERR_NO_SCRATCH : Z := 0.
Definition WALK_ERR_EMPTY : Z := 1.
Definition WALK_ERR_MAP_FULL : Z := 2.
Definition WALK_ERR_UPDATE : Z := 3.
Definition WALK_ERR_MAX : Z := 4.

(** A batch parked while its stack is walked. *)
Record gpu_pending := GpuPending {
  gp_ptr : Z;
  gp_seq : Z;
  gp_count : Z;
  gp_kind : Z;
  gp_bytes : Z;
}.

(** The driver's own maps, the per-CPU ones as this CPU sees them. *)
Record gpu_priv := GpuPriv {
  events : ringbuf batch;
  dropped : list Z;
  stacks_missing : list Z;
  walk_errors : list Z;
  gpu_stacks : gmap Z gpu_stack;
  gpu_stack_scratch : list gpu_stack;
  stack_id_seq : list Z;
  gpu_pending_batch : list gpu_pending;
}.

Definition record_size (kind : Z) : Z :=
  if kind =? KIND_LAUNCH then REC_LAUNCH
  else if kind =? KIND_EXEC then REC_EXEC
  else if kind =? KIND_MODULE then REC_MODULE
  else if kind =? KIND_PC then REC_PC
  else if kind =? KIND_LAUNCH_SAMPLED then REC_LAUNCH_SAMPLED
  else if kind =? KIND_KERNEL_NAME then REC_KERNEL_NAME
  else if kind =? KIND_STALL_MAP then REC_STALL_MAP
  else if kind =? KIND_SAMPLING_WINDOW then REC_SAMPLING_WINDOW
  else if kind =? KIND_CONFIG then REC_CONFIG
  else if kind =? KIND_DROPPED then REC_DROPPED
  else 0.

Definition max_records (kind : Z) : Z :=
  if kind =? KIND_LAUNCH then BATCH_CAP REC_LAUNCH
  else if kind =? KIND_EXEC then BATCH_CAP REC_EXEC
  else if kind =? KIND_MODULE then BATCH_CAP REC_MODULE
  else if kind =? KIND_PC then BATCH_CAP REC_PC
  else if kind =? KIND_LAUNCH_SAMPLED then 1
  else if kind =? KIND_KERNEL_NAME then BATCH_CAP REC_KERNEL_NAME
  else if kind =? KIND_STALL_MAP then BATCH_CAP REC_STALL_MAP
  else if kind =? KIND_SAMPLING_WINDOW then BATCH_CAP REC_SAMPLING_WINDOW
  else if kind =? KIND_CONFIG then BATCH_CAP REC_CONFIG
  else if kind =? KIND_DROPPED then BATCH_CAP REC_DROPPED
  else 0.

(** [__sync_fetch_and_add] on one slot of an array map. *)
Definition add_at (m : list Z) (slot v : Z) : list Z :=
  match array_lookup m slot with
  | Some d => array_store m slot (u64 (d + v))
  | None => m
  end.

Definition set_events (g : gpu_priv) (r : ringbuf batch) : gpu_priv :=
  GpuPriv r (dropped g) (stacks_missing g) (walk_errors g) (gpu_stacks g) (gpu_stack_scratch g)
          (stack_id_seq g) (gpu_pending_batch g).

Definition count_drop (kind records : Z) (g : gpu_priv) : gpu_priv :=
  if KIND_MAX <=? kind then g
  else GpuPriv (events g) (add_at (dropped g) kind records) (stacks_missing g) (walk_errors g)
               (gpu_stacks g) (gpu_stack_scratch g) (stack_id_seq g) (gpu_pending_batch g).

Definition count_stack_missing (kind : Z) (g : gpu_priv) : gpu_priv :=
  if KIND_MAX <=? kind then g
  else GpuPriv (events g) (dropped g) (add_at (stacks_missing g) kind 1) (walk_errors g)
               (gpu_stacks g) (gpu_stack_scratch g) (stack_id_seq g) (gpu_pending_batch g).

Definition count_walk_error (slot : Z) (g : gpu_priv) : gpu_priv :=
  if WALK_ERR_MAX <=? slot then g
  else GpuPriv (events g) (dropped g) (stacks_missing g) (add_at (walk_errors g) slot 1)
               (gpu_stacks g) (gpu_stack_scratch g) (stack_id_seq g) (gpu_pending_batch g).

(** The handle of the [n]-th capture on a CPU. *)
Definition stack_id (cpu n : Z) : Z :=
  s32 (Z.lor (u32 (Z.shiftl (Z.land cpu GPU_STACK_CPU_MASK) GPU_STACK_SEQ_BITS))
             (Z.land n GPU_STACK_SEQ_MASK)).

Definition next_stack_id (cpu : Z) (g : gpu_priv) : Z * gpu_priv :=
  match array_lookup (stack_id_seq g) 0 with
  | None => (-1, g)
  | Some seq =>
      let n := u32 (seq + 1) in
      (stack_id cpu n,
       GpuPriv (events g) (dropped g) (stacks_missing g) (walk_errors g) (gpu_stacks g)
               (gpu_stack_scratch g) (array_store (stack_id_seq g) 0 n) (gpu_pending_batch g))
  end.

Definition put_stacks (g : gpu_priv) (scratch : list gpu_stack) (m : gmap Z gpu_stack) : gpu_priv :=
  GpuPriv (events g) (dropped g) (stacks_missing g) (walk_errors g) m scratch (stack_id_seq g)
          (gpu_pending_batch g).

Definition gpu_publish_stack (cpu : Z) (rec : sample_record) (n : Z) (g : gpu_priv) : Z * gpu_priv :=
  if n =? 0 then (-1, count_walk_error WALK_ERR_EMPTY g)
  else match array_lookup (gpu_stack_scratch g) 0 with
  | None => (-1, count_walk_error WALK_ERR_NO_SCRATCH g)
  | Some _ =>
      let '(id, g) := next_stack_id cpu g in
      if id <? 0 then (-1, count_walk_error WALK_ERR_NO_SCRATCH g)
      else
        let out := GpuStack n (flags_of rec) (rec_pcs rec) (rec_tags rec) in
        let '(ret, m) := hash_update GPU_STACKS_SIZE BPF_NOEXIST (gpu_stacks g) id out in
        let g := put_stacks g (array_store (gpu_stack_scratch g) 0 out) m in
        if negb (ret =? 0)
        then (-1, count_walk_error (if ret =? - GPU_E2BIG then WALK_ERR_MAP_FULL else WALK_ERR_UPDATE) g)
        else (id, g)
  end.

Section gpu.
  Context (ev : env) (t : tables) {M : Type}.
  Local Abbreviation W := (world (driver gpu_priv) M).
  (** The CPU the program runs on and the (process, thread) it runs for. *)
  Context (cpu tgid tid : Z).

Definition put_gpu (w : W) (g : gpu_priv) : W := put_drv w (Drv (d_miss (drv w)) g).
Definition gpu_of (w : W) : gpu_priv := d_priv (drv w).

(** Reserve, copy, submit; or count the loss. The payload is what
    [bpf_probe_read_user] copied. *)
Definition gpu_emit_plain (kind count seq bytes ptr : Z) (g : gpu_priv) : gpu_priv :=
  let '(ok, r) := ringbuf_reserve (e_room ev) (events g) in
  let g := set_events g r in
  if negb ok then count_drop kind count g
  else match probe_read_user (e_mem ev) ptr (Z.to_nat bytes) with
  | None => count_drop kind count g
  | Some payload =>
      set_events g (ringbuf_submit (events g) (Batch kind count seq tgid tid bytes (-1) payload))
  end.

(** The rest of [gpu_sampled_walk] once [unwind_walk] has returned [n_pcs]. *)
Definition gpu_emit_sampled_priv (rec : sample_record) (n_pcs : Z) (g : gpu_priv) : gpu_priv :=
  match array_lookup (gpu_pending_batch g) 0 with
  | None => count_drop KIND_LAUNCH_SAMPLED 1 g
  | Some p =>
      let kind := gp_kind p in
      let count := gp_count p in
      let bytes := gp_bytes p in
      if negb (kind =? KIND_LAUNCH_SAMPLED) || negb (count =? 1) || negb (bytes =? REC_LAUNCH_SAMPLED)
      then count_drop kind count g
      else
        let '(ok, r) := ringbuf_reserve (e_room ev) (events g) in
        let g := set_events g r in
        if negb ok then count_drop kind count g
        else match probe_read_user (e_mem ev) (gp_ptr p) (Z.to_nat bytes) with
        | None => count_drop kind count g
        | Some payload =>
            let '(id, g) := gpu_publish_stack cpu rec n_pcs g in
            let g := if id <? 0 then count_stack_missing KIND_LAUNCH_SAMPLED g else g in
            set_events g (ringbuf_submit (events g)
              (Batch kind count (gp_seq p) tgid tid bytes id payload))
        end
  end.

Definition gpu_emit_sampled (n_pcs : Z) (w : W) : W :=
  match walk_state_get w, walk_record_get w with
  | Some _, Some rec => put_gpu w (gpu_emit_sampled_priv rec n_pcs (gpu_of w))
  | _, _ => w
  end.

Definition gpu_sampled_walk (resumed : bool) (w : W) : outcome W :=
  walk_fn ev t gpu_emit_sampled resumed w.

Definition put_pending (g : gpu_priv) (p : gpu_pending) : gpu_priv :=
  GpuPriv (events g) (dropped g) (stacks_missing g) (walk_errors g) (gpu_stacks g)
          (gpu_stack_scratch g) (stack_id_seq g) (array_store (gpu_pending_batch g) 0 p).

(** One probe fire: the attach cookie, the three pinned arguments and the
    application's registers. *)
Definition gpu_usdt_batch (modules : Z -> option (W -> outcome W)) (cookie ptr count seq ip fp sp : Z)
    (w : W) : W :=
  let kind := u32 cookie in
  let rsz := record_size kind in
  let cap := max_records kind in
  if rsz =? 0 then put_gpu w (count_drop KIND_UNKNOWN count (gpu_of w))
  else if count =? 0 then w
  else
    let w := if cap <? count then put_gpu w (count_drop kind (u64 (count - cap)) (gpu_of w)) else w in
    let count := if cap <? count then cap else count in
    let bytes := u32 (u32 count * rsz) in
    let bytes := if PAYLOAD_BYTES <? bytes then PAYLOAD_BYTES else bytes in
    if negb (kind =? KIND_LAUNCH_SAMPLED)
    then put_gpu w (gpu_emit_plain kind (u32 count) seq bytes ptr (gpu_of w))
    else match walk_state_get w, walk_record_get w, array_lookup (gpu_pending_batch (gpu_of w)) 0 with
    | Some _, Some rec, Some _ =>
        let w := put_gpu w (put_pending (gpu_of w) (GpuPending ptr seq (u32 count) kind bytes)) in
        (run (interp_progs ev t gpu_emit_sampled modules) MAX_TAIL_CALL_CNT
           (gpu_sampled_walk false (begin_walk w rec tgid tid ip fp sp))).1
    | _, _, _ =>
        put_gpu w (gpu_emit_plain kind (u32 count) seq bytes ptr
          (count_stack_missing KIND_LAUNCH_SAMPLED (count_walk_error WALK_ERR_NO_SCRATCH (gpu_of w))))
    end.
End gpu.

(** ** Sizes *)

Lemma known_kind kind :
  record_size kind <> 0 ->
  1 <= kind <= 10 /\ 1 <= max_records kind <= 64 /\ 16 <= record_size kind /\
  max_records kind * record_size kind <= PAYLOAD_BYTES.
Proof.
  intros Hk. assert (Hrange : 1 <= kind <= 10).
  { destruct (decide (1 <= kind <= 10)) as [|Hout]; [done|]. destruct Hk. unfold record_size.
    repeat (rewrite (proj2 (Z.eqb_neq kind _)) by (intros ->; apply Hout; by vm_compute)). done. }
  split; [done|]. clear Hk.
  assert (Hin : kind ∈ [1; 2; 3; 4; 5; 6; 7; 8; 9; 10]).
  { rewrite !elem_of_cons. lia. }
  repeat (apply elem_of_cons in Hin as [->|Hin]; [by vm_compute|]). by apply not_elem_of_nil in Hin.
Qed.

(** The clamped count and the bytes it takes: the second clamp never bites. *)
Lemma clamped kind count :
  record_size kind <> 0 -> 0 < count ->
  let c := if max_records kind <? count then max_records kind else count in
  let bytes := u32 (u32 c * record_size kind) in
  1 <= c <= max_records kind /\ u32 c = c /\
  (if PAYLOAD_BYTES <? bytes then PAYLOAD_BYTES else bytes) = c * record_size kind /\
  c * record_size kind <= PAYLOAD_BYTES.
Proof.
  intros Hk Hc c bytes. destruct (known_kind kind Hk) as (_ & H1 & H2 & H3).
  assert (Hr : 1 <= c <= max_records kind) by (subst c; destruct (Z.ltb_spec (max_records kind) count); lia).
  assert (Hb : c * record_size kind <= PAYLOAD_BYTES) by nia.
  assert (Hcu : u32 c = c) by (apply u32_small; word_lia).
  assert (bytes = c * record_size kind) as ->.
  { subst bytes. rewrite Hcu. apply u32_small. unfold PAYLOAD_BYTES, MAX_RECORDS_PER_BATCH,
      MAX_BATCHED_RECORD_BYTES in *. unfold is_u32. nia. }
  split_and!; try done; try lia. by rewrite (proj2 (Z.ltb_ge _ _) Hb).
Qed.

(** ** Accounting *)

Record gpu_wf (g : gpu_priv) : Prop := {
  gw_dropped : length (dropped g) = 16%nat;
  gw_missing : length (stacks_missing g) = 16%nat;
  gw_errors : length (walk_errors g) = 4%nat;
  gw_scratch : length (gpu_stack_scratch g) = 1%nat;
  gw_seq : length (stack_id_seq g) = 1%nat;
  gw_pending : length (gpu_pending_batch g) = 1%nat;
}.

Definition total (bs : list batch) : Z := foldr (fun b n => b_count b + n) 0 bs.

(** From [g] to [g'], [count] records of [kind] were all either submitted, in
    the batches [bs], or added to the drop counter of the kind. *)
Definition accounts (g g' : gpu_priv) (kind count : Z) (bs : list batch) : Prop :=
  rb_events (events g') = rb_events (events g) ++ bs /\
  exists lost, 0 <= lost /\ total bs + lost = count /\
    shifted (dropped g) (dropped g') (fun i => if i =? kind then lost else 0).

Lemma total_app bs cs : total (bs ++ cs) = total bs + total cs.
Proof. induction bs as [|b bs IH]; simpl; lia. Qed.

Lemma shifted_add m slot v :
  0 <= slot < Z.of_nat (length m) -> shifted m (add_at m slot v) (fun i => if i =? slot then v else 0).
Proof.
  intros Hs. unfold add_at. rewrite stat_lookup by done. split; [apply array_store_length|].
  intros i. rewrite stat_store by done. destruct (Z.eqb_spec i slot) as [->|]; [|by rewrite Z.add_0_r].
  unfold u64. by rewrite Z.mod_mod.
Qed.

Lemma shifted_ext s s' d d' : (forall i, d i = d' i) -> shifted s s' d -> shifted s s' d'.
Proof. intros Hd [H1 H2]. split; [done|]. intros i. by rewrite H2, Hd. Qed.

Lemma accounts_trans g1 g2 g3 kind c1 c2 c bs1 bs2 :
  accounts g1 g2 kind c1 bs1 -> accounts g2 g3 kind c2 bs2 -> c = c1 + c2 ->
  accounts g1 g3 kind c (bs1 ++ bs2).
Proof.
  intros (E1 & l1 & P1 & T1 & S1) (E2 & l2 & P2 & T2 & S2) ->. split; [by rewrite E2, E1, app_assoc|].
  exists (l1 + l2). rewrite total_app. split_and!; try lia.
  eapply shifted_ext; [|by eapply shifted_trans]. intros i. simpl. by destruct (i =? kind).
Qed.

Lemma accounts_none g g' kind :
  rb_events (events g') = rb_events (events g) -> dropped g' = dropped g -> accounts g g' kind 0 [].
Proof.
  intros He Hd. split; [by rewrite app_nil_r|]. exists 0. split_and!; [done|done|].
  rewrite Hd. eapply shifted_ext; [|apply shifted_refl]. intros i. by destruct (i =? kind).
Qed.

Lemma accounts_drop g kind n :
  length (dropped g) = 16%nat -> 0 <= kind < 16 -> 0 <= n ->
  accounts g (count_drop kind n g) kind n [].
Proof.
  intros Hl Hk Hn. unfold count_drop, KIND_MAX. rewrite (proj2 (Z.leb_gt 16 kind)) by lia.
  split; [by rewrite app_nil_r|]. exists n. split_and!; [done|simpl; lia|]. apply shifted_add. lia.
Qed.

(** Submitting after any change that leaves the events and the drops alone. *)
Lemma accounts_submit g g' b :
  rb_events (events g') = rb_events (events g) -> dropped g' = dropped g ->
  accounts g (set_events g' (ringbuf_submit (events g') b)) (b_kind b) (b_count b) [b].
Proof.
  intros He Hd. split; [simpl; by rewrite He|]. exists 0. split_and!; [done|simpl; lia|].
  simpl. rewrite Hd. eapply shifted_ext; [|apply shifted_refl]. intros i. by destruct (_ =? _).
Qed.

Section facts.
  Context (ev : env) (cpu tgid tid : Z).

(** What a plain emit amounts to. *)
Lemma emit_plain_cases kind count seq bytes ptr g :
  0 <= kind < 16 -> 0 <= count -> length (dropped g) = 16%nat ->
  exists bs, accounts g (gpu_emit_plain ev tgid tid kind count seq bytes ptr g) kind count bs /\
    (length bs <= 1)%nat /\ forall b, b ∈ bs -> exists payload,
      b = Batch kind count seq tgid tid bytes (-1) payload /\
      probe_read_user (e_mem ev) ptr (Z.to_nat bytes) = Some payload.
Proof using Type.
  intros Hk Hc Hl. unfold gpu_emit_plain, ringbuf_reserve.
  set (g1 := set_events g _).
  assert (Hd : accounts g (count_drop kind count g1) kind count []).
  { change (@nil batch) with (@nil batch ++ []).
    eapply accounts_trans; [by apply (accounts_none g g1)|by apply accounts_drop|done]. }
  destruct (e_room ev _); simpl.
  2:{ exists []. split_and!; [done|simpl; lia|]. by intros b ?%not_elem_of_nil. }
  destruct (probe_read_user _ _ _) as [payload|] eqn:Ep.
  - eexists. split; [apply (accounts_submit g g1 (Batch kind count seq tgid tid bytes (-1) payload)); done|].
    split; [simpl; lia|]. intros b ->%list_elem_of_singleton. by exists payload.
  - exists []. split_and!; [done|simpl; lia|]. by intros b ?%not_elem_of_nil.
Qed.

(** How a capture ends: a fresh entry under a non-negative id, or one named
    error and nothing published. *)
Definition published (rec : sample_record) (n id : Z) (g g' : gpu_priv) : Prop :=
  if id <? 0 then
    gpu_stacks g' = gpu_stacks g /\ stacks_missing g' = stacks_missing g /\
    exists slot, 0 <= slot < WALK_ERR_MAX /\
      shifted (walk_errors g) (walk_errors g') (only slot)
  else
    0 <= id < 2147483648 /\ gpu_stacks g !! id = None /\
    gpu_stacks g' = <[id := GpuStack n (flags_of rec) (rec_pcs rec) (rec_tags rec)]> (gpu_stacks g) /\
    walk_errors g' = walk_errors g /\ stacks_missing g' = stacks_missing g.

Lemma walk_error_shift slot g :
  length (walk_errors g) = 4%nat -> 0 <= slot < WALK_ERR_MAX ->
  shifted (walk_errors g) (walk_errors (count_walk_error slot g)) (only slot).
Proof using Type.
  unfold WALK_ERR_MAX. intros Hl Hs. unfold count_walk_error, WALK_ERR_MAX.
  rewrite (proj2 (Z.leb_gt 4 slot)) by lia. apply shifted_add. lia.
Qed.

Lemma walk_error_rest slot g :
  let g' := count_walk_error slot g in
  gpu_stacks g' = gpu_stacks g /\ stacks_missing g' = stacks_missing g /\ events g' = events g /\
  dropped g' = dropped g.
Proof using Type. unfold count_walk_error. by destruct (_ <=? _). Qed.


Lemma stack_id_value c n : stack_id c n = (c mod 8192) * 262144 + n mod 262144.
Proof using Type.
  unfold stack_id. change GPU_STACK_SEQ_MASK with (Z.ones 18).
  change GPU_STACK_CPU_MASK with (Z.ones 13). rewrite !Z.land_ones by done.
  unfold GPU_STACK_SEQ_BITS. change (2 ^ 13) with 8192. change (2 ^ 18) with 262144.
  pose proof (Z.mod_pos_bound c 8192 ltac:(done)). pose proof (Z.mod_pos_bound n 262144 ltac:(done)).
  rewrite u32_small by (unfold is_u32; rewrite Z.shiftl_mul_pow2 by done;
    change (2 ^ 18) with 262144; lia).
  rewrite lor_fields by (change (2 ^ 18) with 262144; lia). change (2 ^ 18) with 262144.
  unfold s32. rewrite Z.mod_small by lia. by rewrite (proj2 (Z.ltb_lt _ _)) by lia.
Qed.

Lemma stack_id_range c n : 0 <= stack_id c n < 2147483648.
Proof using Type.
  rewrite stack_id_value. pose proof (Z.mod_pos_bound c 8192 ltac:(done)).
  pose proof (Z.mod_pos_bound n 262144 ltac:(done)). lia.
Qed.

Lemma publish_ok rec n g :
  gpu_wf g ->
  let r := gpu_publish_stack cpu rec n g in
  published rec n r.1 g r.2 /\ events r.2 = events g /\ dropped r.2 = dropped g.
Proof using Type.
  intros [_ _ He Hs Hq _]. unfold gpu_publish_stack. cbv zeta.
  assert (Herr : forall slot g0, 0 <= slot < WALK_ERR_MAX -> walk_errors g0 = walk_errors g ->
    gpu_stacks g0 = gpu_stacks g -> stacks_missing g0 = stacks_missing g -> events g0 = events g ->
    dropped g0 = dropped g ->
    published rec n (-1) g (count_walk_error slot g0) /\ events (count_walk_error slot g0) = events g /\
    dropped (count_walk_error slot g0) = dropped g).
  { intros slot g0 Hsl E1 E2 E3 E4 E5. destruct (walk_error_rest slot g0) as (R1 & R2 & R3 & R4).
    rewrite R3, R4. split_and!; try done. unfold published. simpl. rewrite R1, R2.
    split_and!; try done. exists slot. split; [done|]. rewrite <- E1. apply walk_error_shift; [|done].
    by rewrite E1. }
  destruct (n =? 0); [by apply Herr|].
  destruct (gpu_stack_scratch g) as [|sc [|]] eqn:Esc; try done.
  unfold next_stack_id. destruct (stack_id_seq g) as [|q [|]] eqn:Eq; try done. simpl.
  pose proof (stack_id_range cpu (u32 (q + 1))) as Hid. set (id := stack_id cpu (u32 (q + 1))) in *.
  rewrite (proj2 (Z.ltb_ge id 0)) by lia. unfold hash_update. simpl.
  destruct (gpu_stacks g !! id) as [old|] eqn:Eid; [by apply Herr|].
  destruct (_ <? GPU_STACKS_SIZE); simpl; [|by apply Herr].
  split; [|done]. unfold published. rewrite (proj2 (Z.ltb_ge id 0)) by lia. done.
Qed.

(** A capture together with the caller's count of it. *)
Definition captured (rec : sample_record) (n id : Z) (g g' : gpu_priv) : Prop :=
  if id <? 0 then
    gpu_stacks g' = gpu_stacks g /\
    shifted (stacks_missing g) (stacks_missing g') (only KIND_LAUNCH_SAMPLED) /\
    exists slot, 0 <= slot < WALK_ERR_MAX /\ shifted (walk_errors g) (walk_errors g') (only slot)
  else
    0 <= id < 2147483648 /\ gpu_stacks g !! id = None /\
    gpu_stacks g' = <[id := GpuStack n (flags_of rec) (rec_pcs rec) (rec_tags rec)]> (gpu_stacks g) /\
    walk_errors g' = walk_errors g /\ stacks_missing g' = stacks_missing g.

(** The batch parked for a sampled launch. *)
Definition sampled_pending (ptr seq : Z) : gpu_pending :=
  GpuPending ptr seq 1 KIND_LAUNCH_SAMPLED REC_LAUNCH_SAMPLED.

Lemma emit_sampled_cases rec n ptr seq g :
  gpu_wf g -> array_lookup (gpu_pending_batch g) 0 = Some (sampled_pending ptr seq) ->
  let g' := gpu_emit_sampled_priv ev cpu tgid tid rec n g in
  exists bs, accounts g g' KIND_LAUNCH_SAMPLED 1 bs /\
    ((bs = [] /\ gpu_stacks g' = gpu_stacks g) \/
     (exists id payload, bs = [Batch KIND_LAUNCH_SAMPLED 1 seq tgid tid REC_LAUNCH_SAMPLED id payload] /\
        probe_read_user (e_mem ev) ptr (Z.to_nat REC_LAUNCH_SAMPLED) = Some payload /\
        captured rec n id g g')).
Proof using Type.
  intros Hg Hp g'. subst g'. unfold gpu_emit_sampled_priv. rewrite Hp. simpl.
  unfold ringbuf_reserve. set (g1 := set_events g _).
  assert (Hd : accounts g (count_drop KIND_LAUNCH_SAMPLED 1 g1) KIND_LAUNCH_SAMPLED 1 []).
  { change (@nil batch) with (@nil batch ++ []).
    eapply accounts_trans; [by apply (accounts_none g g1)| |done].
    apply accounts_drop; [by apply Hg|done|done]. }
  destruct (e_room ev _); simpl; [|exists []; split; [done|by left]].
  destruct (probe_read_user _ _ _) as [payload|] eqn:Ep; [|exists []; split; [done|by left]].
  assert (Hg1 : gpu_wf g1) by (by destruct Hg).
  destruct (publish_ok rec n g1 Hg1) as (Hpub & He & Hdr).
  destruct (gpu_publish_stack cpu rec n g1) as [id g2]. simpl in *.
  set (g3 := if id <? 0 then count_stack_missing KIND_LAUNCH_SAMPLED g2 else g2).
  assert (H3 : events g3 = events g1 /\ dropped g3 = dropped g1)
    by (subst g3; by destruct (id <? 0)).
  eexists. split.
  { apply (accounts_submit g g3 (Batch KIND_LAUNCH_SAMPLED 1 seq tgid tid REC_LAUNCH_SAMPLED id payload));
      [by rewrite (proj1 H3)|by rewrite (proj2 H3)]. }
  right. exists id, payload. split_and!; [done|done|]. unfold published, captured in *.
  subst g3. destruct (id <? 0); [|done]. simpl. destruct Hpub as (-> & Hm & slot & Hs & Hw).
  split_and!; [done| |by exists slot]. rewrite Hm. apply shifted_add.
  change (stacks_missing g1) with (stacks_missing g). rewrite (gw_missing g Hg). done.
Qed.
End facts.

(** ** Whole probe fires *)

Section fires.
  Context (ev : env) (t : tables) {M : Type} (cpu tgid tid : Z).
  Local Abbreviation W := (world (driver gpu_priv) M).
  Context (modules : Z -> option (W -> outcome W)).
  Context (Hhandoff : handoff_wf t) (Hmodules : forall id m, modules id = Some m -> Unwinder m).

(** The maps after the records over the cap have been counted. *)
Definition after_cap (kind count : Z) (g : gpu_priv) : gpu_priv :=
  if max_records kind <? count then count_drop kind (u64 (count - max_records kind)) g else g.
Definition capped (kind count : Z) : Z := if max_records kind <? count then max_records kind else count.

Lemma after_cap_accounts kind count g :
  record_size kind <> 0 -> is_u64 count -> gpu_wf g ->
  accounts g (after_cap kind count g) kind (count - capped kind count) [] /\ gpu_wf (after_cap kind count g) /\
  gpu_stacks (after_cap kind count g) = gpu_stacks g /\
  stacks_missing (after_cap kind count g) = stacks_missing g /\
  walk_errors (after_cap kind count g) = walk_errors g.
Proof using Type.
  intros Hk Hc Hg. destruct (known_kind kind Hk) as (H1 & H2 & _). unfold after_cap, capped.
  destruct (Z.ltb_spec (max_records kind) count).
  - assert (Hu : u64 (count - max_records kind) = count - max_records kind)
      by (apply u64_small; word_lia).
    rewrite Hu. split; [apply accounts_drop; [apply Hg|lia|lia]|].
    unfold count_drop, KIND_MAX. rewrite (proj2 (Z.leb_gt 16 kind)) by lia.
    split_and!; try done. destruct Hg. split; try done. simpl. unfold add_at.
    case_match; [by rewrite array_store_length|done].
  - rewrite Z.sub_diag. split_and!; try done. by apply accounts_none.
Qed.

Lemma usdt_plain cookie ptr count seq ip fp sp w :
  record_size (u32 cookie) <> 0 -> 0 < count -> u32 cookie <> KIND_LAUNCH_SAMPLED ->
  gpu_of (gpu_usdt_batch ev t cpu tgid tid modules cookie ptr count seq ip fp sp w) =
  gpu_emit_plain ev tgid tid (u32 cookie) (capped (u32 cookie) count) seq
    (capped (u32 cookie) count * record_size (u32 cookie)) ptr (after_cap (u32 cookie) count (gpu_of w)).
Proof using Type.
  intros Hk Hc Hs. destruct (clamped (u32 cookie) count Hk Hc) as (_ & H2 & H3 & _).
  unfold gpu_usdt_batch. rewrite (proj2 (Z.eqb_neq _ _) Hk), (proj2 (Z.eqb_neq count 0)) by lia.
  rewrite (proj2 (Z.eqb_neq _ _) Hs). simpl. unfold capped, after_cap in *.
  rewrite H2 in *. rewrite H3. by destruct (max_records (u32 cookie) <? count).
Qed.

(** A sampled launch parks its batch and walks. *)
Lemma usdt_runs cookie ptr count seq ip fp sp w :
  u32 cookie = KIND_LAUNCH_SAMPLED -> is_u64 count -> 0 < count -> buffers_wf w -> gpu_wf (gpu_of w) ->
  exists w2 rec0, world_wf w2 /\ record_wf rec0 /\
    gpu_of w2 = put_pending (after_cap KIND_LAUNCH_SAMPLED count (gpu_of w)) (sampled_pending ptr seq) /\
    gpu_usdt_batch ev t cpu tgid tid modules cookie ptr count seq ip fp sp w =
    (run_sample ev t (gpu_emit_sampled ev cpu tgid tid) modules (begin_walk w2 rec0 tgid tid ip fp sp)).1.
Proof using Type.
  intros Hk Hu Hc Hb Hg. unfold gpu_usdt_batch. rewrite Hk. cbv zeta.
  change (record_size KIND_LAUNCH_SAMPLED =? 0) with false.
  change (negb (KIND_LAUNCH_SAMPLED =? KIND_LAUNCH_SAMPLED)) with false. cbv iota.
  destruct (clamped KIND_LAUNCH_SAMPLED count ltac:(done) Hc) as (H1 & _).
  destruct (after_cap_accounts KIND_LAUNCH_SAMPLED count (gpu_of w) ltac:(done) Hu Hg) as (_ & Hgc & _).
  rewrite (proj2 (Z.eqb_neq count 0)) by lia.
  set (w1 := if max_records KIND_LAUNCH_SAMPLED <? count then _ else w).
  assert (Hw1 : gpu_of w1 = after_cap KIND_LAUNCH_SAMPLED count (gpu_of w) /\
                walk_state_get w1 = walk_state_get w /\ walk_record_get w1 = walk_record_get w /\
                world_wf w1).
  { subst w1. unfold after_cap. destruct Hb as [Hwf _]. by destruct (_ <? count). }
  destruct Hw1 as (E1 & E2 & E3 & Hwf1). destruct (buffers_get w Hb) as (st0 & rec0 & G1 & G2 & Hrec0).
  rewrite E2, E3, G1, G2, E1.
  assert (Hc1 : (if max_records KIND_LAUNCH_SAMPLED <? count then max_records KIND_LAUNCH_SAMPLED
                 else count) = 1)
    by (change (max_records KIND_LAUNCH_SAMPLED) with 1 in *; lia).
  rewrite Hc1.
  assert (Hpend : exists p,
    array_lookup (gpu_pending_batch (after_cap KIND_LAUNCH_SAMPLED count (gpu_of w))) 0 = Some p).
  { pose proof (gw_pending _ Hgc). by destruct (gpu_pending_batch _) as [|p [|]]; [|exists p|]. }
  destruct Hpend as [p ->].
  exists (put_gpu w1 (put_pending (after_cap KIND_LAUNCH_SAMPLED count (gpu_of w)) (sampled_pending ptr seq))), rec0.
  split; [exact Hwf1|]. split; [exact Hrec0|]. by split.
Qed.

(** What the finishing code leaves: the walked record in its buffer, and the
    maps [gpu_emit_sampled_priv] makes of it. *)
Lemma emit_sampled_after n w st rec :
  walk_state_get w = Some st -> walk_record_get w = Some rec ->
  let w' := gpu_emit_sampled ev cpu tgid tid n w in
  walk_state_get w' = Some st /\ walk_record_get w' = Some rec /\
  gpu_of w' = gpu_emit_sampled_priv ev cpu tgid tid rec n (gpu_of (M := M) w).
Proof using Type. intros H1 H2 w'. subst w'. unfold gpu_emit_sampled. by rewrite H1, H2. Qed.

Lemma usdt_sampled cookie ptr count seq ip fp sp w :
  u32 cookie = KIND_LAUNCH_SAMPLED -> is_u64 count -> 0 < count -> buffers_wf w -> gpu_wf (gpu_of w) ->
  let w' := gpu_usdt_batch ev t cpu tgid tid modules cookie ptr count seq ip fp sp w in
  exists st rec fs, walk_state_get w' = Some st /\ walk_record_get w' = Some rec /\
    st_pid st = tgid /\ st_tid st = tid /\ holds rec (st_n_pcs st) fs /\
    (forall pcs, stack ev t tgid ip fp sp pcs -> Forall (unclaimed t tgid) pcs ->
       fs = Native <$> take 127 pcs) /\
    gpu_of w' = gpu_emit_sampled_priv ev cpu tgid tid rec (st_n_pcs st)
      (put_pending (after_cap KIND_LAUNCH_SAMPLED count (gpu_of w)) (sampled_pending ptr seq)).
Proof using Hhandoff Hmodules.
  intros Hk Hu Hc Hb Hg w'.
  destruct (usdt_runs cookie ptr count seq ip fp sp w Hk Hu Hc Hb Hg) as (w2 & rec0 & Hwf & Hrec0 & Eg & Ew).
  subst w'. rewrite Ew. clear Ew.
  destruct (run_plain ev t (gpu_emit_sampled ev cpu tgid tid) modules Hhandoff Hmodules w2 rec0 tgid tid
    ip fp sp Hwf Hrec0) as (n & w0 & d & c & E & _ & Hp & (st & rec & F1 & F2 & Hn & [[fs Hf] _]) & _).
  destruct (emit_sampled_after n w0 st rec F1 F2) as (A1 & A2 & A3). simpl in Hf. subst n.
  exists st, rec, fs. unfold run_sample. rewrite E. cbn [fst].
  destruct (begin_get w2 rec0 tgid tid ip fp sp Hwf) as [B1 B2].
  destruct (pr_state _ _ _ _ Hp _ _ B1 B2) as (st1 & rec1 & H1 & _ & Hpid & Htid & _).
  assert (st1 = st) as -> by congruence.
  split; [exact A1|]. split; [exact A2|]. split; [exact Hpid|]. split; [exact Htid|]. split; [exact Hf|]. split.
  - intros pcs Hst Hun. destruct (run_native ev t (gpu_emit_sampled ev cpu tgid tid) modules w2 rec0 tgid tid
      ip fp sp pcs Hwf Hrec0 Hst Hun) as (n' & w0' & st' & rec' & E' & _ & F1' & F2' & _ & _ & _ & Hf' & Hn' & _).
    destruct (emit_sampled_after n' w0' st' rec' F1' F2') as (A1' & A2' & _). unfold run_sample in E'.
    rewrite E in E'. injection E' as Eq _. rewrite <- Eq in A1', A2'. rewrite A1 in A1'. rewrite A2 in A2'.
    injection A1' as <-. injection A2' as <-. subst n'. by eapply holds_unique.
  - rewrite A3. unfold gpu_of at 1. rewrite (pr_priv _ _ _ _ Hp). by rewrite <- Eg.
Qed.

Lemma usdt_zero cookie ptr seq ip fp sp w :
  record_size (u32 cookie) <> 0 ->
  gpu_usdt_batch ev t cpu tgid tid modules cookie ptr 0 seq ip fp sp w = w.
Proof using Type. intros Hk. unfold gpu_usdt_batch. by rewrite (proj2 (Z.eqb_neq _ _) Hk). Qed.

(** A parked batch leaves events and drops alone. *)
Lemma pending_accounts g p kind : gpu_wf g -> accounts g (put_pending g p) kind 0 [] /\ gpu_wf (put_pending g p).
Proof using Type.
  intros Hg. split; [by apply accounts_none|]. destruct Hg. split; try done. simpl.
  by rewrite array_store_length.
Qed.

Lemma pending_get g p : gpu_wf g -> array_lookup (gpu_pending_batch (put_pending g p)) 0 = Some p.
Proof using Type.
  intros Hg. apply array_lookup_store. rewrite (gw_pending g Hg). simpl. lia.
Qed.

(** The kind a fire is accounted under. *)
Definition slot_of (cookie : Z) : Z :=
  if record_size (u32 cookie) =? 0 then KIND_UNKNOWN else u32 cookie.

(** C7: No GPU record is lost silently. For every probe fire, whatever the
    attach cookie, the record count, the state of the ring buffer and of the
    producer's memory, and however the launching thread's stack was walked, the
    records submitted to user space and the records added to the drop counter
    of the fire's kind add up to the records the producer passed; no other drop
    counter moves. *)
Theorem gpu_no_silent_loss cookie ptr count seq ip fp sp w :
  buffers_wf w -> gpu_wf (gpu_of w) -> is_u64 count ->
  let w' := gpu_usdt_batch ev t cpu tgid tid modules cookie ptr count seq ip fp sp w in
  exists bs, accounts (gpu_of w) (gpu_of w') (slot_of cookie) count bs.
Proof using Hhandoff Hmodules.
  intros Hb Hg Hu w'. subst w'. unfold slot_of.
  destruct (Z.eqb_spec (record_size (u32 cookie)) 0) as [Hz|Hk].
  { exists []. unfold gpu_usdt_batch. rewrite Hz. simpl.
    apply accounts_drop; [apply Hg|done|word_lia]. }
  destruct (decide (count = 0)) as [->|Hc].
  { exists []. rewrite usdt_zero by done. by apply accounts_none. }
  assert (0 < count) as Hpos by word_lia.
  destruct (after_cap_accounts (u32 cookie) count (gpu_of w) Hk Hu Hg) as (Hcap & Hgc & _).
  destruct (known_kind (u32 cookie) Hk) as (Hkr & _).
  destruct (clamped (u32 cookie) count Hk Hpos) as (Hcl & _). fold (capped (u32 cookie) count) in Hcl.
  destruct (decide (u32 cookie = KIND_LAUNCH_SAMPLED)) as [Hs|Hs].
  - destruct (usdt_sampled cookie ptr count seq ip fp sp w Hs Hu Hpos Hb Hg) as (st & rec & fs & _ & _ & _ & _ & _ & _ & ->).
    rewrite Hs in *.
    destruct (pending_accounts (after_cap KIND_LAUNCH_SAMPLED count (gpu_of w)) (sampled_pending ptr seq)
      KIND_LAUNCH_SAMPLED Hgc) as [Hpa Hgp].
    destruct (emit_sampled_cases ev cpu tgid tid rec (st_n_pcs st) ptr seq _ Hgp (pending_get _ _ Hgc)) as (bs & Hbs & _).
    exists bs. change bs with ([] ++ ([] ++ bs)).
    eapply accounts_trans; [done|by eapply accounts_trans|].
    change (max_records KIND_LAUNCH_SAMPLED) with 1 in Hcl. lia.
  - rewrite usdt_plain by done.
    destruct (emit_plain_cases ev tgid tid (u32 cookie) (capped (u32 cookie) count) seq
      (capped (u32 cookie) count * record_size (u32 cookie)) ptr _ ltac:(lia) ltac:(lia) (gw_dropped _ Hgc))
      as (bs & Hbs & _).
    exists bs. change bs with ([] ++ bs). eapply accounts_trans; [done|done|lia].
Qed.

(** A batch as the consumer may rely on it. *)
Record batch_ok (kind ptr count seq : Z) (b : batch) : Prop := {
  bo_kind : b_kind b = kind;
  bo_origin : b_pid b = tgid /\ b_tid b = tid /\ b_seq b = seq;
  bo_count : 1 <= b_count b <= max_records kind /\ b_count b <= count;
  bo_bytes : b_bytes b = b_count b * record_size kind /\ b_bytes b <= PAYLOAD_BYTES;
  bo_payload : probe_read_user (e_mem ev) ptr (Z.to_nat (b_bytes b)) = Some (b_payload b);
  bo_plain : kind <> KIND_LAUNCH_SAMPLED -> b_stack_id b = -1;
  bo_single : kind = KIND_LAUNCH_SAMPLED -> b_count b = 1;
}.

(** Every batch that reaches user space is exact. A fire submits at most one
    batch; its header names the kind, the process and thread and the producer's
    sequence number; its byte length is its record count times the record size,
    never more than the reservation holds; its payload is the bytes at the
    producer's pointer, all of them; and a sampled launch travels alone. *)
Theorem gpu_batches_exact cookie ptr count seq ip fp sp w :
  buffers_wf w -> gpu_wf (gpu_of w) -> is_u64 count ->
  let w' := gpu_usdt_batch ev t cpu tgid tid modules cookie ptr count seq ip fp sp w in
  exists bs, rb_events (events (gpu_of w')) = rb_events (events (gpu_of w)) ++ bs /\
    (length bs <= 1)%nat /\ forall b, b ∈ bs -> batch_ok (u32 cookie) ptr count seq b.
Proof using Hhandoff Hmodules.
  intros Hb Hg Hu w'. subst w'.
  assert (Hnil : forall g', rb_events (events g') = rb_events (events (gpu_of w)) ->
    exists bs, rb_events (events g') = rb_events (events (gpu_of w)) ++ bs /\
      (length bs <= 1)%nat /\ forall b, b ∈ bs -> batch_ok (u32 cookie) ptr count seq b).
  { intros g' ->. exists []. rewrite app_nil_r. split_and!; [done|simpl; lia|].
    by intros b ?%not_elem_of_nil. }
  destruct (Z.eqb_spec (record_size (u32 cookie)) 0) as [Hz|Hk].
  { apply Hnil. unfold gpu_usdt_batch. by rewrite Hz. }
  destruct (decide (count = 0)) as [->|Hc].
  { apply Hnil. by rewrite usdt_zero. }
  assert (0 < count) as Hpos by word_lia.
  destruct (after_cap_accounts (u32 cookie) count (gpu_of w) Hk Hu Hg) as ([Hev _] & Hgc & _).
  destruct (known_kind (u32 cookie) Hk) as (Hkr & _). rewrite app_nil_r in Hev.
  destruct (clamped (u32 cookie) count Hk Hpos) as (Hcl & _ & _ & Hby).
  assert (Hle : capped (u32 cookie) count <= count)
    by (unfold capped; destruct (Z.ltb_spec (max_records (u32 cookie)) count); lia).
  fold (capped (u32 cookie) count) in Hcl, Hby.
  destruct (decide (u32 cookie = KIND_LAUNCH_SAMPLED)) as [Hs|Hs].
  - destruct (usdt_sampled cookie ptr count seq ip fp sp w Hs Hu Hpos Hb Hg) as (st & rec & fs & _ & _ & _ & _ & _ & _ & ->).
    rewrite Hs in *. destruct (pending_accounts _ (sampled_pending ptr seq) KIND_LAUNCH_SAMPLED Hgc) as [_ Hgp].
    destruct (emit_sampled_cases ev cpu tgid tid rec (st_n_pcs st) ptr seq _ Hgp (pending_get _ _ Hgc))
      as (bs & [Hbs _] & Hcase). exists bs. split; [rewrite Hbs; simpl; by rewrite Hev|].
    destruct Hcase as [[-> _]|(id & payload & -> & Hread & _)].
    + split; [simpl; lia|]. by intros b ?%not_elem_of_nil.
    + split; [simpl; lia|]. intros b ->%list_elem_of_singleton. split; simpl; try done.
      change (max_records KIND_LAUNCH_SAMPLED) with 1. lia.
  - rewrite usdt_plain by done.
    destruct (emit_plain_cases ev tgid tid (u32 cookie) (capped (u32 cookie) count) seq
      (capped (u32 cookie) count * record_size (u32 cookie)) ptr _ ltac:(lia) ltac:(lia) (gw_dropped _ Hgc))
      as (bs & [Hbs _] & Hone & Hall).
    exists bs. split; [rewrite Hbs; by rewrite Hev|].
    split; [done|]. intros b Hin. destruct (Hall b Hin) as (payload & -> & Hread).
    split; simpl; try done; lia.
Qed.

(** C36: A published stack belongs to one launch. When a sampled launch is
    submitted with a stack id, that id was free, no other published stack
    changed, and the entry under it is the record of the walk made for that
    launch, all its slots, tags and flags, readable as frames; and when the
    launching thread's stack is described by the CFI rows and the frame-pointer
    chain and no interpreter claims a frame of it, those frames are exactly its
    program counters, up to 127. When it is submitted without one, nothing was
    published and exactly one named walk error and one missing stack were
    counted; and a launch that is not submitted publishes nothing. *)
Theorem gpu_stack_belongs_to_launch cookie ptr count seq ip fp sp w :
  buffers_wf w -> gpu_wf (gpu_of w) -> is_u64 count -> 0 < count ->
  u32 cookie = KIND_LAUNCH_SAMPLED ->
  let w' := gpu_usdt_batch ev t cpu tgid tid modules cookie ptr count seq ip fp sp w in
  let g := gpu_of w in
  let g' := gpu_of w' in
  (rb_events (events g') = rb_events (events g) /\ gpu_stacks g' = gpu_stacks g) \/
  exists b, rb_events (events g') = rb_events (events g) ++ [b] /\
    if b_stack_id b <? 0
    then gpu_stacks g' = gpu_stacks g /\
         shifted (stacks_missing g) (stacks_missing g') (only KIND_LAUNCH_SAMPLED) /\
         exists slot, 0 <= slot < WALK_ERR_MAX /\
           shifted (walk_errors g) (walk_errors g') (only slot)
    else gpu_stacks g !! b_stack_id b = None /\ b_stack_id b < 2147483648 /\
         exists s st rec fs, gpu_stacks g' = <[b_stack_id b := s]> (gpu_stacks g) /\
           walk_state_get w' = Some st /\ walk_record_get w' = Some rec /\
           st_pid st = tgid /\ st_tid st = tid /\
           gs_pcs s = rec_pcs rec /\ gs_tags s = rec_tags rec /\
           gs_walker_flags s = flags_of rec /\ gs_n_pcs s = st_n_pcs st /\
           decode (take (Z.to_nat (gs_n_pcs s)) (zip (gs_tags s) (gs_pcs s))) = Some fs /\
           gs_n_pcs s = widths fs /\
           (forall pcs, stack ev t tgid ip fp sp pcs -> Forall (unclaimed t tgid) pcs ->
              fs = Native <$> take 127 pcs) /\
           walk_errors g' = walk_errors g /\ stacks_missing g' = stacks_missing g.
Proof using Hhandoff Hmodules.
  intros Hb Hg Hu Hpos Hs w' g g'.
  destruct (usdt_sampled cookie ptr count seq ip fp sp w Hs Hu Hpos Hb Hg)
    as (st & rec & fs & Hst' & Hrec' & Hpid & Htid & Hh & Hpcs & E).
  destruct (after_cap_accounts KIND_LAUNCH_SAMPLED count (gpu_of w) ltac:(done) Hu Hg)
    as ([Hev _] & Hgc & Hst & Hmi & Her). rewrite app_nil_r in Hev.
  destruct (pending_accounts _ (sampled_pending ptr seq) KIND_LAUNCH_SAMPLED Hgc) as [_ Hgp].
  destruct (emit_sampled_cases ev cpu tgid tid rec (st_n_pcs st) ptr seq _ Hgp (pending_get _ _ Hgc))
    as (bs & [Hbs _] & Hcase). rewrite <- E in Hbs, Hcase. fold w' in Hbs, Hcase. fold g' in Hbs, Hcase.
  simpl in Hbs, Hcase. rewrite Hev in Hbs. destruct Hcase as [[-> Hsame]|(id & payload & -> & _ & Hcap)].
  - left. rewrite app_nil_r in Hbs. split; [done|]. by rewrite Hsame.
  - right. eexists. split; [exact Hbs|]. simpl. unfold captured in Hcap. simpl in Hcap.
    rewrite Hst, Hmi, Her in Hcap. fold g in Hcap. destruct (id <? 0); [done|].
    destruct Hcap as (Hr & Hfree & Hins & Hw & Hm). split_and!; [done|lia|].
    eexists _, st, rec, fs. split; [exact Hins|]. simpl. split_and!; try done.
    + apply Hh.
    + by eapply holds_widths.
Qed.
End fires.

(** Stack ids do not collide. Two captures, on any two of the first 8192
    CPUs, get the same id only if they are on the same CPU and their per-CPU
    sequence numbers agree modulo 2^18; and an id is never negative, so none
    reads as "no stack". *)
Theorem stack_ids_unique c1 n1 c2 n2 :
  0 <= c1 < 8192 -> 0 <= c2 < 8192 ->
  (stack_id c1 n1 = stack_id c2 n2 <-> c1 = c2 /\ n1 mod 262144 = n2 mod 262144) /\
  0 <= stack_id c1 n1 < 2147483648.
Proof.
  intros H1 H2. split; [|apply stack_id_range]. rewrite !stack_id_value, !(Z.mod_small _ 8192) by lia.
  pose proof (Z.mod_pos_bound n1 262144 ltac:(done)). pose proof (Z.mod_pos_bound n2 262144 ltac:(done)).
  split; [nia|]. by intros [-> ->].
Qed.

Lemma stack_ids_unique_witness :
  (stack_id 3 262145 = stack_id 3 1 <-> 3 = 3 /\ 262145 mod 262144 = 1 mod 262144) /\
  0 <= stack_id 3 262145 < 2147483648.
Proof. apply (stack_ids_unique 3 262145 3 1); lia. Defined.

(** ** Concrete fires *)

Definition gpu_demo : gpu_priv :=
  GpuPriv (Ringbuf [] 0) (replicate 16 0) (replicate 16 0) (replicate 4 0) ∅ [GpuStack 0 0 [] []] [0]
          [GpuPending 0 0 0 0 0].
Definition gpu_world : world (driver gpu_priv) py_maps :=
  World [stale_record] [Persist 0 0 0 [] 0 0 0 0 0 0 0] (replicate 7 0) (Drv no_misses gpu_demo) demo_maps.

(** The producer's records live at 0x3000, where the frames of the Python
    process are: any readable memory serves. *)
Lemma gpu_demo_wf : gpu_wf (gpu_of gpu_world).
Proof. by split. Qed.
Lemma gpu_world_wf : buffers_wf gpu_world.
Proof. split; [done|]. intros rec [= <-]. done. Qed.

Lemma gpu_no_silent_loss_witness :
  exists bs, accounts gpu_demo (gpu_of (gpu_usdt_batch demo_ev demo_tables 3 42 43 (py_modules demo_py)
    5 0x3000 7 9 0x1010 0x600 0x500 gpu_world)) (slot_of 5) 7 bs.
Proof.
  apply (gpu_no_silent_loss demo_ev demo_tables 3 42 43 (py_modules demo_py) demo_handoff_wf
           (py_modules_ok demo_py) 5 0x3000 7 9 0x1010 0x600 0x500 gpu_world gpu_world_wf gpu_demo_wf).
  word_lia.
Defined.

Lemma gpu_batches_exact_witness :
  let w' := gpu_usdt_batch demo_ev demo_tables 3 42 43 (py_modules demo_py)
    2 0x3000 2 9 0x1010 0x600 0x500 gpu_world in
  exists bs, rb_events (events (gpu_of w')) = rb_events (events gpu_demo) ++ bs /\
    (length bs <= 1)%nat /\ forall b, b ∈ bs -> batch_ok demo_ev 42 43 (u32 2) 0x3000 2 9 b.
Proof.
  apply (gpu_batches_exact demo_ev demo_tables 3 42 43 (py_modules demo_py) demo_handoff_wf
           (py_modules_ok demo_py) 2 0x3000 2 9 0x1010 0x600 0x500 gpu_world gpu_world_wf gpu_demo_wf).
  word_lia.
Defined.

(** A launch on the four-frame stack of the mixed tables, interpreters on: the
    published stack is its four program counters. *)
Definition native_world : world (driver gpu_priv) unit :=
  World [stale_record] [Persist 0 0 0 [] 0 0 0 0 0 0 0] (replicate 7 0) (Drv no_misses gpu_demo) tt.
Definition native_env : env :=
  Env (fun a => if (0x3000 <=? a) && (a <? 0x4000) then Some 0 else e_mem mixed_env a) (fun _ => 0) (fun _ => true)
      (fun _ => true) (fun m _ _ => m).
Lemma native_stack : stack native_env mixed_tables 42 0x1010 0x600 0x500 mixed_pcs.
Proof. apply mixed_stack_in. unfold mixed_words. repeat constructor. Qed.

Lemma gpu_stack_belongs_to_launch_witness :
  let g' := gpu_of (gpu_usdt_batch native_env mixed_tables 3 42 43 (fun _ => None)
    5 0x3000 1 9 0x1010 0x600 0x500 native_world) in
  exists b s, rb_events (events g') = [b] /\ b_stack_id b = 786433 /\ gpu_stacks g' = <[786433 := s]> ∅ /\
    decode (take (Z.to_nat (gs_n_pcs s)) (zip (gs_tags s) (gs_pcs s))) =
      Some [Native 0x1010; Native 0x200; Native 0x300; Native 0x400].
Proof.
  intros g'.
  destruct (gpu_stack_belongs_to_launch native_env mixed_tables 3 42 43 (fun _ => None) mixed_handoff_wf
           ltac:(done) 5 0x3000 1 9 0x1010 0x600 0x500 native_world ltac:(split; [done|]; by intros rec [= <-])
           ltac:(by split) ltac:(word_lia) ltac:(done) eq_refl) as [[He _]|(b & He & Hb)].
  - vm_compute in He. discriminate.
  - assert (Hid : b_stack_id b = 786433) by (vm_compute in He; injection He as <-; vm_compute; reflexivity).
    rewrite Hid in Hb. cbn [Z.ltb Z.compare] in Hb.
    destruct Hb as (_ & _ & s & st & rec & fs & Hs & _ & _ & _ & _ & _ & _ & _ & _ & Hd & _ & Hp & _).
    exists b, s. split; [exact He|]. split; [exact Hid|]. split; [exact Hs|].
    rewrite Hd. f_equal. exact (Hp mixed_pcs native_stack mixed_unclaimed).
Defined.

(** Evaluated: the launch arrives with the two-segment Python stack. *)
Example gpu_demo_fire :
  let g := gpu_of (gpu_usdt_batch demo_ev demo_tables 3 42 43 (py_modules demo_py)
    5 0x3000 1 9 0x1010 0x600 0x500 gpu_world) in
  b_stack_id <$> rb_events (events g) = [786433] /\
  (fun s => (gs_n_pcs s, take 7 (gs_tags s))) <$> gpu_stacks g !! 786433 = Some (7, [0; 1; 1; 0; 1; 1; 0]).
Proof. vm_compute. done. Qed.
