(* ===== verification/Abi.v ===== *)
(** * Abi: the GPU record layouts and their decoder

    Models src/shim/core/usdt_abi.h (the ten records the shim hands to its
    probes), the header src/bpf/gpu_usdt.bpf.c puts before them, and the
    consumer that reads both back by hard-coded offset:
    src/internal/gpuabi/records.go and [decodeBatch] of
    src/gpuprobe/consumer.go.  A record is laid out by the C rules, alignment
    and padding included; the layout turns out to have no padding, and the size
    the BPF program assumes for the probe.  The theorems are that the consumer
    reads back what the shim wrote, and what it makes of any other bytes. *)
From S2P Require Import Prelude Bpf Record Tables Walker Driver Sampling Python GpuUsdt.

(** ** Laying out a C struct

    The fields of a struct in declaration order: an unsigned integer of [w]
    bytes, or an array of [n] bytes.  Every integer is naturally aligned on
    both target architectures. *)

Inductive cfield :=
| FInt (w : nat) (v : Z)
| FBytes (n : nat) (bs : list Z).

Definition fsize (f : cfield) : nat := match f with FInt w _ => w | FBytes n _ => n end.
Definition falign (f : cfield) : nat := match f with FInt w _ => w | FBytes _ _ => 1 end.

Fixpoint le_encode (n : nat) (v : Z) : list Z :=
  match n with O => [] | S n' => u8 v :: le_encode n' (v / 256) end.

Definition fbytes (f : cfield) : list Z :=
  match f with FInt w v => le_encode w v | FBytes n bs => resize n 0 bs end.

(** Bytes the compiler inserts before a field of alignment [a] at [off]. *)
Definition pad_before (off a : nat) : nat := ((a - off mod a) mod a)%nat.

Definition struct_align (fs : list cfield) : nat := foldr (fun f a => Nat.max (falign f) a) 1%nat fs.

(** The object's bytes from offset [off] on; inserted padding is indeterminate
    and given here by [junk]. *)
Fixpoint layout_from (junk : nat -> Z) (al off : nat) (fs : list cfield) : list Z :=
  match fs with
  | [] => map junk (seq off (pad_before off al))
  | f :: fs' =>
      let p := pad_before off (falign f) in
      map junk (seq off p) ++ fbytes f ++ layout_from junk al (off + p + fsize f) fs'
  end.

Definition layout (junk : nat -> Z) (fs : list cfield) : list Z :=
  layout_from junk (struct_align fs) 0 fs.

(** ** The records of usdt_abi.h *)

Definition GPU_KERNEL_NAME_MAX : nat := 256.
Definition GPU_STALL_NAME_MAX : nat := 128.
Definition GPU_DROP_CLASS_INVALID : Z := 0.
Definition GPU_DROP_CLASS_PC_DROPPED_HW : Z := 1.
Definition GPU_DROP_CLASS_PC_BUFFER_FULL : Z := 2.
Definition GPU_DROP_CLASS_PC_NON_USER_KERNEL : Z := 3.
Definition GPU_DROP_CLASS_GRAPH_EXEC : Z := 4.
Definition GPU_SAMPLING_MODE_CONTINUOUS : Z := 1.
Definition GPU_SAMPLING_MODE_KERNEL_SERIALIZED : Z := 2.

Record gpu_launch_v1 := GpuLaunch {
  l_correlation : Z; l_kernel_id : Z; l_queue_id : Z; l_context_id : Z; l_time_ns : Z;
  l_tid : Z; l_pad : Z;
}.
Record gpu_exec_v1 := GpuExec {
  x_correlation : Z; x_kernel_id : Z; x_queue_id : Z; x_device_id : Z; x_start_ns : Z; x_end_ns : Z;
}.
Record gpu_module_load_v1 := GpuModuleLoad {
  m_cubin_crc : Z; m_module_id : Z; m_size_bytes : Z; m_load_ns : Z; m_bytes_ptr : Z;
}.
Record gpu_pc_sample_batch_v1 := GpuPcSample {
  p_cubin_crc : Z; p_correlation : Z; p_pc_offset : Z; p_function_index : Z; p_stall_index : Z;
  p_count : Z; p_pad : Z;
}.
Record gpu_config_v1 := GpuConfig {
  c_clock_hz : Z; c_sampling_factor : Z; c_sm_count : Z; c_vendor : Z; c_pad : list Z;
}.
Record gpu_dropped_v1 := GpuDropped { d_count : Z; d_klass : Z; d_pad : list Z }.
Record gpu_launch_sampled_v1 := GpuLaunchSampled {
  s_correlation : Z; s_kernel_id : Z; s_queue_id : Z; s_context_id : Z; s_time_ns : Z;
  s_tid : Z; s_sample_period : Z; s_launch_seq : Z;
}.
Record gpu_kernel_name_v1 := GpuKernelName {
  k_kernel_id : Z; k_name_len : Z; k_truncated : Z; k_pad : list Z; k_name : list Z;
}.
Record gpu_stall_reason_map_v1 := GpuStallReason {
  r_index : Z; r_name_len : Z; r_truncated : Z; r_pad : Z; r_name : list Z;
}.
Record gpu_sampling_window_v1 := GpuSamplingWindow {
  w_start_ns : Z; w_end_ns : Z; w_mode : Z; w_pad : list Z; w_next_start_delta_ms : Z;
}.

(** A record of any probe. *)
Inductive gpu_record :=
| RLaunch (r : gpu_launch_v1)
| RExec (r : gpu_exec_v1)
| RModule (r : gpu_module_load_v1)
| RPc (r : gpu_pc_sample_batch_v1)
| RLaunchSampled (r : gpu_launch_sampled_v1)
| RKernelName (r : gpu_kernel_name_v1)
| RStallMap (r : gpu_stall_reason_map_v1)
| RSamplingWindow (r : gpu_sampling_window_v1)
| RConfig (r : gpu_config_v1)
| RDropped (r : gpu_dropped_v1).

(** The attach cookie of the probe named after the record. *)
Definition kind_of (r : gpu_record) : Z :=
  match r with
  | RLaunch _ => KIND_LAUNCH
  | RExec _ => KIND_EXEC
  | RModule _ => KIND_MODULE
  | RPc _ => KIND_PC
  | RLaunchSampled _ => KIND_LAUNCH_SAMPLED
  | RKernelName _ => KIND_KERNEL_NAME
  | RStallMap _ => KIND_STALL_MAP
  | RSamplingWindow _ => KIND_SAMPLING_WINDOW
  | RConfig _ => KIND_CONFIG
  | RDropped _ => KIND_DROPPED
  end.

Definition fields_of (r : gpu_record) : list cfield :=
  match r with
  | RLaunch (GpuLaunch a b c d e f p) =>
      [FInt 8 a; FInt 8 b; FInt 8 c; FInt 8 d; FInt 8 e; FInt 4 f; FInt 4 p]
  | RExec (GpuExec a b c d e f) => [FInt 8 a; FInt 8 b; FInt 8 c; FInt 8 d; FInt 8 e; FInt 8 f]
  | RModule (GpuModuleLoad a b c d e) => [FInt 8 a; FInt 8 b; FInt 8 c; FInt 8 d; FInt 8 e]
  | RPc (GpuPcSample a b c d e f p) =>
      [FInt 8 a; FInt 8 b; FInt 8 c; FInt 4 d; FInt 4 e; FInt 4 f; FInt 4 p]
  | RLaunchSampled (GpuLaunchSampled a b c d e f g h) =>
      [FInt 8 a; FInt 8 b; FInt 8 c; FInt 8 d; FInt 8 e; FInt 4 f; FInt 4 g; FInt 8 h]
  | RKernelName (GpuKernelName a b c p n) =>
      [FInt 8 a; FInt 2 b; FInt 1 c; FBytes 5 p; FBytes GPU_KERNEL_NAME_MAX n]
  | RStallMap (GpuStallReason a b c p n) =>
      [FInt 4 a; FInt 2 b; FInt 1 c; FInt 1 p; FBytes GPU_STALL_NAME_MAX n]
  | RSamplingWindow (GpuSamplingWindow a b c p d) =>
      [FInt 8 a; FInt 8 b; FInt 1 c; FBytes 3 p; FInt 4 d]
  | RConfig (GpuConfig a b c d p) => [FInt 8 a; FInt 4 b; FInt 4 c; FInt 1 d; FBytes 7 p]
  | RDropped (GpuDropped a b p) => [FInt 8 a; FInt 1 b; FBytes 7 p]
  end.

(** Every member holds a value of its type. *)
Definition fwf (f : cfield) : Prop :=
  match f with
  | FInt w v => 0 <= v < 256 ^ Z.of_nat w
  | FBytes n bs => length bs = n /\ Forall is_u8 bs
  end.
#[global] Instance is_u8_dec z : Decision (is_u8 z).
Proof. unfold is_u8. apply _. Defined.
#[global] Instance fwf_dec f : Decision (fwf f).
Proof. destruct f; cbn [fwf]; apply _. Defined.
Definition record_wf (r : gpu_record) : Prop := Forall fwf (fields_of r).

#[global] Instance record_wf_dec r : Decision (record_wf r).
Proof. unfold record_wf. apply _. Defined.

(** The record in memory. *)
Definition encode (junk : nat -> Z) (r : gpu_record) : list Z := layout junk (fields_of r).

(** ** The consumer's records (records.go) *)

Record Launch := MkLaunch {
  Correlation : Z; KernelID : Z; QueueID : Z; ContextID : Z; TimeNs : Z; TID : Z;
}.
Record Exec := MkExec {
  ex_Correlation : Z; ex_KernelID : Z; ex_QueueID : Z; ex_DeviceID : Z; ex_StartNs : Z; ex_EndNs : Z;
}.
Record ModuleLoad := MkModuleLoad {
  ml_CubinCRC : Z; ml_ModuleID : Z; ml_SizeBytes : Z; ml_LoadNs : Z; ml_BytesPtr : Z;
}.
Record PCSample := MkPCSample {
  pc_CubinCRC : Z; pc_Correlation : Z; pc_PCOffset : Z; pc_FunctionIndex : Z; pc_StallIndex : Z;
  pc_Count : Z;
}.
Record Dropped := MkDropped { dr_Count : Z; dr_Class : Z }.
Record Config := MkConfig { cf_ClockHz : Z; cf_SamplingFactor : Z; cf_SMCount : Z; cf_Vendor : Z }.
Record StallReason := MkStallReason { sr_Index : Z; sr_Name : list Z; sr_Truncated : bool }.
Record SamplingWindow := MkSamplingWindow {
  sw_StartNs : Z; sw_EndNs : Z; sw_Mode : Z; sw_NextStartDeltaMs : Z;
}.
Record LaunchSampled := MkLaunchSampled {
  ls_Correlation : Z; ls_KernelID : Z; ls_QueueID : Z; ls_ContextID : Z; ls_TimeNs : Z;
  ls_TID : Z; ls_SamplePeriod : Z; ls_LaunchSeq : Z;
}.
Record KernelName := MkKernelName { kn_KernelID : Z; kn_Name : list Z; kn_Truncated : bool }.

Inductive abi_err :=
| ErrShortRecord
| ErrInvalidSamplePeriod
| ErrWindowInverted (start end_ : Z)
| ErrNameLength (n max : Z)
| ErrSampledBatchNotSingular (count : Z)
| ErrPayloadClaim (nbytes has : Z).

(** Go's [(value, error)]. *)
Inductive result (A : Type) := Ok (a : A) | Err (e : abi_err).
Arguments Ok {A}.
Arguments Err {A}.
#[global] Instance result_ret : MRet result := @Ok.
#[global] Instance result_bind : MBind result := fun A B f m =>
  match m with Ok a => f a | Err e => Err e end.
#[global] Instance result_fmap : FMap result := fun A B f m =>
  match m with Ok a => Ok (f a) | Err e => Err e end.

Definition SizeLaunch : nat := 48.
Definition SizeExec : nat := 48.
Definition SizeModuleLoad : nat := 40.
Definition SizePCSample : nat := 40.
Definition SizeConfig : nat := 24.
Definition SizeDropped : nat := 16.
Definition SizeLaunchSampled : nat := 56.
Definition SizeKernelName : nat := 272.
Definition SizeStallReason : nat := 136.
Definition SizeSamplingWindow : nat := 24.
Definition GPUKernelNameMax : Z := 256.
Definition GPUStallNameMax : Z := 128.

(** [le.Uint64(b[off:])] and the like; callers have checked the length. *)
Definition le_at (n off : nat) (b : list Z) : Z := le_decode (take n (drop off b)).
Definition Uint64 (b : list Z) (off : nat) : Z := le_at 8 off b.
Definition Uint32 (b : list Z) (off : nat) : Z := le_at 4 off b.
Definition Uint16 (b : list Z) (off : nat) : Z := le_at 2 off b.
Definition byte_at (b : list Z) (off : nat) : Z := le_at 1 off b.

Definition DecodeLaunch (b : list Z) : result Launch :=
  if (length b <? SizeLaunch)%nat then Err ErrShortRecord
  else Ok (MkLaunch (Uint64 b 0) (Uint64 b 8) (Uint64 b 16) (Uint64 b 24) (Uint64 b 32) (Uint32 b 40)).

Definition DecodeExec (b : list Z) : result Exec :=
  if (length b <? SizeExec)%nat then Err ErrShortRecord
  else Ok (MkExec (Uint64 b 0) (Uint64 b 8) (Uint64 b 16) (Uint64 b 24) (Uint64 b 32) (Uint64 b 40)).

Definition DecodeModuleLoad (b : list Z) : result ModuleLoad :=
  if (length b <? SizeModuleLoad)%nat then Err ErrShortRecord
  else Ok (MkModuleLoad (Uint64 b 0) (Uint64 b 8) (Uint64 b 16) (Uint64 b 24) (Uint64 b 32)).

Definition DecodePCSample (b : list Z) : result PCSample :=
  if (length b <? SizePCSample)%nat then Err ErrShortRecord
  else Ok (MkPCSample (Uint64 b 0) (Uint64 b 8) (Uint64 b 16) (Uint32 b 24) (Uint32 b 28) (Uint32 b 32)).

Definition DecodeConfig (b : list Z) : result Config :=
  if (length b <? SizeConfig)%nat then Err ErrShortRecord
  else Ok (MkConfig (Uint64 b 0) (Uint32 b 8) (Uint32 b 12) (byte_at b 16)).

Definition DecodeStallReason (b : list Z) : result StallReason :=
  if (length b <? SizeStallReason)%nat then Err ErrShortRecord
  else
    let n := Uint16 b 4 in
    if GPUStallNameMax <? n then Err (ErrNameLength n GPUStallNameMax)
    else Ok (MkStallReason (Uint32 b 0) (take (Z.to_nat n) (drop 8 b)) (negb (byte_at b 6 =? 0))).

Definition DecodeSamplingWindow (b : list Z) : result SamplingWindow :=
  if (length b <? SizeSamplingWindow)%nat then Err ErrShortRecord
  else
    let start := Uint64 b 0 in
    let end_ := Uint64 b 8 in
    let delta := if end_ =? 0 then 0 else Uint32 b 20 in
    if negb (end_ =? 0) && (end_ <? start) then Err (ErrWindowInverted start end_)
    else Ok (MkSamplingWindow start end_ (byte_at b 16) delta).

Definition DecodeDropped (b : list Z) : result Dropped :=
  if (length b <? SizeDropped)%nat then Err ErrShortRecord
  else Ok (MkDropped (Uint64 b 0) (byte_at b 8)).

Definition DecodeLaunchSampled (b : list Z) : result LaunchSampled :=
  if (length b <? SizeLaunchSampled)%nat then Err ErrShortRecord
  else
    let period := Uint32 b 44 in
    if period =? 0 then Err ErrInvalidSamplePeriod
    else Ok (MkLaunchSampled (Uint64 b 0) (Uint64 b 8) (Uint64 b 16) (Uint64 b 24) (Uint64 b 32)
               (Uint32 b 40) period (Uint64 b 48)).

Definition DecodeKernelName (b : list Z) : result KernelName :=
  if (length b <? SizeKernelName)%nat then Err ErrShortRecord
  else
    let n := Uint16 b 8 in
    if GPUKernelNameMax <? n then Err (ErrNameLength n GPUKernelNameMax)
    else Ok (MkKernelName (Uint64 b 0) (take (Z.to_nat n) (drop 16 b)) (negb (byte_at b 10 =? 0))).

(** ** [decodeBatch] (consumer.go) *)

Definition batchHdrSize : nat := 40.

Record go_batch := GoBatch {
  Kind : Z; Seq : Z; PID : Z; BTID : Z; RawCount : Z; StackID : Z;
  Launches : list Launch;
  Execs : list Exec;
  SampledLaunches : list LaunchSampled;
  KernelNames : list KernelName;
  Modules : list ModuleLoad;
  PCSamples : list PCSample;
  StallReasons : list StallReason;
  SamplingWindows : list SamplingWindow;
  Configs : list Config;
  Drops : list Dropped;
}.

(** [for i := 0; i < count; i++ { rec, err := dec(payload[i*size:]); ... }] *)
Definition decode_all {A} (dec : list Z -> result A) (size count : nat) (payload : list Z)
  : result (list A) :=
  mapM (fun i => dec (drop (i * size) payload)) (seq 0 count).

(** One arm of the switch: the check that the payload holds [count] records,
    and the loop. *)
Definition decode_slice {A} (dec : list Z -> result A) (size : nat) (count : Z) (payload : list Z)
  : result (list A) :=
  if Z.of_nat (length payload) / Z.of_nat size <? count then Err ErrShortRecord
  else decode_all dec size (Z.to_nat count) payload.

Definition decodeBatch (b : list Z) : result go_batch :=
  if (length b <? batchHdrSize)%nat then Err ErrShortRecord
  else
    let kind := Uint32 b 0 in
    let count := Uint32 b 4 in
    let nbytes := s64 (Uint64 b 24) in
    let payload := drop batchHdrSize b in
    if (nbytes <? 0) || (Z.of_nat (length payload) <? nbytes)
    then Err (ErrPayloadClaim nbytes (Z.of_nat (length payload)))
    else
      let payload := take (Z.to_nat nbytes) payload in
      let out := GoBatch kind (Uint64 b 8) (Uint32 b 16) (Uint32 b 20) count (s32 (Uint32 b 32)) in
      if kind =? KIND_LAUNCH then
        (fun x => out x [] [] [] [] [] [] [] [] []) <$> decode_slice DecodeLaunch SizeLaunch count payload
      else if kind =? KIND_EXEC then
        (fun x => out [] x [] [] [] [] [] [] [] []) <$> decode_slice DecodeExec SizeExec count payload
      else if kind =? KIND_MODULE then
        (fun x => out [] [] [] [] x [] [] [] [] [])
          <$> decode_slice DecodeModuleLoad SizeModuleLoad count payload
      else if kind =? KIND_PC then
        (fun x => out [] [] [] [] [] x [] [] [] [])
          <$> decode_slice DecodePCSample SizePCSample count payload
      else if kind =? KIND_LAUNCH_SAMPLED then
        if negb (count =? 1) then Err (ErrSampledBatchNotSingular count)
        else (fun x => out [] [] x [] [] [] [] [] [] [])
          <$> decode_slice DecodeLaunchSampled SizeLaunchSampled count payload
      else if kind =? KIND_KERNEL_NAME then
        (fun x => out [] [] [] x [] [] [] [] [] [])
          <$> decode_slice DecodeKernelName SizeKernelName count payload
      else if kind =? KIND_STALL_MAP then
        (fun x => out [] [] [] [] [] [] x [] [] [])
          <$> decode_slice DecodeStallReason SizeStallReason count payload
      else if kind =? KIND_SAMPLING_WINDOW then
        (fun x => out [] [] [] [] [] [] [] x [] [])
          <$> decode_slice DecodeSamplingWindow SizeSamplingWindow count payload
      else if kind =? KIND_CONFIG then
        (fun x => out [] [] [] [] [] [] [] [] x [])
          <$> decode_slice DecodeConfig SizeConfig count payload
      else if kind =? KIND_DROPPED then
        (fun x => out [] [] [] [] [] [] [] [] [] x)
          <$> decode_slice DecodeDropped SizeDropped count payload
      else Ok (out [] [] [] [] [] [] [] [] [] []).

(** The bytes of a submitted batch: struct batch_hdr, the payload, and
    whatever the rest of the fixed-size reservation holds. *)
Definition batch_hdr_fields (b : batch) : list cfield :=
  [FInt 4 (b_kind b); FInt 4 (b_count b); FInt 8 (b_seq b); FInt 4 (b_pid b); FInt 4 (b_tid b);
   FInt 8 (b_bytes b); FInt 4 (u32 (b_stack_id b)); FInt 4 0].

Definition batch_msg (junk : nat -> Z) (b : batch) (rest : list Z) : list Z :=
  layout junk (batch_hdr_fields b) ++ b_payload b ++ rest.

(** ** What a record says to the consumer

    The specification of the decoder, on records instead of bytes: which
    fields survive, and which records are refused. *)

Inductive go_record :=
| GLaunch (r : Launch)
| GExec (r : Exec)
| GModule (r : ModuleLoad)
| GPc (r : PCSample)
| GLaunchSampled (r : LaunchSampled)
| GKernelName (r : KernelName)
| GStallMap (r : StallReason)
| GSamplingWindow (r : SamplingWindow)
| GConfig (r : Config)
| GDropped (r : Dropped).

Definition view_launch (r : gpu_launch_v1) : result Launch :=
  Ok (MkLaunch (l_correlation r) (l_kernel_id r) (l_queue_id r) (l_context_id r) (l_time_ns r) (l_tid r)).
Definition view_exec (r : gpu_exec_v1) : result Exec :=
  Ok (MkExec (x_correlation r) (x_kernel_id r) (x_queue_id r) (x_device_id r) (x_start_ns r) (x_end_ns r)).
Definition view_module (r : gpu_module_load_v1) : result ModuleLoad :=
  Ok (MkModuleLoad (m_cubin_crc r) (m_module_id r) (m_size_bytes r) (m_load_ns r) (m_bytes_ptr r)).
Definition view_pc (r : gpu_pc_sample_batch_v1) : result PCSample :=
  Ok (MkPCSample (p_cubin_crc r) (p_correlation r) (p_pc_offset r) (p_function_index r)
        (p_stall_index r) (p_count r)).
Definition view_launch_sampled (r : gpu_launch_sampled_v1) : result LaunchSampled :=
  if s_sample_period r =? 0 then Err ErrInvalidSamplePeriod
  else Ok (MkLaunchSampled (s_correlation r) (s_kernel_id r) (s_queue_id r) (s_context_id r)
             (s_time_ns r) (s_tid r) (s_sample_period r) (s_launch_seq r)).
Definition view_kernel_name (r : gpu_kernel_name_v1) : result KernelName :=
  if 256 <? k_name_len r then Err (ErrNameLength (k_name_len r) 256)
  else Ok (MkKernelName (k_kernel_id r) (take (Z.to_nat (k_name_len r)) (k_name r))
             (negb (k_truncated r =? 0))).
Definition view_stall (r : gpu_stall_reason_map_v1) : result StallReason :=
  if 128 <? r_name_len r then Err (ErrNameLength (r_name_len r) 128)
  else Ok (MkStallReason (r_index r) (take (Z.to_nat (r_name_len r)) (r_name r))
             (negb (r_truncated r =? 0))).
(** A window that is still open (end 0) promises nothing about the next one. *)
Definition view_window (r : gpu_sampling_window_v1) : result SamplingWindow :=
  if w_end_ns r =? 0 then Ok (MkSamplingWindow (w_start_ns r) 0 (w_mode r) 0)
  else if w_end_ns r <? w_start_ns r then Err (ErrWindowInverted (w_start_ns r) (w_end_ns r))
  else Ok (MkSamplingWindow (w_start_ns r) (w_end_ns r) (w_mode r) (w_next_start_delta_ms r)).
Definition view_config (r : gpu_config_v1) : result Config :=
  Ok (MkConfig (c_clock_hz r) (c_sampling_factor r) (c_sm_count r) (c_vendor r)).
Definition view_dropped (r : gpu_dropped_v1) : result Dropped := Ok (MkDropped (d_count r) (d_klass r)).

Definition go_view (r : gpu_record) : result go_record :=
  match r with
  | RLaunch r => GLaunch <$> view_launch r
  | RExec r => GExec <$> view_exec r
  | RModule r => GModule <$> view_module r
  | RPc r => GPc <$> view_pc r
  | RLaunchSampled r => GLaunchSampled <$> view_launch_sampled r
  | RKernelName r => GKernelName <$> view_kernel_name r
  | RStallMap r => GStallMap <$> view_stall r
  | RSamplingWindow r => GSamplingWindow <$> view_window r
  | RConfig r => GConfig <$> view_config r
  | RDropped r => GDropped <$> view_dropped r
  end.

(** The decoded batch that holds the given records, each in the slice of its
    type. *)
Definition go_batch_of (b : batch) (xs : list go_record) : go_batch :=
  GoBatch (b_kind b) (b_seq b) (b_pid b) (b_tid b) (b_count b) (b_stack_id b)
    (omap (fun x => match x with GLaunch r => Some r | _ => None end) xs)
    (omap (fun x => match x with GExec r => Some r | _ => None end) xs)
    (omap (fun x => match x with GLaunchSampled r => Some r | _ => None end) xs)
    (omap (fun x => match x with GKernelName r => Some r | _ => None end) xs)
    (omap (fun x => match x with GModule r => Some r | _ => None end) xs)
    (omap (fun x => match x with GPc r => Some r | _ => None end) xs)
    (omap (fun x => match x with GStallMap r => Some r | _ => None end) xs)
    (omap (fun x => match x with GSamplingWindow r => Some r | _ => None end) xs)
    (omap (fun x => match x with GConfig r => Some r | _ => None end) xs)
    (omap (fun x => match x with GDropped r => Some r | _ => None end) xs).

(** ** Bytes *)

Lemma le_encode_length n v : length (le_encode n v) = n.
Proof. revert v. induction n as [|n IH]; intros v; simpl; [done|by rewrite IH]. Qed.

Lemma le_decode_encode n v : le_decode (le_encode n v) = v mod 256 ^ Z.of_nat n.
Proof.
  revert v. induction n as [|n IH]; intros v; [by rewrite Z.mod_1_r|].
  change (u8 (u8 v) + 256 * le_decode (le_encode n (v / 256)) = v mod 256 ^ Z.of_nat (S n)).
  rewrite IH, Nat2Z.inj_succ, Z.pow_succ_r, (u8_small _ (u8_range v)) by lia.
  rewrite Z.rem_mul_r by lia. unfold u8. lia.
Qed.

Lemma le_at_here n v b : 0 <= v < 256 ^ Z.of_nat n -> le_at n 0 (le_encode n v ++ b) = v.
Proof.
  intros Hv. unfold le_at. rewrite drop_0, take_app_length' by (by rewrite le_encode_length).
  rewrite le_decode_encode. by apply Z.mod_small.
Qed.

(** Reading past the fields before. *)
Lemma drop_skip (k off : nat) (a b : list Z) :
  length a = k -> (k <= off)%nat -> drop off (a ++ b) = drop (off - k) b.
Proof. intros <- H. rewrite drop_app, drop_ge by lia. done. Qed.

Lemma fbytes_length f : length (fbytes f) = fsize f.
Proof. destruct f; [apply le_encode_length|apply length_resize]. Qed.

Definition flat (fs : list cfield) : list Z := concat (map fbytes fs).
Definition fsizes (fs : list cfield) : nat := foldr (fun f n => (fsize f + n)%nat) 0%nat fs.

Lemma flat_length fs : length (flat fs) = fsizes fs.
Proof.
  induction fs as [|f fs IH]; [done|]. unfold flat in *. simpl.
  by rewrite length_app, IH, fbytes_length.
Qed.

(** No field, and not the end, needs padding. *)
Fixpoint packed_from (al off : nat) (fs : list cfield) : bool :=
  match fs with
  | [] => (pad_before off al =? 0)%nat
  | f :: fs' => (pad_before off (falign f) =? 0)%nat && packed_from al (off + fsize f) fs'
  end.
Definition packed (fs : list cfield) : bool := packed_from (struct_align fs) 0 fs.

Lemma layout_packed junk fs : packed fs = true -> layout junk fs = flat fs.
Proof.
  unfold layout, packed. generalize (struct_align fs) as al, 0%nat as off. intros al.
  induction fs as [|f fs IH]; intros off; simpl.
  - intros ->%Nat.eqb_eq. done.
  - intros [Hp Hr]%andb_true_iff. apply Nat.eqb_eq in Hp. rewrite Hp, Nat.add_0_r. simpl.
    unfold flat in *. simpl. by rewrite IH.
Qed.

Lemma record_packed r : packed (fields_of r) = true.
Proof. by destruct r as [[]|[]|[]|[]|[]|[]|[]|[]|[]|[]]. Qed.

Lemma encode_flat junk r : encode junk r = flat (fields_of r).
Proof. apply layout_packed, record_packed. Qed.

Lemma encode_length junk r : length (encode junk r) = Z.to_nat (record_size (kind_of r)).
Proof.
  rewrite encode_flat, flat_length. by destruct r as [[]|[]|[]|[]|[]|[]|[]|[]|[]|[]].
Qed.

(** ** Decoding one record *)

(** The field that starts at [off] in a struct without padding. *)
Fixpoint field_at (off : nat) (fs : list cfield) : option cfield :=
  match fs with
  | [] => None
  | f :: fs' => if (off =? 0)%nat then Some f
                else if (off <? fsize f)%nat then None else field_at (off - fsize f) fs'
  end.

Lemma drop_field off fs f rest :
  field_at off fs = Some f -> exists fs', drop off (flat fs ++ rest) = fbytes f ++ flat fs' ++ rest.
Proof.
  revert off. induction fs as [|g fs IH]; intros off; simpl; [done|].
  unfold flat. simpl. rewrite <- app_assoc. destruct (Nat.eqb_spec off 0) as [->|].
  - intros [= ->]. by exists fs.
  - destruct (Nat.ltb_spec off (fsize g)); [done|]. intros (fs' & E)%IH. exists fs'.
    rewrite (drop_skip (fsize g)) by (apply fbytes_length || lia). exact E.
Qed.

Lemma field_at_wf off fs f : Forall fwf fs -> field_at off fs = Some f -> fwf f.
Proof.
  intros Hwf. revert off. induction Hwf as [|g fs Hg _ IH]; intros off; simpl; [done|].
  destruct (off =? 0)%nat; [by intros [= ->]|]. destruct (off <? fsize g)%nat; [done|apply IH].
Qed.

Lemma read_int off fs w v rest :
  Forall fwf fs -> field_at off fs = Some (FInt w v) -> le_at w off (flat fs ++ rest) = v.
Proof.
  intros Hwf Hf. destruct (drop_field off fs _ rest Hf) as [fs' E]. unfold le_at. rewrite E.
  apply le_at_here. exact (field_at_wf off fs _ Hwf Hf).
Qed.

Lemma read_bytes off n m fs bs rest :
  Forall fwf fs -> field_at off fs = Some (FBytes m bs) -> (n <= m)%nat ->
  take n (drop off (flat fs ++ rest)) = take n bs.
Proof.
  intros Hwf Hf Hn. destruct (drop_field off fs _ rest Hf) as [fs' ->].
  destruct (field_at_wf off fs _ Hwf Hf) as [Hl _]. simpl.
  rewrite resize_all_alt by lia. by rewrite take_app_le by lia.
Qed.

(** Reads of the integer members of a laid-out record. *)
Ltac read_fields Hwf :=
  unfold Uint64, Uint32, Uint16, byte_at;
  repeat (erewrite read_int; [|exact Hwf|reflexivity]).

Lemma enough_bytes fs rest n : fsizes fs = n -> (length (flat fs ++ rest) <? n)%nat = false.
Proof. intros <-. apply Nat.ltb_ge. rewrite length_app, flat_length. lia. Qed.

Ltac decode_record r Hwf :=
  intros Hwf; rewrite encode_flat; unfold record_wf in Hwf; destruct r;
  rewrite enough_bytes by done; read_fields Hwf.

Section decode.
  Context (junk : nat -> Z) (rest : list Z).

Lemma decode_launch r :
  record_wf (RLaunch r) -> DecodeLaunch (encode junk (RLaunch r) ++ rest) = view_launch r.
Proof. unfold DecodeLaunch. by decode_record r Hwf. Qed.

Lemma decode_exec r :
  record_wf (RExec r) -> DecodeExec (encode junk (RExec r) ++ rest) = view_exec r.
Proof. unfold DecodeExec. by decode_record r Hwf. Qed.

Lemma decode_module r :
  record_wf (RModule r) -> DecodeModuleLoad (encode junk (RModule r) ++ rest) = view_module r.
Proof. unfold DecodeModuleLoad. by decode_record r Hwf. Qed.

Lemma decode_pc r :
  record_wf (RPc r) -> DecodePCSample (encode junk (RPc r) ++ rest) = view_pc r.
Proof. unfold DecodePCSample. by decode_record r Hwf. Qed.

Lemma decode_launch_sampled r :
  record_wf (RLaunchSampled r) ->
  DecodeLaunchSampled (encode junk (RLaunchSampled r) ++ rest) = view_launch_sampled r.
Proof. unfold DecodeLaunchSampled. by decode_record r Hwf. Qed.

Lemma decode_kernel_name r :
  record_wf (RKernelName r) ->
  DecodeKernelName (encode junk (RKernelName r) ++ rest) = view_kernel_name r.
Proof.
  unfold DecodeKernelName, GPUKernelNameMax. decode_record r Hwf. unfold view_kernel_name.
  cbn [k_name_len k_name k_kernel_id k_truncated].
  destruct (Z.ltb_spec 256 k_name_len0); [done|]. erewrite read_bytes; [done|exact Hwf|reflexivity|].
  change GPU_KERNEL_NAME_MAX with (Z.to_nat 256). lia.
Qed.

Lemma decode_stall r :
  record_wf (RStallMap r) -> DecodeStallReason (encode junk (RStallMap r) ++ rest) = view_stall r.
Proof.
  unfold DecodeStallReason, GPUStallNameMax. decode_record r Hwf. unfold view_stall.
  cbn [r_name_len r_name r_index r_truncated].
  destruct (Z.ltb_spec 128 r_name_len0); [done|]. erewrite read_bytes; [done|exact Hwf|reflexivity|].
  change GPU_STALL_NAME_MAX with (Z.to_nat 128). lia.
Qed.

Lemma decode_window r :
  record_wf (RSamplingWindow r) ->
  DecodeSamplingWindow (encode junk (RSamplingWindow r) ++ rest) = view_window r.
Proof.
  unfold DecodeSamplingWindow. decode_record r Hwf. unfold view_window. simpl.
  destruct (Z.eqb_spec w_end_ns0 0) as [->|]; done.
Qed.

Lemma decode_config r :
  record_wf (RConfig r) -> DecodeConfig (encode junk (RConfig r) ++ rest) = view_config r.
Proof. unfold DecodeConfig. by decode_record r Hwf. Qed.

Lemma decode_dropped r :
  record_wf (RDropped r) -> DecodeDropped (encode junk (RDropped r) ++ rest) = view_dropped r.
Proof. unfold DecodeDropped. by decode_record r Hwf. Qed.
End decode.

(** ** Decoding a batch *)

(** The loop of one arm over back-to-back records, whatever follows them. *)
Lemma decode_all_spec {R A} (enc : R -> list Z) (dec : list Z -> result A) (view : R -> result A) size
    (rs : list R) tail :
  Forall (fun r => length (enc r) = size /\ forall rest, dec (enc r ++ rest) = view r) rs ->
  decode_all dec size (length rs) (concat (map enc rs) ++ tail) = mapM view rs.
Proof.
  intros Hrs. unfold decode_all.
  enough (H : forall k p, drop (k * size) p = concat (map enc rs) ++ tail ->
    mapM (fun i => dec (drop (i * size) p)) (seq k (length rs)) = mapM view rs) by by apply (H 0%nat).
  induction Hrs as [|r rs [Hl Hd] _ IH]; intros k p Hp; [done|]. simpl in *. rewrite <- app_assoc in Hp.
  rewrite Hp, Hd. destruct (view r) as [x|e]; [|done]. simpl.
  rewrite IH; [done|]. replace (S k * size)%nat with (k * size + size)%nat by lia.
  rewrite <- drop_drop, Hp, <- Hl. by rewrite drop_app_length.
Qed.

Lemma decode_slice_spec {R A} (enc : R -> list Z) (dec : list Z -> result A) (view : R -> result A) size
    (rs : list R) tail :
  (0 < size)%nat ->
  Forall (fun r => length (enc r) = size /\ forall rest, dec (enc r ++ rest) = view r) rs ->
  decode_slice dec size (Z.of_nat (length rs)) (concat (map enc rs) ++ tail) = mapM view rs.
Proof.
  intros Hs Hrs. unfold decode_slice.
  assert (Hlen : length (concat (map enc rs)) = (length rs * size)%nat).
  { induction Hrs as [|r rs [Hl _] _ IH]; [done|]. simpl. by rewrite length_app, IH, Hl. }
  assert (Hle : Z.of_nat (length rs) <= Z.of_nat (length (concat (map enc rs) ++ tail)) / Z.of_nat size).
  { apply Z.div_le_lower_bound; [lia|]. rewrite length_app, Hlen. nia. }
  rewrite (proj2 (Z.ltb_ge _ _) Hle), Nat2Z.id. by apply decode_all_spec.
Qed.

Lemma mapM_map {R S A B} (inj : R -> S) (view : R -> result A) (g : A -> B) (f : S -> result B) rs :
  (forall r, f (inj r) = g <$> view r) -> mapM f (map inj rs) = map g <$> mapM view rs.
Proof.
  intros Hf. induction rs as [|r rs IH]; [done|]. simpl. rewrite Hf.
  destruct (view r); [|done]. simpl. rewrite IH. by destruct (mapM view rs).
Qed.

Lemma omap_hit {A B} (g : A -> B) (f : B -> option A) xs :
  (forall x, f (g x) = Some x) -> omap f (map g xs) = xs.
Proof. intros Hf. induction xs as [|x xs IH]; [done|]. csimpl. by rewrite Hf, IH. Qed.
Lemma omap_miss {A B C} (g : A -> B) (f : B -> option C) xs :
  (forall x, f (g x) = None) -> omap f (map g xs) = [].
Proof. intros Hf. induction xs as [|x xs IH]; [done|]. csimpl. by rewrite Hf, IH. Qed.

(** Records of one kind are records of one type. *)
Lemma homogeneous {R} (inj : R -> gpu_record) k rs :
  (forall r, kind_of r = k -> exists x, r = inj x) ->
  Forall (fun r => kind_of r = k) rs -> exists xs, rs = map inj xs.
Proof.
  intros Hinj. induction 1 as [|r rs Hr _ (xs & ->)]; [by exists []|].
  destruct (Hinj r Hr) as [x ->]. by exists (x :: xs).
Qed.

(** What the ring holds for a batch of records of one kind. *)
Record carries (junk : nat -> Z) (b : batch) (rs : list gpu_record) : Prop := {
  cy_kind : Forall (fun r => kind_of r = b_kind b) rs;
  cy_wf : Forall record_wf rs;
  cy_count : b_count b = Z.of_nat (length rs);
  cy_payload : b_payload b = concat (map (encode junk) rs);
  cy_bytes : b_bytes b = Z.of_nat (length (b_payload b));
  cy_kind_range : is_u32 (b_kind b);
  cy_count_range : is_u32 (b_count b);
  cy_bytes_range : b_bytes b < 9223372036854775808;
  cy_seq : is_u64 (b_seq b);
  cy_pid : is_u32 (b_pid b);
  cy_tid : is_u32 (b_tid b);
  cy_stack : -2147483648 <= b_stack_id b < 2147483648;
}.

Lemma hdr_flat junk b : layout junk (batch_hdr_fields b) = flat (batch_hdr_fields b).
Proof. by apply layout_packed. Qed.

Lemma s32_u32 z : -2147483648 <= z < 2147483648 -> s32 (u32 z) = z.
Proof.
  intros Hz. unfold s32, u32. rewrite Z.mod_mod by lia. bool_cases; Z.div_mod_to_equations; lia.
Qed.


Lemma hdr_wf junk b rs : carries junk b rs -> Forall fwf (batch_hdr_fields b).
Proof.
  intros [_ _ _ _ Hb Hk Hc Hb' Hs Hp Ht _]. unfold batch_hdr_fields.
  repeat constructor; cbn [fwf]; change (256 ^ Z.of_nat 4) with 4294967296;
    change (256 ^ Z.of_nat 8) with 18446744073709551616; try apply u32_range; word_lia.
Qed.

(** One arm of [decodeBatch]. *)
Lemma slice_arm {R A} junk (inj : R -> gpu_record) (g : A -> go_record) (view : R -> result A) dec
    size rs (out : list A -> go_batch) b tail :
  (0 < size)%nat ->
  (forall r, length (encode junk (inj r)) = size) ->
  (forall rest r, record_wf (inj r) -> dec (encode junk (inj r) ++ rest) = view r) ->
  (forall r, go_view (inj r) = g <$> view r) ->
  (forall xs, out xs = go_batch_of b (map g xs)) ->
  Forall record_wf (map inj rs) ->
  out <$> decode_slice dec size (Z.of_nat (length (map inj rs)))
            (concat (map (encode junk) (map inj rs)) ++ tail)
  = go_batch_of b <$> mapM go_view (map inj rs).
Proof.
  intros Hs Hl Hd Hv Ho Hwf. rewrite length_map, map_map.
  rewrite (decode_slice_spec (fun r => encode junk (inj r)) dec view size rs tail Hs).
  - rewrite (mapM_map inj view g go_view rs Hv). destruct (mapM view rs); [|done].
    simpl. by rewrite Ho.
  - change (map inj rs) with (inj <$> rs) in Hwf. rewrite Forall_fmap in Hwf.
    eapply List.Forall_impl; [|exact Hwf]. intros r Hr. split; [done|].
    intros rest. by apply Hd.
Qed.

(** The prologue of [decodeBatch] on a batch the ring holds: the fields are
    the header's, the payload is the records. *)
Lemma decode_prologue junk b rs rest :
  carries junk b rs ->
  let m := batch_msg junk b rest in
  (length m <? batchHdrSize)%nat = false /\
  Uint32 m 0 = b_kind b /\ Uint32 m 4 = b_count b /\ Uint64 m 8 = b_seq b /\
  Uint32 m 16 = b_pid b /\ Uint32 m 20 = b_tid b /\ s32 (Uint32 m 32) = b_stack_id b /\
  s64 (Uint64 m 24) = Z.of_nat (length (b_payload b)) /\
  drop batchHdrSize m = b_payload b ++ rest.
Proof.
  intros Hc m. pose proof (hdr_wf _ _ _ Hc) as Hwf. subst m. unfold batch_msg. rewrite hdr_flat.
  read_fields Hwf. destruct Hc. split_and!; try done.
  - by apply s32_u32.
  - rewrite s64_small; [done|lia].
Qed.

Ltac slice_case junk rs Hk Hb Hcnt inj g view dec :=
  edestruct (fun H => homogeneous inj _ rs H Hk) as [xs ->];
    [intros [] E; try discriminate E; eauto |];
  apply (slice_arm junk inj g view);
  [ by apply Nat.ltb_lt | intros r'; apply encode_length | intros ? ?; apply dec | done
  | intros xs'; unfold go_batch_of; rewrite Hb, Hcnt;
    by rewrite ?omap_hit, ?omap_miss by done | done ].

(** The header of a message, as the decoder reads it. *)
Record heads (m : list Z) (b : batch) : Prop := {
  hd_long : (length m <? batchHdrSize)%nat = false;
  hd_kind : Uint32 m 0 = b_kind b;
  hd_count : Uint32 m 4 = b_count b;
  hd_seq : Uint64 m 8 = b_seq b;
  hd_pid : Uint32 m 16 = b_pid b;
  hd_tid : Uint32 m 20 = b_tid b;
  hd_stack : s32 (Uint32 m 32) = b_stack_id b;
  hd_bytes : s64 (Uint64 m 24) = b_bytes b;
}.

Lemma kind_cases k :
  record_size k <> 0 ->
  k = KIND_LAUNCH \/ k = KIND_EXEC \/ k = KIND_MODULE \/ k = KIND_PC \/ k = KIND_LAUNCH_SAMPLED \/
  k = KIND_KERNEL_NAME \/ k = KIND_STALL_MAP \/ k = KIND_SAMPLING_WINDOW \/ k = KIND_CONFIG \/ k = KIND_DROPPED.
Proof.
  intros Hsz. destruct (known_kind _ Hsz) as (Hr & _).
  unfold KIND_LAUNCH, KIND_EXEC, KIND_MODULE, KIND_PC, KIND_LAUNCH_SAMPLED, KIND_KERNEL_NAME, KIND_STALL_MAP,
    KIND_SAMPLING_WINDOW, KIND_CONFIG, KIND_DROPPED. lia.
Qed.

(** Each arm of the switch, on a payload that starts with records of its kind. *)
Lemma decode_arms junk m b rs tail :
  heads m b -> 0 <= b_bytes b <= Z.of_nat (length (drop batchHdrSize m)) ->
  take (Z.to_nat (b_bytes b)) (drop batchHdrSize m) = concat (map (encode junk) rs) ++ tail ->
  record_size (b_kind b) <> 0 -> Forall (fun r => kind_of r = b_kind b) rs -> Forall record_wf rs ->
  b_count b = Z.of_nat (length rs) -> (b_kind b = KIND_LAUNCH_SAMPLED -> length rs = 1%nat) ->
  decodeBatch m = go_batch_of b <$> mapM go_view rs.
Proof.
  intros [E1 E2 E3 E4 E5 E6 E7 E8] Hb Hpay Hsz Hk Hwf Hcnt Hone.
  unfold decodeBatch. rewrite E1, E2, E3, E4, E5, E6, E7, E8.
  rewrite (proj2 (Z.ltb_ge _ 0)), (proj2 (Z.ltb_ge _ _)) by lia. cbn [orb]. rewrite Hpay, Hcnt.
  clear E2. destruct (kind_cases _ Hsz) as [Hk'|[Hk'|[Hk'|[Hk'|[Hk'|[Hk'|[Hk'|[Hk'|[Hk'|Hk']]]]]]]]]; rewrite Hk' in Hk, Hone |- *;
    repeat (rewrite Z.eqb_refl || rewrite (proj2 (Z.eqb_neq _ _)) by done).
  - slice_case junk rs Hk Hk' Hcnt RLaunch GLaunch view_launch decode_launch.
  - slice_case junk rs Hk Hk' Hcnt RExec GExec view_exec decode_exec.
  - slice_case junk rs Hk Hk' Hcnt RModule GModule view_module decode_module.
  - slice_case junk rs Hk Hk' Hcnt RPc GPc view_pc decode_pc.
  - rewrite (proj2 (Z.eqb_eq (Z.of_nat (length rs)) 1)) by (by rewrite Hone). cbn [negb].
    slice_case junk rs Hk Hk' Hcnt RLaunchSampled GLaunchSampled view_launch_sampled decode_launch_sampled.
  - slice_case junk rs Hk Hk' Hcnt RKernelName GKernelName view_kernel_name decode_kernel_name.
  - slice_case junk rs Hk Hk' Hcnt RStallMap GStallMap view_stall decode_stall.
  - slice_case junk rs Hk Hk' Hcnt RSamplingWindow GSamplingWindow view_window decode_window.
  - slice_case junk rs Hk Hk' Hcnt RConfig GConfig view_config decode_config.
  - slice_case junk rs Hk Hk' Hcnt RDropped GDropped view_dropped decode_dropped.
Qed.

(** Decoding a batch the ring holds, on every branch. *)
Lemma decode_carried junk b rs rest :
  carries junk b rs -> rs <> [] -> (b_kind b = KIND_LAUNCH_SAMPLED -> length rs = 1%nat) ->
  decodeBatch (batch_msg junk b rest) = go_batch_of b <$> mapM go_view rs.
Proof.
  intros Hc Hne Hone.
  destruct (decode_prologue junk b rs rest Hc) as (E1 & E2 & E3 & E4 & E5 & E6 & E7 & E8 & E9).
  destruct Hc as [Hk Hwf Hcnt Hpay Hby _ _ _ _ _ _ _]. apply (decode_arms junk _ b rs []); try done.
  - split; try done. by rewrite E8.
  - rewrite E9, length_app. lia.
  - by rewrite E9, Hby, Nat2Z.id, take_app_length, Hpay, app_nil_r.
  - destruct rs as [|r rs']; [done|]. assert (Hb : b_kind b = kind_of r) by (by inversion Hk). rewrite Hb. by destruct r.
Qed.

(** C18: The consumer reads back what the shim wrote.  Take any batch of
    well-formed records of one probe, laid out by the C rules, behind the header
    the BPF program writes and followed by anything at all: [decodeBatch]
    returns the header's fields and, in order, what each record says — padding
    dropped, names cut to their length — or exactly the error of the first
    record the ABI refuses (a zero sample period, an inverted window, a name
    longer than its buffer). *)
Theorem decode_batch_roundtrip junk b rs rest :
  carries junk b rs -> rs <> [] -> (b_kind b = KIND_LAUNCH_SAMPLED -> length rs = 1%nat) ->
  decodeBatch (batch_msg junk b rest) = go_batch_of b <$> mapM go_view rs.
Proof. apply decode_carried. Qed.

Definition two_windows : list gpu_record :=
  [RSamplingWindow (GpuSamplingWindow 1000 2500 2 [0; 0; 0] 4294967295);
   RSamplingWindow (GpuSamplingWindow 9000 0 2 [0; 0; 0] 77)].
Definition window_batch : batch :=
  Batch KIND_SAMPLING_WINDOW 2 7 4242 4243 48 (-1) (concat (map (encode (fun _ => 170)) two_windows)).

Lemma window_batch_carries : carries (fun _ => 170) window_batch two_windows.
Proof. split; first [by apply (bool_decide_unpack _)|by vm_compute]. Qed.

Lemma decode_batch_roundtrip_witness :
  decodeBatch (batch_msg (fun _ => 170) window_batch (replicate 3024 85))
  = Ok (GoBatch 8 7 4242 4243 2 (-1) [] [] [] [] [] [] []
          [MkSamplingWindow 1000 2500 2 4294967295; MkSamplingWindow 9000 0 2 0] [] []).
Proof.
  rewrite (decode_batch_roundtrip _ _ two_windows); [reflexivity|apply window_batch_carries|done|done].
Defined.

(** ** Any bytes at all

    What the ring holds need not be what the shim wrote.  Any bytes can be cut
    along a struct's members, and are then the layout of some record. *)









(** The refusals after the header. *)
Section refusals.
  Context (m : list Z) (h : batch) (Hh : heads m h).
  Context (Hb : 0 <= b_bytes h <= Z.of_nat (length (drop batchHdrSize m))).




End refusals.



