(* ===== verification/Batch.v ===== *)
(** * Batch: the shim's record batching, and the way from a record to its reader

    Models src/shim/core/batch.h, the template [Batch<T, N>], with the emit
    thunk PERFAGENT_USDT_EMITTER of src/shim/core/usdt_probe.h generates.  Every
    operation runs under the batch's mutex, so a history is a sequence of whole
    operations; what [enabled_()] answers is read from the probe's semaphore,
    which the kernel changes at any time, so each call has its own answer.  The
    second half composes the batch with the BPF program (GpuUsdt) and the
    consumer's decoder (Abi). *)
From S2P Require Import Prelude Bpf Record Tables Walker Driver Sampling Python GpuUsdt Abi.

Section Batch.
  Context {T W : Type} (N : nat) (emit_ : list T -> Z -> Z -> W -> W).

Record Batch_t := MkBatch { buf_ : list T; n_ : nat; seq_ : Z; dropped_ : Z }.

(** [buf_] is uninitialised at first: any contents. *)
Definition Batch_init (junk : list T) : Batch_t := MkBatch junk 0 0 0.

(** The record count is passed beside the pointer: the probe's reader sees the
    first [n_] slots of the array. *)
Definition flush_locked (en : bool) (b : Batch_t) (w : W) : Batch_t * W :=
  if (n_ b =? 0)%nat then (b, w)
  else if negb en
  then (MkBatch (buf_ b) 0 (seq_ b) (u64 (dropped_ b + Z.of_nat (n_ b))), w)
  else (MkBatch (buf_ b) 0 (u64 (seq_ b + 1)) (dropped_ b),
        emit_ (take (n_ b) (buf_ b)) (Z.of_nat (n_ b)) (seq_ b) w).

Definition add (rec : T) (en en' : bool) (b : Batch_t) (w : W) : bool * (Batch_t * W) :=
  if negb en then (false, (MkBatch (buf_ b) (n_ b) (seq_ b) (u64 (dropped_ b + 1)), w))
  else
    let b := MkBatch (<[n_ b := rec]> (buf_ b)) (S (n_ b)) (seq_ b) (dropped_ b) in
    (true, if (n_ b =? N)%nat then flush_locked en' b w else (b, w)).

Definition flush (en : bool) (b : Batch_t) (w : W) : Batch_t * W := flush_locked en b w.

(** A call by the producer or by the drain thread, with the answers of the
    semaphore during it. *)
Inductive batch_op := Add (rec : T) (en en' : bool) | Flush (en : bool).

Definition batch_step (s : Batch_t * W) (o : batch_op) : Batch_t * W :=
  match o with
  | Add rec en en' => (add rec en en' s.1 s.2).2
  | Flush en => flush en s.1 s.2
  end.

Definition batch_run (s : Batch_t * W) (os : list batch_op) : Batch_t * W := foldl batch_step s os.

(** The records handed to [add], in order. *)
Definition added (os : list batch_op) : list T :=
  omap (fun o => match o with Add rec _ _ => Some rec | Flush _ => None end) os.

(** No call saw the semaphore at zero. *)
Definition attached (os : list batch_op) : bool :=
  forallb (fun o => match o with Add _ en en' => en && en' | Flush en => en end) os.
End Batch.
Arguments MkBatch {T}.
Arguments batch_op : clear implicits.
Arguments buf_ {T}.
Arguments n_ {T}.
Arguments seq_ {T}.
Arguments dropped_ {T}.

(** One firing of the probe: its records and its sequence number. *)
Record fire (T : Type) := Fire { f_recs : list T; f_count : Z; f_seq : Z }.
Arguments Fire {T}.
Arguments f_recs {T}.
Arguments f_count {T}.
Arguments f_seq {T}.

(** The emit thunk that only logs. *)
Definition log_emit {T} (rs : list T) (count seq : Z) (l : list (fire T)) : list (fire T) :=
  l ++ [Fire rs count seq].

Section Batch_facts.
  Context {T : Type} (N : nat) (HN : (0 < N)%nat).

Definition records (fs : list (fire T)) : list T := concat (map f_recs fs).

Lemma records_app fs fs' : records (fs ++ fs') = records fs ++ records fs'.
Proof using Type. unfold records. by rewrite map_app, concat_app. Qed.

(** The invariant, against the records added so far: what has been emitted and
    what is pending are, in order, a part of them, and the rest is counted.  [M]
    bounds the pending records: [N] between calls, [N + 1] just before the
    flush of a full array. *)
Record batch_inv (M : nat) (rs : list T) (s : Batch_t * list (fire T)) : Prop := {
  bi_room : (n_ s.1 < M)%nat;
  bi_buf : length (buf_ (T := T) s.1) = N;
  bi_order : records s.2 ++ take (n_ s.1) (buf_ s.1) `sublist_of` rs;
  bi_count : dropped_ s.1 = u64 (Z.of_nat (length rs) - Z.of_nat (length (records s.2)) - Z.of_nat (n_ s.1));
  bi_fires : forall i f, s.2 !! i = Some f ->
    f_seq f = u64 (Z.of_nat i) /\ f_count f = Z.of_nat (length (f_recs f)) /\
    (1 <= length (f_recs f) <= N)%nat;
  bi_seq : seq_ s.1 = u64 (Z.of_nat (length s.2));
}.

Lemma u64_add a b : u64 (u64 a + b) = u64 (a + b).
Proof using Type. unfold u64. by rewrite Z.add_mod_idemp_l. Qed.

Lemma flush_inv rs en s :
  batch_inv (S N) rs s -> batch_inv N rs (flush_locked log_emit en s.1 s.2).
Proof using HN.
  destruct s as [b l]. intros [Hn Hl Ho Hd Hf Hs]. simpl in *. unfold flush_locked.
  destruct (Nat.eqb_spec (n_ b) 0) as [E|E]; [split; simpl; try done; lia|].
  assert (Hlen : length (take (n_ b) (buf_ b)) = n_ b) by (rewrite length_take; lia).
  assert (H1 : records [Fire (take (n_ b) (buf_ b)) (Z.of_nat (n_ b)) (seq_ b)] = take (n_ b) (buf_ b))
    by apply app_nil_r.
  destruct en; simpl; unfold log_emit.
  - split; simpl; try done.
    + by rewrite take_0, app_nil_r, records_app, H1.
    + rewrite records_app, length_app, H1, Hlen, Hd. f_equal. lia.
    + intros i f Hi. apply lookup_app_Some in Hi as [Hi|[Hi Hi']]; [by apply Hf|].
      apply list_lookup_singleton_Some in Hi' as [Hi' <-]. simpl.
      rewrite Hlen, Hs. split_and!; try lia. do 2 f_equal. lia.
    + rewrite length_app, Hs, u64_add. simpl. f_equal. lia.
  - split; simpl; try done.
    + rewrite take_0, app_nil_r. etrans; [by apply sublist_inserts_r|exact Ho].
    + rewrite Hd, u64_add. f_equal. lia.
Qed.

(** A record the semaphore refused. *)
Lemma refused_inv rs r s :
  batch_inv N rs s ->
  batch_inv N (rs ++ [r]) (MkBatch (buf_ s.1) (n_ s.1) (seq_ s.1) (u64 (dropped_ s.1 + 1)), s.2).
Proof using HN.
  intros [Hn Hl Ho Hd Hf Hs]. split; simpl; try done.
  - etrans; [exact Ho|by apply sublist_inserts_r].
  - rewrite Hd, u64_add, length_app. simpl. f_equal. lia.
Qed.

(** A record stored in the next slot. *)
Lemma stored_inv rs r s :
  batch_inv N rs s ->
  batch_inv (S N) (rs ++ [r])
    (MkBatch (<[n_ s.1 := r]> (buf_ s.1)) (S (n_ s.1)) (seq_ s.1) (dropped_ s.1), s.2).
Proof using HN.
  intros [Hn Hl Ho Hd Hf Hs]. split; simpl; try done.
  - lia.
  - by rewrite length_insert.
  - rewrite take_insert_snoc by lia. rewrite app_assoc. by apply sublist_app.
  - rewrite Hd, length_app. simpl. f_equal. lia.
Qed.

Lemma inv_weaken rs s : batch_inv N rs s -> batch_inv (S N) rs s.
Proof using HN. intros []. split; try done. lia. Qed.

Lemma step_inv rs s o :
  batch_inv N rs s -> batch_inv N (rs ++ added [o]) (batch_step N log_emit s o).
Proof using HN.
  intros Hi. destruct o as [r en en'|en]; simpl.
  - unfold add. destruct en; cbn [negb snd n_]; [|by apply refused_inv].
    pose proof (stored_inv rs r s Hi) as H2. destruct (Nat.eqb_spec (S (n_ s.1)) N) as [E|E].
    + by apply (flush_inv _ en') in H2.
    + destruct H2. split; try done. simpl in *. lia.
  - rewrite app_nil_r. by apply flush_inv, inv_weaken.
Qed.

Lemma run_inv rs s os :
  batch_inv N rs s -> batch_inv N (rs ++ added os) (batch_run N log_emit s os).
Proof using HN.
  revert rs s. induction os as [|o os IH]; intros rs s Hi; [by rewrite app_nil_r|].
  change (added (o :: os)) with (omap (fun o => match o with Add rec _ _ => Some rec | Flush _ => None end)
    ([o] ++ os)). rewrite omap_app, app_assoc. by apply IH, step_inv.
Qed.

Lemma init_inv junk : length junk = N -> batch_inv N [] (Batch_init junk, []).
Proof using HN. intros Hj. by split. Qed.

(** With a consumer attached throughout, nothing is refused. *)
Lemma flush_exact rs b l :
  records l ++ take (n_ b) (buf_ b) = rs ->
  let s' := flush_locked log_emit true b l in
  records s'.2 ++ take (n_ s'.1) (buf_ s'.1) = rs /\ dropped_ s'.1 = dropped_ (T := T) b.
Proof using Type.
  intros E. unfold flush_locked. destruct (n_ b =? 0)%nat; [done|]. cbn [negb snd fst]. unfold log_emit.
  rewrite records_app. unfold records at 2. simpl. by rewrite take_0, !app_nil_r.
Qed.

Lemma step_exact rs s o :
  batch_inv N rs s -> attached [o] = true -> records s.2 ++ take (n_ s.1) (buf_ s.1) = rs ->
  let s' := batch_step N log_emit s o in
  records s'.2 ++ take (n_ s'.1) (buf_ s'.1) = rs ++ added [o] /\ dropped_ s'.1 = dropped_ s.1.
Proof using HN.
  intros Hi Ha E. destruct o as [r [] []|[]]; try done.
  - cbn [batch_step add negb snd n_]. unfold add. cbn [negb snd n_].
    assert (E' : records s.2 ++ take (S (n_ s.1)) (<[n_ s.1 := r]> (buf_ s.1)) = rs ++ [r]).
    { rewrite take_insert_snoc by (rewrite (bi_buf _ _ _ Hi); apply (bi_room _ _ _ Hi)).
      by rewrite app_assoc, E. }
    set (b' := MkBatch _ _ _ _). change (dropped_ s.1) with (dropped_ b').
    case_match; [by apply (flush_exact _ b')|done].
  - rewrite app_nil_r. by apply flush_exact.
Qed.

Lemma run_exact rs s os :
  batch_inv N rs s -> attached os = true -> records s.2 ++ take (n_ s.1) (buf_ s.1) = rs ->
  let s' := batch_run N log_emit s os in
  records s'.2 ++ take (n_ s'.1) (buf_ s'.1) = rs ++ added os /\ dropped_ s'.1 = dropped_ s.1.
Proof using HN.
  revert rs s. induction os as [|o os IH]; intros rs s Hi Ha E; [by rewrite app_nil_r|].
  assert (Ha' : attached [o] = true /\ attached os = true).
  { unfold attached in *. simpl in *. rewrite andb_true_r. by apply andb_true_iff. }
  destruct (step_exact rs s o Hi (proj1 Ha') E) as [E1 E2].
  pose proof (step_inv rs s o Hi) as Hi'.
  destruct (IH _ _ Hi' (proj2 Ha') E1) as [E3 E4]. simpl. rewrite E3, E4, E2. split; [|done].
  rewrite <- app_assoc. f_equal. by destruct o.
Qed.

(** Whatever the emit thunk does, it does it once per logged firing. *)
Lemma step_factor {W} (emit_ : list T -> Z -> Z -> W -> W) b (w : W) l o :
  let s := batch_step N log_emit (b, l) o in
  exists fs, s.2 = l ++ fs /\
  batch_step N emit_ (b, w) o = (s.1, foldl (fun w f => emit_ (f_recs f) (f_count f) (f_seq f) w) w fs).
Proof using Type.
  assert (Hf : forall en b, exists fs, (flush_locked log_emit en b l).2 = l ++ fs /\
    flush_locked emit_ en b w = ((flush_locked log_emit en b l).1,
      foldl (fun w f => emit_ (f_recs f) (f_count f) (f_seq f) w) w fs)).
  { intros en b'. unfold flush_locked. destruct (n_ b' =? 0)%nat; [exists []; by rewrite app_nil_r|].
    destruct en; [by exists [Fire (take (n_ b') (buf_ b')) (Z.of_nat (n_ b')) (seq_ b')]|].
    exists []. by rewrite app_nil_r. }
  destruct o as [r en en'|en]; [|apply Hf]. cbn [batch_step fst snd]. unfold add.
  destruct en; cbn [negb snd fst]; [|exists []; by rewrite app_nil_r].
  case_match; [apply Hf|exists []; by rewrite app_nil_r].
Qed.

Lemma run_factor {W} (emit_ : list T -> Z -> Z -> W -> W) b (w : W) l os :
  let s := batch_run N log_emit (b, l) os in
  exists fs, s.2 = l ++ fs /\
  batch_run N emit_ (b, w) os = (s.1, foldl (fun w f => emit_ (f_recs f) (f_count f) (f_seq f) w) w fs).
Proof using Type.
  revert b w l. induction os as [|o os IH]; intros b w l; [exists []; by rewrite app_nil_r|].
  destruct (step_factor emit_ b w l o) as (fs & E1 & E2). simpl. rewrite E2.
  destruct (batch_step N log_emit (b, l) o) as [b' l'] eqn:E. simpl in *. subst l'.
  destruct (IH b' (foldl (fun w f => emit_ (f_recs f) (f_count f) (f_seq f) w) w fs) (l ++ fs))
    as (fs' & E3 & E4).
  exists (fs ++ fs'). rewrite E3, E4, app_assoc. split; [done|]. by rewrite foldl_app.
Qed.
End Batch_facts.

(** A record given to a batch is emitted once, in order, or counted.  For
    any array size, any sequence of [add] and [flush] calls and any answers of
    the semaphore, with [fs] the firings of the probe: emitting has no other
    effect than those firings; every firing passes between 1 and [N] records
    and the true count, and the firings are numbered 0, 1, 2, ...; the records
    emitted followed by those still pending are, in the order of the calls, a
    subsequence of the records added, and [dropped_] is the number of the
    others; fewer than [N] are pending.  If the semaphore never read zero, none
    is missing. *)
Theorem batch_emits_once {T W} N (emit_ : list T -> Z -> Z -> W -> W) junk os w :
  (0 < N)%nat -> length junk = N ->
  exists b fs,
    batch_run N emit_ (Batch_init junk, w) os
      = (b, foldl (fun w f => emit_ (f_recs f) (f_count f) (f_seq f) w) w fs) /\
    (forall i f, fs !! i = Some f -> f_seq f = u64 (Z.of_nat i) /\
       f_count f = Z.of_nat (length (f_recs f)) /\ (1 <= length (f_recs f) <= N)%nat) /\
    records fs ++ take (n_ b) (buf_ b) `sublist_of` added os /\
    dropped_ b = u64 (Z.of_nat (length (added os)) - Z.of_nat (length (records fs)) - Z.of_nat (n_ b)) /\
    (n_ b < N)%nat /\
    (attached os = true -> records fs ++ take (n_ b) (buf_ b) = added os /\ dropped_ b = 0).
Proof.
  intros HN Hj. pose proof (init_inv (T := T) N HN junk Hj) as Hi.
  destruct (run_factor N emit_ (Batch_init junk) w [] os) as (fs & E1 & E2).
  pose proof (run_inv N HN [] _ os Hi) as [Hr Hb Ho Hd Hf Hs].
  pose proof (run_exact N HN [] _ os Hi) as He.
  destruct (batch_run N log_emit (Batch_init junk, []) os) as [b l]. simpl in *. subst l.
  exists b, fs. split_and!; try done. intros Ha. by apply He.
Qed.

Lemma batch_emits_once_witness :
  exists b fs,
    batch_run 2 (fun rs (c s : Z) (w : list (list nat)) => w ++ [rs]) (Batch_init [0%nat; 0%nat], [])
      [Add 1%nat true true; Add 2%nat true true; Add 3%nat true false; Flush false; Add 4%nat false true;
       Add 5%nat true true]
      = (b, foldl (fun w f => (fun rs (c s : Z) w => w ++ [rs]) (f_recs f) (f_count f) (f_seq f) w) [] fs) /\
    (forall i f, fs !! i = Some f -> f_seq f = u64 (Z.of_nat i) /\
       f_count f = Z.of_nat (length (f_recs f)) /\ (1 <= length (f_recs f) <= 2)%nat) /\
    records fs ++ take (n_ b) (buf_ b) `sublist_of` [1; 2; 3; 4; 5]%nat /\
    dropped_ b = u64 (5 - Z.of_nat (length (records fs)) - Z.of_nat (n_ b)) /\
    (n_ b < 2)%nat /\
    (false = true -> records fs ++ take (n_ b) (buf_ b) = [1; 2; 3; 4; 5]%nat /\ dropped_ b = 0).
Proof.
  apply (batch_emits_once 2 (fun rs (c s : Z) (w : list (list nat)) => w ++ [rs]) [0%nat; 0%nat]
    [Add 1%nat true true; Add 2%nat true true; Add 3%nat true false; Flush false; Add 4%nat false true;
     Add 5%nat true true] []); [lia|done].
Defined.

(** Evaluated: two records emitted together, two lost and counted, one pending. *)
Example batch_demo :
  let s := batch_run 2 log_emit (Batch_init [0; 0], [])
    [Add 1 true true; Add 2 true true; Add 3 true false; Flush false; Add 4 false true; Add 5 true true] in
  (s.2, n_ s.1, seq_ s.1, dropped_ s.1) = ([Fire [1; 2] 2 0], 1%nat, 1, 2).
Proof. reflexivity. Qed.

(** ** From [add] to the consumer

    The emit thunk of PERFAGENT_USDT_EMITTER fires the probe over the batch's
    array; the BPF program attached there runs before [emit_] returns, while
    the batch's mutex is held, so it sees the array as it is. *)

(** Process memory with the array's bytes at [ptr]; a page that is not
    resident makes every read of it fail. *)
Definition with_buf (resident : bool) (ptr : Z) (bs : list Z) (mem : umem) : umem := fun a =>
  if (ptr <=? a) && (a <? ptr + Z.of_nat (length bs))
  then if resident then bs !! Z.to_nat (a - ptr) else None
  else mem a.

Definition fire_env (ev : env) (resident : bool) (ptr : Z) (bs : list Z) : env :=
  Env (with_buf resident ptr bs (e_mem ev)) (e_ktime ev) (e_miss_room ev) (e_room ev) (e_lru ev).

Lemma read_buf ptr bs mem n :
  0 <= ptr -> ptr + Z.of_nat (length bs) <= 18446744073709551616 -> (n <= length bs)%nat ->
  probe_read_user (with_buf true ptr bs mem) ptr n = Some (take n bs).
Proof.
  intros Hp Hq Hn. unfold probe_read_user. apply mapM_Some.
  apply Forall2_same_length_lookup_2; [rewrite length_seq, length_take; lia|].
  intros i x y Hx Hy. apply lookup_seq in Hx as [-> Hi]. rewrite lookup_take_lt in Hy by lia. simpl.
  unfold with_buf. rewrite u64_small by (unfold is_u64; lia).
  rewrite (proj2 (Z.leb_le _ _)), (proj2 (Z.ltb_lt _ _)) by lia. simpl.
  by replace (Z.to_nat (ptr + Z.of_nat i - ptr)) with i by lia.
Qed.

Lemma read_absent ptr bs mem n :
  0 <= ptr < 18446744073709551616 -> (0 < n)%nat -> (0 < length bs)%nat ->
  probe_read_user (with_buf false ptr bs mem) ptr n = None.
Proof.
  intros Hp Hn Hl. destruct n as [|n]; [lia|]. unfold probe_read_user. simpl.
  replace (with_buf false ptr bs mem (u64 (ptr + Z.of_nat 0))) with (@None Z); [done|].
  unfold with_buf. change (Z.of_nat 0) with 0. rewrite Z.add_0_r, u64_small by done.
  by rewrite (proj2 (Z.leb_le _ _)), (proj2 (Z.ltb_lt _ _)) by lia.
Qed.

Lemma sublist_Forall {A} (P : A -> Prop) l k : l `sublist_of` k -> Forall P k -> Forall P l.
Proof.
  induction 1 as [|x l k _ IH|x l k _ IH]; [done| |]; inversion_clear 1; auto.
Qed.

Lemma records_sublist {T} (l k : list (fire T)) : l `sublist_of` k -> records l `sublist_of` records k.
Proof.
  unfold records. induction 1 as [|f l k _ IH|f l k _ IH]; [done|by apply sublist_app|].
  by apply sublist_inserts_l.
Qed.

Section pipeline.
  Context (t : tables) {M : Type} (cpu tgid tid : Z).
  Local Abbreviation W := (world (driver gpu_priv) M).
  Context (modules : Z -> option (W -> outcome W)).
  (** The kernel's answers and the residency of the array at each firing. *)
  Context (envs : Z -> env) (resident : Z -> bool) (junk : nat -> Z) (ptr ip fp sp : Z).
  (** The probe: its kind is its attach cookie. *)
  Context (kind : Z).

Definition wire (rs : list gpu_record) : list Z := concat (map (encode junk) rs).

Definition probe_emit (rs : list gpu_record) (count seq : Z) (w : W) : W :=
  gpu_usdt_batch (fire_env (envs seq) (resident seq) ptr (wire rs)) t cpu tgid tid modules
    kind ptr count seq ip fp sp w.

Definition fire_all (fs : list (fire gpu_record)) (w : W) : W :=
  foldl (fun w f => probe_emit (f_recs f) (f_count f) (f_seq f) w) w fs.

(** What the probe's array may hold. *)
Definition of_kind (r : gpu_record) : Prop := kind_of r = kind /\ record_wf r.

Context (Htgid : is_u32 tgid) (Htid : is_u32 tid).
Context (Hkind : record_size kind <> 0) (Hplain : kind <> KIND_LAUNCH_SAMPLED).

Lemma wire_length rs :
  Forall of_kind rs -> Z.of_nat (length (wire rs)) = Z.of_nat (length rs) * record_size kind.
Proof using Hkind.
  induction 1 as [|r rs [Hk Hr] _ IH]; [done|]. unfold wire in *. simpl.
  rewrite length_app, Nat2Z.inj_add, IH, encode_length, Hk. 
  pose proof (known_kind kind Hkind). lia.
Qed.

Lemma emit_plain_wf ev k c s bytes p g :
  gpu_wf g -> gpu_wf (gpu_emit_plain ev tgid tid k c s bytes p g).
Proof using Type.
  intros Hg. unfold gpu_emit_plain, ringbuf_reserve.
  assert (Hd : forall g', gpu_wf g' -> gpu_wf (count_drop k c g')).
  { intros g' []. unfold count_drop. case_match; [done|]. split; try done. simpl. unfold add_at.
    case_match; [by rewrite array_store_length|done]. }
  assert (He : forall r, gpu_wf (set_events g r)) by (intros r; by destruct Hg).
  repeat case_match; simplify_eq; try (by apply Hd, He). apply He.
Qed.

(** The batch [b] is the firing [f]. *)
Definition holds_fire (b : batch) (f : fire gpu_record) : Prop :=
  carries junk b (f_recs f) /\ b_seq b = f_seq f /\ b_kind b = kind /\ f_recs f <> [].

(** One firing: the batch it becomes carries its records, or they are all
    counted under the probe's kind. *)
Lemma fire_delivers f w :
  gpu_wf (gpu_of w) -> Forall of_kind (f_recs f) -> f_count f = Z.of_nat (length (f_recs f)) ->
  is_u64 (f_seq f) -> (1 <= length (f_recs f))%nat -> Z.of_nat (length (f_recs f)) <= max_records kind ->
  0 <= ptr -> ptr + PAYLOAD_BYTES <= 18446744073709551616 ->
  let w' := probe_emit (f_recs f) (f_count f) (f_seq f) w in
  gpu_wf (gpu_of w') /\
  exists bs, accounts (gpu_of w) (gpu_of w') kind (f_count f) bs /\
    (bs = [] \/ exists b, bs = [b] /\ holds_fire b f).
Proof using Htgid Htid Hkind Hplain.
  intros Hg Hrs Hc Hs H1 Hcap Hp Hq w'. pose proof (known_kind kind Hkind) as (Hk & Hm & Hsz & Hpay).
  assert (Ek : u32 kind = kind) by (apply u32_small; word_lia).
  assert (Hl := wire_length _ Hrs).
  assert (Eg : gpu_of w' = gpu_emit_plain (fire_env (envs (f_seq f)) (resident (f_seq f)) ptr
    (wire (f_recs f))) tgid tid kind (f_count f) (f_seq f) (f_count f * record_size kind) ptr (gpu_of w)).
  { subst w'. unfold probe_emit. rewrite usdt_plain; rewrite ?Ek; try done; [|lia].
    unfold capped, after_cap. by rewrite (proj2 (Z.ltb_ge _ _)) by lia. }
  rewrite Eg. split; [by apply emit_plain_wf|].
  destruct (emit_plain_cases (fire_env (envs (f_seq f)) (resident (f_seq f)) ptr (wire (f_recs f)))
    tgid tid kind (f_count f) (f_seq f) (f_count f * record_size kind) ptr (gpu_of w))
    as (bs & Ha & Hb1 & Hbs); [lia|lia|apply Hg|].
  exists bs. split; [done|]. destruct bs as [|b [|]]; [by left| |simpl in Hb1; lia].
  right. exists b. destruct (Hbs b) as (payload & -> & Hread); [apply list_elem_of_here|].
  split; [done|].
  split; [|split_and!; try done; by destruct (f_recs f); [simpl in H1; lia|]]. simpl in Hread.
  rewrite Hc, <- Hl, Nat2Z.id in *. destruct (resident (f_seq f)).
  2:{ rewrite read_absent in Hread; [done|unfold PAYLOAD_BYTES, MAX_RECORDS_PER_BATCH in *; lia| |]; nia. }
  rewrite read_buf in Hread by (lia || nia). injection Hread as <-. rewrite take_ge by lia.
  assert (Hb : Z.of_nat (length (wire (f_recs f))) <= PAYLOAD_BYTES) by nia.
  unfold PAYLOAD_BYTES, MAX_RECORDS_PER_BATCH, MAX_BATCHED_RECORD_BYTES in *.
  split; simpl; try done; try (word_lia || lia); by eapply List.Forall_impl; [|exact Hrs]; intros r [].
Qed.

(** A whole run of firings. *)
Lemma fires_deliver fs w :
  gpu_wf (gpu_of w) -> Forall of_kind (records fs) ->
  Forall (fun f => f_count f = Z.of_nat (length (f_recs f)) /\ is_u64 (f_seq f) /\
    (1 <= length (f_recs f))%nat /\ Z.of_nat (length (f_recs f)) <= max_records kind) fs ->
  0 <= ptr -> ptr + PAYLOAD_BYTES <= 18446744073709551616 ->
  let w' := fire_all fs w in
  exists bs kept, accounts (gpu_of w) (gpu_of w') kind (Z.of_nat (length (records fs))) bs /\
    kept `sublist_of` fs /\
    Forall2 holds_fire bs kept.
Proof using Htgid Htid Hkind Hplain.
  intros Hg Hrs Hfs Hp Hq. revert w Hg. induction Hfs as [|f fs (Hc & Hs & H1 & Hm) _ IH]; intros w Hg.
  { exists [], []. split_and!; [by apply accounts_none|done|done]. }
  unfold records in Hrs. simpl in Hrs. apply Forall_app in Hrs as [Hr Hrs].
  destruct (fire_delivers f w) as (Hg' & bs & Ha & Hb); try done.
  destruct (IH Hrs _ Hg') as (bs' & kept & Ha' & Hsub & H2).
  assert (Ht : accounts (gpu_of w) (gpu_of (fire_all (f :: fs) w)) kind
    (Z.of_nat (length (records (f :: fs)))) (bs ++ bs')).
  { eapply accounts_trans; [exact Ha|exact Ha'|]. unfold records. simpl. rewrite length_app, Hc. lia. }
  destruct Hb as [->|(b & -> & Hcar)].
  - exists bs', kept. split_and!; [done|by apply sublist_cons|done].
  - exists (b :: bs'), (f :: kept). split_and!; [done|by apply sublist_skip|by constructor].
Qed.

Lemma kept_total bs kept :
  Forall2 holds_fire bs kept ->
  total bs = Z.of_nat (length (records kept)).
Proof using Type.
  induction 1 as [|b f bs kept [Hc _] _ IH]; [done|]. unfold records in *. simpl.
  rewrite IH, length_app, (cy_count _ _ _ Hc). lia.
Qed.

(** What the consumer makes of a batch in the ring. *)
Definition delivers (b : batch) (f : fire gpu_record) : Prop :=
  b_seq b = f_seq f /\ forall rest,
  decodeBatch (batch_msg junk b rest) = go_batch_of b <$> mapM go_view (f_recs f).

(** C3: From the shim to the consumer, every record is delivered as written or
    counted.  Add any records of one batched probe to its batch, in any
    interleaving with flushes, while the semaphore, the ring buffer's room and
    the residency of the array vary freely.  Then each batch in the ring
    decodes, whatever follows it there, to exactly what the records of one
    firing say; the batches' firings are, in order, a part of the firings, whose
    records are a subsequence of those added; and the records added are those
    delivered, those counted by the BPF program under this probe's kind, those
    counted by the shim, and those pending — every loss on exactly one
    counter. *)
Theorem gpu_records_reach_consumer N array os w :
  (0 < N)%nat -> Z.of_nat N <= max_records kind -> length array = N ->
  gpu_wf (gpu_of w) -> Forall of_kind (added os) ->
  0 <= ptr -> ptr + PAYLOAD_BYTES <= 18446744073709551616 ->
  let '(b, w') := batch_run N probe_emit (Batch_init array, w) os in
  exists bs kept lost,
    rb_events (events (gpu_of w')) = rb_events (events (gpu_of w)) ++ bs /\
    Forall2 delivers bs kept /\ records kept `sublist_of` added os /\
    shifted (dropped (gpu_of w)) (dropped (gpu_of w')) (fun i => if i =? kind then lost else 0) /\
    0 <= lost /\
    u64 (Z.of_nat (length (records kept)) + lost + dropped_ b + Z.of_nat (n_ b))
      = u64 (Z.of_nat (length (added os))).
Proof using Htgid Htid Hkind Hplain.
  intros HN Hcap Harr Hg Hos Hp Hq.
  destruct (run_factor N probe_emit (Batch_init array) w [] os) as (fs & E1 & ->).
  pose proof (run_inv N HN [] _ os (init_inv N HN array Harr)) as [Hr _ Ho Hd Hf _].
  destruct (batch_run N log_emit (Batch_init array, []) os) as [b l]. simpl in *. subst l.
  assert (Hrs : records fs `sublist_of` added os) by (etrans; [by apply sublist_inserts_r|exact Ho]).
  destruct (fires_deliver fs w) as (bs & kept & Ha & Hk & H2); try done.
  { by eapply sublist_Forall. }
  { apply Forall_lookup. intros i f Hi. destruct (Hf i f Hi) as (-> & -> & ?).
    split_and!; [done|apply u64_range|lia|lia]. }
  destruct Ha as (He & lost & Hl & Htot & Hsh). exists bs, kept, lost. split_and!; try done.
  - eapply List.Forall2_impl; [|exact H2]. intros b' f (Hc & Hs & Hb & Hne). split; [done|]. intros rest.
    apply decode_carried; [done|done|]. by rewrite Hb.
  - etrans; [by apply records_sublist|done].
  - rewrite Hd, <- (kept_total bs kept H2), Htot, (Z.add_comm (Z.of_nat _)), <- Z.add_assoc, u64_add.
    f_equal. lia.
Qed.
End pipeline.

Definition demo_exec (c : Z) : gpu_record := RExec (GpuExec c 7 1 0 (1000 * c) (1000 * c + 400)).
Definition demo_ops : list (batch_op gpu_record) :=
  [Add (demo_exec 1) true true; Add (demo_exec 2) true true; Add (demo_exec 3) false true;
   Add (demo_exec 4) true true; Flush true; Add (demo_exec 5) true true].

Lemma gpu_records_reach_consumer_witness :
  let '(b, w') := batch_run 2
    (probe_emit demo_tables 3 42 43 (py_modules demo_py) (fun _ => demo_ev) (fun s => s =? 0) (fun _ => 0)
       0x7000 0x1010 0x600 0x500 KIND_EXEC) (Batch_init [demo_exec 0; demo_exec 0], gpu_world) demo_ops in
  exists bs kept lost,
    rb_events (events (gpu_of w')) = rb_events (events (gpu_of gpu_world)) ++ bs /\
    Forall2 (delivers (fun _ => 0)) bs kept /\ records kept `sublist_of` added demo_ops /\
    shifted (dropped (gpu_of gpu_world)) (dropped (gpu_of w')) (fun i => if i =? KIND_EXEC then lost else 0) /\
    0 <= lost /\
    u64 (Z.of_nat (length (records kept)) + lost + dropped_ b + Z.of_nat (n_ b)) = u64 5.
Proof.
  apply (gpu_records_reach_consumer demo_tables 3 42 43 (py_modules demo_py) (fun _ => demo_ev)
    (fun s => s =? 0) (fun _ => 0) 0x7000 0x1010 0x600 0x500 KIND_EXEC); try done; try word_lia.
  repeat (constructor; [split; [done|by apply (bool_decide_unpack _)]|]). constructor.
Defined.

(** Evaluated: the first firing arrives, the second finds its page gone. *)
Example pipeline_demo :
  let s := batch_run 2
    (probe_emit demo_tables 3 42 43 (py_modules demo_py) (fun _ => demo_ev) (fun s => s =? 0) (fun _ => 0)
       0x7000 0x1010 0x600 0x500 KIND_EXEC) (Batch_init [demo_exec 0; demo_exec 0], gpu_world) demo_ops in
  let g := gpu_of s.2 in
  map (fun b => decodeBatch (batch_msg (fun _ => 0) b [])) (rb_events (events g))
    = [Ok (GoBatch 2 0 42 43 2 (-1) [] [MkExec 1 7 1 0 1000 1400; MkExec 2 7 1 0 2000 2400]
             [] [] [] [] [] [] [] [])] /\
  dropped g !! 2%nat = Some 1 /\ dropped_ s.1 = 1 /\ n_ s.1 = 1%nat.
Proof. vm_compute. done. Qed.
