(* ===== verification/Sampler.v ===== *)
(** * Sampler: which launches carry a CPU stack

    Models src/shim/core/sampler.h and its replica in the consumer,
    src/internal/gpuabi/sampler.go.  [should_sample] is lock-free: the threads
    of the application run it concurrently, so besides the sequential function
    there is a machine whose steps are its individual atomic operations, in any
    interleaving, with spurious failures of the weak compare-exchange and with
    loads that may return any earlier value of [next_]. *)
From S2P Require Import Prelude.

Definition kDefaultSeed : Z := 0x9E3779B97F4A7C15.

Definition mix (x : Z) : Z :=
  let x := Z.lxor x (Z.shiftr x 30) in
  let x := u64 (x * 0xBF58476D1CE4E5B9) in
  let x := Z.lxor x (Z.shiftr x 27) in
  let x := u64 (x * 0x94D049BB133111EB) in
  Z.lxor x (Z.shiftr x 31).

Definition gap_at (seq period seed : Z) : Z :=
  if period <=? 1 then 1
  else
    let k := period / 2 in
    let span := u32 (u32 (2 * k) + 1) in
    let r := mix (Z.lxor seed (u64 (seq * 0x9E3779B97F4A7C15))) in
    let off := u32 (Z.shiftr (u64 (Z.shiftr r 32 * span)) 32) in
    u64 (u64 (period - k) + off).

(** ** The consumer's replica (sampler.go) *)

Definition sampleMix (x : Z) : Z :=
  let x := Z.lxor x (Z.shiftr x 30) in
  let x := u64 (x * 0xBF58476D1CE4E5B9) in
  let x := Z.lxor x (Z.shiftr x 27) in
  let x := u64 (x * 0x94D049BB133111EB) in
  Z.lxor x (Z.shiftr x 31).

Definition SampleGap (seq period seed : Z) : Z :=
  if period <=? 1 then 1
  else
    let k := period / 2 in
    let span := u64 (u64 (2 * k) + 1) in
    let r := sampleMix (Z.lxor seed (u64 (seq * 0x9E3779B97F4A7C15))) in
    let off := Z.shiftr (u64 (Z.shiftr r 32 * span)) 32 in
    u64 (u64 (period - k) + off).

(** [for seq := 0; seq < launches; seq += SampleGap(...)]; every gap is at
    least 1, so [launches] iterations are enough. *)
Fixpoint schedule_from (fuel : nat) (launches period seed seq : Z) : list Z :=
  match fuel with
  | O => []
  | S fuel' =>
      if seq <? launches
      then seq :: schedule_from fuel' launches period seed (u64 (seq + SampleGap seq period seed))
      else []
  end.

Definition SampleSchedule (launches period seed : Z) : list Z :=
  let period := if period =? 0 then 1 else period in
  schedule_from (Z.to_nat launches) launches period seed 0.

Fixpoint count_from (fuel : nat) (launches period seed seq n : Z) : Z :=
  match fuel with
  | O => n
  | S fuel' =>
      if seq <? launches
      then count_from fuel' launches period seed (u64 (seq + SampleGap seq period seed)) (u64 (n + 1))
      else n
  end.

Definition SampledCount (launches period seed : Z) : Z :=
  let period := if period =? 0 then 1 else period in
  count_from (Z.to_nat launches) launches period seed 0 0.

(** ** The sampler, one launch at a time *)

Record sampler := Sampler { period_ : Z; seed_ : Z; next_ : Z; observed_ : Z; sampled_ : Z }.

Definition Sampler_init (period seed : Z) : sampler :=
  Sampler (if period =? 0 then 1 else period) seed 0 0 0.

(** [should_sample] with no other thread inside it: the compare-exchange finds
    the value just loaded. *)
Definition should_sample (s : sampler) : bool * sampler :=
  let n := observed_ s in
  let s := Sampler (period_ s) (seed_ s) (next_ s) (u64 (n + 1)) (sampled_ s) in
  if n <? next_ s then (false, s)
  else
    let gap := gap_at (next_ s) (period_ s) (seed_ s) in
    (true, Sampler (period_ s) (seed_ s) (u64 (next_ s + gap)) (observed_ s) (u64 (sampled_ s + 1))).

Definition set_period (p : Z) (s : sampler) : sampler :=
  Sampler (if p =? 0 then 1 else p) (seed_ s) (observed_ s) (observed_ s) (sampled_ s).

(** Several launches in a row: which of them carried a stack. *)
Fixpoint launch_many (n : nat) (s : sampler) : list Z * sampler :=
  match n with
  | O => ([], s)
  | S n' =>
      let '(hit, s') := should_sample s in
      let '(hits, s'') := launch_many n' s' in
      ((if hit then [observed_ s] else []) ++ hits, s'')
  end.

(** ** The sampler under concurrent launches *)

(** Where a thread is inside [should_sample]. *)
Inductive tstate :=
| Fetched (n : Z)              (* after observed_.fetch_add *)
| Looping (n next : Z)         (* at the loop condition *)
| Won (n point : Z).           (* after a successful compare-exchange *)

Record machine := Machine {
  m_s : sampler;
  (** the values [next_] has held, newest last *)
  m_hist : list Z;
  (** the threads inside [should_sample] *)
  m_threads : gmap nat tstate;
  (** the sample points claimed so far: the launch that won, and the point *)
  m_claims : list (Z * Z);
}.

Definition machine_init (period seed : Z) : machine :=
  Machine (Sampler_init period seed) [0] ∅ [].

(** One atomic operation of thread [t].  [i] selects the value a load returns;
    [weak] is a spurious failure. *)
Inductive action :=
| Fetch (t : nat)
| Read (t : nat) (i : nat)
| Try (t : nat) (weak : bool) (i : nat)
| Tally (t : nat).

Definition set_thread (m : machine) (ts : gmap nat tstate) : machine :=
  Machine (m_s m) (m_hist m) ts (m_claims m).

Definition act (m : machine) (a : action) : option machine :=
  let s := m_s m in
  match a with
  | Fetch t =>
      match m_threads m !! t with
      | Some _ => None
      | None =>
          Some (Machine (Sampler (period_ s) (seed_ s) (next_ s) (u64 (observed_ s + 1)) (sampled_ s))
                        (m_hist m) (<[t := Fetched (observed_ s)]> (m_threads m)) (m_claims m))
      end
  | Read t i =>
      match m_threads m !! t, m_hist m !! i with
      | Some (Fetched n), Some v => Some (set_thread m (<[t := Looping n v]> (m_threads m)))
      | _, _ => None
      end
  | Try t weak i =>
      match m_threads m !! t with
      | Some (Looping n next) =>
          if n <? next then Some (set_thread m (delete t (m_threads m)))
          else if (next =? next_ s) && negb weak
          then let next' := u64 (next + gap_at next (period_ s) (seed_ s)) in
               Some (Machine (Sampler (period_ s) (seed_ s) next' (observed_ s) (sampled_ s))
                       (m_hist m ++ [next']) (<[t := Won n next]> (m_threads m))
                       (m_claims m ++ [(n, next)]))
          else match m_hist m !! i with
               | Some v => Some (set_thread m (<[t := Looping n v]> (m_threads m)))
               | None => None
               end
      | _ => None
      end
  | Tally t =>
      match m_threads m !! t with
      | Some (Won n p) =>
          Some (Machine (Sampler (period_ s) (seed_ s) (next_ s) (observed_ s) (u64 (sampled_ s + 1)))
                        (m_hist m) (delete t (m_threads m)) (m_claims m))
      | _ => None
      end
  end.

Fixpoint acts (m : machine) (l : list action) : option machine :=
  match l with [] => Some m | a :: l' => m' ← act m a; acts m' l' end.

(** ** The gap *)

Lemma lxor_u64 a b : is_u64 a -> is_u64 b -> is_u64 (Z.lxor a b).
Proof.
  unfold is_u64. change 18446744073709551616 with (2 ^ 64). intros Ha Hb.
  assert (H0 : 0 <= Z.lxor a b) by (apply Z.lxor_nonneg; lia). split; [done|].
  destruct (Z.eq_dec (Z.lxor a b) 0) as [->|Hn]; [done|].
  apply Z.log2_lt_pow2; [lia|]. eapply Z.le_lt_trans; [apply Z.log2_lxor; lia|].
  assert (Hl : forall x, 0 <= x < 2 ^ 64 -> Z.log2 x < 64).
  { intros x Hx. destruct (Z.eq_dec x 0) as [->|]; [done|]. apply Z.log2_lt_pow2; lia. }
  apply Z.max_lub_lt; apply Hl; lia.
Qed.

Lemma shiftr_u64 a k : 0 <= k -> is_u64 a -> is_u64 (Z.shiftr a k).
Proof.
  unfold is_u64. intros Hk Ha. rewrite Z.shiftr_div_pow2 by done.
  pose proof (Z.pow_pos_nonneg 2 k ltac:(lia) Hk) as Hp. split; [apply Z.div_pos; lia|].
  eapply Z.le_lt_trans; [|apply Ha]. apply Z.div_le_upper_bound; nia.
Qed.

Lemma mix_u64 x : is_u64 x -> is_u64 (mix x).
Proof.
  intros Hx. unfold mix. apply lxor_u64; [|apply shiftr_u64; [done|]]; apply u64_range.
Qed.

(** The multiply-shift lands in the span, and nothing on the way overflows. *)
Lemma lemire r span :
  is_u64 r -> 0 < span < 4294967296 ->
  0 <= Z.shiftr (u64 (Z.shiftr r 32 * span)) 32 < span.
Proof.
  intros Hr Hs. assert (Hh : 0 <= Z.shiftr r 32 < 4294967296).
  { rewrite Z.shiftr_div_pow2 by done. change (2 ^ 32) with 4294967296. word_lia. }
  rewrite u64_small by (unfold is_u64; nia). rewrite Z.shiftr_div_pow2 by done.
  change (2 ^ 32) with 4294967296. split; [apply Z.div_pos; nia|]. apply Z.div_lt_upper_bound; nia.
Qed.

(** The gap as an offset into the band, with no wrapping left. *)
Lemma gap_at_band seq period seed :
  is_u32 period -> is_u64 seed ->
  Z.max 1 (period - period / 2) <= gap_at seq period seed <= Z.max 1 (period + period / 2).
Proof.
  intros Hp Hs. unfold gap_at. destruct (Z.leb_spec period 1) as [H1|H1]; [word_lia|].
  set (k := period / 2). assert (Hk : 1 <= k /\ 2 * k <= period) by (subst k; word_lia).
  assert (Ek : u32 (2 * k) = 2 * k) by (apply u32_small; word_lia). rewrite Ek.
  assert (Esp : u32 (2 * k + 1) = 2 * k + 1) by (apply u32_small; word_lia). rewrite Esp.
  assert (Hr : is_u64 (mix (Z.lxor seed (u64 (seq * 0x9E3779B97F4A7C15)))))
    by (apply mix_u64, lxor_u64; [done|apply u64_range]).
  pose proof (lemire _ (2 * k + 1) Hr ltac:(word_lia)) as Hl.
  set (off := Z.shiftr _ 32) in *. rewrite (u32_small off) by word_lia.
  rewrite !u64_small by word_lia. lia.
Qed.

Lemma gap_pos seq period seed : is_u32 period -> is_u64 seed -> 1 <= gap_at seq period seed < 2 ^ 33.
Proof.
  intros Hp Hs. pose proof (gap_at_band seq period seed Hp Hs). change (2 ^ 33) with 8589934592. word_lia.
Qed.

Lemma sample_gap_eq seq period seed :
  is_u32 period -> is_u64 seed -> SampleGap seq period seed = gap_at seq period seed.
Proof.
  intros Hp Hs. unfold SampleGap, gap_at. destruct (Z.leb_spec period 1); [done|].
  set (k := period / 2). assert (Hk : 1 <= k /\ 2 * k <= period) by (subst k; word_lia).
  rewrite (u64_small (2 * k)), (u32_small (2 * k)) by word_lia.
  rewrite (u64_small (2 * k + 1)), (u32_small (2 * k + 1)) by word_lia.
  assert (Hr : is_u64 (mix (Z.lxor seed (u64 (seq * 0x9E3779B97F4A7C15)))))
    by (apply mix_u64, lxor_u64; [done|apply u64_range]).
  pose proof (lemire _ (2 * k + 1) Hr ltac:(word_lia)) as Hl. change sampleMix with mix.
  by rewrite (u32_small (Z.shiftr _ 32)) by word_lia.
Qed.

(** The distance between sample points stays in its band.  For every
    32-bit period, 64-bit seed and sample point, the gap is between
    [period - period/2] and [period + period/2] and at least 1 (so the chain of
    sample points always advances), no intermediate product overflows into it,
    and the consumer's replica computes the same number bit for bit. *)
Theorem sampler_gap_band seq period seed :
  is_u32 period -> is_u64 seed ->
  Z.max 1 (period - period / 2) <= gap_at seq period seed <= Z.max 1 (period + period / 2) /\
  SampleGap seq period seed = gap_at seq period seed.
Proof. intros Hp Hs. split; [by apply gap_at_band|by apply sample_gap_eq]. Qed.

Lemma sampler_gap_band_witness :
  4 <= gap_at 0 8 kDefaultSeed <= 12 /\ SampleGap 0 8 kDefaultSeed = gap_at 0 8 kDefaultSeed.
Proof. apply (sampler_gap_band 0 8 kDefaultSeed); by vm_compute. Defined.

(** The vectors the two test suites share. *)
Example gap_pins :
  map (fun s => gap_at s 8 kDefaultSeed) [0; 1; 2; 3; 4; 5; 6; 7; 8; 9] = [11; 4; 9; 6; 4; 8; 4; 8; 9; 5] /\
  map (fun s => gap_at s 3 kDefaultSeed) [0; 1; 2; 3; 4; 5; 6; 7; 8; 9] = [4; 2; 3; 2; 2; 3; 2; 3; 3; 2].
Proof. vm_compute. done. Qed.
Example count_pins : SampledCount 500 8 kDefaultSeed = 58 /\ SampledCount 4000 8 kDefaultSeed = 505.
Proof. vm_compute. done. Qed.

(** ** One thread: the schedule *)

Section sequential.
  Context (period seed : Z) (Hp : is_u32 period) (Hs : is_u64 seed).

Lemma schedule_done fuel launches seq : launches <= seq -> schedule_from fuel launches period seed seq = [].
Proof using Type. intros H. destruct fuel; simpl; [done|]. by rewrite (proj2 (Z.ltb_ge _ _)). Qed.

Lemma launch_many_spec n o p c fuel :
  0 <= o -> o <= p -> o + Z.of_nat n < 2 ^ 63 -> o + Z.of_nat n - p <= Z.of_nat fuel ->
  let r := launch_many n (Sampler period seed p o (u64 c)) in
  r.1 = schedule_from fuel (o + Z.of_nat n) period seed p /\
  observed_ r.2 = o + Z.of_nat n /\ sampled_ r.2 = u64 (c + Z.of_nat (length r.1)).
Proof using Hp Hs.
  change (2 ^ 63) with 9223372036854775808.
  revert o p c fuel. induction n as [|n IH]; intros o p c fuel Ho Hop Hb Hf.
  { simpl. rewrite schedule_done, !Z.add_0_r by lia. done. }
  cbn [launch_many]. unfold should_sample. cbn [observed_ next_ period_ seed_ sampled_].
  assert (Eo : u64 (o + 1) = o + 1) by (apply u64_small; word_lia). rewrite Eo.
  replace (o + Z.of_nat (S n)) with (o + 1 + Z.of_nat n) by lia.
  destruct (Z.ltb_spec o p) as [Hlt|Hge].
  - pose proof (IH (o + 1) p c fuel ltac:(lia) ltac:(lia) ltac:(lia) ltac:(lia)) as (E1 & E2 & E3).
    destruct (launch_many n _) as [hits s']. simpl in *. done.
  - assert (p = o) as -> by lia. destruct fuel as [|fuel]; [lia|]. cbn [schedule_from].
    rewrite (proj2 (Z.ltb_lt o _)), sample_gap_eq by (done || lia).
    pose proof (gap_pos o period seed Hp Hs) as Hg. change (2 ^ 33) with 8589934592 in Hg.
    assert (Ec : u64 (u64 c + 1) = u64 (c + 1)) by (unfold u64; by rewrite Z.add_mod_idemp_l).
    rewrite Ec, (u64_small (o + gap_at o period seed)) by word_lia.
    pose proof (IH (o + 1) (o + gap_at o period seed) (c + 1) fuel ltac:(lia) ltac:(lia) ltac:(lia)
      ltac:(lia)) as (E1 & E2 & E3).
    destruct (launch_many n _) as [hits s']. simpl in *. rewrite E1, E3. split_and!; [done|done|].
    f_equal. rewrite E1. lia.
Qed.

Lemma count_from_length fuel launches seq n :
  count_from fuel launches period seed seq (u64 n)
  = u64 (n + Z.of_nat (length (schedule_from fuel launches period seed seq))).
Proof using Type.
  revert seq n. induction fuel as [|fuel IH]; intros seq n; simpl; [by rewrite Z.add_0_r|].
  destruct (seq <? launches); simpl; [|by rewrite Z.add_0_r].
  replace (u64 (u64 n + 1)) with (u64 (n + 1)) by (unfold u64; by rewrite Z.add_mod_idemp_l).
  rewrite IH. f_equal. lia.
Qed.
End sequential.

(** C24: With launches from one thread, the consumer's schedule is the set of
    launches that carry a stack.  After any number of launches the ordinals that
    [should_sample] accepted are exactly [SampleSchedule], starting with launch
    0, and [sampled()] is exactly [SampledCount]; a period of 0 is taken as 1 on
    both sides.  The loop bounds of the replica are never the reason it stops. *)
Theorem sampler_schedule_exact period seed launches :
  is_u32 period -> is_u64 seed -> Z.of_nat launches < 2 ^ 63 ->
  let r := launch_many launches (Sampler_init period seed) in
  r.1 = SampleSchedule (Z.of_nat launches) period seed /\
  sampled_ r.2 = SampledCount (Z.of_nat launches) period seed /\
  observed_ r.2 = Z.of_nat launches /\
  forall fuel, (launches <= fuel)%nat ->
    schedule_from fuel (Z.of_nat launches) (if period =? 0 then 1 else period) seed 0 = r.1.
Proof.
  intros Hp Hs Hl r. unfold SampleSchedule, SampledCount. rewrite Nat2Z.id.
  assert (Hp' : is_u32 (if period =? 0 then 1 else period)) by (destruct (period =? 0); word_lia).
  assert (H : forall fuel, (launches <= fuel)%nat -> _) by
    (intros fuel Hf; exact (launch_many_spec _ seed Hp' Hs launches 0 0 0 fuel ltac:(lia) ltac:(lia)
       ltac:(lia) ltac:(lia))).
  change (Sampler _ seed 0 0 (u64 0)) with (Sampler_init period seed) in H. rewrite Z.add_0_l in H.
  fold r in H. destruct (H launches ltac:(lia)) as (E1 & E2 & E3). split_and!; try done.
  - pose proof (count_from_length (if period =? 0 then 1 else period) seed launches (Z.of_nat launches) 0 0)
      as Ec. change (u64 0) with 0 in Ec. by rewrite Ec, E3, E1.
  - intros fuel Hf. by destruct (H fuel Hf) as [<- _].
Qed.

Lemma sampler_schedule_exact_witness :
  let r := launch_many 40 (Sampler_init 8 kDefaultSeed) in
  r.1 = SampleSchedule (Z.of_nat 40) 8 kDefaultSeed /\
  sampled_ r.2 = SampledCount (Z.of_nat 40) 8 kDefaultSeed /\
  observed_ r.2 = Z.of_nat 40 /\
  forall fuel, (40 <= fuel)%nat ->
    schedule_from fuel (Z.of_nat 40) (if 8 =? 0 then 1 else 8) kDefaultSeed 0 = r.1.
Proof.
  refine (sampler_schedule_exact 8 kDefaultSeed 40 _ _ _); [done|done|reflexivity].
Defined.

Example schedule_demo : (launch_many 40 (Sampler_init 8 kDefaultSeed)).1 = [0; 11; 19; 31; 38].
Proof. vm_compute. done. Qed.

(** Changing the period re-arms: the next launch is sampled. *)
Lemma set_period_rearms p s : (should_sample (set_period p s)).1 = true.
Proof. unfold should_sample, set_period. simpl. by rewrite Z.ltb_irrefl. Qed.

(** ** Concurrent launches *)

Section concurrent.
  Context (period seed : Z) (Hp : is_u32 period) (Hs : is_u64 seed).
  Local Abbreviation per := (if period =? 0 then 1 else period).

(** The sample points. *)
Fixpoint pt (i : nat) : Z := match i with O => 0 | S i' => pt i' + gap_at (pt i') per seed end.

Lemma per_u32 : is_u32 per.
Proof using Hp. destruct (period =? 0); [by vm_compute|done]. Qed.

Lemma pt_step i : pt i + 1 <= pt (S i) < pt i + 2 ^ 33.
Proof using Hp Hs. simpl. pose proof (gap_pos (pt i) per seed per_u32 Hs). lia. Qed.

Lemma pt_mono i j : (i <= j)%nat -> pt i <= pt j.
Proof using Hp Hs. induction 1 as [|j _ IH]; [done|]. pose proof (pt_step j). lia. Qed.

Lemma pt_nonneg i : 0 <= pt i.
Proof using Hp Hs. by apply (pt_mono 0 i); lia. Qed.

(** Points below [launches] are the start of the schedule. *)
Lemma points_schedule launches j i fuel :
  launches < 2 ^ 63 -> launches - pt i <= Z.of_nat fuel ->
  (forall x, (i <= x < i + j)%nat -> pt x < launches) ->
  map pt (seq i j) `prefix_of` schedule_from fuel launches per seed (pt i).
Proof using Hp Hs.
  intros Hl. revert i fuel. induction j as [|j IH]; intros i fuel Hf Hx; [apply prefix_nil|].
  pose proof (Hx i ltac:(lia)) as Hi. destruct fuel as [|fuel]; [lia|]. cbn [seq map schedule_from].
  rewrite (proj2 (Z.ltb_lt _ _) Hi), sample_gap_eq by (apply per_u32 || done).
  apply prefix_cons. pose proof (pt_step i) as Hstep. pose proof (pt_nonneg i).
  change (pt i + gap_at (pt i) per seed) with (pt (S i)).
  change (2 ^ 63) with 9223372036854775808 in Hl. change (2 ^ 33) with 8589934592 in Hstep.
  rewrite u64_small by word_lia. apply IH; [lia|]. intros x Hx'. apply Hx. lia.
Qed.

(** The ordinal of a thread that has not won. *)
Definition racing (x : tstate) : option Z :=
  match x with Fetched n => Some n | Looping n _ => Some n | Won _ _ => None end.
Definition is_won (x : tstate) : Prop := match x with Won _ _ => True | _ => False end.
#[local] Instance is_won_dec x : Decision (is_won x).
Proof using Type. destruct x; simpl; apply _. Defined.

Definition won_count (ts : gmap nat tstate) : nat := size (filter (fun kx => is_won kx.2) ts).

(** [k] bounds the number of launches so far. *)
Record minv (k : Z) (m : machine) : Prop := {
  mi_period : period_ (m_s m) = per;
  mi_seed : seed_ (m_s m) = seed;
  mi_observed : 0 <= observed_ (m_s m) <= k;
  mi_hist : m_hist m = map pt (seq 0 (S (length (m_claims m))));
  mi_next : next_ (m_s m) = pt (length (m_claims m));
  mi_points : map snd (m_claims m) = map pt (seq 0 (length (m_claims m)));
  mi_late : Forall (fun c => c.2 <= c.1 < observed_ (m_s m)) (m_claims m);
  mi_nodup : NoDup (map fst (m_claims m));
  mi_race : forall t x n, m_threads m !! t = Some x -> racing x = Some n ->
    0 <= n < observed_ (m_s m) /\ (n ∉ map fst (m_claims m)) /\
    forall t' x', m_threads m !! t' = Some x' -> racing x' = Some n -> t' = t;
  mi_loop : forall t n v, m_threads m !! t = Some (Looping n v) -> (v ∈ m_hist m);
  mi_len : Z.of_nat (length (m_claims m)) <= k;
  mi_sampled : 0 <= sampled_ (m_s m);
  mi_tally : sampled_ (m_s m) + Z.of_nat (won_count (m_threads m)) = Z.of_nat (length (m_claims m));
}.

Lemma init_minv k : 0 <= k -> minv k (machine_init period seed).
Proof using Type. intros Hk. split; try done; try constructor. Qed.

Definition nonwon (ts : gmap nat tstate) (t : nat) : Prop :=
  match ts !! t with Some x => ~ is_won x | None => True end.

Lemma won_delete ts t : nonwon ts t -> won_count (delete t ts) = won_count ts.
Proof using Type.
  intros Hn. unfold won_count. rewrite map_filter_delete. f_equal. apply delete_id.
  apply map_lookup_filter_None. unfold nonwon in Hn. destruct (ts !! t) as [x|]; [|by left].
  right. intros y [= <-]. done.
Qed.

Lemma won_insert ts t x : ~ is_won x -> nonwon ts t -> won_count (<[t := x]> ts) = won_count ts.
Proof using Type.
  intros Hx Hn. unfold won_count. rewrite map_filter_insert_False by done.
  exact (won_delete ts t Hn).
Qed.

Lemma won_insert_won ts t x : is_won x -> nonwon ts t -> won_count (<[t := x]> ts) = S (won_count ts).
Proof using Type.
  intros Hx Hn. unfold won_count. rewrite map_filter_insert_True by done.
  apply map_size_insert_None, map_lookup_filter_None. unfold nonwon in Hn.
  destruct (ts !! t) as [y|]; [|by left]. right. intros z [= <-]. done.
Qed.

Lemma won_delete_won ts t x :
  ts !! t = Some x -> is_won x -> won_count ts = S (won_count (delete t ts)).
Proof using Type.
  intros Ht Hx. rewrite <- (insert_id ts t x) at 1 by done. rewrite <- insert_delete_eq.
  apply won_insert_won; [done|]. unfold nonwon. by rewrite lookup_delete_eq.
Qed.

(** Thread [t] moves without changing its ordinal and without winning, or
    leaves without having won. *)
Lemma race_minv k m t ts :
  minv k m -> nonwon (m_threads m) t ->
  (forall t' x', ts !! t' = Some x' -> t' <> t -> m_threads m !! t' = Some x') ->
  (forall x', ts !! t = Some x' ->
     exists x n, m_threads m !! t = Some x /\ racing x = Some n /\ racing x' = Some n /\
       (forall v, x' = Looping n v -> v ∈ m_hist m)) ->
  won_count ts = won_count (m_threads m) ->
  minv k (set_thread m ts).
Proof using Type.
  intros [] Hn Hother Hself Hw. split; try done; simpl.
  - intros t1 x1 n1 H1 R1.
    assert (Hold : forall t2 x2, ts !! t2 = Some x2 -> racing x2 = Some n1 ->
      exists x, m_threads m !! t2 = Some x /\ racing x = Some n1).
    { intros t2 x2 H2 R2. destruct (decide (t2 = t)) as [->|Hne]; [|by exists x2; eauto].
      destruct (Hself x2 H2) as (x & n & Hx & Rx & Rx2 & _). exists x. by simplify_eq. }
    destruct (Hold t1 x1 H1 R1) as (y & Hy & Ry). destruct (mi_race0 t1 y n1 Hy Ry) as (A & B & C).
    split_and!; try done; try apply A. intros t2 x2 H2 R2. destruct (Hold t2 x2 H2 R2) as (z & Hz & Rz).
    by eapply C.
  - intros t1 n1 v1 H1. destruct (decide (t1 = t)) as [->|Hne]; [|by eapply mi_loop0, Hother].
    destruct (Hself _ H1) as (x & n & _ & _ & Rn & Hv). simpl in Rn. simplify_eq. by apply Hv.
  - by rewrite Hw.
Qed.

Lemma weaken_minv k m : minv k m -> minv (k + 1) m.
Proof using Type. intros []. split; try done; lia. Qed.

Lemma fetch_minv k m m' t : minv k m -> 0 <= k < 2 ^ 63 -> act m (Fetch t) = Some m' -> minv (k + 1) m'.
Proof using Hp Hs.
  change (2 ^ 63) with 9223372036854775808. intros [] Hk. simpl.
  destruct (m_threads m !! t) as [|] eqn:Et; [done|]. intros [= <-].
  assert (Eo : u64 (observed_ (m_s m) + 1) = observed_ (m_s m) + 1) by (apply u64_small; word_lia).
  split; try done; simpl; rewrite ?Eo.
  - lia.
  - eapply List.Forall_impl; [|exact mi_late0]. simpl. lia.
  - assert (Hnew : forall n, n ∈ map fst (m_claims m) -> n < observed_ (m_s m)).
    { intros n (c & -> & Hc)%list_elem_of_fmap. rewrite List.Forall_forall in mi_late0.
      by apply mi_late0, list_elem_of_In. }
    intros t1 x1 n1 H1 R1. apply lookup_insert_Some in H1 as [[<- <-]|[Hne H1]].
    + injection R1 as <-. split_and!; try lia; [intros Hin%Hnew; lia|].
      intros t2 x2 [[<- _]|[_ H2]]%lookup_insert_Some R2; [done|].
      destruct (mi_race0 t2 x2 _ H2 R2) as [? _]. lia.
    + destruct (mi_race0 t1 x1 n1 H1 R1) as (A & B & C). split_and!; try done; try lia.
      intros t2 x2 [[<- <-]|[_ H2]]%lookup_insert_Some R2; [simpl in R2; simplify_eq; lia|by eapply C].
  - intros t1 n1 v1 [[_ ?]|[_ H1]]%lookup_insert_Some; [done|by eapply mi_loop0].
  - lia.
  - rewrite won_insert; [done|by intros []|]. unfold nonwon. by rewrite Et.
Qed.

Lemma racing_not_won x n : racing x = Some n -> ~ is_won x.
Proof using Type. by destruct x; intros ? []. Qed.

Lemma racing_nonwon ts t x n : ts !! t = Some x -> racing x = Some n -> nonwon ts t.
Proof using Type. intros Ht Hr. unfold nonwon. rewrite Ht. by eapply racing_not_won. Qed.

(** A load, a failed exchange, or the way out with [false]. *)
Lemma move_minv k m t x n x' :
  minv k m -> m_threads m !! t = Some x -> racing x = Some n -> racing x' = Some n ->
  (forall v, x' = Looping n v -> v ∈ m_hist m) ->
  minv k (set_thread m (<[t := x']> (m_threads m))).
Proof using Type.
  intros Hm Ht Rx Rx' Hv. assert (Hn : nonwon (m_threads m) t) by (by eapply racing_nonwon).
  apply (race_minv k m t); try done.
  - intros t' y H Hne. by rewrite lookup_insert_ne in H.
  - intros y Hy. rewrite lookup_insert_eq in Hy. injection Hy as <-. by exists x, n.
  - apply won_insert; [by eapply racing_not_won|done].
Qed.

Lemma leave_minv k m t x n :
  minv k m -> m_threads m !! t = Some x -> racing x = Some n ->
  minv k (set_thread m (delete t (m_threads m))).
Proof using Type.
  intros Hm Ht Rx. assert (Hn : nonwon (m_threads m) t) by (by eapply racing_nonwon).
  apply (race_minv k m t); try done.
  - intros t' y H Hne. by rewrite lookup_delete_ne in H.
  - intros y Hy. by rewrite lookup_delete_eq in Hy.
  - by apply won_delete.
Qed.

Lemma next_point k m :
  minv k m -> 0 <= k < 2 ^ 63 -> pt (length (m_claims m)) <= k ->
  u64 (next_ (m_s m) + gap_at (next_ (m_s m)) (period_ (m_s m)) (seed_ (m_s m)))
  = pt (S (length (m_claims m))).
Proof using Hp Hs.
  change (2 ^ 63) with 9223372036854775808. intros [] Hk Hle. rewrite mi_next0, mi_period0, mi_seed0.
  pose proof (pt_step (length (m_claims m))) as H. pose proof (pt_nonneg (length (m_claims m))).
  change (2 ^ 33) with 8589934592 in H. simpl in H. simpl. apply u64_small. word_lia.
Qed.

(** A successful exchange: the point moves on and belongs to this launch. *)
Lemma win_minv k m t n :
  let s := m_s m in
  let next := next_ s in
  let next' := u64 (next + gap_at next (period_ s) (seed_ s)) in
  minv k m -> 0 <= k < 2 ^ 63 -> m_threads m !! t = Some (Looping n next) -> next <= n ->
  minv (k + 1) (Machine (Sampler (period_ s) (seed_ s) next' (observed_ s) (sampled_ s))
            (m_hist m ++ [next']) (<[t := Won n next]> (m_threads m)) (m_claims m ++ [(n, next)])).
Proof using Hp Hs.
  intros s next next' Hm Hk Ht Hle.
  destruct (mi_race k m Hm t _ n Ht eq_refl) as (Hn & Hfresh & Huniq).
  assert (En' : next' = pt (S (length (m_claims m)))).
  { apply (next_point k); [done|done|].
    pose proof (mi_observed k m Hm). pose proof (mi_next k m Hm). subst s next. lia. }
  destruct Hm. assert (Elen : length (m_claims m ++ [(n, next)]) = S (length (m_claims m)))
    by (rewrite length_app; simpl; lia).
  split; simpl; rewrite ?Elen; try done.
  - subst s. lia.
  - rewrite mi_hist0, En'. by rewrite (seq_S _ 1), map_app.
  - rewrite seq_S, !map_app, mi_points0. simpl. by rewrite <- mi_next0.
  - apply Forall_app_2; [done|]. constructor; [by split; [|apply Hn]|constructor].
  - rewrite map_app. apply list.NoDup_app. split_and!; [done| |apply NoDup_singleton].
    intros y Hy ->%list_elem_of_singleton. by apply Hfresh.
  - intros t1 x1 n1 H1 R1. apply lookup_insert_Some in H1 as [[_ <-]|[Hne H1]]; [done|].
    destruct (mi_race0 t1 x1 n1 H1 R1) as (A & B & C). split_and!; try done; try apply A.
    + rewrite map_app, not_elem_of_app. split; [done|]. simpl. intros ->%list_elem_of_singleton.
      apply Hne. symmetry. by eapply Huniq.
    + intros t2 x2 [[_ <-]|[_ H2]]%lookup_insert_Some R2; [done|by eapply C].
  - intros t1 n1 v1 [[_ ?]|[_ H1]]%lookup_insert_Some; [done|]. apply elem_of_app. left.
    by eapply mi_loop0.
  - lia.
  - rewrite won_insert_won; [|done|unfold nonwon; rewrite Ht; by intros []].
    subst s. lia.
Qed.

Lemma tally_minv k m m' t : minv k m -> 0 <= k < 2 ^ 63 -> act m (Tally t) = Some m' -> minv k m'.
Proof using Hp Hs.
  change (2 ^ 63) with 9223372036854775808. intros [] Hk. simpl.
  destruct (m_threads m !! t) as [[| |n p]|] eqn:Et; try done. intros [= <-].
  rewrite (won_delete_won _ t _ Et I) in mi_tally0.
  assert (Eu : u64 (sampled_ (m_s m) + 1) = sampled_ (m_s m) + 1) by (apply u64_small; word_lia).
  split; try done; simpl; rewrite ?Eu.
  - intros t1 x1 n1 [Hne H1]%lookup_delete_Some R1. destruct (mi_race0 t1 x1 n1 H1 R1) as (A & B & C).
    split_and!; try done; try apply A. intros t2 x2 [_ H2]%lookup_delete_Some. by apply C.
  - intros t1 n1 v1 [_ H1]%lookup_delete_Some. by eapply mi_loop0.
  - lia.
  - lia.
Qed.

Lemma act_minv k m m' a : minv k m -> 0 <= k < 2 ^ 63 -> act m a = Some m' -> minv (k + 1) m'.
Proof using Hp Hs.
  intros Hm Hk Ha. destruct a as [t|t i|t weak i|t]; [by eapply fetch_minv| | |].
  - apply weaken_minv. simpl in Ha. destruct (m_threads m !! t) as [[n| |]|] eqn:Et; try done.
    destruct (m_hist m !! i) as [v|] eqn:Ev; [|done]. injection Ha as <-.
    eapply (move_minv k m t _ n); try done. intros v' [= <-]. by eapply list_elem_of_lookup_2.
  - simpl in Ha. destruct (m_threads m !! t) as [[|n next|]|] eqn:Et; try done.
    destruct (Z.ltb_spec n next) as [|Hge];
      [injection Ha as <-; by apply weaken_minv; eapply leave_minv|].
    destruct (Z.eqb_spec next (next_ (m_s m))) as [->|]; simpl in Ha.
    1: destruct weak; simpl in Ha; [|injection Ha as <-; by eapply win_minv].
    all: apply weaken_minv; destruct (m_hist m !! i) as [v|] eqn:Ev; [|done]; injection Ha as <-;
      eapply (move_minv k m t _ n); try done; intros v' [= <-]; by eapply list_elem_of_lookup_2.
  - apply weaken_minv. by eapply tally_minv.
Qed.

Lemma acts_minv k m m' l :
  minv k m -> 0 <= k -> k + Z.of_nat (length l) < 2 ^ 63 -> acts m l = Some m' ->
  minv (k + Z.of_nat (length l)) m'.
Proof using Hp Hs.
  revert k m. induction l as [|a l IH]; intros k m Hm Hk Hb Ha; simpl in *.
  { injection Ha as <-. by rewrite Z.add_0_r. }
  destruct (act m a) as [m1|] eqn:E; [|done]. simpl in Ha.
  replace (k + Z.of_nat (S (length l))) with (k + 1 + Z.of_nat (length l)) in * by lia.
  apply (IH _ m1); try done; try lia. eapply act_minv; [exact Hm|lia|done].
Qed.

Lemma schedule_length fuel launches seq : (length (schedule_from fuel launches per seed seq) <= fuel)%nat.
Proof using Type.
  revert seq. induction fuel as [|fuel IH]; intros seq; simpl; [done|].
  destruct (seq <? launches); simpl; [|lia]. pose proof (IH (u64 (seq + SampleGap seq per seed))). lia.
Qed.

Lemma count_schedule launches :
  0 <= launches < 2 ^ 63 ->
  SampledCount launches period seed = Z.of_nat (length (SampleSchedule launches period seed)).
Proof using Hp Hs.
  change (2 ^ 63) with 9223372036854775808. intros Hl. unfold SampledCount, SampleSchedule.
  pose proof (schedule_length (Z.to_nat launches) launches 0) as H.
  change (count_from (Z.to_nat launches) launches per seed 0 0)
    with (count_from (Z.to_nat launches) launches per seed 0 (u64 0)).
  rewrite count_from_length. apply u64_small. word_lia.
Qed.

Lemma claim_point k m x c : minv k m -> m_claims m !! x = Some c -> pt x = c.2.
Proof using Type.
  intros Hm Hc. assert (E : map snd (m_claims m) !! x = Some c.2)
    by (change (map snd) with (fmap (M := list) (@snd Z Z)); by rewrite list_lookup_fmap, Hc).
  rewrite (mi_points k m Hm) in E. change (map pt) with (fmap (M := list) pt) in E.
  apply lookup_lt_Some in Hc. rewrite list_lookup_fmap, lookup_seq_lt in E by lia.
  simpl in E. by injection E.
Qed.

Lemma claims_schedule k m :
  minv k m -> 0 <= k < 2 ^ 63 ->
  map snd (m_claims m) `prefix_of` SampleSchedule (observed_ (m_s m)) period seed.
Proof using Hp Hs.
  intros Hm Hk. rewrite (mi_points k m Hm). unfold SampleSchedule.
  change (schedule_from (Z.to_nat (observed_ (m_s m))) (observed_ (m_s m)) per seed 0)
    with (schedule_from (Z.to_nat (observed_ (m_s m))) (observed_ (m_s m)) per seed (pt 0)).
  pose proof (mi_observed k m Hm). apply points_schedule; [lia|change (pt 0) with 0; lia|].
  intros x Hx. assert (Hlk : exists c, m_claims m !! x = Some c) by (apply lookup_lt_is_Some_2; lia).
  destruct Hlk as [c Hc]. rewrite (claim_point k m x c Hm Hc).
  pose proof (list.Forall_lookup_1 _ _ _ _ (mi_late k m Hm) Hc). simpl in *. lia.
Qed.

(** C26: Concurrent launches share one chain of sample points.  Take any
    interleaving of the atomic operations of any number of threads inside
    [should_sample], with stale loads and spurious failures.  The sample points
    claimed so far are exactly the beginning of [SampleSchedule], each claimed
    once and in order; no launch claims two; a point is never claimed by a launch
    that comes before it; [sampled()] never exceeds [SampledCount], and once no
    thread is inside it is the number of points claimed. *)
Theorem sampler_concurrent l m :
  acts (machine_init period seed) l = Some m -> Z.of_nat (length l) < 2 ^ 63 ->
  let launches := observed_ (m_s m) in
  map snd (m_claims m) `prefix_of` SampleSchedule launches period seed /\
  NoDup (map fst (m_claims m)) /\
  Forall (fun c => c.2 <= c.1 < launches) (m_claims m) /\
  sampled_ (m_s m) <= SampledCount launches period seed /\
  (m_threads m = ∅ -> sampled_ (m_s m) = Z.of_nat (length (m_claims m))).
Proof using Hp Hs.
  intros Ha Hl launches.
  pose proof (acts_minv 0 _ m l (init_minv 0 ltac:(lia)) ltac:(lia) Hl Ha) as Hm.
  rewrite Z.add_0_l in Hm. pose proof (claims_schedule _ m Hm ltac:(lia)) as Hpre.
  pose proof (mi_observed _ _ Hm). pose proof (mi_tally _ _ Hm) as Ht. split_and!; try done.
  - apply (mi_nodup _ _ Hm).
  - apply (mi_late _ _ Hm).
  - rewrite count_schedule by lia. apply prefix_length in Hpre. rewrite length_map in Hpre.
    subst launches. lia.
  - intros E. rewrite E in Ht. change (won_count ∅) with 0%nat in Ht. lia.
Qed.

(** The next operation of a thread no other thread disturbs: loads are fresh
    and the exchange does not fail spuriously. *)
Definition alone (t : nat) (m : machine) : option machine :=
  let latest := length (m_claims m) in
  match m_threads m !! t with
  | Some (Fetched _) => act m (Read t latest)
  | Some (Looping _ _) => act m (Try t false latest)
  | Some (Won _ _) => act m (Tally t)
  | None => Some m
  end.

Lemma latest_next k m : minv k m -> m_hist m !! length (m_claims m) = Some (next_ (m_s m)).
Proof using Type.
  intros Hm. rewrite (mi_hist k m Hm), (mi_next k m Hm). change (map pt) with (fmap (M := list) pt).
  by rewrite list_lookup_fmap, lookup_seq_lt by lia.
Qed.

Lemma alone_won t m n p :
  m_threads m !! t = Some (Won n p) ->
  exists m', alone t m = Some m' /\ m_threads m' = delete t (m_threads m).
Proof using Type. intros Ht. unfold alone. rewrite Ht. simpl. rewrite Ht. eauto. Qed.

(** With the current point in hand, one more test decides. *)
Lemma alone_fresh t m n :
  m_threads m !! t = Some (Looping n (next_ (m_s m))) ->
  exists m', alone t m ≫= alone t = Some m' /\ m_threads m' = delete t (m_threads m).
Proof using Type.
  intros Ht. unfold alone at 2. rewrite Ht. simpl. rewrite Ht.
  destruct (n <? next_ (m_s m)); simpl.
  - unfold alone. simpl. rewrite lookup_delete_eq. by eexists.
  - rewrite Z.eqb_refl. simpl. set (m1 := Machine _ _ _ _).
    destruct (alone_won t m1 n (next_ (m_s m))) as (m' & E & Hm'); [apply lookup_insert_eq|].
    exists m'. split; [done|]. rewrite Hm'. simpl. by rewrite delete_insert_eq.
Qed.

(** A thread at the loop, with any value of [next_] in hand. *)
Lemma alone_loop k t m n v :
  minv k m -> m_threads m !! t = Some (Looping n v) ->
  exists m', (alone t m ≫= alone t) ≫= alone t = Some m' /\ m_threads m' = delete t (m_threads m).
Proof using Type.
  intros Hm Ht. destruct (Z.eq_dec v (next_ (m_s m))) as [->|Hne].
  - destruct (alone_fresh t m n Ht) as (m' & -> & Hm'). exists m'. split; [|done]. simpl.
    unfold alone. by rewrite Hm', lookup_delete_eq.
  - unfold alone at 3. rewrite Ht. simpl. rewrite Ht. destruct (n <? v); simpl.
    + unfold alone at 2. simpl. rewrite lookup_delete_eq. simpl. unfold alone. simpl.
      rewrite lookup_delete_eq. by eexists.
    + rewrite (proj2 (Z.eqb_neq _ _) Hne). simpl. rewrite (latest_next k m Hm). simpl.
      set (m1 := set_thread _ _).
      destruct (alone_fresh t m1 n) as (m' & E & Hm'); [apply lookup_insert_eq|].
      exists m'. split; [exact E|]. rewrite Hm'. simpl. by rewrite delete_insert_eq.
Qed.

(** A launch cannot hang in the sampler.  From every state the application
    can reach, a thread inside [should_sample] that is left undisturbed returns
    within three of its own atomic operations, whatever the other threads are in
    the middle of, and without moving them. *)
Theorem sampler_launch_returns l m t x :
  acts (machine_init period seed) l = Some m -> Z.of_nat (length l) < 2 ^ 63 ->
  m_threads m !! t = Some x ->
  exists m', (alone t m ≫= alone t) ≫= alone t = Some m' /\ m_threads m' = delete t (m_threads m).
Proof using Hp Hs.
  intros Ha Hl Ht.
  pose proof (acts_minv 0 _ m l (init_minv 0 ltac:(lia)) ltac:(lia) Hl Ha) as Hm.
  destruct x as [n|n v|n p]; [|by eapply alone_loop|].
  - unfold alone at 3. rewrite Ht. simpl. rewrite Ht, (latest_next _ m Hm). simpl.
    set (m1 := set_thread _ _).
    destruct (alone_fresh t m1 n) as (m' & E & Hm'); [apply lookup_insert_eq|].
    exists m'. split; [exact E|]. rewrite Hm'. simpl. by rewrite delete_insert_eq.
  - destruct (alone_won t m n p Ht) as (m' & -> & Hm'). exists m'. split; [|done]. simpl.
    assert (E : alone t m' = Some m') by (unfold alone; by rewrite Hm', lookup_delete_eq).
    by rewrite E.
Qed.
End concurrent.

(** Two threads at period 1.  The one with ordinal 1 exchanges first and takes
    point 0; point 1 is then past the other one's ordinal. *)
Definition overtaking : list action :=
  [Fetch 0; Fetch 1; Read 1 0; Try 1 false 0; Tally 1; Read 0 1; Try 0 false 0].
Definition overtaken : machine :=
  Machine (Sampler 1 kDefaultSeed 1 2 1) [0; 1] ∅ [(1, 0)].
Lemma overtaking_runs : acts (machine_init 1 kDefaultSeed) overtaking = Some overtaken.
Proof. vm_compute. done. Qed.

(** Concurrent launches can be sampled less often than the schedule says, also
    at period 1: with no thread left inside, 1 of 2 launches carried a stack
    where [SampledCount] is 2. *)
Theorem sampler_undercounts :
  exists l m, acts (machine_init 1 kDefaultSeed) l = Some m /\ m_threads m = ∅ /\
    observed_ (m_s m) = 2 /\ sampled_ (m_s m) = 1 /\ SampledCount 2 1 kDefaultSeed = 2.
Proof. exists overtaking, overtaken. split; [apply overtaking_runs|]. by vm_compute. Qed.

Lemma sampler_concurrent_witness :
  let launches := observed_ (m_s overtaken) in
  map snd (m_claims overtaken) `prefix_of` SampleSchedule launches 1 kDefaultSeed /\
  NoDup (map fst (m_claims overtaken)) /\
  Forall (fun c => c.2 <= c.1 < launches) (m_claims overtaken) /\
  sampled_ (m_s overtaken) <= SampledCount launches 1 kDefaultSeed /\
  (m_threads overtaken = ∅ -> sampled_ (m_s overtaken) = Z.of_nat (length (m_claims overtaken))).
Proof.
  apply (sampler_concurrent 1 kDefaultSeed ltac:(by vm_compute) ltac:(by vm_compute) overtaking overtaken
    overtaking_runs). by vm_compute.
Defined.

Definition two_inside : machine :=
  Machine (Sampler 1 kDefaultSeed 1 2 0) [0; 1] {[0%nat := Fetched 0; 1%nat := Won 1 0]} [(1, 0)].

Lemma sampler_launch_returns_witness :
  exists m', (alone 0 two_inside ≫= alone 0) ≫= alone 0 = Some m' /\
    m_threads m' = delete 0%nat (m_threads two_inside).
Proof.
  apply (sampler_launch_returns 1 kDefaultSeed ltac:(by vm_compute) ltac:(by vm_compute)
    [Fetch 0; Fetch 1; Read 1 0; Try 1 false 0] two_inside 0 (Fetched 0)); by vm_compute.
Defined.
