(* ===== verification/CubinQueue.v ===== *)
(** * CubinQueue: capturing a module's code on the application's thread

    Models src/shim/core/cubinqueue.h and cubinqueue.cc.  [capture] runs inside
    the vendor's callback on any application thread and only copies; [settle]
    runs on the adapter's thread, computes the CRC and queues the copy; [drain]
    offers the queued copies to the consumer.  The three share a mutex that none
    of them holds across a vendor call or an offer, so they interleave: the
    model is a machine whose steps are the critical sections and the calls made
    between them.  Copies live in a heap, [free] of anything but a live block is
    a fault, and the code a thread holds between two steps is its state. *)
From S2P Require Import Prelude.

(** ** The heap *)

Record heap := Heap { h_blocks : gmap nat (list Z); h_next : nat }.

(** [malloc] and the copy into the new block. *)
Definition h_alloc (bs : list Z) (h : heap) : nat * heap :=
  (h_next h, Heap (<[h_next h := bs]> (h_blocks h)) (S (h_next h))).

(** [free]: false is undefined behaviour. *)
Definition h_free (p : nat) (h : heap) : bool * heap :=
  (bool_decide (is_Some (h_blocks h !! p)), Heap (delete p (h_blocks h)) (h_next h)).

(** ** The queue *)

(** [CubinView]: a null pointer, or the bytes of the vendor's buffer. *)
Definition cubin_view := option (list Z).
Definition view_size (v : cubin_view) : Z := match v with Some bs => Z.of_nat (length bs) | None => 0 end.
Definition view_empty (v : cubin_view) : bool :=
  match v with None => true | Some bs => view_size v =? 0 end.

(** [copy_to] into an owned buffer of [cap] bytes: what the buffer holds then,
    or no copy. *)
Definition copy_to (v : cubin_view) (cap : Z) : option (list Z) :=
  match v with
  | Some bs => if (view_size v =? 0) || (cap <? view_size v) then None else Some bs
  | None => None
  end.

Record CubinQueueLimits := Limits {
  max_entries : Z;
  max_queued_bytes : Z;
  max_cubin_bytes : Z;
  max_interned : Z;
  max_pending_entries : Z;
  max_pending_bytes : Z;
}.
Definition default_limits : CubinQueueLimits :=
  Limits 512 (64 * 1024 * 1024) (8 * 1024 * 1024) 4096 512 (64 * 1024 * 1024).

Record Entry := MkEntry { en_crc : Z; en_module_id : Z; en_load_ns : Z; en_bytes : nat; en_len : Z }.

(** The counters, each with its accessor in the header. *)
Inductive counter :=
| modules_captured | module_reload_skipped | cubin_queue_full | cubin_send_failed | cubin_too_large
| cubin_crc_failed | cubin_alloc_failed | cubin_pending_full | cubins_sent.
#[global] Instance counter_eq_dec : EqDecision counter.
Proof. solve_decision. Defined.

(** Where the settling thread is. *)
Inductive settle_pc :=
| SIdle
| SLoop (done budget : nat)              (* at the loop condition *)
| SHeld (done budget : nat) (e : Entry)  (* popped, before crc *)
| SKeyed (done budget : nat) (e : Entry) (* keyed and announced, before the push *)
| SPushed (done budget : nat) (e : Entry). (* pushed, before interning *)

(** Where a draining thread is. *)
Inductive drain_pc := DLoop (done budget : nat) | DHeld (done budget : nat) (e : Entry).

Record queue := Queue {
  pending_ : list Entry;
  pending_bytes_ : Z;
  q_ : list Entry;
  queued_bytes_ : Z;
  interned_ : gset Z;
  counters : counter -> Z;
  mem : heap;
  (** calls to [free] of a block that was not live *)
  faults : nat;
  (** application threads between their copy and the push *)
  capturing : gmap nat Entry;
  settling : settle_pc;
  draining : gmap nat drain_pc;
  (** what has happened: copies made, records fired by [on_captured], offers
      made with their bytes, and every count *)
  copied : list (list Z);
  announced : list (Z * Z * Z * list Z);
  offered : list (Z * list Z);
  counted : list counter;
}.

Definition queue_init : queue :=
  Queue [] 0 [] 0 ∅ (fun _ => 0) (Heap ∅ 0) 0 ∅ SIdle ∅ [] [] [] [].

(** Updates of one group of fields. *)
Definition count (c : counter) (q : queue) : queue :=
  Queue (pending_ q) (pending_bytes_ q) (q_ q) (queued_bytes_ q) (interned_ q)
    (fun c' => if bool_decide (c' = c) then u64 (counters q c' + 1) else counters q c')
    (mem q) (faults q) (capturing q) (settling q) (draining q) (copied q) (announced q) (offered q)
    (counted q ++ [c]).
Definition set_pending (l : list Entry) (n : Z) (q : queue) : queue :=
  Queue l n (q_ q) (queued_bytes_ q) (interned_ q) (counters q) (mem q) (faults q) (capturing q)
    (settling q) (draining q) (copied q) (announced q) (offered q) (counted q).
Definition set_queue (l : list Entry) (n : Z) (q : queue) : queue :=
  Queue (pending_ q) (pending_bytes_ q) l n (interned_ q) (counters q) (mem q) (faults q) (capturing q)
    (settling q) (draining q) (copied q) (announced q) (offered q) (counted q).
Definition set_interned (s : gset Z) (q : queue) : queue :=
  Queue (pending_ q) (pending_bytes_ q) (q_ q) (queued_bytes_ q) s (counters q) (mem q) (faults q)
    (capturing q) (settling q) (draining q) (copied q) (announced q) (offered q) (counted q).
Definition set_capturing (m : gmap nat Entry) (q : queue) : queue :=
  Queue (pending_ q) (pending_bytes_ q) (q_ q) (queued_bytes_ q) (interned_ q) (counters q) (mem q)
    (faults q) m (settling q) (draining q) (copied q) (announced q) (offered q) (counted q).
Definition set_settling (s : settle_pc) (q : queue) : queue :=
  Queue (pending_ q) (pending_bytes_ q) (q_ q) (queued_bytes_ q) (interned_ q) (counters q) (mem q)
    (faults q) (capturing q) s (draining q) (copied q) (announced q) (offered q) (counted q).
Definition set_draining (m : gmap nat drain_pc) (q : queue) : queue :=
  Queue (pending_ q) (pending_bytes_ q) (q_ q) (queued_bytes_ q) (interned_ q) (counters q) (mem q)
    (faults q) (capturing q) (settling q) m (copied q) (announced q) (offered q) (counted q).
Definition malloc_copy (bs : list Z) (q : queue) : nat * queue :=
  let '(p, h) := h_alloc bs (mem q) in
  (p, Queue (pending_ q) (pending_bytes_ q) (q_ q) (queued_bytes_ q) (interned_ q) (counters q) h
        (faults q) (capturing q) (settling q) (draining q) (copied q ++ [bs]) (announced q) (offered q)
        (counted q)).
Definition free (p : nat) (q : queue) : queue :=
  let '(ok, h) := h_free p (mem q) in
  Queue (pending_ q) (pending_bytes_ q) (q_ q) (queued_bytes_ q) (interned_ q) (counters q) h
    (if ok then faults q else S (faults q)) (capturing q) (settling q) (draining q) (copied q)
    (announced q) (offered q) (counted q).
Definition announce (r : Z * Z * Z * list Z) (q : queue) : queue :=
  Queue (pending_ q) (pending_bytes_ q) (q_ q) (queued_bytes_ q) (interned_ q) (counters q) (mem q)
    (faults q) (capturing q) (settling q) (draining q) (copied q) (announced q ++ [r]) (offered q)
    (counted q).
Definition note_offer (r : Z * list Z) (q : queue) : queue :=
  Queue (pending_ q) (pending_bytes_ q) (q_ q) (queued_bytes_ q) (interned_ q) (counters q) (mem q)
    (faults q) (capturing q) (settling q) (draining q) (copied q) (announced q) (offered q ++ [r])
    (counted q).

Section queue.
  Context (limits_ : CubinQueueLimits).
  (** The vendor's CRC of a byte string; zero means it could not. *)
  Context (crc : list Z -> Z).

(** [capture] up to its mutex: the bounds, [malloc] (which may fail) and the
    copy. *)
Definition capture_copy (t : nat) (view : cubin_view) (module_id load_ns : Z) (alloc_ok : bool)
    (q : queue) : queue :=
  if view_empty view then q
  else
    let len := view_size view in
    if max_cubin_bytes limits_ <? len then count cubin_too_large q
    else if negb alloc_ok then count cubin_alloc_failed q
    else match copy_to view len with
    | None => count cubin_alloc_failed q
    | Some bs =>
        let '(p, q) := malloc_copy bs q in
        set_capturing (<[t := MkEntry 0 module_id load_ns p len]> (capturing q)) q
    end.

(** ... and the rest of it: the critical section, and what follows its early
    return. *)
Definition capture_park (t : nat) (e : Entry) (q : queue) : queue :=
  let q := set_capturing (delete t (capturing q)) q in
  if (max_pending_entries limits_ <=? Z.of_nat (length (pending_ q))) ||
     (max_pending_bytes limits_ <? u64 (pending_bytes_ q + en_len e))
  then count cubin_pending_full (free (en_bytes e) q)
  else set_pending (pending_ q ++ [e]) (u64 (pending_bytes_ q + en_len e)) q.

(** [settle]: one call is [SettleBegin] and then its loop. *)
Definition settle_pop (done budget : nat) (q : queue) : queue :=
  if (done <? budget)%nat then
    match pending_ q with
    | [] => set_settling SIdle q
    | e :: rest =>
        set_settling (SHeld done budget e) (set_pending rest (u64 (pending_bytes_ q - en_len e)) q)
    end
  else set_settling SIdle q.

Definition settle_key (done budget : nat) (e : Entry) (q : queue) : queue :=
  let bs := default [] (h_blocks (mem q) !! en_bytes e) in
  let c := crc bs in
  if c =? 0 then count cubin_crc_failed (free (en_bytes e) (set_settling (SLoop (S done) budget) q))
  else if bool_decide (c ∈ interned_ q)
  then count module_reload_skipped (free (en_bytes e) (set_settling (SLoop (S done) budget) q))
  else
    let e := MkEntry c (en_module_id e) (en_load_ns e) (en_bytes e) (en_len e) in
    announce (en_module_id e, en_load_ns e, c, bs) (set_settling (SKeyed done budget e) q).

Definition settle_push (done budget : nat) (e : Entry) (q : queue) : queue :=
  if (max_entries limits_ <=? Z.of_nat (length (q_ q))) ||
     (max_queued_bytes limits_ <? u64 (queued_bytes_ q + en_len e))
  then count cubin_queue_full (free (en_bytes e) (set_settling (SLoop (S done) budget) q))
  else set_settling (SPushed done budget e)
         (set_queue (q_ q ++ [e]) (u64 (queued_bytes_ q + en_len e)) q).

Definition settle_note (done budget : nat) (e : Entry) (q : queue) : queue :=
  let q := if Z.of_nat (size (interned_ q)) <? max_interned limits_
           then set_interned ({[en_crc e]} ∪ interned_ q) q else q in
  count modules_captured (set_settling (SLoop (S done) budget) q).

(** [drain]: [accepted] is whether the offer was. *)
Definition drain_pop (t : nat) (done budget : nat) (q : queue) : queue :=
  if (done <? budget)%nat then
    match q_ q with
    | [] => set_draining (delete t (draining q)) q
    | e :: rest =>
        set_draining (<[t := DHeld done budget e]> (draining q))
          (set_queue rest (u64 (queued_bytes_ q - en_len e)) q)
    end
  else set_draining (delete t (draining q)) q.

Definition drain_offer (t : nat) (done budget : nat) (e : Entry) (accepted : bool) (q : queue) : queue :=
  let bs := default [] (h_blocks (mem q) !! en_bytes e) in
  let q := set_draining (<[t := DLoop (S done) budget]> (draining q)) (note_offer (en_crc e, bs) q) in
  count (if accepted then cubins_sent else cubin_send_failed) (free (en_bytes e) q).

(** One step of the shim. *)
Inductive qstep :=
| Capture (t : nat) (view : cubin_view) (module_id load_ns : Z) (alloc_ok : bool)
| Park (t : nat)
| SettleBegin
| Settle
| DrainBegin (t : nat)
| Drain (t : nat) (accepted : bool).

Definition qnext (q : queue) (s : qstep) : option queue :=
  match s with
  | Capture t view m l ok =>
      match capturing q !! t with
      | Some _ => None
      | None => Some (capture_copy t view m l ok q)
      end
  | Park t => match capturing q !! t with Some e => Some (capture_park t e q) | None => None end
  | SettleBegin =>
      match settling q with
      | SIdle => Some (set_settling (SLoop 0 (length (pending_ q))) q)
      | _ => None
      end
  | Settle =>
      match settling q with
      | SIdle => None
      | SLoop d b => Some (settle_pop d b q)
      | SHeld d b e => Some (settle_key d b e q)
      | SKeyed d b e => Some (settle_push d b e q)
      | SPushed d b e => Some (settle_note d b e q)
      end
  | DrainBegin t =>
      match draining q !! t with
      | Some _ => None
      | None => Some (set_draining (<[t := DLoop 0 (length (q_ q))]> (draining q)) q)
      end
  | Drain t ok =>
      match draining q !! t with
      | None => None
      | Some (DLoop d b) => Some (drain_pop t d b q)
      | Some (DHeld d b e) => Some (drain_offer t d b e ok q)
      end
  end.

Fixpoint qrun (q : queue) (l : list qstep) : option queue :=
  match l with [] => Some q | s :: l' => q' ← qnext q s; qrun q' l' end.

(** The destructor. *)
Definition destroy (q : queue) : queue :=
  let q := foldl (fun q e => free (en_bytes e) q) q (pending_ q) in
  let q := set_pending [] 0 q in
  let q := foldl (fun q e => free (en_bytes e) q) q (q_ q) in
  set_queue [] 0 q.
End queue.

(** ** Who holds which block *)

Definition cap_hand (e : Entry) : list Entry := [e].
Definition drain_hand (d : drain_pc) : list Entry :=
  match d with DLoop _ _ => [] | DHeld _ _ e => [e] end.
Definition settle_hand (s : settle_pc) : list Entry :=
  match s with SHeld _ _ e => [e] | SKeyed _ _ e => [e] | _ => [] end.

(** The copies that have not been freed: those still being captured, pending,
    being settled, queued, being offered. *)
Definition owned (q : queue) : list Entry :=
  hands cap_hand (capturing q) ++ pending_ q ++ settle_hand (settling q) ++ q_ q ++
  hands drain_hand (draining q).

Definition key (e : Entry) : nat * Z := (en_bytes e, en_len e).
Definition own (q : queue) : list (nat * Z) := key <$> owned q.

(** What a step does to the blocks. *)
Inductive block_step (l : CubinQueueLimits) (q q' : queue) : Prop :=
| BKeep : own q' ≡ₚ own q -> mem q' = mem q -> faults q' = faults q -> copied q' = copied q ->
    block_step l q q'
| BAlloc bs : 0 < Z.of_nat (length bs) <= max_cubin_bytes l -> own q' ≡ₚ (h_next (mem q), Z.of_nat (length bs)) :: own q ->
    mem q' = (h_alloc bs (mem q)).2 -> faults q' = faults q -> copied q' = copied q ++ [bs] ->
    block_step l q q'
| BFree k : own q ≡ₚ k :: own q' -> mem q' = (h_free k.1 (mem q)).2 ->
    faults q' = (if (h_free k.1 (mem q)).1 then faults q else S (faults q)) ->
    copied q' = copied q -> block_step l q q'.

Section blocks.
  Context (limits_ : CubinQueueLimits) (crc : list Z -> Z).

Lemma capture_blocks t v m l ok q :
  capturing q !! t = None -> block_step limits_ q (capture_copy limits_ t v m l ok q).
Proof using Type.
  intros Ht. unfold capture_copy. destruct (view_empty v); [by apply BKeep|].
  destruct (Z.ltb_spec (max_cubin_bytes limits_) (view_size v)); [by apply BKeep|]. destruct ok; [|by apply BKeep].
  destruct (copy_to v (view_size v)) as [bs|] eqn:E; [|by apply BKeep].
  assert (El : view_size v = Z.of_nat (length bs) /\ 0 < view_size v).
  { unfold copy_to in E. destruct v as [bs'|]; [|done]. destruct (Z.eqb_spec (view_size (Some bs')) 0); [done|].
    simpl in *. case_match; [done|]. simplify_eq. lia. }
  apply (BAlloc _ _ _ bs); try done; [lia|]. unfold own, owned. simpl.
  rewrite (hands_insert cap_hand _ _ _ Ht). simpl. by rewrite (proj1 El).
Qed.

Lemma park_blocks t e q :
  capturing q !! t = Some e -> block_step limits_ q (capture_park limits_ t e q).
Proof using Type.
  intros Ht. unfold capture_park. simpl. pose proof (hands_delete cap_hand _ _ _ Ht) as Hd.
  destruct (_ || _).
  - apply (BFree _ _ _ (key e)); try done. unfold own, owned. simpl. by rewrite <- Hd.
  - apply BKeep; try done. unfold own, owned. simpl. rewrite <- Hd, !fmap_app. simpl. solve_Permutation.
Qed.

Lemma settle_blocks q q' : qnext limits_ crc q Settle = Some q' -> block_step limits_ q q'.
Proof using Type.
  simpl. destruct (settling q) as [|d b|d b e|d b e|d b e] eqn:Es; intros [= <-].
  - unfold settle_pop. destruct (d <? b)%nat; [|by apply BKeep; unfold own, owned; rewrite ?Es].
    destruct (pending_ q) as [|e rest] eqn:Ep; apply BKeep; try done; unfold own, owned; simpl;
      rewrite Es, Ep, ?fmap_app; simpl; rewrite ?fmap_app; solve_Permutation.
  - unfold settle_key. destruct (_ =? 0); [|destruct (bool_decide _)].
    1,2: apply (BFree _ _ _ (key e)); try done; unfold own, owned; simpl; rewrite Es, !fmap_app;
      simpl; solve_Permutation.
    apply BKeep; try done. unfold own, owned. simpl. rewrite Es, !fmap_app. csimpl. by rewrite !fmap_app.
  - unfold settle_push. destruct (_ || _).
    + apply (BFree _ _ _ (key e)); try done; unfold own, owned; simpl; rewrite Es, !fmap_app;
        simpl; solve_Permutation.
    + apply BKeep; try done. unfold own, owned. simpl. rewrite Es, !fmap_app. simpl. solve_Permutation.
  - unfold settle_note. apply BKeep; try done; destruct (_ <? _); try done;
      unfold own, owned; simpl; by rewrite Es.
Qed.

Lemma drain_blocks t ok q q' : qnext limits_ crc q (Drain t ok) = Some q' -> block_step limits_ q q'.
Proof using Type.
  simpl. destruct (draining q !! t) as [[d b|d b e]|] eqn:Ed; intros [= <-].
  - pose proof (hands_delete drain_hand _ _ _ Ed) as Hd. simpl in Hd.
    unfold drain_pop. destruct (d <? b)%nat; [destruct (q_ q) as [|e rest] eqn:Eq|].
    1,3: apply BKeep; try done; unfold own, owned; simpl; by rewrite Hd.
    apply BKeep; try done. unfold own, owned. simpl.
    pose proof (hands_update drain_hand _ _ _ (DHeld d b e) Ed) as Hu. simpl in Hu.
    rewrite Hu, Eq, !fmap_app. simpl. solve_Permutation.
  - unfold drain_offer. apply (BFree _ _ _ (key e)); try done. unfold own, owned. simpl.
    pose proof (hands_update drain_hand _ _ _ (DLoop (S d) b) Ed) as Hu. simpl in Hu.
    rewrite <- Hu, !fmap_app. simpl. solve_Permutation.
Qed.

Lemma step_blocks q q' s : qnext limits_ crc q s = Some q' -> block_step limits_ q q'.
Proof using Type.
  destruct s as [t v m l ok|t| | |t|t ok]; intros H; [| | |by apply settle_blocks| |by eapply drain_blocks].
  - simpl in H. destruct (capturing q !! t) eqn:E; [done|]. injection H as <-. by apply capture_blocks.
  - simpl in H. destruct (capturing q !! t) eqn:E; [|done]. injection H as <-. by apply park_blocks.
  - simpl in H. destruct (settling q) eqn:E; try done. injection H as <-. apply BKeep; try done.
    unfold own, owned. simpl. by rewrite E.
  - simpl in H. destruct (draining q !! t) eqn:E; [done|]. injection H as <-. apply BKeep; try done.
    unfold own, owned. simpl. by rewrite (hands_insert drain_hand _ _ _ E).
Qed.
End blocks.

(** ** Memory safety *)

Record mem_inv (q : queue) : Prop := {
  mv_fresh : forall p, is_Some (h_blocks (mem q) !! p) -> (p < h_next (mem q))%nat;
  mv_live : (own q).*1 ≡ₚ (map_to_list (h_blocks (mem q))).*1;
  mv_held : forall k, (k ∈ own q) -> exists bs, h_blocks (mem q) !! k.1 = Some bs /\
    k.2 = Z.of_nat (length bs) /\ (bs ∈ copied q);
  mv_faults : faults q = 0%nat;
}.

Lemma mem_nodup q : mem_inv q -> NoDup (own q).*1.
Proof. intros Hm. rewrite (mv_live q Hm). apply NoDup_fst_map_to_list. Qed.

Lemma mem_init : mem_inv queue_init.
Proof.
  split; simpl; try done.
  - intros p [x Hx]. by rewrite lookup_empty in Hx.
  - by intros k Hk%not_elem_of_nil.
Qed.

Lemma alloc_mem q q' bs :
  mem_inv q -> own q' ≡ₚ (h_next (mem q), Z.of_nat (length bs)) :: own q ->
  mem q' = (h_alloc bs (mem q)).2 -> faults q' = faults q -> copied q' = copied q ++ [bs] ->
  mem_inv q'.
Proof.
  intros [Hf Hl Hh H0] Ho Hm Hfa Hc.
  assert (Hn : h_blocks (mem q) !! h_next (mem q) = None).
  { destruct (_ !! _) eqn:E; [|done]. pose proof (Hf _ (mk_is_Some _ _ E)). lia. }
  split; rewrite ?Hm; simpl.
  - intros p. destruct (decide (p = h_next (mem q))) as [->|Hne]; [lia|].
    rewrite lookup_insert_ne by done. intros Hp%Hf. lia.
  - rewrite Ho, map_to_list_insert by done. simpl. by rewrite Hl.
  - intros k Hk. rewrite Ho in Hk. rewrite Hc. apply elem_of_cons in Hk as [->|Hk].
    + exists bs. simpl. rewrite lookup_insert_eq. split_and!; try done.
      apply elem_of_app. right. apply list_elem_of_here.
    + destruct (Hh k Hk) as (bs' & E & L & C). exists bs'. rewrite lookup_insert_ne by congruence.
      split_and!; try done. apply elem_of_app. by left.
  - by rewrite Hfa.
Qed.

Lemma free_mem q q' k :
  mem_inv q -> own q ≡ₚ k :: own q' -> mem q' = (h_free k.1 (mem q)).2 ->
  faults q' = (if (h_free k.1 (mem q)).1 then faults q else S (faults q)) -> copied q' = copied q ->
  mem_inv q'.
Proof.
  intros Hmi Ho Hm Hfa Hc. pose proof (mem_nodup q Hmi) as Hnd. destruct Hmi as [Hf Hl Hh H0].
  destruct (Hh k) as (bs & E & _); [rewrite Ho; apply list_elem_of_here|].
  rewrite Ho in Hnd. simpl in Hnd. apply list.NoDup_cons in Hnd as [Hk _].
  split; rewrite ?Hm; simpl.
  - intros p [x Hx]. apply lookup_delete_Some in Hx as [_ Hx]. by eapply Hf.
  - apply (Permutation_cons_inv (a := k.1)).
    change (k.1 :: (own q').*1) with ((k :: own q').*1). rewrite <- Ho, Hl.
    by rewrite <- (map_to_list_delete _ _ _ E).
  - intros k' Hk'. destruct (Hh k') as (bs' & E' & L' & C'); [rewrite Ho; by apply list_elem_of_further|].
    exists bs'. rewrite Hc. split_and!; try done. rewrite lookup_delete_ne; [done|].
    intros Heq. apply Hk. rewrite Heq. by apply list_elem_of_fmap_2.
  - rewrite Hfa. simpl. rewrite bool_decide_true by done. done.
Qed.

Lemma step_mem limits_ crc q q' s : mem_inv q -> qnext limits_ crc q s = Some q' -> mem_inv q'.
Proof.
  intros Hm Hs. destruct (step_blocks _ _ _ _ _ Hs) as [Ho E1 E2 E3|bs _ Ho E1 E2 E3|k Ho E1 E2 E3].
  - destruct Hm as [Hf Hl Hh H0]. split; rewrite ?E1, ?E2, ?E3; try done.
    + by rewrite Ho.
    + intros k Hk. rewrite Ho in Hk. by apply Hh.
  - by eapply alloc_mem.
  - by eapply free_mem.
Qed.

(** ** The bounds *)

Record limits_ok (l : CubinQueueLimits) : Prop := {
  lo_entries : 0 <= max_entries l;
  lo_pending : 0 <= max_pending_entries l;
  lo_cubin : 0 <= max_cubin_bytes l;
  lo_queued_bytes : 0 <= max_queued_bytes l < 18446744073709551616 - max_cubin_bytes l;
  lo_pending_bytes : 0 <= max_pending_bytes l < 18446744073709551616 - max_cubin_bytes l;
}.

Definition lens (l : list Entry) : Z := foldr (fun e n => en_len e + n) 0 l.

Lemma lens_app a b : lens (a ++ b) = lens a + lens b.
Proof. induction a as [|e a IH]; simpl; lia. Qed.

Record bounds_inv (l : CubinQueueLimits) (q : queue) : Prop := {
  bv_pending_bytes : pending_bytes_ q = lens (pending_ q);
  bv_queued_bytes : queued_bytes_ q = lens (q_ q);
  bv_pending : Z.of_nat (length (pending_ q)) <= max_pending_entries l /\
    lens (pending_ q) <= max_pending_bytes l;
  bv_queue : Z.of_nat (length (q_ q)) <= max_entries l /\ lens (q_ q) <= max_queued_bytes l;
  bv_size : forall k, (k ∈ own q) -> 0 < k.2 <= max_cubin_bytes l;
}.

Lemma bounds_init l : limits_ok l -> bounds_inv l queue_init.
Proof.
  intros []. split; simpl; [done|done|lia|lia|]. by intros k Hk%not_elem_of_nil.
Qed.

Lemma step_sizes l crc q q' s :
  (forall k, (k ∈ own q) -> 0 < k.2 <= max_cubin_bytes l) -> qnext l crc q s = Some q' ->
  forall k, (k ∈ own q') -> 0 < k.2 <= max_cubin_bytes l.
Proof.
  intros Hk Hs k Hin. destruct (step_blocks _ _ _ _ _ Hs) as [Ho _ _ _|bs Hbs Ho _ _ _|k' Ho _ _ _].
  - apply Hk. by rewrite <- Ho.
  - rewrite Ho in Hin. apply elem_of_cons in Hin as [->|Hin]; [done|by apply Hk].
  - apply Hk. rewrite Ho. by apply list_elem_of_further.
Qed.

(** The parts of [own]. *)
Lemma own_pending q e : e ∈ pending_ q -> key e ∈ own q.
Proof. intros He. apply list_elem_of_fmap_2. unfold owned. rewrite !elem_of_app. auto. Qed.
Lemma own_queue q e : e ∈ q_ q -> key e ∈ own q.
Proof. intros He. apply list_elem_of_fmap_2. unfold owned. rewrite !elem_of_app. auto. Qed.
Lemma own_settle q e : e ∈ settle_hand (settling q) -> key e ∈ own q.
Proof. intros He. apply list_elem_of_fmap_2. unfold owned. rewrite !elem_of_app. auto. Qed.
Lemma own_capturing q t e : capturing q !! t = Some e -> key e ∈ own q.
Proof.
  intros He. apply list_elem_of_fmap_2. unfold owned. rewrite !elem_of_app. left.
  rewrite <- (hands_delete cap_hand _ _ _ He). apply list_elem_of_here.
Qed.

Lemma lens_pos l (es : list Entry) :
  (forall e, (e ∈ es) -> 0 < en_len e <= max_cubin_bytes l) -> 0 <= lens es.
Proof.
  intros H. induction es as [|e es IH]; simpl; [done|].
  pose proof (H e ltac:(apply list_elem_of_here)).
  assert (0 <= lens es) by (apply IH; intros e' He'; apply H; by apply list_elem_of_further). lia.
Qed.

(** A guarded push and a pop of one of the two lists. *)
Lemma push_bounds l (es : list Entry) n cap (cap_bytes : Z) e :
  0 <= lens es -> n = lens es -> 0 <= cap_bytes < 18446744073709551616 - max_cubin_bytes l ->
  lens es <= cap_bytes -> 0 < en_len e <= max_cubin_bytes l ->
  (cap <=? Z.of_nat (length es)) || (cap_bytes <? u64 (n + en_len e)) = false ->
  u64 (n + en_len e) = lens (es ++ [e]) /\
  Z.of_nat (length (es ++ [e])) <= cap /\ lens (es ++ [e]) <= cap_bytes.
Proof.
  intros H0 -> Hc Hle He [H1 H2]%orb_false_iff. rewrite lens_app, length_app. simpl.
  apply Z.leb_gt in H1. apply Z.ltb_ge in H2. rewrite u64_small in * by word_lia. lia.
Qed.

Lemma pop_bounds l e (es : list Entry) n cap_bytes :
  (forall e', (e' ∈ e :: es) -> 0 < en_len e' <= max_cubin_bytes l) ->
  n = lens (e :: es) -> lens (e :: es) <= cap_bytes < 18446744073709551616 ->
  u64 (n - en_len e) = lens es /\ lens es <= cap_bytes.
Proof.
  intros He -> Hc. assert (0 <= lens es) by
    (apply (lens_pos l); intros e' He'; apply He; by apply list_elem_of_further).
  pose proof (He e ltac:(apply list_elem_of_here)). simpl in *.
  replace (en_len e + lens es - en_len e) with (lens es) by lia. rewrite u64_small by word_lia. lia.
Qed.

Lemma bounds_split l q q' :
  bounds_inv l q -> (forall k, (k ∈ own q') -> 0 < k.2 <= max_cubin_bytes l) ->
  (pending_ q' = pending_ q /\ pending_bytes_ q' = pending_bytes_ q \/
   pending_bytes_ q' = lens (pending_ q') /\
   Z.of_nat (length (pending_ q')) <= max_pending_entries l /\ lens (pending_ q') <= max_pending_bytes l) ->
  (q_ q' = q_ q /\ queued_bytes_ q' = queued_bytes_ q \/
   queued_bytes_ q' = lens (q_ q') /\
   Z.of_nat (length (q_ q')) <= max_entries l /\ lens (q_ q') <= max_queued_bytes l) ->
  bounds_inv l q'.
Proof.
  intros [] Hk [[E1 E2]|(E1 & E2 & E3)] [[F1 F2]|(F1 & F2 & F3)]; split; rewrite ?E1, ?F1, ?E2, ?F2; done.
Qed.

Section bounds.
  Context (l : CubinQueueLimits) (crc : list Z -> Z) (Hl : limits_ok l).

Lemma park_bounds t e q :
  bounds_inv l q -> capturing q !! t = Some e ->
  let q' := capture_park l t e q in
  (pending_ q' = pending_ q /\ pending_bytes_ q' = pending_bytes_ q \/
   pending_bytes_ q' = lens (pending_ q') /\
   Z.of_nat (length (pending_ q')) <= max_pending_entries l /\ lens (pending_ q') <= max_pending_bytes l) /\
  q_ q' = q_ q /\ queued_bytes_ q' = queued_bytes_ q.
Proof using Hl.
  intros [] Ht. cbv zeta. unfold capture_park.
  destruct (_ || _) eqn:E; [split; [by left|done]|]. split; [right|done]. simpl in *.
  destruct Hl. apply (push_bounds l _ _ _ _ e); try done; try lia.
  - apply (lens_pos l). intros e' He'. exact (bv_size0 _ (own_pending q e' He')).
  - exact (bv_size0 _ (own_capturing q t e Ht)).
Qed.

Lemma settle_bounds q q' :
  bounds_inv l q -> qnext l crc q Settle = Some q' ->
  (pending_ q' = pending_ q /\ pending_bytes_ q' = pending_bytes_ q \/
   pending_bytes_ q' = lens (pending_ q') /\
   Z.of_nat (length (pending_ q')) <= max_pending_entries l /\ lens (pending_ q') <= max_pending_bytes l) /\
  (q_ q' = q_ q /\ queued_bytes_ q' = queued_bytes_ q \/
   queued_bytes_ q' = lens (q_ q') /\
   Z.of_nat (length (q_ q')) <= max_entries l /\ lens (q_ q') <= max_queued_bytes l).
Proof using Hl.
  intros []. simpl. destruct (settling q) as [|d b|d b e|d b e|d b e] eqn:Es; intros [= <-].
  - unfold settle_pop. destruct (d <? b)%nat; [|by split; left].
    destruct (pending_ q) as [|e rest] eqn:Ep; [by split; left|]. split; [right|by left]. simpl.
    destruct (pop_bounds l e rest (pending_bytes_ q) (max_pending_bytes l)) as [E1 E2].
    + intros e' He'. apply (bv_size0 (key e')), own_pending. by rewrite Ep.
    + done.
    + destruct Hl. simpl in *. lia.
    + simpl in *. split_and!; [done|lia|done].
  - unfold settle_key. repeat case_match; by split; left.
  - unfold settle_push. destruct (_ || _) eqn:E; [by split; left|]. split; [by left|right]. simpl in *.
    destruct Hl. apply (push_bounds l _ _ _ _ e); try done; try lia.
    + apply (lens_pos l). intros e' He'. exact (bv_size0 _ (own_queue q e' He')).
    + apply (bv_size0 (key e)), own_settle. rewrite Es. apply list_elem_of_here.
  - unfold settle_note. case_match; by split; left.
Qed.

Lemma drain_bounds t ok q q' :
  bounds_inv l q -> qnext l crc q (Drain t ok) = Some q' ->
  pending_ q' = pending_ q /\ pending_bytes_ q' = pending_bytes_ q /\
  (q_ q' = q_ q /\ queued_bytes_ q' = queued_bytes_ q \/
   queued_bytes_ q' = lens (q_ q') /\
   Z.of_nat (length (q_ q')) <= max_entries l /\ lens (q_ q') <= max_queued_bytes l).
Proof using Hl.
  intros []. simpl. destruct (draining q !! t) as [[d b|d b e]|] eqn:Ed; intros [= <-];
    [|by split_and!; [..|left]].
  unfold drain_pop. destruct (d <? b)%nat; [|by split_and!; [..|left]].
  destruct (q_ q) as [|e rest] eqn:Eq; [by split_and!; [..|left]|]. split_and!; [done|done|right]. simpl.
  destruct (pop_bounds l e rest (queued_bytes_ q) (max_queued_bytes l)) as [E1 E2].
  - intros e' He'. apply (bv_size0 (key e')), own_queue. by rewrite Eq.
  - done.
  - destruct Hl. simpl in *. lia.
  - simpl in *. split_and!; [done|lia|done].
Qed.

Lemma step_bounds q q' s : bounds_inv l q -> qnext l crc q s = Some q' -> bounds_inv l q'.
Proof using Hl.
  intros Hb Hs. pose proof (step_sizes l crc q q' s (bv_size l q Hb) Hs) as Hk.
  destruct s as [t v m ns ok|t| | |t|t ok]; apply (bounds_split l q q' Hb Hk).
  1,2: simpl in Hs; destruct (capturing q !! t) eqn:E; [done|]; injection Hs as <-; left;
    unfold capture_copy; destruct (view_empty v); [done|]; destruct (_ <? _); [done|];
    destruct ok; [|done]; simpl; by destruct (copy_to _ _).
  all: try (simpl in Hs; destruct (settling q) eqn:E; try done; injection Hs as <-; by left).
  all: try (simpl in Hs; destruct (draining q !! t) eqn:E; [done|]; injection Hs as <-; by left).
  - simpl in Hs. destruct (capturing q !! t) as [e|] eqn:E; [|done]. injection Hs as <-.
    apply (park_bounds t e q Hb E).
  - simpl in Hs. destruct (capturing q !! t) as [e|] eqn:E; [|done]. injection Hs as <-. left.
    apply (park_bounds t e q Hb E).
  - apply (settle_bounds q q' Hb Hs).
  - apply (settle_bounds q q' Hb Hs).
  - left. by destruct (drain_bounds t ok q q' Hb Hs) as (? & ? & _).
  - apply (drain_bounds t ok q q' Hb Hs).
Qed.
End bounds.

(** ** Every copy has one outcome *)

Definition times (c : counter) (l : list counter) : nat := length (filter (fun x => x = c) l).

Lemma times_app c l l' : times c (l ++ l') = (times c l + times c l')%nat.
Proof. unfold times. by rewrite list.filter_app, length_app. Qed.

(** The settling thread has queued a copy it has not yet counted. *)
Definition uncounted (s : settle_pc) : nat := match s with SPushed _ _ _ => 1 | _ => 0 end.

Record acct_inv (q : queue) : Prop := {
  av_counters : forall c, counters q c = u64 (Z.of_nat (times c (counted q)));
  av_copies : length (copied q) =
    (length (hands cap_hand (capturing q)) + length (pending_ q) + length (settle_hand (settling q)) +
     times cubin_pending_full (counted q) + times cubin_crc_failed (counted q) +
     times module_reload_skipped (counted q) + times cubin_queue_full (counted q) +
     times modules_captured (counted q) + uncounted (settling q))%nat;
  av_queued : (times modules_captured (counted q) + uncounted (settling q))%nat =
    (length (q_ q) + length (hands drain_hand (draining q)) +
     times cubins_sent (counted q) + times cubin_send_failed (counted q))%nat;
  av_offers : length (offered q) =
    (times cubins_sent (counted q) + times cubin_send_failed (counted q))%nat;
}.

Lemma acct_init : acct_inv queue_init.
Proof. by split. Qed.

(** [count] keeps the counters in step with the log. *)
Lemma count_counters c q :
  (forall c, counters q c = u64 (Z.of_nat (times c (counted q)))) ->
  forall c', counters (count c q) c' = u64 (Z.of_nat (times c' (counted (count c q)))).
Proof.
  intros H c'. simpl. rewrite times_app. unfold times at 2. rewrite filter_cons, filter_nil.
  destruct (decide (c = c')) as [->|Hne].
  - rewrite bool_decide_true, H by done. simpl. unfold u64. rewrite Z.add_mod_idemp_l by lia. f_equal. lia.
  - rewrite bool_decide_false, H by congruence. simpl. do 2 f_equal. lia.
Qed.

Lemma times_here c l : times c (l ++ [c]) = S (times c l).
Proof. rewrite times_app. unfold times at 2. rewrite filter_cons, decide_True by done. simpl. lia. Qed.
Lemma times_other c c' l : c <> c' -> times c (l ++ [c']) = times c l.
Proof.
  intros Hne. rewrite times_app. unfold times at 2. rewrite filter_cons, decide_False by congruence.
  rewrite filter_nil. simpl. lia.
Qed.

(** Counts after one more event; the lengths the steps change. *)
Ltac tally := repeat (rewrite times_here || rewrite times_other by done).

Lemma cap_length (m : gmap nat Entry) t e :
  m !! t = Some e -> length (hands cap_hand m) = S (length (hands cap_hand (delete t m))).
Proof. intros H. by rewrite <- (Permutation_length (hands_delete cap_hand _ _ _ H)). Qed.

Lemma capture_acct l t v m ns ok q :
  acct_inv q -> capturing q !! t = None -> acct_inv (capture_copy l t v m ns ok q).
Proof.
  intros [Hc H1 H2 H3] Ht. unfold capture_copy. destruct (view_empty v); [done|].
  destruct (_ <? view_size v); [split; [by apply count_counters|simpl; tally; lia..]|].
  destruct ok; [|split; [by apply count_counters|simpl; tally; lia..]]. simpl.
  destruct (copy_to v _) as [bs|]; [|split; [by apply count_counters|simpl; tally; lia..]].
  split; try done. simpl.
  rewrite length_app, (Permutation_length (hands_insert cap_hand _ _ _ Ht)). simpl. lia.
Qed.

Lemma park_acct l t e q :
  acct_inv q -> capturing q !! t = Some e -> acct_inv (capture_park l t e q).
Proof.
  intros [Hc H1 H2 H3] Ht. unfold capture_park. simpl. rewrite (cap_length _ _ _ Ht) in H1.
  destruct (_ || _); [split; [by apply count_counters|simpl; tally; lia..]|].
  split; try done. simpl. rewrite length_app. simpl. lia.
Qed.

Lemma settle_acct l crc q q' : acct_inv q -> qnext l crc q Settle = Some q' -> acct_inv q'.
Proof.
  intros [Hc H1 H2 H3]. simpl.
  destruct (settling q) as [|d b|d b e|d b e|d b e] eqn:Es; intros [= <-]; simpl in H1, H2.
  - unfold settle_pop. destruct (d <? b)%nat; [destruct (pending_ q) eqn:Ep|];
      split; try done; simpl in *; rewrite ?Ep; simpl; lia.
  - unfold settle_key. destruct (_ =? 0); [split; [by apply count_counters|simpl; tally; lia..]|].
    destruct (bool_decide _); [split; [by apply count_counters|simpl; tally; lia..]|]. by split.
  - unfold settle_push. destruct (_ || _); [split; [by apply count_counters|simpl; tally; lia..]|].
    split; try done; simpl; rewrite ?length_app; simpl; lia.
  - unfold settle_note. destruct (_ <? _); (split; [by apply count_counters|simpl; tally; lia..]).
Qed.

Lemma drain_acct l crc t ok q q' : acct_inv q -> qnext l crc q (Drain t ok) = Some q' -> acct_inv q'.
Proof.
  intros [Hc H1 H2 H3]. simpl. destruct (draining q !! t) as [[d b|d b e]|] eqn:Ed; intros [= <-].
  - pose proof (Permutation_length (hands_delete drain_hand _ _ _ Ed)) as Hd. simpl in Hd.
    unfold drain_pop. destruct (d <? b)%nat; [destruct (q_ q) as [|e rest] eqn:Eq|];
      split; try done; simpl in *; rewrite ?Eq; simpl; try lia.
    pose proof (Permutation_length (hands_update drain_hand _ _ _ (DHeld d b e) Ed)) as Hu.
    simpl in Hu. lia.
  - pose proof (Permutation_length (hands_update drain_hand _ _ _ (DLoop (S d) b) Ed)) as Hu.
    simpl in Hu. unfold drain_offer.
    destruct ok; (split; [by apply count_counters|simpl; tally; rewrite ?length_app; simpl; lia..]).
Qed.

Lemma step_acct l crc q q' s : acct_inv q -> qnext l crc q s = Some q' -> acct_inv q'.
Proof.
  intros Ha Hs. destruct s as [t v m ns ok|t| | |t|t ok]; [| | |by eapply settle_acct| |by eapply drain_acct];
    simpl in Hs.
  - destruct (capturing q !! t) eqn:E; [done|]. injection Hs as <-. by apply capture_acct.
  - destruct (capturing q !! t) eqn:E; [|done]. injection Hs as <-. by apply park_acct.
  - destruct (settling q) eqn:E; try done. injection Hs as <-. destruct Ha as [Hc H1 H2 H3].
    rewrite E in H1, H2. by split.
  - destruct (draining q !! t) eqn:E; [done|]. injection Hs as <-. destruct Ha as [Hc H1 H2 H3].
    split; try done. simpl. by rewrite (Permutation_length (hands_insert drain_hand _ _ _ E)).
Qed.

(** ** What is offered *)

Section content.
  Context (l : CubinQueueLimits) (crc : list Z -> Z).

(** A block held before and after a step still has its bytes. *)
Lemma block_kept q q' s e bs :
  mem_inv q -> qnext l crc q s = Some q' -> (key e ∈ own q') ->
  h_blocks (mem q) !! en_bytes e = Some bs -> h_blocks (mem q') !! en_bytes e = Some bs.
Proof using Type.
  intros Hm Hs He Hb. pose proof (mem_nodup q Hm) as Hnd.
  destruct (step_blocks _ _ _ _ _ Hs) as [Ho E1 _ _|bs' _ Ho E1 _ _|k Ho E1 _ _]; rewrite E1; [done| |]; simpl.
  - rewrite lookup_insert_ne; [done|]. pose proof (mv_fresh q Hm _ (mk_is_Some _ _ Hb)). lia.
  - rewrite Ho in Hnd. simpl in Hnd. apply list.NoDup_cons in Hnd as [Hk _].
    rewrite lookup_delete_ne; [done|]. intros Heq. apply Hk. rewrite Heq.
    change (en_bytes e) with (key e).1. by apply list_elem_of_fmap_2.
Qed.

Definition keyed_hand (s : settle_pc) : list Entry := match s with SKeyed _ _ e => [e] | _ => [] end.

(** The copies that carry a CRC. *)
Definition keyed (q : queue) : list Entry :=
  hands drain_hand (draining q) ++ q_ q ++ keyed_hand (settling q).

Definition genuine (copies : list (list Z)) (r : Z * list Z) : Prop :=
  r.1 = crc r.2 /\ r.1 <> 0 /\ (r.2 ∈ copies).

Record content_inv (q : queue) : Prop := {
  cv_keyed : forall e, (e ∈ keyed q) -> exists bs,
    h_blocks (mem q) !! en_bytes e = Some bs /\ en_crc e = crc bs /\ crc bs <> 0;
  cv_offered : Forall (genuine (copied q)) (offered q);
  cv_announced : Forall (fun r => genuine (copied q) (r.1.2, r.2)) (announced q);
}.

Lemma keyed_own q e : e ∈ keyed q -> key e ∈ own q.
Proof using Type.
  unfold keyed. intros He. apply list_elem_of_fmap_2. unfold owned. rewrite !elem_of_app in *.
  destruct He as [He|[He|He]]; auto. right; right; left.
  destruct (settling q); simpl in *; try (by apply not_elem_of_nil in He); done.
Qed.

Lemma genuine_more copies copies' r :
  (forall x, (x ∈ copies) -> x ∈ copies') -> genuine copies r -> genuine copies' r.
Proof using Type. intros H (A & B & C). split_and!; auto. Qed.

Lemma copied_grows q q' s x : qnext l crc q s = Some q' -> x ∈ copied q -> x ∈ copied q'.
Proof using Type.
  intros Hs Hx. destruct (step_blocks _ _ _ _ _ Hs) as [_ _ _ ->|bs _ _ _ _ ->|k _ _ _ ->]; try done.
  apply elem_of_app. by left.
Qed.

(** A step that keys nothing new, announces nothing and offers nothing. *)
Lemma content_same q q' s :
  mem_inv q -> content_inv q -> qnext l crc q s = Some q' ->
  (forall e, (e ∈ keyed q') -> e ∈ keyed q) -> offered q' = offered q -> announced q' = announced q ->
  content_inv q'.
Proof using Type.
  intros Hm [Hk Ho Ha] Hs Hsub Eo Ea. split; rewrite ?Eo, ?Ea.
  - intros e He. destruct (Hk e (Hsub e He)) as (bs & Hb & Hc). exists bs. split; [|done].
    eapply block_kept; try done. by apply keyed_own.
  - eapply List.Forall_impl; [|exact Ho]. intros r. apply genuine_more. intros x. by eapply copied_grows.
  - eapply List.Forall_impl; [|exact Ha]. intros r. apply genuine_more. intros x. by eapply copied_grows.
Qed.

(** Keying a copy: the CRC is of the copy itself, and so is the record. *)
Lemma key_content d b e q q' :
  mem_inv q -> content_inv q -> settling q = SHeld d b e -> qnext l crc q Settle = Some q' -> content_inv q'.
Proof using Type.
  intros Hm Hcv Es Hs. pose proof Hs as Hs'. simpl in Hs'. rewrite Es in Hs'. injection Hs' as Eq'.
  unfold settle_key in Eq'.
  destruct (mv_held q Hm (key e)) as (bs & Hb & _ & Hcp).
  { apply own_settle. rewrite Es. apply list_elem_of_here. }
  simpl in Hb. rewrite Hb in Eq'. simpl in Eq'.
  assert (Hsub : forall q2, settling q2 = SLoop (S d) b -> draining q2 = draining q -> q_ q2 = q_ q ->
    forall e', (e' ∈ keyed q2) -> e' ∈ keyed q).
  { intros q2 E1 E2 E3 e'. unfold keyed. rewrite E1, E2, E3, Es. done. }
  destruct (Z.eqb_spec (crc bs) 0) as [|Hne].
  { apply (content_same q q' Settle); try done; rewrite <- Eq'; try done. by apply Hsub. }
  destruct (bool_decide _).
  { apply (content_same q q' Settle); try done; rewrite <- Eq'; try done. by apply Hsub. }
  rewrite <- Eq'. destruct Hcv as [Hk Ho Ha]. split; try done; simpl.
  - intros e'. unfold keyed. simpl. rewrite !elem_of_app, list_elem_of_singleton.
    intros [He|[He| ->]]; [apply Hk; unfold keyed; rewrite !elem_of_app; auto..|]. by exists bs.
  - apply Forall_app_2; [done|]. repeat constructor; done.
Qed.

Lemma offer_content t ok d b e q q' :
  mem_inv q -> content_inv q -> draining q !! t = Some (DHeld d b e) ->
  qnext l crc q (Drain t ok) = Some q' -> content_inv q'.
Proof using Type.
  intros Hm Hcv Ed Hs. pose proof Hs as Hs'. simpl in Hs'. rewrite Ed in Hs'. injection Hs' as Eq'.
  pose proof (hands_update drain_hand _ _ _ (DLoop (S d) b) Ed) as Hu. simpl in Hu.
  assert (Hin : e ∈ keyed q).
  { unfold keyed. rewrite <- Hu. apply elem_of_app. left. apply list_elem_of_here. }
  destruct Hcv as [Hk Ho Ha]. destruct (Hk e Hin) as (bs & Hb & Hc & Hne).
  destruct (mv_held q Hm (key e) (keyed_own q e Hin)) as (bs' & Hb' & _ & Hcp). simpl in Hb'.
  assert (bs' = bs) as -> by congruence.
  assert (Hk' : forall e', (e' ∈ keyed q') -> e' ∈ keyed q).
  { intros e'. rewrite <- Eq'. unfold keyed. simpl. rewrite <- Hu, !elem_of_app, elem_of_cons. tauto. }
  split.
  - intros e' He'. destruct (Hk e' (Hk' e' He')) as (bs2 & Hb2 & Hc2). exists bs2. split; [|done].
    eapply block_kept; try done. by apply keyed_own.
  - rewrite <- Eq'. simpl. rewrite Hb. simpl. apply Forall_app_2; [done|].
    repeat constructor; simpl; try done; congruence.
  - by rewrite <- Eq'.
Qed.

Lemma keyed_same q q' :
  draining q' = draining q -> q_ q' = q_ q -> keyed_hand (settling q') = keyed_hand (settling q) ->
  forall e, (e ∈ keyed q') -> e ∈ keyed q.
Proof using Type. intros E1 E2 E3 e. unfold keyed. by rewrite E1, E2, E3. Qed.

Lemma settle_content q q' :
  mem_inv q -> content_inv q -> qnext l crc q Settle = Some q' -> content_inv q'.
Proof using Type.
  intros Hm Hc Hs. destruct (settling q) as [|d b|d b e|d b e|d b e] eqn:Es; [| |by eapply key_content| |];
    pose proof Hs as Hs'; simpl in Hs'; rewrite Es in Hs'; try done; injection Hs' as Eq'.
  - unfold settle_pop in Eq'. apply (content_same q q' Settle); try done; rewrite <- Eq';
      try (apply keyed_same); destruct (d <? b)%nat; try destruct (pending_ q); simpl; by rewrite ?Es.
  - unfold settle_push in Eq'. apply (content_same q q' Settle); try done; rewrite <- Eq';
      destruct (_ || _); try done; unfold keyed; simpl; rewrite Es; intros e';
      rewrite !elem_of_app; set_solver.
  - unfold settle_note in Eq'. apply (content_same q q' Settle); try done; rewrite <- Eq';
      try (apply keyed_same); destruct (_ <? _); simpl; by rewrite ?Es.
Qed.

Lemma drain_content t ok q q' :
  mem_inv q -> content_inv q -> qnext l crc q (Drain t ok) = Some q' -> content_inv q'.
Proof using Type.
  intros Hm Hc Hs. destruct (draining q !! t) as [[d b|d b e]|] eqn:Ed; [|by eapply offer_content|];
    pose proof Hs as Hs'; simpl in Hs'; rewrite Ed in Hs'; [|done]. injection Hs' as Eq'.
  pose proof (hands_delete drain_hand _ _ _ Ed) as Hd. simpl in Hd. unfold drain_pop in Eq'.
  destruct (d <? b)%nat; [destruct (q_ q) as [|e rest] eqn:Eq|].
  1,3: apply (content_same q q' (Drain t ok)); try done; rewrite <- Eq'; try done; unfold keyed; simpl;
    intros e'; rewrite Hd, ?Eq; done.
  apply (content_same q q' (Drain t ok)); try done; rewrite <- Eq'; try done. unfold keyed. simpl.
  pose proof (hands_update drain_hand _ _ _ (DHeld d b e) Ed) as Hu. simpl in Hu.
  intros e'. rewrite Hu, Eq, !elem_of_app, !elem_of_cons. tauto.
Qed.

Lemma step_content q q' s : mem_inv q -> content_inv q -> qnext l crc q s = Some q' -> content_inv q'.
Proof using Type.
  intros Hm Hc Hs. destruct s as [t v m ns ok|t| | |t|t ok];
    [| | |by eapply settle_content| |by eapply drain_content]; pose proof Hs as Hs'; simpl in Hs'.
  - destruct (capturing q !! t) eqn:E; [done|]. injection Hs' as Eq'. unfold capture_copy in Eq'.
    apply (content_same q q' (Capture t v m ns ok)); try done; rewrite <- Eq'; try (apply keyed_same);
      destruct (view_empty v); try done; destruct (_ <? view_size v); try done; destruct ok; try done; simpl;
      by destruct (copy_to _ _).
  - destruct (capturing q !! t) eqn:E; [|done]. injection Hs' as Eq'. unfold capture_park in Eq'.
    apply (content_same q q' (Park t)); try done; rewrite <- Eq'; try (apply keyed_same);
      by destruct (_ || _).
  - destruct (settling q) eqn:E; try done. injection Hs' as Eq'.
    apply (content_same q q' SettleBegin); try done; rewrite <- Eq'; try done. apply keyed_same; try done.
    by rewrite E.
  - destruct (draining q !! t) eqn:E; [done|]. injection Hs' as Eq'.
    apply (content_same q q' (DrainBegin t)); try done; rewrite <- Eq'; try done. unfold keyed. simpl.
    intros e'. by rewrite (hands_insert drain_hand _ _ _ E).
Qed.
End content.

(** ** No module is offered twice *)

(** The CRCs offered so far and those on their way. *)
Definition sent_crcs (q : queue) : list Z :=
  (offered q).*1 ++ (en_crc <$> hands drain_hand (draining q) ++ q_ q).

Record dedup_inv (l : CubinQueueLimits) (q : queue) : Prop := {
  dv_size : (size (interned_ q) <= times modules_captured (counted q))%nat;
  dv_keyed : forall d b e, settling q = SKeyed d b e -> en_crc e ∉ interned_ q;
  dv_once : Z.of_nat (times modules_captured (counted q) + uncounted (settling q)) <= max_interned l ->
    NoDup (sent_crcs q) /\
    forall c, (c ∈ sent_crcs q) ->
      c ∈ interned_ q \/ exists d b e, settling q = SPushed d b e /\ en_crc e = c;
}.

Lemma dedup_init l : dedup_inv l queue_init.
Proof.
  split; simpl; try done. intros _. split; [constructor|]. by intros c Hc%not_elem_of_nil.
Qed.

(** A step of another thread: the CRCs on their way are permuted. *)
Lemma dedup_perm l q q' :
  dedup_inv l q -> sent_crcs q' ≡ₚ sent_crcs q -> interned_ q' = interned_ q ->
  settling q' = settling q ->
  times modules_captured (counted q') = times modules_captured (counted q) -> dedup_inv l q'.
Proof.
  intros [H1 H2 H3] Ep Ei Es Ec. split; rewrite ?Ei, ?Es, ?Ec; try done. intros Hle.
  destruct (H3 Hle) as [Hn Hc]. split; [by rewrite Ep|]. intros c Hin. rewrite Ep in Hin. by apply Hc.
Qed.

(** A step of the settling thread that queues nothing. *)
Lemma dedup_quiet l q q' :
  dedup_inv l q -> uncounted (settling q) = 0%nat -> uncounted (settling q') = 0%nat ->
  sent_crcs q' = sent_crcs q -> interned_ q' = interned_ q ->
  times modules_captured (counted q') = times modules_captured (counted q) ->
  (forall d b e, settling q' = SKeyed d b e -> en_crc e ∉ interned_ q) -> dedup_inv l q'.
Proof.
  intros [H1 H2 H3] U U' Es Ei Ec Hk. split; rewrite ?Ei, ?Ec; [done|done|].
  rewrite U', Es, U in *. intros Hle. destruct (H3 Hle) as [Hn Hc]. split; [done|].
  intros c Hc'. left. destruct (Hc c Hc') as [|(d & b & e & E & _)]; [done|]. by rewrite E in U.
Qed.

Lemma push_dedup l d b e q n :
  dedup_inv l q -> settling q = SKeyed d b e ->
  dedup_inv l (set_settling (SPushed d b e) (set_queue (q_ q ++ [e]) n q)).
Proof.
  intros [H1 H2 H3] Es. rewrite Es in H3. split; simpl; try done. intros Hle.
  destruct H3 as [Hn Hc]; [simpl; lia|]. set (q' := set_settling _ _).
  assert (Ep : sent_crcs q' ≡ₚ en_crc e :: sent_crcs q)
    by (unfold sent_crcs; simpl; rewrite !fmap_app; simpl; solve_Permutation).
  assert (Hin : forall c, (c ∈ sent_crcs q) -> c ∈ interned_ q).
  { intros c Hc'. by destruct (Hc c Hc') as [|(? & ? & ? & ? & _)]. }
  rewrite Ep. split.
  - apply list.NoDup_cons. split; [|done]. intros Hin'%Hin. by apply (H2 _ _ _ Es).
  - intros c. rewrite Ep, elem_of_cons. intros [->|Hc'%Hin]; [right; by exists d, b, e|by left].
Qed.

Lemma size_insert (c : Z) (X : gset Z) : (size ({[c]} ∪ X) <= S (size X))%nat.
Proof.
  rewrite size_union_alt, size_singleton. assert (size (X ∖ {[c]}) <= size X)%nat; [|lia].
  apply subseteq_size. set_solver.
Qed.

Lemma note_dedup l d b e q :
  dedup_inv l q -> settling q = SPushed d b e -> dedup_inv l (settle_note l d b e q).
Proof.
  intros [H1 H2 H3] Es. rewrite Es in H3. unfold settle_note.
  destruct (Z.ltb_spec (Z.of_nat (size (interned_ q))) (max_interned l)) as [Hlt|Hge].
  - split; simpl; rewrite ?times_here; try done.
    + pose proof (size_insert (en_crc e) (interned_ q)). lia.
    + intros Hle. destruct H3 as [Hn Hc]; [simpl in *; lia|]. split; [done|]. intros c Hc'. left.
      apply elem_of_union. destruct (Hc c Hc') as [|(? & ? & ? & [= -> -> ->] & <-)]; [by right|].
      left. by apply elem_of_singleton.
  - split; simpl; rewrite ?times_here; try done; simpl in *; lia.
Qed.

Lemma settle_dedup l crc q q' : dedup_inv l q -> qnext l crc q Settle = Some q' -> dedup_inv l q'.
Proof.
  intros Hd. simpl. destruct (settling q) as [|d b|d b e|d b e|d b e] eqn:Es; intros [= <-].
  - unfold settle_pop. destruct (d <? b)%nat; [destruct (pending_ q)|];
      apply (dedup_quiet l q); try done; by rewrite Es.
  - unfold settle_key.
    destruct (_ =? 0); [apply (dedup_quiet l q); try done; [by rewrite Es|by apply times_other]|].
    case_bool_decide; [apply (dedup_quiet l q); try done; [by rewrite Es|by apply times_other]|].
    apply (dedup_quiet l q); try done; [by rewrite Es|]. by intros ? ? ? [= <- <- <-].
  - unfold settle_push. destruct (_ || _); [|by apply push_dedup].
    apply (dedup_quiet l q); try done; [by rewrite Es|by apply times_other].
  - by apply note_dedup.
Qed.

Lemma drain_dedup l crc t ok q q' : dedup_inv l q -> qnext l crc q (Drain t ok) = Some q' -> dedup_inv l q'.
Proof.
  intros Hd. simpl. destruct (draining q !! t) as [[d b|d b e]|] eqn:Ed; intros [= <-].
  - pose proof (hands_delete drain_hand _ _ _ Ed) as Hdel. simpl in Hdel.
    unfold drain_pop. destruct (d <? b)%nat; [destruct (q_ q) as [|e rest] eqn:Eq|];
      apply (dedup_perm l q); try done; unfold sent_crcs; simpl.
    1,3: by rewrite Hdel, ?Eq.
    pose proof (hands_update drain_hand _ _ _ (DHeld d b e) Ed) as Hu. simpl in Hu.
    rewrite Hu, Eq, !fmap_app. simpl. solve_Permutation.
  - unfold drain_offer. apply (dedup_perm l q); try done.
    + pose proof (hands_update drain_hand _ _ _ (DLoop (S d) b) Ed) as Hu. simpl in Hu.
      unfold sent_crcs. simpl. rewrite <- Hu, !fmap_app. simpl. solve_Permutation.
    + simpl. by destruct ok; apply times_other.
Qed.

Lemma step_dedup l crc q q' s : dedup_inv l q -> qnext l crc q s = Some q' -> dedup_inv l q'.
Proof.
  intros Hd Hs. destruct s as [t v m ns ok|t| | |t|t ok];
    [| | |by eapply settle_dedup| |by eapply drain_dedup]; simpl in Hs.
  - destruct (capturing q !! t) eqn:E; [done|]. injection Hs as <-. unfold capture_copy.
    destruct (view_empty v); [done|].
    destruct (_ <? view_size v); [apply (dedup_perm l q); try done; by apply times_other|].
    destruct ok; [|apply (dedup_perm l q); try done; by apply times_other]. simpl.
    destruct (copy_to _ _); apply (dedup_perm l q); try done. by apply times_other.
  - destruct (capturing q !! t) eqn:E; [|done]. injection Hs as <-. unfold capture_park.
    destruct (_ || _); apply (dedup_perm l q); try done. by apply times_other.
  - destruct (settling q) eqn:E; try done. injection Hs as <-. apply (dedup_quiet l q); try done.
    by rewrite E.
  - destruct (draining q !! t) eqn:E; [done|]. injection Hs as <-. apply (dedup_perm l q); try done.
    unfold sent_crcs. simpl. by rewrite (hands_insert drain_hand _ _ _ E).
Qed.

(** ** The queue as a whole *)

Section reachable.
  Context (l : CubinQueueLimits) (crc : list Z -> Z) (Hl : limits_ok l).

Definition queue_inv (q : queue) : Prop :=
  mem_inv q /\ bounds_inv l q /\ acct_inv q /\ content_inv crc q /\ dedup_inv l q.

Lemma init_queue_inv : queue_inv queue_init.
Proof using Hl.
  split_and!; [apply mem_init|by apply bounds_init|apply acct_init| |apply dedup_init].
  split; try constructor. by intros e He%not_elem_of_nil.
Qed.

Lemma run_queue_inv steps q q' : queue_inv q -> qrun l crc q steps = Some q' -> queue_inv q'.
Proof using Hl.
  revert q. induction steps as [|s steps IH]; intros q Hq Hr; simpl in Hr; [by injection Hr as <-|].
  destruct (qnext l crc q s) as [q1|] eqn:E; [|done]. apply (IH q1); [|done].
  destruct Hq as (H1 & H2 & H3 & H4 & H5). split_and!;
    [by eapply step_mem|by eapply step_bounds|by eapply step_acct|by eapply step_content|by eapply step_dedup].
Qed.

(** The calls of [capture] that were given a module. *)
Definition is_call (s : qstep) : bool :=
  match s with Capture _ v _ _ _ => negb (view_empty v) | _ => false end.
Definition calls (steps : list qstep) : nat := length (filter (fun s => is_call s = true) steps).

Definition taken (q : queue) : nat :=
  (length (copied q) + times cubin_too_large (counted q) + times cubin_alloc_failed (counted q))%nat.

Lemma step_taken q q' s :
  qnext l crc q s = Some q' -> taken q' = (taken q + (if is_call s then 1 else 0))%nat.
Proof using Type.
  unfold taken. destruct s as [t v m ns ok|t| | |t|t ok]; simpl.
  - destruct (capturing q !! t); [done|]. intros [= <-]. unfold capture_copy.
    destruct (view_empty v); simpl; [lia|]. destruct (_ <? view_size v); simpl; [tally; lia|].
    destruct ok; simpl; [|tally; lia]. destruct (copy_to _ _); simpl; [rewrite length_app; simpl|tally]; lia.
  - destruct (capturing q !! t); [|done]. intros [= <-]. unfold capture_park.
    destruct (_ || _); simpl; tally; lia.
  - destruct (settling q); try done. intros [= <-]. simpl. lia.
  - destruct (settling q) as [|d b|d b e|d b e|d b e]; intros [= <-].
    + unfold settle_pop. destruct (d <? b)%nat; [destruct (pending_ q)|]; simpl; lia.
    + unfold settle_key. destruct (_ =? 0); [|destruct (bool_decide _)]; simpl; tally; lia.
    + unfold settle_push. destruct (_ || _); simpl; tally; lia.
    + unfold settle_note. destruct (_ <? _); simpl; tally; lia.
  - destruct (draining q !! t); [done|]. intros [= <-]. simpl. lia.
  - destruct (draining q !! t) as [[d b|d b e]|]; intros [= <-].
    + unfold drain_pop. destruct (d <? b)%nat; [destruct (q_ q)|]; simpl; lia.
    + unfold drain_offer. destruct ok; simpl; tally; lia.
Qed.

Lemma run_taken steps q q' : qrun l crc q steps = Some q' -> taken q' = (taken q + calls steps)%nat.
Proof using Type.
  revert q. induction steps as [|s steps IH]; intros q Hr; simpl in Hr; [injection Hr as <-; unfold calls; simpl; lia|].
  destruct (qnext l crc q s) as [q1|] eqn:E; [|done]. rewrite (IH q1 Hr), (step_taken q q1 s E).
  unfold calls. rewrite filter_cons. destruct (is_call s).
  - rewrite decide_True by done. simpl. lia.
  - rewrite decide_False by done. lia.
Qed.

(** Freeing what is left. *)
Definition live (q : queue) (ps : list nat) : Prop :=
  ps ≡ₚ (map_to_list (h_blocks (mem q))).*1 /\ faults q = 0%nat.

Lemma free_live p ps q : live q (p :: ps) -> live (free p q) ps.
Proof using Type.
  intros [Hp Hf]. assert (Hin : p ∈ (map_to_list (h_blocks (mem q))).*1)
    by (rewrite <- Hp; apply list_elem_of_here).
  apply list_elem_of_fmap in Hin as ([p' bs] & -> & Hin). apply elem_of_map_to_list in Hin. simpl in *.
  split; simpl.
  - apply (Permutation_cons_inv (a := p')). rewrite Hp.
    by rewrite <- (map_to_list_delete _ _ _ Hin).
  - by rewrite bool_decide_true by done.
Qed.

Lemma free_list_live es ps q :
  live q (map en_bytes es ++ ps) -> live (foldl (fun q e => free (en_bytes e) q) q es) ps.
Proof using Type.
  revert q. induction es as [|e es IH]; intros q Hq; simpl in *; [done|]. by apply IH, free_live.
Qed.

Lemma free_list_rest es q :
  let q' := foldl (fun q e => free (en_bytes e) q) q es in q_ q' = q_ q /\ pending_ q' = pending_ q.
Proof using Type. revert q. induction es as [|e es IH]; intros q; simpl; [done|]. by rewrite !(proj1 (IH _)), !(proj2 (IH _)). Qed.

(** No call is in progress. *)
Definition quiet (q : queue) : Prop := capturing q = ∅ /\ settling q = SIdle /\ draining q = ∅.

Lemma destroy_clean q : mem_inv q -> quiet q -> h_blocks (mem (destroy q)) = ∅ /\ faults (destroy q) = 0%nat.
Proof using Type.
  intros Hm (E1 & E2 & E3). pose proof (mv_live q Hm) as Hlive. unfold own, owned in Hlive.
  rewrite E1, E2, E3 in Hlive. unfold hands in Hlive. rewrite !map_to_list_empty in Hlive. simpl in Hlive.
  rewrite app_nil_r, <- list_fmap_compose, fmap_app in Hlive.
  assert (H1 : live q (map en_bytes (pending_ q) ++ map en_bytes (q_ q) ++ [])).
  { split; [|apply (mv_faults q Hm)]. rewrite app_nil_r. exact Hlive. }
  apply free_list_live in H1. destruct (free_list_rest (pending_ q) q) as [Eq _]. unfold destroy.
  set (q1 := foldl _ q (pending_ q)) in *.
  assert (H2 : live (set_pending [] 0 q1) (map en_bytes (q_ (set_pending [] 0 q1)) ++ [])).
  { simpl. rewrite Eq. exact H1. }
  apply free_list_live in H2 as [H2 H3]. split; [|exact H3].
  apply map_to_list_empty_iff. apply Permutation_nil_l in H2. simpl in *.
  symmetry in H2. by apply fmap_nil_inv in H2.
Qed.

Lemma reach steps q : qrun l crc queue_init steps = Some q -> queue_inv q.
Proof using Hl. apply run_queue_inv, init_queue_inv. Qed.

(** C9: The cubin queue is memory safe and bounded.  Under any interleaving of
    captures on any number of threads with settling and draining: no block is
    freed twice; the blocks alive are exactly the copies some step still holds,
    each with its full length, so nothing is leaked or used after it was freed;
    the byte totals are exact; neither list exceeds its entry or byte limit; and
    once no call is in progress the destructor leaves an empty heap. *)
Theorem cubin_queue_safe steps q :
  qrun l crc queue_init steps = Some q ->
  faults q = 0%nat /\
  (own q).*1 ≡ₚ (map_to_list (h_blocks (mem q))).*1 /\ NoDup (own q).*1 /\
  (forall e, (e ∈ owned q) -> exists bs, h_blocks (mem q) !! en_bytes e = Some bs /\
     en_len e = Z.of_nat (length bs) /\ 0 < en_len e <= max_cubin_bytes l) /\
  pending_bytes_ q = lens (pending_ q) /\ lens (pending_ q) <= max_pending_bytes l /\
  Z.of_nat (length (pending_ q)) <= max_pending_entries l /\
  queued_bytes_ q = lens (q_ q) /\ lens (q_ q) <= max_queued_bytes l /\
  Z.of_nat (length (q_ q)) <= max_entries l /\
  (quiet q -> h_blocks (mem (destroy q)) = ∅ /\ faults (destroy q) = 0%nat).
Proof using Hl.
  intros Hr. destruct (reach steps q Hr) as (Hm & [B1 B2 B3 B4 B5] & _).
  split_and!; try tauto; [apply (mv_faults q Hm)|apply (mv_live q Hm)|by apply mem_nodup| |by apply destroy_clean].
  intros e He. assert (Hk : key e ∈ own q) by by apply list_elem_of_fmap_2.
  destruct (mv_held q Hm _ Hk) as (bs & Hb & Hlen & _). exists bs. split_and!; try done; apply (B5 _ Hk).
Qed.

(** C34: Every module given to [capture] is accounted for by one counter.  At any
    point of any interleaving, the calls that were given bytes are those refused
    for their size, those that found no memory, and the copies made; each copy
    is still being captured, pending or being settled, or ended in exactly one of
    pending-full, crc-failed, reload-skipped, queue-full and captured; each
    captured one is queued, being offered, sent or send-failed.  Every counter
    is the number of its events. *)
Theorem cubin_outcomes_exact steps q :
  qrun l crc queue_init steps = Some q ->
  let n c := times c (counted q) in
  (forall c, counters q c = u64 (Z.of_nat (n c))) /\
  calls steps = (n cubin_too_large + n cubin_alloc_failed + length (copied q))%nat /\
  length (copied q) = (length (hands cap_hand (capturing q)) + length (pending_ q) +
    length (settle_hand (settling q)) + n cubin_pending_full + n cubin_crc_failed +
    n module_reload_skipped + n cubin_queue_full + n modules_captured + uncounted (settling q))%nat /\
  (n modules_captured + uncounted (settling q))%nat =
    (length (q_ q) + length (hands drain_hand (draining q)) + n cubins_sent + n cubin_send_failed)%nat.
Proof using Hl.
  intros Hr n. destruct (reach steps q Hr) as (_ & _ & [A1 A2 A3 A4] & _).
  pose proof (run_taken steps _ _ Hr) as Ht. unfold taken in Ht. simpl in Ht. subst n. simpl.
  split_and!; try done. lia.
Qed.

(** What is announced and offered is a module's own code.  Every record
    fired and every offer made carries bytes exactly as some call of [capture]
    copied them, under a CRC computed over those same bytes and never zero;
    and as long as the intern table has not filled up, no CRC is offered twice. *)
Theorem cubin_offers_genuine steps q :
  qrun l crc queue_init steps = Some q ->
  (forall c bs, ((c, bs) ∈ offered q) -> c = crc bs /\ c <> 0 /\ (bs ∈ copied q)) /\
  (forall m t c bs, ((m, t, c, bs) ∈ announced q) -> c = crc bs /\ c <> 0 /\ (bs ∈ copied q)) /\
  (Z.of_nat (times modules_captured (counted q)) < max_interned l -> NoDup (offered q).*1).
Proof using Hl.
  intros Hr. destruct (reach steps q Hr) as (_ & _ & _ & [_ C2 C3] & [_ _ D3]). split_and!.
  - intros c bs Hin. rewrite List.Forall_forall in C2. apply list_elem_of_In in Hin. apply (C2 _ Hin).
  - intros m t c bs Hin. rewrite List.Forall_forall in C3. apply list_elem_of_In in Hin. apply (C3 _ Hin).
  - intros Hlt. destruct D3 as [Hn _]; [destruct (settling q); simpl; lia|].
    unfold sent_crcs in Hn. by apply list.NoDup_app in Hn as (? & _ & _).
Qed.
End reachable.

(** ** A concrete run

    Two threads load the same module, a third an empty one; one settle tick
    queues the first copy and skips the second; the offer is accepted. *)
Definition demo_crc (bs : list Z) : Z := foldr Z.add 1 bs.
Definition demo_steps : list qstep :=
  [Capture 0 (Some [7; 8; 9]) 1 100 true; Capture 1 (Some [7; 8; 9]) 2 101 true; Park 1;
   Capture 2 None 3 102 true; Park 0; SettleBegin; Settle; Settle; Settle; DrainBegin 0; Settle; Settle;
   Drain 0 true; Drain 0 true; Settle; Settle; Drain 0 true].

Lemma default_limits_ok : limits_ok default_limits.
Proof. split; simpl; lia. Qed.

Lemma demo_steps_run :
  match qrun default_limits demo_crc queue_init demo_steps with Some _ => true | None => false end = true.
Proof. vm_compute. reflexivity. Qed.
Definition demo_queue : queue := default queue_init (qrun default_limits demo_crc queue_init demo_steps).
Lemma demo_queue_run : qrun default_limits demo_crc queue_init demo_steps = Some demo_queue.
Proof.
  unfold demo_queue. generalize demo_steps_run.
  by destruct (qrun default_limits demo_crc queue_init demo_steps).
Qed.

Example demo_queue_end :
  offered demo_queue = [(25, [7; 8; 9])] /\ counted demo_queue = [modules_captured; cubins_sent; module_reload_skipped] /\
  map_to_list (h_blocks (mem demo_queue)) = [] /\ announced demo_queue = [(2, 101, 25, [7; 8; 9])].
Proof. vm_compute. done. Qed.

Lemma cubin_queue_safe_witness :
  faults demo_queue = 0%nat /\ NoDup (own demo_queue).*1.
Proof.
  destruct (cubin_queue_safe default_limits demo_crc default_limits_ok demo_steps demo_queue
    demo_queue_run) as (H1 & _ & H2 & _). split; assumption.
Defined.

Lemma cubin_outcomes_exact_witness :
  calls demo_steps = (times cubin_too_large (counted demo_queue) +
    times cubin_alloc_failed (counted demo_queue) + length (copied demo_queue))%nat.
Proof.
  destruct (cubin_outcomes_exact default_limits demo_crc default_limits_ok demo_steps demo_queue
    demo_queue_run) as (_ & H & _). exact H.
Defined.

Lemma cubin_offers_genuine_witness :
  offered demo_queue = [(25, [7; 8; 9])] /\ 25 = demo_crc [7; 8; 9] /\ 25 <> 0 /\ ([7; 8; 9] ∈ copied demo_queue).
Proof.
  split; [exact (proj1 demo_queue_end)|].
  destruct (cubin_offers_genuine default_limits demo_crc default_limits_ok demo_steps demo_queue
    demo_queue_run) as [H _]. apply H. rewrite (proj1 demo_queue_end). by apply elem_of_cons; left.
Defined.
