(* ===== verification/Double.v ===== *)
(** * Double: the IEEE 754 binary64 arithmetic the shim's controllers use

    Every finite double is an integer multiple of 2^-1074, so a finite value is
    modelled as that integer with its sign (there are two zeros), beside the two
    infinities and NaN.  An operation computes the exact result as a fraction
    and rounds it once, to nearest with ties to even, as the standard requires
    of the default rounding mode; comparisons with NaN are false.  Everything is
    executable. *)
From S2P Require Import Prelude.

Inductive double :=
| DFin (neg : bool) (n : Z)   (* (-1)^neg * n * 2^-1074, n >= 0 *)
| DInf (neg : bool)
| DNaN.

(** One is this many units. *)
Definition scale : Z := 2 ^ 1074.

(** ** Rounding *)

(** The spacing of doubles around [q] units. *)
Definition ulp (q : Z) : Z := if q <? 2 ^ 53 then 1 else 2 ^ (Z.log2 q - 52).

(** The integer nearest to [n / d], ties to even. *)
Definition rne (n d : Z) : Z :=
  let q := n / d in
  let r := n mod d in
  if 2 * r <? d then q
  else if d <? 2 * r then q + 1
  else if Z.even q then q else q + 1.

(** The double of sign [neg] nearest to [n / d] units. *)
Definition dround (neg : bool) (n d : Z) : double :=
  let u := ulp (n / d) in
  let m := u * rne n (d * u) in
  if m <? 2 ^ 1024 * scale then DFin neg m else DInf neg.

(** ** Operations *)

Definition of_ratio (n d : Z) : double := dround (n <? 0) (Z.abs n * scale) d.
(** Conversion of an unsigned integer. *)
Definition of_u64 (z : Z) : double := dround false (z * scale) 1.

(** The signed number of units of a finite value. *)
Definition units (neg : bool) (n : Z) : Z := if neg then - n else n.

Definition dneg (x : double) : double :=
  match x with DFin s n => DFin (negb s) n | DInf s => DInf (negb s) | DNaN => DNaN end.

Definition dadd (x y : double) : double :=
  match x, y with
  | DNaN, _ => DNaN
  | _, DNaN => DNaN
  | DInf s, DInf t => if Bool.eqb s t then DInf s else DNaN
  | DInf s, _ => DInf s
  | _, DInf t => DInf t
  | DFin s n, DFin t m =>
      let v := units s n + units t m in
      if v =? 0 then DFin (s && t) 0 else dround (v <? 0) (Z.abs v) 1
  end.

Definition dsub (x y : double) : double := dadd x (dneg y).

Definition dmul (x y : double) : double :=
  match x, y with
  | DNaN, _ => DNaN
  | _, DNaN => DNaN
  | DInf s, DInf t => DInf (xorb s t)
  | DInf s, DFin t m => if m =? 0 then DNaN else DInf (xorb s t)
  | DFin s n, DInf t => if n =? 0 then DNaN else DInf (xorb s t)
  | DFin s n, DFin t m => dround (xorb s t) (n * m) scale
  end.

Definition ddiv (x y : double) : double :=
  match x, y with
  | DNaN, _ => DNaN
  | _, DNaN => DNaN
  | DInf _, DInf _ => DNaN
  | DInf s, DFin t _ => DInf (xorb s t)
  | DFin s _, DInf t => DFin (xorb s t) 0
  | DFin s n, DFin t m =>
      if m =? 0 then (if n =? 0 then DNaN else DInf (xorb s t))
      else dround (xorb s t) (n * scale) m
  end.

(** [x < y] and [x <= y]; false when either is NaN. *)
Definition dlt (x y : double) : bool :=
  match x, y with
  | DNaN, _ => false
  | _, DNaN => false
  | DInf s, DInf t => s && negb t
  | DInf s, DFin _ _ => s
  | DFin _ _, DInf t => negb t
  | DFin s n, DFin t m => units s n <? units t m
  end.
Definition dle (x y : double) : bool :=
  match x, y with
  | DNaN, _ => false
  | _, DNaN => false
  | DInf s, DInf t => s || negb t
  | DInf s, DFin _ _ => s
  | DFin _ _, DInf t => negb t
  | DFin s n, DFin t m => units s n <=? units t m
  end.
Definition dgt (x y : double) : bool := dlt y x.
Definition dge (x y : double) : bool := dle y x.

(** [(uint64_t)x] for [0 <= x < 2^64]; elsewhere the conversion is undefined
    and this gives no value the theorems may rely on. *)
Definition to_u64 (x : double) : Z :=
  match x with DFin s n => units s n / scale | _ => 0 end.

Definition d0 : double := DFin false 0.
Definition d1 : double := of_ratio 1 1.

(** ** Exactness *)

Lemma scale_pos : 0 < scale.
Proof. unfold scale. by apply Z.pow_pos_nonneg. Qed.

Lemma ulp_pos q : 0 < ulp q.
Proof.
  unfold ulp. destruct (Z.ltb_spec q (2 ^ 53)) as [|H]; [lia|].
  assert (53 <= Z.log2 q) by (apply Z.log2_le_pow2; lia). apply Z.pow_pos_nonneg; lia.
Qed.

Lemma rne_exact x d : 0 < d -> rne (x * d) d = x.
Proof.
  intros Hd. unfold rne. rewrite Z.div_mul, Z.mod_mul by lia.
  by rewrite (proj2 (Z.ltb_lt _ _)) by lia.
Qed.

(** A fraction equal to a representable value is not changed. *)
Lemma dround_exact neg n d x :
  0 < d -> n = x * d -> (ulp x | x) -> x < 2 ^ 1024 * scale -> dround neg n d = DFin neg x.
Proof.
  intros Hd -> [k Hk] Hx. unfold dround. rewrite Z.div_mul by lia. pose proof (ulp_pos x) as Hu.
  assert (E : rne (x * d) (d * ulp x) = k).
  { rewrite Hk at 1. replace (k * ulp x * d) with (k * (d * ulp x)) by ring. apply rne_exact. nia. }
  rewrite E. replace (ulp x * k) with x by lia. by rewrite (proj2 (Z.ltb_lt _ _)).
Qed.

Lemma log2_scaled z : 0 < z -> Z.log2 (z * scale) = Z.log2 z + 1074.
Proof. intros Hz. unfold scale. rewrite Z.log2_mul_pow2 by lia. lia. Qed.

(** Integers up to 2^53 are doubles. *)
Lemma ulp_divides z : 0 <= z <= 2 ^ 53 -> (ulp (z * scale) | z * scale).
Proof.
  intros Hz. destruct (Z.eq_dec z 0) as [->|Hn]; [apply Z.divide_0_r|].
  unfold ulp. destruct (_ <? _); [apply Z.divide_1_l|]. rewrite log2_scaled by lia.
  assert (Hl : 0 <= Z.log2 z <= 53).
  { split; [apply Z.log2_nonneg|]. rewrite <- (Z.log2_pow2 53) by lia. apply Z.log2_le_mono; lia. }
  destruct (Z.eq_dec z (2 ^ 53)) as [->|Hne].
  - rewrite Z.log2_pow2 by lia. unfold scale. exists (2 ^ 52). rewrite <- !Z.pow_add_r by lia.
    f_equal.
  - assert (Z.log2 z < 53) by (apply Z.log2_lt_pow2; lia). apply Z.divide_mul_r. unfold scale.
    exists (2 ^ (52 - Z.log2 z)). rewrite <- Z.pow_add_r by lia. f_equal. lia.
Qed.

Lemma in_range z : 0 <= z < 2 ^ 64 -> z * scale < 2 ^ 1024 * scale.
Proof.
  intros Hz. apply Z.mul_lt_mono_pos_r; [apply scale_pos|]. eapply Z.lt_le_trans; [apply Hz|].
  by apply Z.pow_le_mono_r.
Qed.

Lemma of_u64_exact z : 0 <= z <= 2 ^ 53 -> of_u64 z = DFin false (z * scale).
Proof.
  intros Hz. apply dround_exact; [lia|lia|by apply ulp_divides|apply in_range; lia].
Qed.

(** Products of integers that stay below 2^53 are exact. *)
Lemma dmul_int a b :
  0 <= a -> 0 <= b -> a * b <= 2 ^ 53 ->
  dmul (DFin false (a * scale)) (DFin false (b * scale)) = DFin false (a * b * scale).
Proof.
  intros Ha Hb Hab. simpl. apply dround_exact; [apply scale_pos|ring|apply ulp_divides; nia|].
  apply in_range. nia.
Qed.

(** Truncation between integers. *)
Lemma to_u64_between lo hi x :
  0 <= lo -> dgt x (DFin false (lo * scale)) = true -> dge x (DFin false (hi * scale)) = false ->
  lo <= to_u64 x < hi.
Proof.
  intros Hlo. pose proof scale_pos. unfold dgt, dge. destruct x as [s n|[]|]; simpl; try done.
  rewrite Z.ltb_lt, Z.leb_gt. intros H1 H2. split.
  - apply Z.div_le_lower_bound; lia.
  - apply Z.div_lt_upper_bound; lia.
Qed.
