(* ===== verification/Burst.v ===== *)
(** * Burst: the duty cycle of serialized PC sampling

    Models src/shim/core/burst.h: the gap the duty ceiling demands, the control
    loop, and [BurstController].  Every method of the controller holds its mutex
    from entry to return, so a history is a sequence of whole calls, made by any
    threads at any times. *)
From S2P Require Import Prelude Double.

Inductive BurstAction := kNone | kStart | kStop.
Inductive BurstStopReason := kDutyCycle | kGraph | kShutdown.

Record BurstConfig := MkBurstConfig {
  cfg_burst_ns : Z;
  target_rate : double;
  max_duty : double;
  max_gap_ns : Z;
  gain : double;
}.
Definition default_burst : BurstConfig :=
  MkBurstConfig (50 * 1000000) (of_ratio 100 1) (of_ratio 5 100) (10 * 1000000000) (of_ratio 1 2).

Definition burst_min_gap_for_ns (cfg : BurstConfig) (dur_ns : Z) : Z :=
  let duty := max_duty cfg in
  let duty := if negb (dgt duty d0) then of_ratio 1 1000 else duty in
  let duty := if dgt duty d1 then d1 else duty in
  let g := dmul (of_u64 dur_ns) (dsub (ddiv d1 duty) d1) in
  if negb (dgt g d0) then 0
  else if dge g (of_u64 (max_gap_ns cfg)) then max_gap_ns cfg
  else to_u64 g.

Definition burst_min_gap_ns (cfg : BurstConfig) : Z := burst_min_gap_for_ns cfg (cfg_burst_ns cfg).

(** The gap the loop asks for, before its clamp. *)
Definition burst_loop_gap (cfg : BurstConfig) (prev_gap_ns pairs elapsed_ns : Z) : double :=
  if elapsed_ns =? 0 then of_u64 prev_gap_ns
  else
    let observed_rate := ddiv (dmul (of_u64 pairs) (of_ratio 1000000000 1)) (of_u64 elapsed_ns) in
    let ratio := ddiv observed_rate (target_rate cfg) in
    let cycle := dmul (of_u64 elapsed_ns) ratio in
    let raw_gap := dsub cycle (of_u64 (cfg_burst_ns cfg)) in
    let raw_gap := if negb (dgt raw_gap d0) then d0 else raw_gap in
    let g := gain cfg in
    let g := if negb (dgt g d0) then d0 else g in
    let g := if dgt g d1 then d1 else g in
    dadd (of_u64 prev_gap_ns) (dmul g (dsub raw_gap (of_u64 prev_gap_ns))).

Definition burst_next_gap_ns (cfg : BurstConfig) (prev_gap_ns pairs elapsed_ns : Z) : Z :=
  let lo := burst_min_gap_ns cfg in
  let hi := if lo <? max_gap_ns cfg then max_gap_ns cfg else lo in
  let gap := burst_loop_gap cfg prev_gap_ns pairs elapsed_ns in
  if negb (dgt gap (of_u64 lo)) then lo
  else if dge gap (of_u64 hi) then hi
  else to_u64 gap.

(** ** The controller *)

Record BurstController := MkBurst {
  sampling_ : bool;
  started_ : bool;
  refused_ : bool;
  have_open_yield_ : bool;
  burst_start_ns_ : Z;
  last_burst_end_ns_ : Z;
  last_burst_dur_ : Z;
  first_start_ns_ : Z;
  next_start_ns_ : Z;
  pairs_at_last_close_ : Z;
  gap_ns_ : Z;
  bursts_ : Z;
  burst_ns_ : Z;
  pairs_ : Z;
  graph_refusals_ : Z;
  last_stop_ : BurstStopReason;
}.

Section controller.
  Context (cfg : BurstConfig).

Definition Burst_init : BurstController :=
  MkBurst false false false false 0 0 0 0 0 0 (burst_min_gap_ns cfg) 0 0 0 0 kDutyCycle.

Definition gap_for_duration_locked (dur_ns : Z) (c : BurstController) : Z :=
  let floor := burst_min_gap_for_ns cfg dur_ns in
  if floor <? gap_ns_ c then gap_ns_ c else floor.

Definition note_graphs_locked (graphs_observed : bool) (c : BurstController) : BurstController :=
  if graphs_observed && negb (refused_ c)
  then MkBurst (sampling_ c) (started_ c) true (have_open_yield_ c) (burst_start_ns_ c)
         (last_burst_end_ns_ c) (last_burst_dur_ c) (first_start_ns_ c) (next_start_ns_ c)
         (pairs_at_last_close_ c) (gap_ns_ c) (bursts_ c) (burst_ns_ c) (pairs_ c)
         (u64 (graph_refusals_ c + 1)) (last_stop_ c)
  else c.

Definition open_locked (now_ns : Z) (c : BurstController) : BurstAction * BurstController :=
  if refused_ c then (kNone, c)
  else if started_ c && (now_ns <? next_start_ns_ c) then (kNone, c)
  else (kStart,
    MkBurst true true (refused_ c) (have_open_yield_ c) now_ns
      (last_burst_end_ns_ c) (last_burst_dur_ c)
      (if negb (started_ c) then now_ns else first_start_ns_ c) (next_start_ns_ c)
      (pairs_at_last_close_ c) (gap_ns_ c) (u64 (bursts_ c + 1)) (burst_ns_ c) (pairs_ c)
      (graph_refusals_ c) (last_stop_ c)).

Definition stop_locked (now_ns : Z) (why : BurstStopReason) (c : BurstController)
  : BurstAction * BurstController :=
  let dur := if burst_start_ns_ c <? now_ns then now_ns - burst_start_ns_ c else 0 in
  let gap := gap_for_duration_locked dur c in
  (kStop,
    MkBurst false (started_ c) (refused_ c) true (burst_start_ns_ c) now_ns dur (first_start_ns_ c)
      (u64 (now_ns + gap)) (pairs_at_last_close_ c) gap (bursts_ c) (u64 (burst_ns_ c + dur)) (pairs_ c)
      (graph_refusals_ c) why).

Definition close_locked (now_ns : Z) (c : BurstController) : BurstAction * BurstController :=
  if refused_ c then stop_locked now_ns kGraph c
  else if u64 (now_ns - burst_start_ns_ c) <? cfg_burst_ns cfg then (kNone, c)
  else stop_locked now_ns kDutyCycle c.

Definition poll (now_ns : Z) (graphs_observed : bool) (c : BurstController)
  : BurstAction * BurstController :=
  let c := note_graphs_locked graphs_observed c in
  if sampling_ c then close_locked now_ns c else open_locked now_ns c.

Definition poll_open (now_ns : Z) (graphs_observed : bool) (c : BurstController)
  : BurstAction * BurstController :=
  let c := note_graphs_locked graphs_observed c in
  if sampling_ c then (kNone, c) else open_locked now_ns c.

Definition poll_close (now_ns : Z) (graphs_observed : bool) (c : BurstController)
  : BurstAction * BurstController :=
  let c := note_graphs_locked graphs_observed c in
  if negb (sampling_ c) then (kNone, c) else close_locked now_ns c.

Definition closed (pairs_total : Z) (c : BurstController) : BurstController :=
  if negb (have_open_yield_ c) then c
  else
    let pairs := if pairs_at_last_close_ c <? pairs_total then pairs_total - pairs_at_last_close_ c else 0 in
    let elapsed := u64 (last_burst_dur_ c + gap_ns_ c) in
    let gap := burst_next_gap_ns cfg (gap_ns_ c) pairs elapsed in
    let floor := burst_min_gap_for_ns cfg (last_burst_dur_ c) in
    let gap := if floor <? gap then gap else floor in
    MkBurst (sampling_ c) (started_ c) (refused_ c) false (burst_start_ns_ c) (last_burst_end_ns_ c)
      (last_burst_dur_ c) (first_start_ns_ c) (u64 (last_burst_end_ns_ c + gap)) pairs_total gap
      (bursts_ c) (burst_ns_ c) (u64 (pairs_ c + pairs)) (graph_refusals_ c) (last_stop_ c).

(** [refused_ = true]. *)
Definition refuse (c : BurstController) : BurstController :=
  MkBurst (sampling_ c) (started_ c) true (have_open_yield_ c) (burst_start_ns_ c)
    (last_burst_end_ns_ c) (last_burst_dur_ c) (first_start_ns_ c) (next_start_ns_ c)
    (pairs_at_last_close_ c) (gap_ns_ c) (bursts_ c) (burst_ns_ c) (pairs_ c) (graph_refusals_ c)
    (last_stop_ c).

Definition shutdown (now_ns : Z) (c : BurstController) : BurstAction * BurstController :=
  let c := refuse c in
  if negb (sampling_ c) then (kNone, c) else stop_locked now_ns kShutdown c.

(** The duty reported. *)
Definition duty (now_ns : Z) (c : BurstController) : double :=
  if negb (started_ c) || (now_ns <=? first_start_ns_ c) then d0
  else ddiv (of_u64 (burst_ns_ c)) (of_u64 (now_ns - first_start_ns_ c)).

(** A call by the adapter. *)
Inductive call :=
| Poll (now_ns : Z) (graphs : bool)
| PollOpen (now_ns : Z) (graphs : bool)
| PollClose (now_ns : Z) (graphs : bool)
| Closed (pairs_total : Z)
| Shutdown (now_ns : Z).

Definition call_step (x : call) (c : BurstController) : BurstAction * BurstController :=
  match x with
  | Poll now g => poll now g c
  | PollOpen now g => poll_open now g c
  | PollClose now g => poll_close now g c
  | Closed n => (kNone, closed n c)
  | Shutdown now => shutdown now c
  end.

(** The time a call carries. *)
Definition call_time (x : call) : option Z :=
  match x with
  | Poll now _ | PollOpen now _ | PollClose now _ | Shutdown now => Some now
  | Closed _ => None
  end.

(** A history, and what was started and stopped when. *)
Fixpoint call_run (xs : list call) (c : BurstController) : list (BurstAction * Z) * BurstController :=
  match xs with
  | [] => ([], c)
  | x :: xs' =>
      let '(a, c') := call_step x c in
      let '(l, c'') := call_run xs' c' in
      (match a, call_time x with kNone, _ => l | _, Some t => (a, t) :: l | _, None => l end, c'')
  end.
End controller.

(** ** The gap *)

Section gap.
  Context (cfg : BurstConfig) (Hmax : 0 <= max_gap_ns cfg <= 2 ^ 53).

Lemma min_gap_range dur : 0 <= burst_min_gap_for_ns cfg dur <= max_gap_ns cfg.
Proof using Hmax.
  unfold burst_min_gap_for_ns. cbv zeta. set (g := dmul _ _).
  destruct (dgt g d0) eqn:E1; cbn [negb]; [|lia].
  rewrite (of_u64_exact (max_gap_ns cfg) Hmax). destruct (dge g _) eqn:E2; [lia|].
  pose proof (to_u64_between 0 (max_gap_ns cfg) g ltac:(lia) E1 E2). lia.
Qed.

Lemma next_gap_band prev pairs elapsed :
  burst_min_gap_ns cfg <= burst_next_gap_ns cfg prev pairs elapsed <= max_gap_ns cfg /\
  0 <= burst_min_gap_ns cfg.
Proof using Hmax.
  unfold burst_next_gap_ns. pose proof (min_gap_range (cfg_burst_ns cfg)) as Hlo.
  change (burst_min_gap_for_ns cfg (cfg_burst_ns cfg)) with (burst_min_gap_ns cfg) in Hlo.
  set (lo := burst_min_gap_ns cfg) in *.
  assert (Hhi : (if lo <? max_gap_ns cfg then max_gap_ns cfg else lo) = max_gap_ns cfg)
    by (destruct (Z.ltb_spec lo (max_gap_ns cfg)); lia).
  rewrite Hhi. set (g := burst_loop_gap cfg prev pairs elapsed). split; [|lia].
  rewrite (of_u64_exact lo), (of_u64_exact (max_gap_ns cfg)) by lia.
  destruct (dgt g _) eqn:E1; cbn [negb]; [|lia]. destruct (dge g _) eqn:E2; [lia|].
  pose proof (to_u64_between lo (max_gap_ns cfg) g ltac:(lia) E1 E2). lia.
Qed.

Lemma next_gap_range prev pairs elapsed : 0 <= burst_next_gap_ns cfg prev pairs elapsed <= max_gap_ns cfg.
Proof using Hmax. pose proof (next_gap_band prev pairs elapsed). lia. Qed.

(** The control loop never leaves its band.  For any configuration whose
    longest gap is at most 2^53 ns, and whatever the doubles in it are —
    infinities, NaN, a zero or negative rate, a gain outside [0, 1] — and for
    any previous gap, pair count and elapsed time, the next gap is at least the
    one the duty ceiling demands of a nominal burst and at most the configured
    maximum. *)
Theorem burst_gap_in_band prev pairs elapsed :
  burst_min_gap_ns cfg <= burst_next_gap_ns cfg prev pairs elapsed <= max_gap_ns cfg /\
  0 <= burst_min_gap_ns cfg.
Proof using Hmax. apply next_gap_band. Qed.
End gap.

Definition hostile : BurstConfig :=
  MkBurstConfig 50000000 d0 (of_ratio 1 20) 10000000000 (DInf false).
Lemma burst_gap_in_band_witness :
  burst_min_gap_ns hostile <= burst_next_gap_ns hostile 950000000 0 1000000000 <= 10000000000 /\
  0 <= burst_min_gap_ns hostile.
Proof. refine (burst_gap_in_band hostile _ 950000000 0 1000000000). vm_compute. by split. Defined.

(** Evaluated: a rate of 0 / 0 is NaN and lands on the floor; with pairs and a
    zero target the loop goes to the ceiling. *)
Example hostile_gaps :
  burst_next_gap_ns hostile 950000000 0 1000000000 = 950000000 /\
  burst_next_gap_ns hostile 950000000 7 1000000000 = 10000000000.
Proof. vm_compute. done. Qed.

(** The factor 1/0.05 - 1 is 19 exactly, so with the shipped configuration the
    ceiling's gap is 19 times the burst. *)
Lemma default_factor : dsub (ddiv d1 (max_duty default_burst)) d1 = DFin false (19 * scale).
Proof. vm_compute. reflexivity. Qed.

Lemma default_gap dur :
  0 <= dur <= 526315789 -> burst_min_gap_for_ns default_burst dur = 19 * dur.
Proof.
  intros Hd. unfold burst_min_gap_for_ns.
  replace (negb (dgt (max_duty default_burst) d0)) with false by (vm_compute; reflexivity).
  replace (dgt (max_duty default_burst) d1) with false by (vm_compute; reflexivity).
  rewrite default_factor, (of_u64_exact dur) by lia. rewrite dmul_int by lia.
  change (max_gap_ns default_burst) with 10000000000. rewrite (of_u64_exact 10000000000) by lia.
  pose proof scale_pos. unfold dgt, dge, d0. simpl.
  destruct (Z.ltb_spec 0 (dur * 19 * scale)) as [Hp|Hn]; simpl; [|nia].
  rewrite (proj2 (Z.leb_gt _ _)) by nia. rewrite Z.div_mul by lia. lia.
Qed.

(** ** The controller *)

Section protocol.
  Context (cfg : BurstConfig).

Lemma note_graphs_rest g c :
  sampling_ (note_graphs_locked g c) = sampling_ c /\
  refused_ (note_graphs_locked g c) = refused_ c || g.
Proof using Type.
  unfold note_graphs_locked. by destruct g, (refused_ c) eqn:E; simpl; rewrite ?E.
Qed.

Lemma open_action now c : (open_locked now c).1 <> kStop.
Proof using Type. unfold open_locked. by repeat case_match. Qed.
Lemma close_action now c : (close_locked cfg now c).1 <> kStart.
Proof using Type. unfold close_locked. by repeat case_match. Qed.

(** What a call may answer, given whether a burst is open before it. *)
Definition step_ok (c : BurstController) (r : BurstAction * BurstController) : Prop :=
  match r.1 with
  | kStart => sampling_ c = false /\ sampling_ r.2 = true /\ refused_ r.2 = false
  | kStop => sampling_ c = true /\ sampling_ r.2 = false
  | kNone => sampling_ r.2 = sampling_ c
  end /\ (refused_ c = true -> refused_ r.2 = true).

Lemma open_ok now c c1 :
  sampling_ c1 = sampling_ c -> sampling_ c = false -> (refused_ c = true -> refused_ c1 = true) ->
  step_ok c (open_locked now c1).
Proof using Type.
  intros E Es Hr. unfold step_ok, open_locked. destruct (refused_ c1) eqn:Er.
  - simpl. by rewrite E, Er.
  - destruct (_ && _); simpl; [by rewrite E, Er|]. split; [done|]. intros H. by specialize (Hr H).
Qed.

Lemma close_ok now c c1 :
  sampling_ c1 = sampling_ c -> sampling_ c = true -> (refused_ c = true -> refused_ c1 = true) ->
  step_ok c (close_locked cfg now c1).
Proof using Type.
  intros E Es Hr. unfold step_ok, close_locked. destruct (refused_ c1) eqn:Er.
  - simpl. by rewrite Er.
  - destruct (_ <? _); simpl; [by rewrite E, Er|]. split; [done|]. intros H. by specialize (Hr H).
Qed.

Lemma call_ok x c : step_ok c (call_step cfg x c).
Proof using Type.
  assert (Hn : forall g, sampling_ (note_graphs_locked g c) = sampling_ c /\
    (refused_ c = true -> refused_ (note_graphs_locked g c) = true)).
  { intros g. destruct (note_graphs_rest g c) as [E1 E2]. split; [done|]. rewrite E2. by intros ->. }
  destruct x as [now g|now g|now g|n|now]; simpl; unfold poll, poll_open, poll_close, shutdown.
  1,2,3: destruct (Hn g) as [E1 E2]; rewrite E1; destruct (sampling_ c) eqn:Es; simpl;
    first [apply open_ok|apply close_ok|split]; cbn [fst snd]; first [assumption|congruence].
  - unfold closed, step_ok. by destruct (have_open_yield_ c).
  - unfold step_ok. simpl. by destruct (sampling_ c) eqn:Es; simpl; rewrite ?Es.
Qed.

(** Starts and stops take turns, beginning with the one that is due. *)
Fixpoint alternates (open : bool) (l : list (BurstAction * Z)) : Prop :=
  match l with
  | [] => True
  | (kStart, _) :: l' => open = false /\ alternates true l'
  | (kStop, _) :: l' => open = true /\ alternates false l'
  | (kNone, _) :: l' => False
  end.

Lemma run_alternates xs c : alternates (sampling_ c) (call_run cfg xs c).1.
Proof using Type.
  revert c. induction xs as [|x xs IH]; intros c; simpl; [done|].
  pose proof (call_ok x c) as [Ha _]. pose proof (IH (call_step cfg x c).2) as Hi.
  assert (Ht : call_time x = None -> (call_step cfg x c).1 = kNone) by (by destruct x).
  destruct (call_step cfg x c) as [a c']. simpl in *. destruct (call_run cfg xs c') as [l c'']. simpl in *.
  destruct a; simpl in Ha; [by rewrite Ha in Hi| |];
    (destruct (call_time x); [|by specialize (Ht eq_refl)]); simpl.
  - destruct Ha as (E1 & E2 & _). by rewrite E2 in Hi.
  - destruct Ha as (E1 & E2). by rewrite E2 in Hi.
Qed.

Lemma run_refused xs c t : refused_ c = true -> (kStart, t) ∉ (call_run cfg xs c).1.
Proof using Type.
  revert c. induction xs as [|x xs IH]; intros c Hr; simpl; [apply not_elem_of_nil|].
  pose proof (call_ok x c) as [Ha Hr']. specialize (Hr' Hr).
  pose proof (IH (call_step cfg x c).2 Hr') as Hi.
  destruct (call_step cfg x c) as [a c']. simpl in *. destruct (call_run cfg xs c') as [l c'']. simpl in *.
  destruct a; simpl in Ha; [done| |].
  - destruct Ha as (_ & _ & E). congruence.
  - destruct (call_time x); [|done]. by intros [?|?]%elem_of_cons.
Qed.

(** The calls that end bursts for good. *)
Definition refuses (x : call) : bool :=
  match x with Poll _ g | PollOpen _ g | PollClose _ g => g | Shutdown _ => true | Closed _ => false end.

Lemma refusing_call x c : refuses x = true -> refused_ (call_step cfg x c).2 = true.
Proof using Type.
  assert (Hn : refused_ (note_graphs_locked true c) = true)
    by (destruct (note_graphs_rest true c) as [_ ->]; apply orb_true_r).
  destruct x as [now g|now g|now g|n|now]; simpl; try done.
  1,2,3: intros ->; unfold poll, poll_open, poll_close, open_locked, close_locked; rewrite Hn;
    by case_match.
  intros _. unfold shutdown. simpl. by destruct (sampling_ c).
Qed.

(** The start/stop protocol.  Whatever the state, a launch entry
    ([poll_open]) is never told to stop and a launch exit ([poll_close]) never
    to start; over any history of calls, starts and stops take turns; and once a
    CUDA graph has been seen or teardown has begun, no call ever starts a burst
    again. *)
Theorem burst_protocol :
  (forall now g c, (poll_open now g c).1 <> kStop) /\
  (forall now g c, (poll_close cfg now g c).1 <> kStart) /\
  (forall xs, alternates false (call_run cfg xs (Burst_init cfg)).1) /\
  (forall xs x c t, refuses x = true ->
     (kStart, t) ∉ (call_run cfg xs (call_step cfg x c).2).1).
Proof using Type.
  split_and!.
  - intros now g c. unfold poll_open. case_match; [done|apply open_action].
  - intros now g c. unfold poll_close. case_match; [done|apply close_action].
  - intros xs. apply (run_alternates xs (Burst_init cfg)).
  - intros xs x c t Hg. apply run_refused. by apply refusing_call.
Qed.
End protocol.

(** Evaluated: with the shipped configuration a burst opens at once, runs past
    its 50 ms until a launch exits at 60 ms, and the next one is owed 19 times
    that; a graph ends the second one early and for good. *)
Example burst_demo :
  (call_run default_burst
    [PollOpen 1000 false; PollClose 20000000 false; PollClose 60001000 false; Closed 4;
     PollOpen 1200000000 false; PollOpen 1200001000 false; PollClose 1210000000 true;
     PollOpen 90000000000 false] (Burst_init default_burst)).1
  = [(kStart, 1000); (kStop, 60001000); (kStart, 1200001000); (kStop, 1210000000)].
Proof. vm_compute. reflexivity. Qed.

(** ** How much of the run is serialized *)

Section duty.
  Context (cfg : BurstConfig) (Hmax : 0 <= max_gap_ns cfg <= 2 ^ 53).
  (** The longest any burst ran. *)
  Context (D : Z).

(** The states reachable with a clock that does not go back, and the time of
    the last call. *)
Inductive reach : Z -> BurstController -> Prop :=
| reach_init : reach 0 (Burst_init cfg)
| reach_step t c x :
    reach t c ->
    (forall now, call_time x = Some now -> t <= now <= 2 ^ 62) ->
    (forall now, call_time x = Some now -> (call_step cfg x c).1 = kStop -> now - burst_start_ns_ c <= D) ->
    reach (default t (call_time x)) (call_step cfg x c).2.

Record timing (t : Z) (c : BurstController) : Prop := {
  tm_now : 0 <= t <= 2 ^ 62;
  tm_gap : 0 <= gap_ns_ c <= max_gap_ns cfg;
  tm_last : 0 <= last_burst_dur_ c <= last_burst_end_ns_ c /\ last_burst_end_ns_ c <= t;
  tm_first : started_ c = true -> 0 <= first_start_ns_ c <= t;
  tm_open : sampling_ c = true -> started_ c = true /\ 0 <= burst_start_ns_ c <= t;
  tm_shut : sampling_ c = false -> started_ c = true ->
    last_burst_dur_ c = last_burst_end_ns_ c - burst_start_ns_ c /\ last_burst_dur_ c <= D /\
    next_start_ns_ c >= last_burst_end_ns_ c + burst_min_gap_for_ns cfg (last_burst_dur_ c);
}.

Lemma init_timing : timing 0 (Burst_init cfg).
Proof using Hmax.
  split; simpl; try done; try lia. pose proof (min_gap_range cfg Hmax (cfg_burst_ns cfg)).
  unfold burst_min_gap_ns. lia.
Qed.

Lemma note_timing t c g : timing t c -> timing t (note_graphs_locked g c).
Proof using Type. intros []. unfold note_graphs_locked. destruct (_ && _); by split. Qed.

Lemma later_timing t t' c : timing t c -> t <= t' <= 2 ^ 62 -> timing t' c.
Proof using Type.
  intros [] Ht. split; try done; try lia.
  - intros Hs. specialize (tm_first0 Hs). lia.
  - intros Hs. destruct (tm_open0 Hs). split; [done|lia].
Qed.

Lemma open_timing t now c :
  timing t c -> t <= now <= 2 ^ 62 -> timing now (open_locked now c).2.
Proof using Type.
  intros Ht Hn. pose proof (later_timing t now c Ht Hn) as Ht'. unfold open_locked.
  destruct (refused_ c); [done|]. destruct (_ && _); [done|]. destruct Ht'. split; simpl; try done; try lia.
  intros _. destruct (started_ c) eqn:Es; simpl; [by apply tm_first0|lia].
Qed.

Lemma stop_timing t now why c :
  timing t c -> t <= now <= 2 ^ 62 -> sampling_ c = true -> now - burst_start_ns_ c <= D ->
  timing now (stop_locked cfg now why c).2.
Proof using Hmax.
  intros Ht Hn Hs Hd. destruct (tm_open t c Ht Hs) as [Hst Hb].
  pose proof (later_timing t now c Ht Hn) as []. unfold stop_locked. simpl.
  set (dur := if _ <? _ then _ else _).
  assert (Ed : dur = now - burst_start_ns_ c) by (subst dur; destruct (Z.ltb_spec (burst_start_ns_ c) now); lia).
  pose proof (min_gap_range cfg Hmax dur) as Hg. unfold gap_for_duration_locked.
  set (gap := if _ <? _ then _ else _).
  assert (Hgap : burst_min_gap_for_ns cfg dur <= gap <= max_gap_ns cfg)
    by (subst gap; destruct (Z.ltb_spec (burst_min_gap_for_ns cfg dur) (gap_ns_ c)); lia).
  split; simpl; try done; try lia. intros _ _. rewrite u64_small by word_lia. lia.
Qed.

Lemma closed_timing t n c : timing t c -> timing t (closed cfg n c).
Proof using Hmax.
  intros Ht. unfold closed. destruct (have_open_yield_ c); simpl; [|done]. destruct Ht.
  pose proof (min_gap_range cfg Hmax (last_burst_dur_ c)) as Hg.
  set (g := burst_next_gap_ns cfg _ _ _).
  assert (Hn : 0 <= g <= max_gap_ns cfg) by (subst g; apply next_gap_range; done).
  set (gap := if _ <? _ then _ else _).
  assert (Hgap : burst_min_gap_for_ns cfg (last_burst_dur_ c) <= gap <= max_gap_ns cfg)
    by (subst gap; destruct (Z.ltb_spec (burst_min_gap_for_ns cfg (last_burst_dur_ c)) g); lia).
  split; simpl; try done; try lia. intros Hs Hst. destruct (tm_shut0 Hs Hst) as (E & Hd & _).
  rewrite u64_small by word_lia. split_and!; try done. lia.
Qed.

Lemma close_timing t now c :
  timing t c -> t <= now <= 2 ^ 62 -> sampling_ c = true ->
  ((close_locked cfg now c).1 = kStop -> now - burst_start_ns_ c <= D) ->
  timing now (close_locked cfg now c).2.
Proof using Hmax.
  intros Ht Hn Hs. unfold close_locked. destruct (refused_ c); [intros Hd; by eapply stop_timing, Hd|].
  destruct (_ <? _); [intros _; by eapply later_timing|]. intros Hd. by eapply stop_timing, Hd.
Qed.

Lemma call_timing t c x :
  timing t c -> (forall now, call_time x = Some now -> t <= now <= 2 ^ 62) ->
  (forall now, call_time x = Some now -> (call_step cfg x c).1 = kStop -> now - burst_start_ns_ c <= D) ->
  timing (default t (call_time x)) (call_step cfg x c).2.
Proof using Hmax.
  intros Ht Hn Hd. destruct x as [now g|now g|now g|n|now]; simpl in *.
  1,2,3: specialize (Hn now eq_refl); specialize (Hd now eq_refl); pose proof (note_timing t c g Ht) as Ht1;
    assert (Eb : burst_start_ns_ (note_graphs_locked g c) = burst_start_ns_ c)
      by (unfold note_graphs_locked; by destruct (_ && _));
    rewrite <- Eb in Hd; unfold poll, poll_open, poll_close in *;
    destruct (sampling_ (note_graphs_locked g c)) eqn:Es; simpl in *;
    first [by eapply open_timing|by eapply close_timing|by eapply later_timing].
  - by apply closed_timing.
  - specialize (Hn now eq_refl). specialize (Hd now eq_refl). unfold shutdown in *.
    assert (Ht1 : timing t (refuse c)) by (by destruct Ht).
    destruct (sampling_ (refuse c)) eqn:Es; cbn [negb fst snd] in *.
    + eapply stop_timing; [exact Ht1|exact Hn|exact Es|by apply Hd].
    + by eapply later_timing.
Qed.

Lemma reach_timing t c : reach t c -> timing t c.
Proof using Hmax.
  induction 1 as [|t c x _ IH Hn Hd]; [apply init_timing|by apply call_timing].
Qed.

(** A start was asked for when the gap was over. *)
Lemma start_after x c c' now :
  call_step cfg x c = (kStart, c') -> call_time x = Some now -> started_ c = true ->
  next_start_ns_ c <= now /\ sampling_ c = false /\ burst_start_ns_ c' = now /\ sampling_ c' = true /\
  first_start_ns_ c' = first_start_ns_ c /\ burst_ns_ c' = burst_ns_ c.
Proof using Type.
  intros Hs Ht Hst. pose proof (call_ok cfg x c) as [Ho _]. rewrite Hs in Ho. simpl in Ho.
  assert (Hg : forall g, let c1 := note_graphs_locked g c in started_ c1 = true /\
    next_start_ns_ c1 = next_start_ns_ c /\ first_start_ns_ c1 = first_start_ns_ c /\
    burst_ns_ c1 = burst_ns_ c).
  { intros g. unfold note_graphs_locked. by destruct (_ && _). }
  assert (Hop : forall g, open_locked now (note_graphs_locked g c) = (kStart, c') ->
    next_start_ns_ c <= now /\ burst_start_ns_ c' = now /\ sampling_ c' = true /\
    first_start_ns_ c' = first_start_ns_ c /\ burst_ns_ c' = burst_ns_ c).
  { intros g. destruct (Hg g) as (E1 & E2 & E3 & E4). unfold open_locked. rewrite E1, E2.
    destruct (refused_ (note_graphs_locked g c)); [intros; discriminate|]. cbn [andb].
    destruct (Z.ltb_spec now (next_start_ns_ c)); [intros; discriminate|]. intros [= <-]. simpl in *. by split_and!. }
  destruct x as [now' g|now' g|now' g|n|now']; simpl in *; simplify_eq;
    try (unfold poll, poll_open, poll_close in Hs; destruct (note_graphs_rest g c) as [E _];
         rewrite E in Hs; rewrite (proj1 Ho) in Hs; simpl in Hs; try done;
         destruct (Hop g Hs) as (? & ? & ? & ? & ?); split_and!; try done; apply Ho).
  unfold shutdown in Hs. by destruct (negb _).
Qed.

(** Bursts keep their distance.  With any configuration (longest gap at most
    2^53 ns) and any history of calls whose clock does not go back: when a burst
    opens after an earlier one that ran from [burst_start_ns_] to
    [last_burst_end_ns_], at least the gap the duty ceiling demands of a burst of
    that actual length has passed since it closed. *)
Theorem burst_spacing t c x c' now :
  reach t c -> call_time x = Some now -> call_step cfg x c = (kStart, c') -> started_ c = true ->
  burst_start_ns_ c' = now /\
  last_burst_end_ns_ c
    + burst_min_gap_for_ns cfg (last_burst_end_ns_ c - burst_start_ns_ c) <= now.
Proof using Hmax.
  intros Hr Ht Hs Hst. destruct (start_after x c c' now Hs Ht Hst) as (Hn & Hsh & Hb & _).
  destruct (tm_shut t c (reach_timing t c Hr) Hsh Hst) as (E & _ & Hx). rewrite <- E.
  split; [done|lia].
Qed.
End duty.

(** The shipped configuration. *)
Section default.
  Local Abbreviation cfg := default_burst.
  Local Abbreviation D := 526315789.

Lemma default_max : 0 <= max_gap_ns cfg <= 2 ^ 53.
Proof. vm_compute. by split. Qed.

(** Twenty times what has been serialized fits in the time since the start. *)
Record spent (c : BurstController) : Prop := {
  sp_total : 0 <= burst_ns_ c <= 2 ^ 62;
  sp_fresh : started_ c = false -> burst_ns_ c = 0;
  sp_open : sampling_ c = true -> first_start_ns_ c + 20 * burst_ns_ c <= burst_start_ns_ c;
  sp_shut : sampling_ c = false -> started_ c = true ->
    first_start_ns_ c + 20 * burst_ns_ c <= last_burst_end_ns_ c + 19 * last_burst_dur_ c;
}.

Lemma note_spent g c : spent c -> spent (note_graphs_locked g c).
Proof. intros []. unfold note_graphs_locked. destruct (_ && _); by split. Qed.

Lemma open_spent t now c :
  timing cfg D t c -> spent c -> t <= now <= 2 ^ 62 -> sampling_ c = false -> spent (open_locked now c).2.
Proof.
  intros Ht [S1 S2 S3 S4] Hn Hs. unfold open_locked. destruct (refused_ c); [by split|].
  destruct (started_ c) eqn:Est; simpl.
  - destruct (Z.ltb_spec now (next_start_ns_ c)); [split; simpl; rewrite ?Est; done|]. split; simpl; try done.
    intros _. destruct (tm_shut _ _ _ _ Ht Hs Est) as (_ & Hd & Hx). specialize (S4 Hs eq_refl).
    rewrite default_gap in Hx by (destruct (tm_last _ _ _ _ Ht); lia). lia.
  - split; simpl; try done. intros _. rewrite (S2 eq_refl). lia.
Qed.

Lemma stop_spent t now why c :
  timing cfg D t c -> spent c -> t <= now <= 2 ^ 62 -> sampling_ c = true ->
  spent (stop_locked cfg now why c).2.
Proof.
  intros Ht [S1 S2 S3 S4] Hn Hs. specialize (S3 Hs). destruct (tm_open _ _ _ _ Ht Hs) as [Est Hb].
  pose proof (tm_first _ _ _ _ Ht Est). unfold stop_locked. simpl. set (dur := if _ <? _ then _ else _).
  assert (Ed : dur = now - burst_start_ns_ c) by (subst dur; destruct (Z.ltb_spec (burst_start_ns_ c) now); lia).
  assert (Eu : u64 (burst_ns_ c + dur) = burst_ns_ c + dur) by (apply u64_small; word_lia).
  split; simpl; rewrite ?Eu, ?Est; try done; lia.
Qed.

Lemma close_spent t now c :
  timing cfg D t c -> spent c -> t <= now <= 2 ^ 62 -> sampling_ c = true ->
  spent (close_locked cfg now c).2.
Proof.
  intros Ht Hsp Hn Hs. unfold close_locked. destruct (refused_ c); [by eapply stop_spent|].
  destruct (_ <? _); [done|by eapply stop_spent].
Qed.

Lemma reach_spent t c : reach cfg D t c -> spent c.
Proof.
  induction 1 as [|t c x Hr IH Hn Hd]; [by split|].
  pose proof (reach_timing cfg default_max D t c Hr) as Ht.
  destruct x as [now g|now g|now g|n|now]; simpl in *.
  1,2,3: specialize (Hn now eq_refl); pose proof (note_timing cfg D t c g Ht) as Ht1;
    pose proof (note_spent g c IH) as Hs1; unfold poll, poll_open, poll_close;
    destruct (sampling_ (note_graphs_locked g c)) eqn:Es; cbn [negb snd];
    first [by eapply open_spent|by eapply close_spent|exact Hs1].
  - unfold closed. destruct (have_open_yield_ c); [|done]. destruct IH. by split.
  - specialize (Hn now eq_refl). unfold shutdown.
    assert (Ht1 : timing cfg D t (refuse c)) by (by destruct Ht).
    assert (Hs1 : spent (refuse c)) by (by destruct IH).
    destruct (sampling_ (refuse c)) eqn:Es; cbn [negb snd]; [by eapply stop_spent|done].
Qed.
End default.

(** C32: The duty ceiling holds over the whole run.  With the shipped
    configuration and a clock that does not go back, as long as no burst ran
    longer than 526 ms (ten times its nominal length): whenever a burst is open,
    the time spent in the earlier ones is at most a twentieth of the time from
    the first start to this one's; and between bursts it is at most a twentieth
    of the time to the earliest next start. *)
Theorem burst_duty_bound t c :
  reach default_burst 526315789 t c -> started_ c = true ->
  20 * burst_ns_ c <= (if sampling_ c then burst_start_ns_ c else next_start_ns_ c) - first_start_ns_ c.
Proof.
  intros Hr Hst. pose proof (reach_timing default_burst default_max _ t c Hr) as Ht.
  destruct (reach_spent t c Hr) as [_ _ S3 S4]. destruct (sampling_ c) eqn:Es; [specialize (S3 eq_refl); lia|].
  specialize (S4 eq_refl Hst). destruct (tm_shut _ _ _ _ Ht Es Hst) as (_ & Hd & Hx).
  rewrite default_gap in Hx by (destruct (tm_last _ _ _ _ Ht); lia). lia.
Qed.

(** The ceiling is not kept by a burst whose gap would exceed the longest one:
    after a burst of one second the gap is 10 s, not 19, and one eleventh of the
    cycle is serialized. *)
Theorem burst_ceiling_breached :
  let r := call_run default_burst
    [PollOpen 0 false; PollClose 1000000000 false; Closed 0; PollOpen 11000000000 false]
    (Burst_init default_burst) in
  r.1 = [(kStart, 0); (kStop, 1000000000); (kStart, 11000000000)] /\
  20 * burst_ns_ r.2 > burst_start_ns_ r.2 - first_start_ns_ r.2.
Proof. vm_compute. done. Qed.

Definition demo_open : BurstController := (poll_open 1000 false (Burst_init default_burst)).2.
Definition demo_shut : BurstController := (poll_close default_burst 60001000 false demo_open).2.

Lemma demo_reach D : 60000000 <= D -> reach default_burst D 60001000 demo_shut.
Proof.
  intros HD. apply (reach_step default_burst D 1000 demo_open (PollClose 60001000 false)).
  - apply (reach_step default_burst D 0 (Burst_init default_burst) (PollOpen 1000 false)); [constructor| |].
    + intros now [= <-]. lia.
    + intros now _. vm_compute. discriminate.
  - intros now [= <-]. lia.
  - intros now [= <-] _. change (burst_start_ns_ demo_open) with 1000. lia.
Qed.

Lemma burst_duty_bound_witness :
  20 * burst_ns_ demo_shut
    <= (if sampling_ demo_shut then burst_start_ns_ demo_shut else next_start_ns_ demo_shut)
       - first_start_ns_ demo_shut.
Proof. apply (burst_duty_bound 60001000 demo_shut); [apply demo_reach; lia|reflexivity]. Defined.

Lemma burst_spacing_witness :
  let c' := (poll_open 1200001000 false demo_shut).2 in
  burst_start_ns_ c' = 1200001000 /\
  last_burst_end_ns_ demo_shut
    + burst_min_gap_for_ns default_burst (last_burst_end_ns_ demo_shut - burst_start_ns_ demo_shut)
    <= 1200001000.
Proof.
  apply (burst_spacing default_burst default_max 526315789 60001000 demo_shut (PollOpen 1200001000 false)
    (poll_open 1200001000 false demo_shut).2 1200001000); [apply demo_reach; lia|reflexivity| |reflexivity].
  vm_compute. reflexivity.
Defined.
