(* ===== verification/CallGuard.v ===== *)
(** * CallGuard: the one lock around the vendor library

    Models src/shim/core/callguard.h.  The lock is re-entrant on its owner,
    counted, and has a non-blocking form that refuses when anybody holds it, the
    caller included.  The threads of the process interleave between the
    individual operations on the mutex and on [owner_]: a step of the machine is
    one of those.  A thread compares [owner_] only with itself, and only it
    stores its own identity there, so what the comparison reads is current
    whatever the memory order. *)
From S2P Require Import Prelude.

(** Where a thread is inside [enter], [leave] or [try_enter_uncontended];
    absent when it is in none of them. *)
Inductive gpc :=
| EChecked     (* enter: owner_ is another's; before mu_.try_lock *)
| EWaiting     (* enter: before mu_.lock *)
| ELocked      (* enter: mutex taken, before owner_.store *)
| LUnlocking   (* leave: owner_ cleared, before mu_.unlock *)
| TChecked     (* try: before mu_.try_lock *)
| TLocked.     (* try: mutex taken, before owner_.store *)

Record guard := Guard {
  mu_ : option nat;
  owner_ : option nat;
  depth_ : Z;
  max_depth_ : Z;
  entries_ : Z;
  reentries_ : Z;
  waits_ : Z;
  try_failed_self_ : Z;
  try_failed_other_ : Z;
  pcs : gmap nat gpc;
  (** the scopes each thread has open *)
  scopes : gmap nat nat;
}.

Definition guard_init : guard := Guard None None 0 0 0 0 0 0 0 ∅ ∅.

Definition open_scopes (g : guard) (t : nat) : nat := default 0%nat (scopes g !! t).
Definition held_by_this_thread (g : guard) (t : nat) : bool := bool_decide (owner_ g = Some t).

Definition set_pc (t : nat) (p : gpc) (g : guard) : guard :=
  Guard (mu_ g) (owner_ g) (depth_ g) (max_depth_ g) (entries_ g) (reentries_ g) (waits_ g)
    (try_failed_self_ g) (try_failed_other_ g) (<[t := p]> (pcs g)) (scopes g).
Definition clear_pc (t : nat) (g : guard) : guard :=
  Guard (mu_ g) (owner_ g) (depth_ g) (max_depth_ g) (entries_ g) (reentries_ g) (waits_ g)
    (try_failed_self_ g) (try_failed_other_ g) (delete t (pcs g)) (scopes g).
Definition set_mu (m : option nat) (g : guard) : guard :=
  Guard m (owner_ g) (depth_ g) (max_depth_ g) (entries_ g) (reentries_ g) (waits_ g)
    (try_failed_self_ g) (try_failed_other_ g) (pcs g) (scopes g).

(** A call of one of the three methods begins. *)
Definition enter (t : nat) (g : guard) : guard :=
  if bool_decide (owner_ g = Some t) then
    let depth := u32 (depth_ g + 1) in
    Guard (mu_ g) (owner_ g) depth (if max_depth_ g <? depth then depth else max_depth_ g) (entries_ g)
      (u64 (reentries_ g + 1)) (waits_ g) (try_failed_self_ g) (try_failed_other_ g) (pcs g)
      (<[t := S (open_scopes g t)]> (scopes g))
  else set_pc t EChecked g.

Definition leave (t : nat) (g : guard) : guard :=
  let sc := <[t := pred (open_scopes g t)]> (scopes g) in
  if 1 <? depth_ g then
    Guard (mu_ g) (owner_ g) (depth_ g - 1) (max_depth_ g) (entries_ g) (reentries_ g) (waits_ g)
      (try_failed_self_ g) (try_failed_other_ g) (pcs g) sc
  else
    Guard (mu_ g) None 0 (max_depth_ g) (entries_ g) (reentries_ g) (waits_ g)
      (try_failed_self_ g) (try_failed_other_ g) (<[t := LUnlocking]> (pcs g)) sc.

Definition try_enter_uncontended (t : nat) (g : guard) : guard :=
  if bool_decide (owner_ g = Some t) then
    Guard (mu_ g) (owner_ g) (depth_ g) (max_depth_ g) (entries_ g) (reentries_ g) (waits_ g)
      (u64 (try_failed_self_ g + 1)) (try_failed_other_ g) (pcs g) (scopes g)
  else set_pc t TChecked g.

(** The end of a successful acquisition; [enter] also raises [max_depth_]. *)
Definition take_ownership (t : nat) (from_enter : bool) (g : guard) : guard :=
  Guard (mu_ g) (Some t) 1 (if from_enter && (max_depth_ g <? 1) then 1 else max_depth_ g)
    (u64 (entries_ g + 1)) (reentries_ g) (waits_ g) (try_failed_self_ g) (try_failed_other_ g)
    (delete t (pcs g)) (<[t := 1%nat]> (scopes g)).

Inductive gstep := Enter (t : nat) | Leave (t : nat) | Try (t : nat) | Go (t : nat).

(** [Leave] is made by a thread with an open scope, as the two RAII classes
    make it; [Go] is the next operation of a call in progress, disabled while it
    waits for the mutex. *)
Definition gnext (g : guard) (s : gstep) : option guard :=
  match s with
  | Enter t => match pcs g !! t with Some _ => None | None => Some (enter t g) end
  | Leave t =>
      match pcs g !! t with
      | Some _ => None
      | None => if (open_scopes g t =? 0)%nat then None else Some (leave t g)
      end
  | Try t => match pcs g !! t with Some _ => None | None => Some (try_enter_uncontended t g) end
  | Go t =>
      match pcs g !! t with
      | None => None
      | Some EChecked =>
          match mu_ g with
          | None => Some (set_mu (Some t) (set_pc t ELocked g))
          | Some _ =>
              let g := set_pc t EWaiting g in
              Some (Guard (mu_ g) (owner_ g) (depth_ g) (max_depth_ g) (entries_ g) (reentries_ g)
                      (u64 (waits_ g + 1)) (try_failed_self_ g) (try_failed_other_ g) (pcs g) (scopes g))
          end
      | Some EWaiting =>
          match mu_ g with None => Some (set_mu (Some t) (set_pc t ELocked g)) | Some _ => None end
      | Some ELocked => Some (take_ownership t true g)
      | Some LUnlocking => Some (set_mu None (clear_pc t g))
      | Some TChecked =>
          match mu_ g with
          | None => Some (set_mu (Some t) (set_pc t TLocked g))
          | Some _ =>
              let g := clear_pc t g in
              Some (Guard (mu_ g) (owner_ g) (depth_ g) (max_depth_ g) (entries_ g) (reentries_ g)
                      (waits_ g) (try_failed_self_ g) (u64 (try_failed_other_ g + 1)) (pcs g) (scopes g))
          end
      | Some TLocked => Some (take_ownership t false g)
      end
  end.

Fixpoint grun (g : guard) (l : list gstep) : option guard :=
  match l with [] => Some g | s :: l' => g' ← gnext g s; grun g' l' end.

(** ** The invariant *)

Definition has_mutex (p : option gpc) : bool :=
  match p with Some ELocked | Some LUnlocking | Some TLocked => true | _ => false end.

Record ginv (k : Z) (g : guard) : Prop := {
  (** The mutex is where some thread is between taking and releasing it, or
      has a scope open. *)
  gi_mutex : forall t, mu_ g = Some t <-> has_mutex (pcs g !! t) = true \/ (0 < open_scopes g t)%nat;
  gi_owner : forall t, owner_ g = Some t <-> (0 < open_scopes g t)%nat;
  gi_depth : forall t, (0 < open_scopes g t)%nat -> depth_ g = Z.of_nat (open_scopes g t);
  (** A thread with an open scope is not in the middle of acquiring. *)
  gi_pc : forall t, (0 < open_scopes g t)%nat -> pcs g !! t = None;
  gi_bound : forall t, Z.of_nat (open_scopes g t) <= k;
}.

Lemma init_ginv : ginv 0 guard_init.
Proof.
  split; intros t; unfold open_scopes; simpl; rewrite ?lookup_empty; simpl; try lia; split; try done.
  - by intros [|]; [|lia].
  - lia.
Qed.

(** Does thread [t] have the mutex? *)
Definition has (g : guard) (t : nat) : bool := has_mutex (pcs g !! t) || (0 <? open_scopes g t)%nat.

Lemma has_spec k g t : ginv k g -> has g t = true <-> mu_ g = Some t.
Proof.
  intros Hg. rewrite (gi_mutex k g Hg t). unfold has. by rewrite orb_true_iff, Nat.ltb_lt.
Qed.

(** A step of thread [t], judged by what it does to [t]'s own share. *)
Lemma ginv_thread k g g' t :
  ginv k g ->
  (forall t', t' <> t -> pcs g' !! t' = pcs g !! t' /\ open_scopes g' t' = open_scopes g t') ->
  (has g' t = true -> has g t = true \/ mu_ g = None) ->
  mu_ g' = (if has g' t then Some t else if has g t then None else mu_ g) ->
  owner_ g' = (if (0 <? open_scopes g' t)%nat then Some t
               else if (0 <? open_scopes g t)%nat then None else owner_ g) ->
  ((0 < open_scopes g' t)%nat -> depth_ g' = Z.of_nat (open_scopes g' t) /\ pcs g' !! t = None) ->
  (has g t = false -> has g' t = false -> depth_ g' = depth_ g) ->
  Z.of_nat (open_scopes g' t) <= k + 1 ->
  ginv (k + 1) g'.
Proof.
  intros Hg Hoth Hgrab Hmu How Hself Hdepth Hk.
  assert (Hother : forall t', t' <> t -> (0 < open_scopes g t')%nat -> has g t = false /\ has g' t = false).
  { intros t' Hne Ho. assert (E : mu_ g = Some t') by (apply (gi_mutex k g Hg); by right).
    assert (Hf : has g t = false).
    { destruct (has g t) eqn:Eh; [|done]. apply (has_spec k g t Hg) in Eh. congruence. }
    split; [done|]. destruct (has g' t); [|done]. destruct (Hgrab eq_refl); congruence. }
  split.
  - intros t'. destruct (decide (t' = t)) as [->|Hne].
    + rewrite Hmu. unfold has at 1. destruct (has_mutex (pcs g' !! t)) eqn:E1; simpl; [naive_solver|].
      destruct (Nat.ltb_spec 0 (open_scopes g' t)); [naive_solver|]. split; [|naive_solver lia].
      destruct (has g t) eqn:Eh; [done|]. intros E. apply (has_spec k g t Hg) in E. congruence.
    + destruct (Hoth t' Hne) as [-> ->]. rewrite <- (gi_mutex k g Hg t'), Hmu.
      destruct (has g' t) eqn:E'; [split; [naive_solver|]|].
      * intros E. destruct (Hgrab eq_refl) as [Eh|]; [|congruence].
        apply (has_spec k g t Hg) in Eh. congruence.
      * destruct (has g t) eqn:Eh; [|done]. apply (has_spec k g t Hg) in Eh. split; congruence.
  - intros t'. rewrite How. destruct (decide (t' = t)) as [->|Hne].
    + destruct (Nat.ltb_spec 0 (open_scopes g' t)); [naive_solver|]. split; [|lia].
      destruct (Nat.ltb_spec 0 (open_scopes g t)); [done|]. rewrite (gi_owner k g Hg). lia.
    + destruct (Hoth t' Hne) as [_ ->]. rewrite <- (gi_owner k g Hg).
      destruct (Nat.ltb_spec 0 (open_scopes g' t)) as [H1|H1].
      * split; [naive_solver|]. intros E. apply (gi_owner k g Hg) in E.
        destruct (Hother t' Hne E) as [_ E']. unfold has in E'.
        rewrite (proj2 (Nat.ltb_lt _ _) H1), orb_true_r in E'. done.
      * destruct (Nat.ltb_spec 0 (open_scopes g t)) as [H2|H2]; [|done].
        apply (gi_owner k g Hg) in H2. split; congruence.
  - intros t'. destruct (decide (t' = t)) as [->|Hne]; [apply Hself|].
    destruct (Hoth t' Hne) as [_ ->]. intros Ho. destruct (Hother t' Hne Ho) as [E1 E2].
    rewrite (Hdepth E1 E2). by apply (gi_depth k g Hg).
  - intros t'. destruct (decide (t' = t)) as [->|Hne]; [apply Hself|].
    destruct (Hoth t' Hne) as [-> ->]. apply (gi_pc k g Hg).
  - intros t'. destruct (decide (t' = t)) as [->|Hne]; [done|].
    destruct (Hoth t' Hne) as [_ ->]. pose proof (gi_bound k g Hg t'). lia.
Qed.

Lemma scopes_insert g g' t n t' :
  scopes g' = <[t := n]> (scopes g) ->
  open_scopes g' t' = (if decide (t' = t) then n else open_scopes g t').
Proof.
  intros E. unfold open_scopes. rewrite E. destruct (decide (t' = t)) as [->|Hne].
  - by rewrite lookup_insert_eq.
  - by rewrite lookup_insert_ne.
Qed.

Section steps.
  Context (k : Z) (g : guard) (Hg : ginv k g) (Hk : 0 <= k < 4294967295) (t : nat).

(** A thread inside a call has no scope open. *)
Lemma no_scope p : pcs g !! t = Some p -> open_scopes g t = 0%nat.
Proof using Hg.
  intros Hp. destruct (open_scopes g t) eqn:E; [done|].
  assert (Hn : pcs g !! t = None) by (apply (gi_pc k g Hg); lia). congruence.
Qed.

(** The owner re-enters, or leaves an inner scope. *)
Lemma nest_ginv d n md en re wa ts tot :
  pcs g !! t = None -> (0 < open_scopes g t)%nat -> (0 < n)%nat -> d = Z.of_nat n -> Z.of_nat n <= k + 1 ->
  ginv (k + 1) (Guard (mu_ g) (owner_ g) d md en re wa ts tot (pcs g) (<[t := n]> (scopes g))).
Proof using Hg.
  intros Hp Ho Hn Hd Hle. set (g' := Guard _ _ _ _ _ _ _ _ _ _ _).
  assert (Hs : forall t', open_scopes g' t' = if decide (t' = t) then n else open_scopes g t')
    by (intros t'; by apply scopes_insert).
  assert (Hh : has g t = true /\ has g' t = true).
  { unfold has. rewrite Hs, decide_True by done. simpl. rewrite Hp.
    by rewrite !(proj2 (Nat.ltb_lt _ _)). }
  apply (ginv_thread k g g' t Hg); rewrite ?(Hs t), ?decide_True by done; try done.
  - intros t' Hne. split; [done|]. by rewrite Hs, decide_False.
  - intros _. left. apply Hh.
  - rewrite (proj2 Hh). simpl. apply (has_spec k g t Hg), Hh.
  - rewrite (proj2 (Nat.ltb_lt _ _) Hn). simpl. by apply (gi_owner k g Hg).
  - by rewrite (proj1 Hh).
Qed.

(** A move between two points of a call that does not touch the mutex. *)
Lemma pc_ginv md en re wa ts tot ps :
  pcs g !! t <> None \/ open_scopes g t = 0%nat ->
  (forall t', t' <> t -> ps !! t' = pcs g !! t') -> has_mutex (pcs g !! t) = false ->
  has_mutex (ps !! t) = false ->
  ginv (k + 1) (Guard (mu_ g) (owner_ g) (depth_ g) md en re wa ts tot ps (scopes g)).
Proof using Hg Hk.
  intros Hin Hps H1 H2. set (g' := Guard _ _ _ _ _ _ _ _ _ _ _).
  assert (Ho : open_scopes g t = 0%nat).
  { destruct Hin as [Hin|]; [|done]. destruct (pcs g !! t) eqn:E; [|done]. by eapply no_scope. }
  assert (Hh : has g t = false /\ has g' t = false).
  { unfold has. change (open_scopes g' t) with (open_scopes g t). rewrite Ho, H1. simpl. by rewrite H2. }
  apply (ginv_thread k g g' t Hg); change (open_scopes g' t) with (open_scopes g t); rewrite ?Ho, ?(proj1 Hh), ?(proj2 Hh);
    try done; try lia. intros t' Hne. split; [by apply Hps|done].
Qed.

(** Taking the free mutex, and releasing it. *)
Lemma grab_ginv p :
  mu_ g = None -> open_scopes g t = 0%nat -> has_mutex (Some p) = true ->
  ginv (k + 1) (set_mu (Some t) (set_pc t p g)).
Proof using Hg Hk.
  intros Hm Ho Hp. set (g' := set_mu _ _).
  assert (Hh : has g t = false /\ has g' t = true).
  { split; [|unfold has, g'; simpl; by rewrite lookup_insert_eq, Hp].
    destruct (has g t) eqn:E; [|done]. apply (has_spec k g t Hg) in E. congruence. }
  apply (ginv_thread k g g' t Hg); change (open_scopes g' t) with (open_scopes g t);
    rewrite ?Ho, ?(proj1 Hh), ?(proj2 Hh); try done; try lia.
  - intros t' Hne. split; [simpl; by rewrite lookup_insert_ne|done].
  - intros _. by right.
Qed.

Lemma release_ginv : pcs g !! t = Some LUnlocking -> ginv (k + 1) (set_mu None (clear_pc t g)).
Proof using Hg Hk.
  intros Hp. pose proof (no_scope _ Hp) as Ho. set (g' := set_mu _ _).
  assert (Hh : has g t = true /\ has g' t = false).
  { unfold has. change (open_scopes g' t) with (open_scopes g t). rewrite Hp, Ho. simpl.
    by rewrite lookup_delete_eq. }
  apply (ginv_thread k g g' t Hg); change (open_scopes g' t) with (open_scopes g t);
    rewrite ?Ho, ?(proj1 Hh), ?(proj2 Hh); try done; try lia.
  - intros t' Hne. split; [simpl; by rewrite lookup_delete_ne|done].
Qed.

Lemma own_ginv p from :
  pcs g !! t = Some p -> has_mutex (Some p) = true -> p <> LUnlocking ->
  ginv (k + 1) (take_ownership t from g).
Proof using Hg Hk.
  intros Hp Hm _. set (g' := take_ownership t from g).
  assert (Hs : forall t', open_scopes g' t' = if decide (t' = t) then 1%nat else open_scopes g t')
    by (intros t'; by apply scopes_insert).
  assert (Hh : has g t = true /\ has g' t = true).
  { unfold has. rewrite Hs, decide_True by done. rewrite Hp, Hm. split; [done|apply orb_true_r]. }
  apply (ginv_thread k g g' t Hg); rewrite ?(Hs t), ?decide_True by done; try done; try lia.
  - intros t' Hne. rewrite Hs, decide_False by done. split; [simpl; by rewrite lookup_delete_ne|done].
  - intros _. left. apply Hh.
  - rewrite (proj2 Hh). simpl. apply (has_spec k g t Hg), Hh.
  - intros _. simpl. by rewrite lookup_delete_eq.
  - by rewrite (proj1 Hh).
Qed.

Lemma outermost_ginv :
  pcs g !! t = None -> (0 < open_scopes g t)%nat -> depth_ g <= 1 -> ginv (k + 1) (leave t g).
Proof using Hg Hk.
  intros Hp Ho Hd. rewrite (gi_depth k g Hg t Ho) in Hd. assert (E1 : open_scopes g t = 1%nat) by lia.
  unfold leave. rewrite (proj2 (Z.ltb_ge _ _)) by (rewrite (gi_depth k g Hg t Ho); lia).
  set (g' := Guard _ _ _ _ _ _ _ _ _ _ _).
  assert (Hs : forall t', open_scopes g' t' = if decide (t' = t) then 0%nat else open_scopes g t').
  { intros t'. rewrite (scopes_insert g g' t (pred (open_scopes g t))) by done. by rewrite E1. }
  assert (Hh : has g t = true /\ has g' t = true).
  { unfold has. simpl. rewrite lookup_insert_eq, E1. simpl. split; [apply orb_true_r|done]. }
  apply (ginv_thread k g g' t Hg); rewrite ?(Hs t), ?decide_True by done; try done; try lia.
  - intros t' Hne. rewrite Hs, decide_False by done. split; [simpl; by rewrite lookup_insert_ne|done].
  - intros _. left. apply Hh.
  - rewrite (proj2 Hh). simpl. apply (has_spec k g t Hg), Hh.
  - by rewrite E1.
  - by rewrite (proj1 Hh).
Qed.
End steps.

Lemma step_ginv k g g' s : ginv k g -> 0 <= k < 4294967295 -> gnext g s = Some g' -> ginv (k + 1) g'.
Proof.
  intros Hg Hk Hs. destruct s as [t|t|t|t]; simpl in Hs; destruct (pcs g !! t) as [p|] eqn:Ep; try done.
  - injection Hs as <-. unfold enter. case_bool_decide as Ho.
    + apply (gi_owner k g Hg) in Ho. pose proof (gi_bound k g Hg t) as Hb.
      apply nest_ginv; try done; try lia. rewrite (gi_depth k g Hg t Ho), u32_small by word_lia. lia.
    + apply (pc_ginv k g Hg Hk t); rewrite ?Ep, ?lookup_insert_eq; try done.
      * right. destruct (open_scopes g t) eqn:E; [done|]. destruct Ho. apply (gi_owner k g Hg). lia.
      * intros t' Hne. by rewrite lookup_insert_ne.
  - destruct (Nat.eqb_spec (open_scopes g t) 0) as [|Hne]; [done|]. injection Hs as <-.
    assert (Ho : (0 < open_scopes g t)%nat) by lia. pose proof (gi_depth k g Hg t Ho) as Hd.
    destruct (Z.ltb_spec 1 (depth_ g)) as [Hlt|Hge]; [|by apply outermost_ginv].
    unfold leave. rewrite (proj2 (Z.ltb_lt _ _) Hlt). pose proof (gi_bound k g Hg t).
    apply nest_ginv; try done; lia.
  - injection Hs as <-. unfold try_enter_uncontended. case_bool_decide as Ho.
    + destruct Hg. split; try done. intros t'. specialize (gi_bound0 t'). simpl in *.
      unfold open_scopes in *. simpl. lia.
    + apply (pc_ginv k g Hg Hk t); rewrite ?Ep, ?lookup_insert_eq; try done.
      * right. destruct (open_scopes g t) eqn:E; [done|]. destruct Ho. apply (gi_owner k g Hg). lia.
      * intros t' Hne. by rewrite lookup_insert_ne.
  - pose proof (no_scope k g Hg t p Ep) as Hz. destruct p.
    + destruct (mu_ g) eqn:Em; injection Hs as <-; [|by apply grab_ginv].
      rewrite <- Em. apply (pc_ginv k g Hg Hk t); rewrite ?Ep; try done; [by left| |by rewrite lookup_insert_eq].
      intros t' Hne. by rewrite lookup_insert_ne.
    + destruct (mu_ g) eqn:Em; [done|]. injection Hs as <-. by apply grab_ginv.
    + injection Hs as <-. by eapply own_ginv.
    + injection Hs as <-. by apply release_ginv.
    + destruct (mu_ g) eqn:Em; injection Hs as <-; [|by apply grab_ginv].
      rewrite <- Em. apply (pc_ginv k g Hg Hk t); rewrite ?Ep; try done; [by left| |by rewrite lookup_delete_eq].
      intros t' Hne. by rewrite lookup_delete_ne.
    + injection Hs as <-. by eapply own_ginv.
Qed.

Lemma run_ginv k g g' l :
  ginv k g -> 0 <= k -> k + Z.of_nat (length l) < 4294967296 -> grun g l = Some g' ->
  ginv (k + Z.of_nat (length l)) g'.
Proof.
  revert k g. induction l as [|s l IH]; intros k g Hg Hk Hb Hr; simpl in *.
  { injection Hr as <-. by rewrite Z.add_0_r. }
  destruct (gnext g s) as [g1|] eqn:E; [|done].
  replace (k + Z.of_nat (S (length l))) with (k + 1 + Z.of_nat (length l)) in * by lia.
  apply (IH _ g1); try lia; [|done]. eapply step_ginv; [exact Hg|lia|done].
Qed.

(** Whoever has the mutex can move. *)
Lemma holder_moves k g t :
  ginv k g -> mu_ g = Some t ->
  is_Some (gnext g (Go t)) \/ is_Some (gnext g (Leave t)).
Proof.
  intros Hg Hm. apply (gi_mutex k g Hg) in Hm as [Hm|Ho].
  - left. simpl. destruct (pcs g !! t) as [[]|]; try done; eauto.
  - right. simpl. rewrite (gi_pc k g Hg t Ho). rewrite (proj2 (Nat.eqb_neq _ _)) by lia. eauto.
Qed.

(** A scope is opened only by its owner's re-entry or at the end of an
    acquisition, when nobody has one open. *)
Lemma scope_opens k g g' s t :
  ginv k g -> gnext g s = Some g' -> (open_scopes g t < open_scopes g' t)%nat ->
  (s = Enter t /\ (0 < open_scopes g t)%nat) \/
  (s = Go t /\ (pcs g !! t = Some ELocked \/ pcs g !! t = Some TLocked) /\ forall t', open_scopes g t' = 0%nat).
Proof.
  intros Hg Hs Hlt. assert (Hfree : forall t0 p, pcs g !! t0 = Some p -> has_mutex (Some p) = true -> forall t', open_scopes g t' = 0%nat).
  { intros t0 p Hp Hm t'. assert (E : mu_ g = Some t0) by (apply (gi_mutex k g Hg); left; by rewrite Hp).
    destruct (open_scopes g t') eqn:E'; [done|].
    assert (E2 : mu_ g = Some t') by (apply (gi_mutex k g Hg); right; lia).
    assert (t' = t0) as -> by congruence. rewrite (no_scope k g Hg t0 _ Hp) in E'. done. }
  assert (Hins : forall t0 n, (open_scopes g t < default 0 (<[t0 := n]> (scopes g) !! t))%nat -> t0 = t /\ (open_scopes g t < n)%nat).
  { intros t0 n. destruct (decide (t0 = t)) as [->|Hne]; [by rewrite lookup_insert_eq|].
    rewrite lookup_insert_ne by done. unfold open_scopes. lia. }
  destruct s as [t0|t0|t0|t0]; simpl in Hs; destruct (pcs g !! t0) as [p|] eqn:Ep; try done.
  - injection Hs as <-. unfold enter in Hlt. case_bool_decide as Ho; [|unfold open_scopes in Hlt; simpl in Hlt; lia].
    apply Hins in Hlt as [-> _]. left. split; [done|]. by apply (gi_owner k g Hg).
  - destruct (_ =? 0)%nat; [done|]. injection Hs as <-. unfold leave in Hlt.
    destruct (1 <? depth_ g); apply Hins in Hlt as [-> ?]; lia.
  - injection Hs as <-. unfold try_enter_uncontended in Hlt. case_bool_decide; unfold open_scopes in Hlt; simpl in Hlt; lia.
  - destruct p; try (destruct (mu_ g)); simplify_eq/=; try (unfold open_scopes in Hlt; simpl in Hlt; lia).
    all: apply Hins in Hlt as [-> _]; right; split; [done|]; split; [auto|]; by eapply Hfree.
Qed.

(** C27: The guard excludes other threads, admits its owner, and cannot hang by
    itself.  Under any interleaving of [enter], [leave] and
    [try_enter_uncontended] on any number of threads: at most one thread has
    scopes open, and [depth_] is how many; [held_by_this_thread] tells exactly
    the thread that has; the owner re-enters in one operation, without touching
    the mutex; no other step opens a scope but the end of an acquisition, by
    [enter] or by the non-blocking form, and then no thread, the caller
    included, has one open; the non-blocking form called by the owner, or
    finding the mutex taken, gives up at once, opens nothing, and counts why; a
    thread inside a call can proceed or waits for one that can; and when every
    scope is closed and no call is in progress the mutex is free. *)
Theorem callguard_correct l g :
  grun guard_init l = Some g -> Z.of_nat (length l) < 4294967296 ->
  (forall t t', (0 < open_scopes g t)%nat -> (0 < open_scopes g t')%nat -> t' = t) /\
  (forall t, held_by_this_thread g t = true <-> (0 < open_scopes g t)%nat) /\
  (forall t, (0 < open_scopes g t)%nat -> depth_ g = Z.of_nat (open_scopes g t) /\
     open_scopes (enter t g) t = S (open_scopes g t) /\ mu_ (enter t g) = mu_ g) /\
  (forall s g' t, gnext g s = Some g' -> (open_scopes g t < open_scopes g' t)%nat ->
     (s = Enter t /\ (0 < open_scopes g t)%nat) \/
     (s = Go t /\ (pcs g !! t = Some ELocked \/ pcs g !! t = Some TLocked) /\
      forall t', open_scopes g t' = 0%nat)) /\
  (forall t, (0 < open_scopes g t)%nat -> exists g', gnext g (Try t) = Some g' /\
     pcs g' = pcs g /\ scopes g' = scopes g /\ mu_ g' = mu_ g /\ owner_ g' = owner_ g /\
     try_failed_self_ g' = u64 (try_failed_self_ g + 1)) /\
  (forall t, pcs g !! t = Some TChecked -> mu_ g <> None -> exists g', gnext g (Go t) = Some g' /\
     pcs g' = delete t (pcs g) /\ scopes g' = scopes g /\ mu_ g' = mu_ g /\ owner_ g' = owner_ g /\
     try_failed_other_ g' = u64 (try_failed_other_ g + 1)) /\
  (forall t p, pcs g !! t = Some p -> is_Some (gnext g (Go t)) \/
     exists t', mu_ g = Some t' /\ (is_Some (gnext g (Go t')) \/ is_Some (gnext g (Leave t')))) /\
  (pcs g = ∅ -> (forall t, open_scopes g t = 0%nat) -> mu_ g = None).
Proof.
  intros Hr Hl. pose proof (run_ginv 0 _ g l init_ginv ltac:(lia) ltac:(lia) Hr) as Hg.
  set (k := 0 + Z.of_nat (length l)) in *. split_and!.
  - intros t t' H1 H2. apply (gi_owner k g Hg) in H1, H2. congruence.
  - intros t. unfold held_by_this_thread. rewrite bool_decide_eq_true. apply (gi_owner k g Hg).
  - intros t Ho. split; [by apply (gi_depth k g Hg)|].
    apply (gi_owner k g Hg) in Ho. unfold enter. rewrite bool_decide_true by done. split; [|done].
    unfold open_scopes. simpl. by rewrite lookup_insert_eq.
  - intros s g' t. by apply (scope_opens k).
  - intros t Ho. simpl. rewrite (gi_pc k g Hg t Ho). apply (gi_owner k g Hg) in Ho.
    eexists. split; [done|]. unfold try_enter_uncontended. by rewrite bool_decide_true.
  - intros t Hp Hm. simpl. rewrite Hp. destruct (mu_ g) as [t'|]; [|done]. by eexists.
  - intros t p Hp. destruct (mu_ g) as [t'|] eqn:Em.
    + right. exists t'. split; [done|]. by eapply holder_moves.
    + left. simpl. rewrite Hp, Em. destruct p; eauto.
  - intros Hps Hz. destruct (mu_ g) as [t|] eqn:Em; [|done].
    apply (gi_mutex k g Hg) in Em as [Hm|Ho]; [by rewrite Hps, lookup_empty in Hm|].
    rewrite Hz in Ho. lia.
Qed.

(** Thread 0 enters twice; thread 1 waits, thread 2 gives up; the lock passes on. *)
Definition demo_guard_steps : list gstep :=
  [Enter 0; Enter 1; Go 0; Go 0; Go 1; Try 2; Go 2; Enter 0; Try 0; Leave 0; Leave 0; Go 0; Go 1; Go 1].
Definition demo_guard : guard := default guard_init (grun guard_init demo_guard_steps).
Lemma demo_guard_steps_run :
  match grun guard_init demo_guard_steps with Some _ => true | None => false end = true.
Proof. vm_compute. reflexivity. Qed.
Lemma demo_guard_run : grun guard_init demo_guard_steps = Some demo_guard.
Proof.
  unfold demo_guard. generalize demo_guard_steps_run. by destruct (grun guard_init demo_guard_steps).
Qed.
Example demo_guard_end :
  (mu_ demo_guard, owner_ demo_guard, depth_ demo_guard, max_depth_ demo_guard) = (Some 1%nat, Some 1%nat, 1, 2) /\
  (entries_ demo_guard, reentries_ demo_guard, waits_ demo_guard, try_failed_self_ demo_guard,
   try_failed_other_ demo_guard) = (2, 1, 1, 1, 1).
Proof. vm_compute. done. Qed.

Lemma callguard_correct_witness :
  (0 < open_scopes demo_guard 1)%nat /\ held_by_this_thread demo_guard 1 = true /\
  (open_scopes demo_guard 0 = 0)%nat /\ held_by_this_thread demo_guard 0 <> true /\
  exists g', gnext demo_guard (Try 1) = Some g' /\ scopes g' = scopes demo_guard /\ try_failed_self_ g' = 2.
Proof.
  destruct (callguard_correct demo_guard_steps demo_guard demo_guard_run ltac:(done)) as (_ & H & _ & _ & Hs & _).
  assert (H1 : (0 < open_scopes demo_guard 1)%nat) by (vm_compute; lia).
  assert (H0 : (open_scopes demo_guard 0 = 0)%nat) by (vm_compute; reflexivity).
  split; [exact H1|]. split; [exact (proj2 (H 1%nat) H1)|]. split; [exact H0|]. split.
  - intros Hh. apply H in Hh. rewrite H0 in Hh. lia.
  - destruct (Hs 1%nat H1) as (g' & E & _ & Hsc & _ & _ & Ht). exists g'. split; [exact E|]. split; [exact Hsc|exact Ht].
Defined.
