(* ===== verification/PcTier.v ===== *)
(** * PcTier: choosing the sampling tier, and the library it needs

    Models src/shim/core/pctier.h, which parses the one environment variable
    that selects PC sampling, and src/shim/core/nvperfpin.h, which decides
    whether the vendor's performance library that would be called is the right
    one.  A C string is a list of characters without the terminator. *)
From Stdlib Require Import String Ascii.
From S2P Require Import Prelude.
#[local] Open Scope Z_scope.

Abbreviation cstr := (list ascii).
Definition lit (s : String.string) : cstr := String.list_ascii_of_string s.
#[local] Instance ascii_eq_dec : EqDecision ascii := ascii_dec.

Inductive PCSamplingTier := kOff | kContinuous | kSerialized.
Inductive PCTierParse := kOK | kUnknown | kNotExclusive.
#[global] Instance tier_eq_dec : EqDecision PCSamplingTier.
Proof. solve_decision. Defined.

Definition pc_tier_name (t : PCSamplingTier) : cstr :=
  match t with
  | kOff => lit "off"%string
  | kContinuous => lit "continuous"%string
  | kSerialized => lit "serialized"%string
  end.

(** [if (c >= 'A' && c <= 'Z') c = c - 'A' + 'a'] *)
Definition fold_case (c : ascii) : ascii :=
  let n := nat_of_ascii c in
  if (65 <=? n)%nat && (n <=? 90)%nat then ascii_of_nat (n - 65 + 97) else c.

(** The inner loop: all of [tok] matches, character by character; [continue]
    when the lengths differ. *)
Fixpoint matches (tok name : cstr) : bool :=
  match tok, name with
  | [], [] => true
  | c :: tok', n :: name' => if decide (fold_case c = n) then matches tok' name' else false
  | _, _ => false
  end.

Definition kNames : list (cstr * PCSamplingTier) :=
  [(lit "off"%string, kOff); (lit "0"%string, kOff); (lit "continuous"%string, kContinuous); (lit "1"%string, kContinuous);
   (lit "serialized"%string, kSerialized); (lit "2"%string, kSerialized)].

Fixpoint find_name (tok : cstr) (names : list (cstr * PCSamplingTier)) : option PCSamplingTier :=
  match names with
  | [] => None
  | (n, t) :: names' =>
      if negb (length n =? length tok)%nat then find_name tok names'
      else if matches tok n then Some t else find_name tok names'
  end.

Definition pc_tier_token (tok : cstr) : option PCSamplingTier := find_name tok kNames.

Definition is_sep (c : ascii) : bool :=
  existsb (fun s => bool_decide (c = s)) [","%char; "+"%char; ";"%char; " "%char; "009"%char; "010"%char].

(** [while ( *p && sep( *p)) p++] *)
Fixpoint skip_seps (p : cstr) : cstr :=
  match p with [] => [] | c :: p' => if is_sep c then skip_seps p' else p end.
(** [while ( *p && !sep( *p)) p++]: the token passed over, and where it stopped. *)
Fixpoint scan_token (p : cstr) : cstr * cstr :=
  match p with
  | [] => ([], [])
  | c :: p' => if is_sep c then ([], p) else let '(tok, r) := scan_token p' in (c :: tok, r)
  end.

(** [memcpy] of what fits into [bad], which is absent when [badlen] is 0. *)
Definition put_bad (badlen : nat) (s : cstr) : cstr :=
  if (badlen =? 0)%nat then [] else take (badlen - 1) s.

(** The loop, from [p]; [first] is the tier seen, if any. The result is the
    status, [*out] and [bad]. Every iteration passes over at least one
    character, so the length of the value bounds them. *)
Fixpoint pc_tier_loop (fuel badlen : nat) (value p : cstr) (first : option PCSamplingTier)
  : PCTierParse * PCSamplingTier * cstr :=
  match fuel with
  | O => (kOK, default kOff first, [])
  | S fuel' =>
      match skip_seps p with
      | [] => (kOK, default kOff first, [])
      | c :: p' =>
          let '(tok, rest) := scan_token (c :: p') in
          match pc_tier_token tok with
          | None => (kUnknown, kOff, put_bad badlen tok)
          | Some tier =>
              match first with
              | None => pc_tier_loop fuel' badlen value rest (Some tier)
              | Some f =>
                  if decide (tier = f) then pc_tier_loop fuel' badlen value rest first
                  else (kNotExclusive, kOff, put_bad badlen value)
              end
          end
      end
  end.

Definition pc_tier_parse (value : option cstr) (badlen : nat) : PCTierParse * PCSamplingTier * cstr :=
  match value with
  | None => (kOK, kOff, [])
  | Some v => pc_tier_loop (S (length v)) badlen v v None
  end.

(** ** The specification: the tokens of a value *)

(** The maximal runs of characters that are not separators. *)
Definition in_word (p : cstr) : bool := match p with [] => false | d :: _ => negb (is_sep d) end.
Fixpoint words (p : cstr) : list cstr :=
  match p with
  | [] => []
  | c :: p' =>
      if is_sep c then words p'
      else if in_word p' then match words p' with w :: ws => (c :: w) :: ws | [] => [[c]] end
      else [c] :: words p'
  end.

(** The verdict on a list of tokens, the tier of the first one given. *)
Fixpoint judge (badlen : nat) (value : cstr) (first : option PCSamplingTier) (toks : list cstr)
  : PCTierParse * PCSamplingTier * cstr :=
  match toks with
  | [] => (kOK, default kOff first, [])
  | tok :: toks' =>
      match pc_tier_token tok, first with
      | None, _ => (kUnknown, kOff, put_bad badlen tok)
      | Some t, None => judge badlen value (Some t) toks'
      | Some t, Some f =>
          if decide (t = f) then judge badlen value first toks'
          else (kNotExclusive, kOff, put_bad badlen value)
      end
  end.

Lemma skip_seps_words p : words (skip_seps p) = words p.
Proof. induction p as [|c p IH]; simpl; [done|]. destruct (is_sep c) eqn:E; [done|]. by simpl; rewrite E. Qed.

Lemma skip_seps_length p : (length (skip_seps p) <= length p)%nat.
Proof. induction p as [|c p IH]; simpl; [done|]. destruct (is_sep c); simpl; lia. Qed.

Lemma skip_seps_head p c p' : skip_seps p = c :: p' -> is_sep c = false.
Proof.
  induction p as [|d p IH]; simpl; [done|]. destruct (is_sep d) eqn:E; [done|]. by intros [= <- <-].
Qed.

Lemma scan_words c p :
  is_sep c = false ->
  words (c :: p) = (scan_token (c :: p)).1 :: words (scan_token (c :: p)).2 /\
  (length (scan_token (c :: p)).2 <= length p)%nat.
Proof.
  intros Hc. revert c Hc. induction p as [|d p IH]; intros c Hc; [simpl; by rewrite Hc|].
  cbn [words scan_token in_word]. rewrite Hc. destruct (is_sep d) eqn:Ed.
  - cbn [fst snd length negb words]. rewrite Ed. split; [done|lia].
  - destruct (IH d Ed) as [E1 E2]. cbn [words scan_token] in E1, E2. rewrite Ed in E1, E2. cbn [negb].
    destruct (scan_token p) as [tok r]. cbn [fst snd length] in *. rewrite E1. split; [done|lia].
Qed.

Lemma loop_judge fuel badlen value p first :
  (length p < fuel)%nat -> pc_tier_loop fuel badlen value p first = judge badlen value first (words p).
Proof.
  revert p first. induction fuel as [|fuel IH]; intros p first Hf; [lia|]. cbn [pc_tier_loop].
  rewrite <- skip_seps_words. pose proof (skip_seps_length p) as Hl.
  destruct (skip_seps p) as [|c p'] eqn:Es; [done|].
  destruct (scan_words c p' (skip_seps_head _ _ _ Es)) as [-> Hlen].
  destruct (scan_token (c :: p')) as [tok rest]. cbn [fst snd judge length] in *.
  destruct (pc_tier_token tok) as [t|]; [|by destruct first].
  destruct first as [f|]; [|apply IH; lia]. destruct (decide (t = f)); [apply IH; lia|done].
Qed.

(** The tiers named, by the tokens or before them. *)
Definition named (first : option PCSamplingTier) (toks : list cstr) (t : PCSamplingTier) : Prop :=
  first = Some t \/ exists tok, (tok ∈ toks) /\ pc_tier_token tok = Some t.

Definition verdict (badlen : nat) (value : cstr) (first : option PCSamplingTier) (toks : list cstr)
    (r : PCTierParse * PCSamplingTier * cstr) : Prop :=
  match r.1.1 with
  | kOK => Forall (fun tok => pc_tier_token tok = Some r.1.2) toks /\
      (forall t, named first toks t -> r.1.2 = t) /\
      (first = None -> toks = [] -> r.1.2 = kOff) /\ r.2 = []
  | kUnknown => r.1.2 = kOff /\
      exists tok, (tok ∈ toks) /\ pc_tier_token tok = None /\ r.2 = put_bad badlen tok
  | kNotExclusive => r.1.2 = kOff /\ r.2 = put_bad badlen value /\
      exists t t', t <> t' /\ named first toks t /\ named first toks t'
  end.

Lemma named_cons first tok toks t u :
  pc_tier_token tok = Some t -> named (Some t) toks u -> named first (tok :: toks) u.
Proof.
  intros Et [[= <-]|(tok' & Hin & Hu)]; right.
  - exists tok. split; [apply list_elem_of_here|done].
  - exists tok'. split; [by apply list_elem_of_further|done].
Qed.

Lemma named_uncons first tok toks t u :
  pc_tier_token tok = Some t -> first = None \/ first = Some t -> named first (tok :: toks) u ->
  named (Some t) toks u.
Proof.
  intros Et Hf [E|(tok' & [->|Hin]%elem_of_cons & Hu)]; [left|left|right; by exists tok'].
  - by destruct Hf; simplify_eq.
  - congruence.
Qed.

Lemma verdict_cons badlen value first tok toks t r :
  pc_tier_token tok = Some t -> first = None \/ first = Some t ->
  verdict badlen value (Some t) toks r -> verdict badlen value first (tok :: toks) r.
Proof.
  intros Et Hf. unfold verdict. destruct r as [[st tier] bad]. simpl. destruct st.
  - intros (H1 & H2 & _ & H4). pose proof (H2 t (or_introl eq_refl)) as ->. split_and!; try done.
    + by constructor.
    + intros u Hu. apply H2. by eapply named_uncons.
  - intros (H1 & tok' & H2 & H3). split; [done|]. exists tok'. split; [by apply list_elem_of_further|done].
  - intros (H1 & H2 & u & u' & Hne & Hu & Hu'). split_and!; try done. exists u, u'.
    split_and!; [done|by eapply named_cons..].
Qed.

Lemma judge_verdict badlen value first toks : verdict badlen value first toks (judge badlen value first toks).
Proof.
  revert first. induction toks as [|tok toks IH]; intros first; simpl.
  { split_and!; try done; [|by intros ->]. by intros t [->|(tok & ?%not_elem_of_nil & _)]. }
  destruct (pc_tier_token tok) as [t|] eqn:Et.
  - destruct first as [f|]; [destruct (decide (t = f)) as [->|Hne]|].
    + eapply verdict_cons; [done|by right|apply IH].
    + split_and!; try done. exists t, f. split_and!; [done| |by left].
      right. exists tok. split; [apply list_elem_of_here|done].
    + eapply verdict_cons; [done|by left|apply IH].
  - replace (match first with Some _ | None => _ end) with (kUnknown, kOff, put_bad badlen tok) by by destruct first.
    split; [done|]. exists tok. split_and!; try done. apply list_elem_of_here.
Qed.

(** The tier setting is read completely and falls closed.  The parse ends in
    OK exactly when all tokens of the value name one tier, and then that is the
    tier (off when there is no token); on any other value the tier is off and
    the report quotes, within its buffer, an unknown token or the whole value
    of a setting that names two tiers.  The names the agent writes read back as
    the tiers they are of, in either case, and so do the numerals. *)
Theorem pc_tier_parse_exact v badlen :
  let r := pc_tier_parse (Some v) badlen in
  (r.1.1 = kOK <-> exists t, Forall (fun tok => pc_tier_token tok = Some t) (words v)) /\
  (r.1.1 = kOK -> Forall (fun tok => pc_tier_token tok = Some r.1.2) (words v) /\
     (words v = [] -> r.1.2 = kOff)) /\
  (r.1.1 <> kOK -> r.1.2 = kOff) /\
  (r.1.1 = kUnknown -> exists tok, (tok ∈ words v) /\ pc_tier_token tok = None /\ r.2 = put_bad badlen tok) /\
  (r.1.1 = kNotExclusive -> r.2 = put_bad badlen v /\
     exists t t', t <> t' /\ named None (words v) t /\ named None (words v) t') /\
  (length r.2 <= badlen - 1)%nat /\
  (forall t, pc_tier_parse (Some (pc_tier_name t)) badlen = (kOK, t, [])).
Proof.
  assert (Hn : forall t, pc_tier_parse (Some (pc_tier_name t)) badlen = (kOK, t, [])) by (by intros []).
  intros r. assert (Er : r = judge badlen v None (words v)).
  { subst r. unfold pc_tier_parse. apply loop_judge. lia. }
  pose proof (judge_verdict badlen v None (words v)) as H. rewrite <- Er in H. clearbody r. clear Er.
  destruct r as [[st tier] bad]. unfold verdict in H. simpl in *.
  assert (Hbad : forall s, (length (put_bad badlen s) <= badlen - 1)%nat).
  { intros s. unfold put_bad. destruct (Nat.eqb_spec badlen 0); simpl; [lia|]. rewrite length_take. lia. }
  destruct st; simpl in H.
  - destruct H as (H1 & H2 & H3 & ->). split_and!; try done.
    + split; [|done]. by exists tier.
    + intros _. split; [done|by apply H3].
    + simpl. lia.
  - destruct H as (-> & tok & H1 & H2 & ->). split_and!; try done; [|by intros _; exists tok].
    split; [done|]. intros [t Ht]. rewrite List.Forall_forall in Ht.
    apply list_elem_of_In in H1. specialize (Ht tok H1). congruence.
  - destruct H as (-> & -> & t & t' & Hne & [?|(tok & H1 & H2)] & Hn'); [done|].
    split_and!; try done; [|intros _; split; [done|]; exists t, t'; split_and!; [done| |done]; right; by exists tok].
    split; [done|]. intros [u Hu]. rewrite List.Forall_forall in Hu. apply list_elem_of_In in H1.
    destruct Hn' as [?|(tok' & H3 & H4)]; [done|]. apply list_elem_of_In in H3.
    pose proof (Hu _ H1). pose proof (Hu _ H3). congruence.
Qed.

(** Evaluated. *)
Example tier_demo :
  pc_tier_parse (Some (lit " Serialized ;2,")) 16 = (kOK, kSerialized, []) /\
  pc_tier_parse (Some (lit "continuous,serialized")) 5 = (kNotExclusive, kOff, lit "cont") /\
  pc_tier_parse (Some (lit "on")) 16 = (kUnknown, kOff, lit "on") /\
  pc_tier_parse None 16 = (kOK, kOff, []).
Proof. vm_compute. done. Qed.

(** ** nvperfpin.h *)

Record NvperfFile := MkNvperfFile { present : bool; dev : Z; ino : Z }.

(** [stat] of the path: its device and inode, or failure. *)
Definition NvperfFile_of (stat : cstr -> option (Z * Z)) (path : option cstr) : NvperfFile :=
  match path with
  | Some p => match stat p with Some (d, i) => MkNvperfFile true d i | None => MkNvperfFile false 0 0 end
  | None => MkNvperfFile false 0 0
  end.

Definition same (f o : NvperfFile) : bool :=
  present f && present o && (dev f =? dev o) && (ino f =? ino o).

Inductive NvperfPin := kPinSibling | kAlreadyMatched | kMismatched | kNoSibling.

Definition nvperf_pin_decide (sibling loaded : NvperfFile) : NvperfPin :=
  if negb (present sibling) then kNoSibling
  else if negb (present loaded) then kPinSibling
  else if same sibling loaded then kAlreadyMatched else kMismatched.

Definition nvperf_pin_name (p : NvperfPin) : cstr :=
  match p with
  | kPinSibling => lit "pinned"
  | kAlreadyMatched => lit "matched"
  | kMismatched => lit "mismatched"
  | kNoSibling => lit "no-sibling"
  end.

(** [strrchr(s, '/')]: the length of the directory part, slash included. *)
Fixpoint dir_length (s : cstr) : option nat :=
  match s with
  | [] => None
  | c :: s' =>
      match dir_length s' with
      | Some n => Some (S n)
      | None => if decide (c = "/"%char) then Some 1%nat else None
      end
  end.

Definition nvperf_sibling_path (lib_path name : option cstr) (n : nat) : option cstr :=
  match lib_path, name with
  | Some lib, Some nm =>
      if (n =? 0)%nat then None
      else match dir_length lib with
           | None => None
           | Some dir => if (n <? dir + length nm + 1)%nat then None else Some (take dir lib ++ nm)
           end
  | _, _ => None
  end.

(** PC sampling is refused exactly when a library that is not libcupti's own
    sibling is already in the process. *)
Lemma nvperf_mismatch sibling loaded :
  nvperf_pin_decide sibling loaded = kMismatched <->
  present sibling = true /\ present loaded = true /\ (dev sibling, ino sibling) <> (dev loaded, ino loaded).
Proof.
  unfold nvperf_pin_decide, same.
  destruct (present sibling), (present loaded); simpl; try (split; [done|by intros (? & ? & ?)]).
  destruct (Z.eqb_spec (dev sibling) (dev loaded)), (Z.eqb_spec (ino sibling) (ino loaded)); simpl;
    split; try done; try (intros (_ & _ & H); congruence); intros _; split_and!; congruence.
Qed.

Lemma dir_length_slash s n : dir_length s = Some n -> (n <= length s)%nat /\ exists l, take n s = l ++ ["/"%char].
Proof.
  revert n. induction s as [|c s IH]; intros n; simpl; [done|].
  destruct (dir_length s) as [m|] eqn:E.
  - intros [= <-]. destruct (IH m eq_refl) as [H1 [l H2]]. split; [lia|]. exists (c :: l). simpl. by rewrite H2.
  - destruct (decide _) as [->|]; [|done]. intros [= <-]. split; [lia|by exists []].
Qed.

(** The sibling's path: the library's directory, then the name, and it fits. *)
Lemma nvperf_sibling_spec lib nm n out :
  nvperf_sibling_path (Some lib) (Some nm) n = Some out ->
  exists dir rest, lib = dir ++ rest /\ (exists l, dir = l ++ ["/"%char]) /\ ("/"%char ∉ rest) /\ out = dir ++ nm /\
    (length out < n)%nat.
Proof.
  unfold nvperf_sibling_path. destruct (n =? 0)%nat; [done|]. destruct (dir_length lib) as [d|] eqn:Ed; [|done].
  destruct (Nat.ltb_spec n (d + length nm + 1)); [done|]. intros [= <-].
  destruct (dir_length_slash lib d Ed) as [H1 H2]. exists (take d lib), (drop d lib).
  split_and!; try done; [by rewrite take_drop| |rewrite length_app, length_take; lia].
  clear -Ed. revert d Ed. induction lib as [|c lib IH]; intros d; simpl; [done|].
  destruct (dir_length lib) as [m|] eqn:E; [intros [= <-]; by apply IH|].
  destruct (decide _); [|done]. intros [= <-]. simpl. clear -E.
  induction lib as [|c lib IH]; [apply not_elem_of_nil|]. simpl in E.
  destruct (dir_length lib); [done|]. destruct (decide _) as [|Hne]; [done|].
  intros [Heq|Hin]%elem_of_cons; [by symmetry in Heq|by apply IH].
Qed.
