(* ===== verification/Timers.v ===== *)
(** * Timers: the drain schedules and the clock

    Models src/shim/core/pcdrain.h (when PC-sampling data is pulled),
    src/shim/core/tickplan.h (the one timer thread and the drain that rides it)
    and src/shim/core/clock.h (vendor time to CPU-monotonic time).  Both
    schedules are rate limiters with a forced reset; the class [RateLimiter]
    states what they have in common and its theorems are proved once.  Every
    operation runs under the object's mutex, so a history is a sequence of whole
    operations; the time is the caller's. *)
From S2P Require Import Prelude.

(** ** A rate limiter

    [rl_ask] answers whether the caller shall act now, and records that it did;
    [rl_reset] records an action taken for another reason. *)
Class RateLimiter (S Why : Type) := {
  rl_period : S -> Z;
  rl_last : S -> option Z;
  rl_ask : Z -> S -> bool * S;
  rl_reset : Z -> Why -> S -> S;
  rl_ask_answer : forall now s,
    (rl_ask now s).1 = match rl_last s with Some l => rl_period s <=? u64 (now - l) | None => true end;
  rl_ask_last : forall now s, rl_last (rl_ask now s).2 = if (rl_ask now s).1 then Some now else rl_last s;
  rl_ask_period : forall now s, rl_period (rl_ask now s).2 = rl_period s;
  rl_reset_last : forall now why s, rl_last (rl_reset now why s) = Some now;
  rl_reset_period : forall now why s, rl_period (rl_reset now why s) = rl_period s;
}.

Inductive lim_op (Why : Type) := Ask (now : Z) | Reset (now : Z) (why : Why).
Arguments Ask {Why}.
Arguments Reset {Why}.
Definition op_time {Why} (o : lim_op Why) : Z := match o with Ask t => t | Reset t _ => t end.

(** The calls carry the readings of one clock that does not run backwards. *)
Fixpoint ordered {Why} (t : Z) (os : list (lim_op Why)) : Prop :=
  match os with [] => True | o :: os' => t <= op_time o < 2 ^ 64 /\ ordered (op_time o) os' end.

Fixpoint end_time {Why} (t : Z) (os : list (lim_op Why)) : Z :=
  match os with [] => t | o :: os' => end_time (op_time o) os' end.

Lemma ordered_app {Why} t (os os' : list (lim_op Why)) :
  ordered t (os ++ os') <-> ordered t os /\ ordered (end_time t os) os'.
Proof. revert t. induction os as [|o os IH]; intros t; simpl; [tauto|]. rewrite IH. tauto. Qed.

(** Successive times at most [g] apart. *)
Fixpoint paced (g t : Z) (ts : list Z) : Prop :=
  match ts with [] => True | t' :: ts' => t <= t' <= t + g /\ t' < 2 ^ 64 /\ paced g t' ts' end.
(** Successive distances, from [l] on, all between [lo] and [hi]. *)
Fixpoint chain (lo hi l : Z) (ds : list Z) : Prop :=
  match ds with [] => True | d :: ds' => lo <= d - l <= hi /\ chain lo hi d ds' end.

Lemma last_cons_default {A} (l : list A) (x d : A) : List.last (x :: l) d = List.last l x.
Proof. revert x d. induction l as [|y l IH]; intros x d; [done|]. change (List.last (y :: l) d = List.last (y :: l) x). by rewrite !IH. Qed.

Section Limiter.
  Context {S Why : Type} `{RateLimiter S Why}.

(** The actions a history caused, with the reason of those that were forced. *)
Definition lim_step (s : S * list (Z * option Why)) (o : lim_op Why) : S * list (Z * option Why) :=
  match o with
  | Ask t => let (b, s') := rl_ask t s.1 in (s', if b then s.2 ++ [(t, None)] else s.2)
  | Reset t why => (rl_reset t why s.1, s.2 ++ [(t, Some why)])
  end.
Definition lim_run (s : S * list (Z * option Why)) (os : list (lim_op Why)) : S * list (Z * option Why) :=
  foldl lim_step s os.

Definition forced (log : list (Z * option Why)) : list (Z * Why) :=
  omap (fun a => match a.2 with Some why => Some (a.1, why) | None => None end) log.
Definition resets (os : list (lim_op Why)) : list (Z * Why) :=
  omap (fun o => match o with Reset t why => Some (t, why) | Ask _ => None end) os.

Definition last_time (log : list (Z * option Why)) : option Z := fst <$> list.last log.

(** What holds of the actions at time [t]. *)
Record lim_inv (p t : Z) (s : S) (log : list (Z * option Why)) : Prop := {
  li_now : 0 <= t;
  li_period : rl_period s = p;
  li_last : rl_last s = last_time log;
  li_past : forall l, last_time log = Some l -> 0 <= l <= t;
  li_spaced : forall l1 a b l2, log = l1 ++ a :: b :: l2 -> a.1 <= b.1 /\ (b.2 = None -> p <= b.1 - a.1);
}.

Lemma spaced_snoc p log (b : Z * option Why) :
  (forall l1 a b l2, log = l1 ++ a :: b :: l2 -> a.1 <= b.1 /\ (b.2 = None -> p <= b.1 - a.1)) ->
  (forall l, last_time log = Some l -> l <= b.1 /\ (b.2 = None -> p <= b.1 - l)) ->
  forall l1 a b' l2, log ++ [b] = l1 ++ a :: b' :: l2 -> a.1 <= b'.1 /\ (b'.2 = None -> p <= b'.1 - a.1).
Proof.
  intros Hlog Hlast l1 a b' l2 E. destruct l2 as [|c l2 _] using rev_ind.
  - replace (l1 ++ [a; b']) with ((l1 ++ [a]) ++ [b']) in E by (by rewrite <- app_assoc).
    apply app_inj_tail in E as [-> <-]. apply Hlast. unfold last_time. by rewrite last_snoc.
  - rewrite !app_comm_cons, app_assoc in E. apply app_inj_tail in E as [-> _]. by eapply Hlog.
Qed.

Lemma lim_step_inv p t s log o :
  t <= op_time o < 2 ^ 64 -> lim_inv p t s log ->
  lim_inv p (op_time o) (lim_step (s, log) o).1 (lim_step (s, log) o).2.
Proof.
  intros Ht [H0 Hp Hl Hpast Hsp]. destruct o as [now|now why]; simpl in *.
  - pose proof (rl_ask_answer now s) as Ha. pose proof (rl_ask_last now s) as Hla.
    pose proof (rl_ask_period now s) as Hpa. destruct (rl_ask now s) as [b s'] eqn:Eb. simpl in *.
    destruct b; simpl.
    + split; [lia|by rewrite Hpa|by rewrite Hla; unfold last_time; rewrite last_snoc| |].
      * unfold last_time. rewrite last_snoc. intros l [= <-]. simpl. lia.
      * apply spaced_snoc; [done|]. intros l E. specialize (Hpast l E). simpl. split; [lia|]. intros _.
        rewrite Hl, E, Hp, u64_small in Ha by (unfold is_u64; lia). symmetry in Ha. apply Z.leb_le in Ha. lia.
    + split; [lia|by rewrite Hpa|by rewrite Hla| |done]. intros l E. specialize (Hpast l E). lia.
  - split; [lia|by rewrite rl_reset_period|by rewrite rl_reset_last; unfold last_time; rewrite last_snoc| |].
    + unfold last_time. rewrite last_snoc. intros l [= <-]. simpl. lia.
    + apply spaced_snoc; [done|]. intros l E. specialize (Hpast l E). simpl. split; [lia|done].
Qed.

Lemma lim_step_forced s o : forced (lim_step s o).2 = forced s.2 ++ resets [o].
Proof.
  destruct o as [now|now why]; simpl; [destruct (rl_ask now s.1) as [[] ?]|]; simpl;
    unfold forced; rewrite ?omap_app; simpl; by rewrite ?app_nil_r.
Qed.

(** An action is never overdue when the limiter has just been asked. *)
Lemma lim_ask_fresh p t s log now :
  t <= now < 2 ^ 64 -> lim_inv p t s log ->
  exists l, last_time (lim_step (s, log) (Ask now)).2 = Some l /\ l <= now /\ (l = now \/ now - l < p).
Proof.
  intros Ht [H0 Hp Hl Hpast _]. simpl. pose proof (rl_ask_answer now s) as Ha.
  destruct (rl_ask now s) as [[] s']; simpl in *.
  - exists now. unfold last_time. rewrite last_snoc. split_and!; [done|lia|by left].
  - rewrite Hl in Ha. destruct (last_time log) as [l|]; [|done]. specialize (Hpast l eq_refl).
    exists l. split_and!; [done|lia|]. right.
    rewrite u64_small, Hp in Ha by (unfold is_u64; lia). symmetry in Ha. apply Z.leb_gt in Ha. lia.
Qed.

Lemma lim_run_inv p t s log os :
  ordered t os -> lim_inv p t s log ->
  lim_inv p (end_time t os) (lim_run (s, log) os).1 (lim_run (s, log) os).2.
Proof.
  revert t s log. induction os as [|o os IH]; intros t s log; [done|].
  intros [Ht Ho] Hi. pose proof (lim_step_inv p t s log o Ht Hi) as Hi'. cbn [lim_run foldl end_time].
  destruct (lim_step (s, log) o) as [s' log']. by apply IH.
Qed.

Lemma lim_run_forced s os : forced (lim_run s os).2 = forced s.2 ++ resets os.
Proof.
  revert s. induction os as [|o os IH]; intros s; [by rewrite app_nil_r|]. cbn [lim_run foldl].
  change (foldl lim_step ?x os) with (lim_run x os). rewrite IH, lim_step_forced, <- app_assoc.
  by destruct o.
Qed.

Lemma lim_start p s : rl_period s = p -> rl_last s = None -> lim_inv p 0 s [].
Proof. intros Hp Hl. split; [lia|done|done|done|]. intros [|? []]; done. Qed.

(** The contract of a limiter, over any history: forced actions are all taken,
    in order; an action taken on asking comes at least a period after the action
    before it; and right after asking, the last action is less than a period
    old or is this one. *)
Lemma limiter_contract p s os now :
  rl_period s = p -> rl_last s = None -> ordered 0 (os ++ [Ask now]) ->
  let log := (lim_run (s, []) (os ++ [Ask now])).2 in
  forced log = resets os /\
  (forall l1 a b l2, log = l1 ++ a :: b :: l2 -> a.1 <= b.1 /\ (b.2 = None -> p <= b.1 - a.1)) /\
  exists l, last_time log = Some l /\ l <= now /\ (l = now \/ now - l < p).
Proof.
  intros Hp Hl Ho log. apply ordered_app in Ho as [Ho [Hn _]].
  pose proof (lim_run_inv p 0 s [] os Ho (lim_start p s Hp Hl)) as Hi.
  subst log. unfold lim_run. rewrite foldl_app. change (foldl lim_step ?x os) with (lim_run x os).
  split_and!.
  - cbn [foldl]. rewrite lim_step_forced, lim_run_forced. by rewrite app_nil_r.
  - destruct (lim_run (s, []) os) as [s' log] eqn:E. apply (lim_step_inv p _ s' log (Ask now) Hn Hi).
  - destruct (lim_run (s, []) os) as [s' log] eqn:E. by apply (lim_ask_fresh p _ s' log now Hn Hi).
Qed.

(** The times at which a limiter acts when it is only asked. *)
Fixpoint ask_all (ts : list Z) (s : S) : list Z * S :=
  match ts with
  | [] => ([], s)
  | t :: ts' =>
      let (b, s1) := rl_ask t s in
      let (ds, s2) := ask_all ts' s1 in
      (if b then t :: ds else ds, s2)
  end.

Lemma ask_all_paced p g ts t l s :
  paced g t ts -> rl_period s = p -> rl_last s = Some l -> 0 <= l <= t -> (t = l \/ t - l < p) ->
  chain p (Z.max 0 (p - 1) + g) l (ask_all ts s).1 /\
  (let e := List.last ts t in let d := List.last (ask_all ts s).1 l in e = d \/ e - d < p).
Proof.
  revert t l s. induction ts as [|t' ts IH]; intros t l s Hpace Hp Hl Hlt Hf; [done|].
  destruct Hpace as (Ht' & Hw & Hpace). cbn [ask_all].
  pose proof (rl_ask_answer t' s) as Ha. pose proof (rl_ask_last t' s) as Hla.
  pose proof (rl_ask_period t' s) as Hpa. destruct (rl_ask t' s) as [b s1]. cbn [fst snd] in *.
  rewrite Hl, Hp, u64_small in Ha by (unfold is_u64; lia).
  rewrite (last_cons_default ts t'). destruct b.
  - symmetry in Ha. apply Z.leb_le in Ha.
    specialize (IH t' t' s1 Hpace ltac:(congruence) Hla ltac:(lia) ltac:(by left)).
    destruct (ask_all ts s1) as [ds s2]. cbn [fst snd chain] in *. rewrite last_cons_default.
    destruct IH as [H1 H2]. split; [|done]. split; [lia|done].
  - symmetry in Ha. apply Z.leb_gt in Ha.
    specialize (IH t' l s1 Hpace ltac:(congruence) ltac:(congruence) ltac:(lia) ltac:(right; lia)).
    by destruct (ask_all ts s1) as [ds s2].
Qed.
End Limiter.

(** ** pcdrain.h *)

Inductive PCDrainReason := kPeriodic | kModuleUnload | kRangeEnd | kTeardown.
#[global] Instance reason_eq_dec : EqDecision PCDrainReason.
Proof. solve_decision. Defined.

Record PCDrainSchedule := MkPCDrain {
  pd_period_ns : Z;
  pd_last_ns : Z;
  pd_drained : bool;
  pd_periodic : Z;
  pd_unload : Z;
  pd_range_end : Z;
  pd_teardown : Z;
  pd_coalesced : Z;
}.

Definition PCDrain_init (period_ns : Z) : PCDrainSchedule := MkPCDrain period_ns 0 false 0 0 0 0 0.

Definition mark_locked (now_ns : Z) (s : PCDrainSchedule) : PCDrainSchedule :=
  MkPCDrain (pd_period_ns s) now_ns true (pd_periodic s) (pd_unload s) (pd_range_end s) (pd_teardown s)
    (pd_coalesced s).

Definition due (now_ns : Z) (s : PCDrainSchedule) : bool * PCDrainSchedule :=
  if pd_drained s && (u64 (now_ns - pd_last_ns s) <? pd_period_ns s)
  then (false, MkPCDrain (pd_period_ns s) (pd_last_ns s) (pd_drained s) (pd_periodic s) (pd_unload s)
                 (pd_range_end s) (pd_teardown s) (u64 (pd_coalesced s + 1)))
  else
    let s := mark_locked now_ns s in
    (true, MkPCDrain (pd_period_ns s) (pd_last_ns s) (pd_drained s) (u64 (pd_periodic s + 1)) (pd_unload s)
             (pd_range_end s) (pd_teardown s) (pd_coalesced s)).

Definition force (now_ns : Z) (reason : PCDrainReason) (s : PCDrainSchedule) : PCDrainSchedule :=
  let s := mark_locked now_ns s in
  match reason with
  | kModuleUnload =>
      MkPCDrain (pd_period_ns s) (pd_last_ns s) (pd_drained s) (pd_periodic s) (u64 (pd_unload s + 1))
        (pd_range_end s) (pd_teardown s) (pd_coalesced s)
  | kRangeEnd =>
      MkPCDrain (pd_period_ns s) (pd_last_ns s) (pd_drained s) (pd_periodic s) (pd_unload s)
        (u64 (pd_range_end s + 1)) (pd_teardown s) (pd_coalesced s)
  | _ =>
      MkPCDrain (pd_period_ns s) (pd_last_ns s) (pd_drained s) (pd_periodic s) (pd_unload s)
        (pd_range_end s) (u64 (pd_teardown s + 1)) (pd_coalesced s)
  end.

Definition total (s : PCDrainSchedule) : Z :=
  u64 (u64 (u64 (pd_periodic s + pd_unload s) + pd_range_end s) + pd_teardown s).

#[global] Program Instance pc_drain_limiter : RateLimiter PCDrainSchedule PCDrainReason := {|
  rl_period := pd_period_ns;
  rl_last s := if pd_drained s then Some (pd_last_ns s) else None;
  rl_ask := due;
  rl_reset := force;
|}.
Next Obligation.
  intros now s. unfold due. destruct (pd_drained s); simpl; [|done].
  destruct (Z.ltb_spec (u64 (now - pd_last_ns s)) (pd_period_ns s)); simpl; symmetry;
    [by apply Z.leb_gt|by apply Z.leb_le].
Qed.
Next Obligation. intros now s. unfold due. by destruct (_ && _). Qed.
Next Obligation. intros now s. unfold due. by destruct (_ && _). Qed.
Next Obligation. by intros now [] s. Qed.
Next Obligation. by intros now [] s. Qed.

(** What each counter counts. *)
Definition asked (os : list (lim_op PCDrainReason)) : nat :=
  length (omap (fun o => match o with Ask t => Some t | Reset _ _ => None end) os).
Definition pulls (log : list (Z * option PCDrainReason)) : nat :=
  length (omap (fun a => match a.2 with None => Some a.1 | Some _ => None end) log).
Definition forced_for (r : PCDrainReason) (l : list (Z * PCDrainReason)) : nat :=
  length (filter (fun a => a.2 = r) l).

Record pc_counts (os : list (lim_op PCDrainReason)) (s : PCDrainSchedule) (log : list (Z * option PCDrainReason))
    : Prop := {
  pk_periodic : pd_periodic s = u64 (Z.of_nat (pulls log));
  pk_coalesced : pd_coalesced s = u64 (Z.of_nat (asked os) - Z.of_nat (pulls log));
  pk_unload : pd_unload s = u64 (Z.of_nat (forced_for kModuleUnload (forced log)));
  pk_range_end : pd_range_end s = u64 (Z.of_nat (forced_for kRangeEnd (forced log)));
  pk_teardown : pd_teardown s =
    u64 (Z.of_nat (forced_for kTeardown (forced log)) + Z.of_nat (forced_for kPeriodic (forced log)));
}.

Lemma u64_add_l a b : u64 (u64 a + b) = u64 (a + b).
Proof. unfold u64. apply Zplus_mod_idemp_l. Qed.

Lemma pulls_snoc log a : pulls (log ++ [a]) = (pulls log + pulls [a])%nat.
Proof. unfold pulls. by rewrite omap_app, length_app. Qed.
Lemma asked_snoc os o : asked (os ++ [o]) = (asked os + asked [o])%nat.
Proof. unfold asked. by rewrite omap_app, length_app. Qed.
Lemma forced_for_snoc r log a : forced_for r (forced (log ++ [a])) = (forced_for r (forced log) + forced_for r (forced [a]))%nat.
Proof. unfold forced_for, forced. by rewrite omap_app, list.filter_app, length_app. Qed.

Lemma forced_for_none r now : forced_for r (forced [(now, None)]) = 0%nat.
Proof. done. Qed.
Lemma forced_for_some r now why : forced_for r (forced [(now, Some why)]) = if decide (why = r) then 1%nat else 0%nat.
Proof. unfold forced_for, forced. csimpl. unfold filter. simpl. by destruct (decide (why = r)). Qed.

Ltac count_step :=
  rewrite ?pulls_snoc, ?forced_for_snoc, ?asked_snoc, ?forced_for_none, ?forced_for_some;
  cbn [pd_periodic pd_coalesced pd_unload pd_range_end pd_teardown mark_locked asked pulls omap list_omap length snd];
  repeat match goal with H : _ = u64 _ |- _ => rewrite H end; rewrite ?u64_add_l;
  repeat case_decide; try done; f_equal; unfold asked, pulls; simpl; lia.

Lemma pc_counts_run p os :
  pc_counts os (lim_run (PCDrain_init p, []) os).1 (lim_run (PCDrain_init p, []) os).2.
Proof.
  induction os as [|o os [Hp Hc Hu Hr Ht]] using rev_ind; [by split|].
  unfold lim_run. rewrite foldl_app. change (foldl lim_step ?x os) with (lim_run x os). cbn [foldl].
  destruct (lim_run (PCDrain_init p, []) os) as [s log]. cbn [fst snd] in *.
  destruct o as [now|now why]; cbn [lim_step fst snd rl_ask rl_reset pc_drain_limiter].
  - unfold due. destruct (_ && _); cbn [fst snd]; split; count_step.
  - destruct why; unfold force; split; count_step.
Qed.

(** The schedule of PC-sampling pulls.  Over any history of timer ticks and
    forced drains whose times do not run backwards: every forced drain (module
    unload, range end, teardown) is carried out, in order; a pull by the timer
    comes at least a period after the drain before it, whatever its reason, so a
    forced drain restarts the phase; after every tick the last drain is this
    tick or less than a period old; and each counter is the number of drains of
    its reason, the coalesced ticks being exactly those that did not pull. *)
Theorem pc_drain_schedule p os now :
  ordered 0 (os ++ [Ask now]) ->
  let s := (lim_run (PCDrain_init p, []) (os ++ [Ask now])).1 in
  let log := (lim_run (PCDrain_init p, []) (os ++ [Ask now])).2 in
  forced log = resets os /\
  (forall l1 a b l2, log = l1 ++ a :: b :: l2 -> a.1 <= b.1 /\ (b.2 = None -> p <= b.1 - a.1)) /\
  (exists l, last_time log = Some l /\ l <= now /\ (l = now \/ now - l < p)) /\
  pc_counts (os ++ [Ask now]) s log.
Proof.
  intros Ho s log. destruct (limiter_contract (H := pc_drain_limiter) p (PCDrain_init p) os now eq_refl eq_refl Ho) as (H1 & H2 & H3).
  split_and!; [done|done|done|apply pc_counts_run].
Qed.

Definition demo_drains : list (lim_op PCDrainReason) :=
  [Ask 1000; Ask 1400; Reset 1900 kModuleUnload; Ask 2100].

Lemma pc_drain_schedule_witness :
  ordered 0 (demo_drains ++ [Ask 2900]) /\
  (lim_run (PCDrain_init 1000, []) (demo_drains ++ [Ask 2900])).2
    = [(1000, None); (1900, Some kModuleUnload); (2900, None)] /\
  pd_coalesced (lim_run (PCDrain_init 1000, []) (demo_drains ++ [Ask 2900])).1 = 2.
Proof.
  assert (Ho : ordered 0 (demo_drains ++ [Ask 2900])) by (simpl; lia).
  destruct (pc_drain_schedule 1000 demo_drains 2900 Ho) as (_ & _ & _ & Hc).
  split_and!; [done|done|]. rewrite (pk_coalesced _ _ _ Hc). reflexivity.
Defined.

(** A tick whose clock reading is older than the last drain pulls at once: the
    difference wraps around.  Two threads that read the clock before they take
    the lock can produce it. *)
Theorem pc_due_stale_reading p now last why s :
  0 <= now < last -> last < 2 ^ 64 -> p <= 2 ^ 64 - last -> pd_period_ns s = p ->
  (due now (force last why s)).1 = true.
Proof.
  intros Hn Hl Hp Hs. pose proof (rl_ask_answer now (force last why s)) as Ha. simpl in Ha. rewrite Ha.
  assert (Hf : pd_drained (force last why s) = true /\ pd_last_ns (force last why s) = last /\
    pd_period_ns (force last why s) = p) by (by destruct why).
  destruct Hf as (-> & -> & ->). apply Z.leb_le. unfold u64.
  rewrite <- (Z_mod_plus_full (now - last) 1), Z.mod_small; lia.
Qed.

(** ** tickplan.h *)

Definition tick_period_ns (drain_ns burst_tick_ns : Z) (tier_a : bool) : Z :=
  let t := drain_ns in
  let t := if tier_a && negb (burst_tick_ns =? 0) && (burst_tick_ns <? t) then burst_tick_ns else t in
  if negb (t =? 0) then t else 1000000.

Definition drain_limit_ns (drain_ns tick_ns : Z) : Z := if drain_ns <=? tick_ns then 0 else drain_ns.

Record TickPlan := MkTickPlan {
  tp_period_ns : Z;
  tp_last_ns : Z;
  tp_started : bool;
  tp_ticks : Z;
  tp_drains : Z;
  tp_skipped : Z;
}.

Definition TickPlan_init (period_ns : Z) : TickPlan := MkTickPlan period_ns 0 false 0 0 0.

Definition start (now_ns : Z) (s : TickPlan) : TickPlan :=
  MkTickPlan (tp_period_ns s) now_ns true (tp_ticks s) (tp_drains s) (tp_skipped s).

Definition drain_due (now_ns : Z) (s : TickPlan) : bool * TickPlan :=
  let ticks := u64 (tp_ticks s + 1) in
  if tp_started s && (u64 (now_ns - tp_last_ns s) <? tp_period_ns s)
  then (false, MkTickPlan (tp_period_ns s) (tp_last_ns s) (tp_started s) ticks (tp_drains s) (u64 (tp_skipped s + 1)))
  else (true, MkTickPlan (tp_period_ns s) now_ns true ticks (u64 (tp_drains s + 1)) (tp_skipped s)).

#[global] Program Instance tick_plan_limiter : RateLimiter TickPlan unit := {|
  rl_period := tp_period_ns;
  rl_last s := if tp_started s then Some (tp_last_ns s) else None;
  rl_ask := drain_due;
  rl_reset now _ := start now;
|}.
Next Obligation.
  intros now s. unfold drain_due. destruct (tp_started s); simpl; [|done].
  destruct (Z.ltb_spec (u64 (now - tp_last_ns s)) (tp_period_ns s)); simpl; symmetry;
    [by apply Z.leb_gt|by apply Z.leb_le].
Qed.
Next Obligation. intros now s. unfold drain_due. by destruct (_ && _). Qed.
Next Obligation. intros now s. unfold drain_due. by destruct (_ && _). Qed.
Next Obligation. done. Qed.
Next Obligation. done. Qed.

Lemma tick_step t s a b c :
  tp_ticks s = u64 a -> tp_drains s = u64 b -> tp_skipped s = u64 c ->
  tp_ticks (drain_due t s).2 = u64 (a + 1) /\
  tp_drains (drain_due t s).2 = u64 (b + Z.b2z (drain_due t s).1) /\
  tp_skipped (drain_due t s).2 = u64 (c + (1 - Z.b2z (drain_due t s).1)).
Proof.
  intros Ha Hb Hc. unfold drain_due. destruct (_ && _); cbn [fst snd tp_ticks tp_drains tp_skipped Z.b2z];
    rewrite ?Ha, ?Hb, ?Hc, ?u64_add_l, ?Z.add_0_r; done.
Qed.

Lemma tick_counts ts s a b c :
  tp_ticks s = u64 a -> tp_drains s = u64 b -> tp_skipped s = u64 c ->
  let r := ask_all ts s in
  tp_ticks r.2 = u64 (a + Z.of_nat (length ts)) /\ tp_drains r.2 = u64 (b + Z.of_nat (length r.1)) /\
  tp_skipped r.2 = u64 (c + (Z.of_nat (length ts) - Z.of_nat (length r.1))).
Proof.
  revert s a b c. induction ts as [|t ts IH]; intros s a b c Ha Hb Hc.
  { simpl. rewrite Ha, Hb, Hc. by rewrite !Z.add_0_r. }
  destruct (tick_step t s a b c Ha Hb Hc) as (Ha' & Hb' & Hc'). specialize (IH _ _ _ _ Ha' Hb' Hc').
  cbn [ask_all rl_ask tick_plan_limiter]. destruct (drain_due t s) as [d s1]. cbn [fst snd] in *.
  destruct (ask_all ts s1) as [ds s2]. cbn [fst snd] in *. destruct IH as (-> & -> & ->).
  destruct d; cbn [length Z.b2z]; split_and!; f_equal; lia.
Qed.

Lemma tick_every ts s : tp_period_ns s = 0 -> (ask_all ts s).1 = ts.
Proof.
  revert s. induction ts as [|t ts IH]; intros s Hp; [done|]. cbn [ask_all rl_ask tick_plan_limiter].
  pose proof (rl_ask_answer t s) as Ha. pose proof (rl_ask_period t s) as Hpa. simpl in Ha, Hpa.
  destruct (drain_due t s) as [d s1]. cbn [fst snd] in *. specialize (IH s1 ltac:(congruence)).
  destruct (ask_all ts s1) as [ds s2]. cbn [fst snd] in *. subst ds d.
  destruct (tp_started s); [|done]. rewrite Hp, (proj2 (Z.leb_le 0 _)); [done|].
  apply u64_range.
Qed.

(** The drain on the merged timer.  The timer runs at
    [tick_period_ns], never zero and never above the drain period; the drain
    is limited to [drain_limit_ns].  Whatever instants the ticks come at, as
    long as none is more than [g] after the one before: two drains are at least
    the limit apart and less than the limit plus [g], counting from the start,
    and the wait never grows past that; no debt of drains builds up.  Where the
    timer is no faster than the drain, which is the default, every tick drains.
    The counters count ticks, drains and skipped ticks. *)
Theorem tick_plan_cadence drain_ns burst_tick_ns tier_a t0 g ts :
  0 < drain_ns -> 0 <= burst_tick_ns -> 0 <= t0 -> paced g t0 ts ->
  let tick := tick_period_ns drain_ns burst_tick_ns tier_a in
  let limit := drain_limit_ns drain_ns tick in
  let r := ask_all ts (start t0 (TickPlan_init limit)) in
  0 < tick <= drain_ns /\ (tick < drain_ns -> limit = drain_ns) /\
  chain limit (Z.max 0 (limit - 1) + g) t0 r.1 /\
  (let wait := List.last ts t0 - List.last r.1 t0 in wait = 0 \/ wait < limit) /\
  (tick = drain_ns -> r.1 = ts) /\
  tp_ticks r.2 = u64 (Z.of_nat (length ts)) /\ tp_drains r.2 = u64 (Z.of_nat (length r.1)) /\
  tp_skipped r.2 = u64 (Z.of_nat (length ts) - Z.of_nat (length r.1)).
Proof.
  intros Hd Hb H0 Hpace tick limit r.
  assert (Ht : 0 < tick <= drain_ns).
  { subst tick. unfold tick_period_ns. destruct tier_a; simpl; bool_cases; lia. }
  assert (Hl : (tick < drain_ns -> limit = drain_ns) /\ (tick = drain_ns -> limit = 0)).
  { subst limit. unfold drain_limit_ns. bool_cases; split; intros; lia. }
  destruct (ask_all_paced (H := tick_plan_limiter) limit g ts t0 t0 (start t0 (TickPlan_init limit)) Hpace
    eq_refl eq_refl ltac:(lia) ltac:(by left)) as [H1 H2].
  destruct (tick_counts ts (start t0 (TickPlan_init limit)) 0 0 0 eq_refl eq_refl eq_refl) as (H3 & H4 & H5).
  split; [done|]. split; [apply Hl|]. split; [done|]. split; [destruct H2 as [->|]; [left; apply Z.sub_diag|by right]|].
  split; [|by split_and!]. intros E. apply tick_every. simpl. by apply Hl.
Qed.

Definition demo_ticks : list Z := [1010; 1021; 1030; 1042; 1050; 1105; 1112].
Lemma tick_plan_cadence_witness :
  paced 60 1000 demo_ticks /\ tick_period_ns 50 10 true = 10 /\
  (ask_all demo_ticks (start 1000 (TickPlan_init 50))).1 = [1050; 1105] /\
  tp_skipped (ask_all demo_ticks (start 1000 (TickPlan_init 50))).2 = 5.
Proof.
  assert (Hp : paced 60 1000 demo_ticks) by (simpl; lia).
  destruct (tick_plan_cadence 50 10 true 1000 60 demo_ticks ltac:(lia) ltac:(lia) ltac:(lia) Hp)
    as (_ & _ & _ & _ & _ & _ & _ & Hs).
  split_and!; [done|done|done|]. etransitivity; [exact Hs|reflexivity].
Defined.

(** ** clock.h

    [int64_t] arithmetic that overflows is undefined, so an operation on it has
    no result there. *)
Definition kStepThresholdNs : Z := 1000000.
Definition i64 (z : Z) : option Z := if (- 2 ^ 63 <=? z) && (z <? 2 ^ 63) then Some z else None.

Record ClockFit := MkClock { ck_offset : Z; ck_valid : bool; ck_steps : Z }.
Definition Clock_init : ClockFit := MkClock 0 false 0.

Definition resample (vendor_ns mono_ns : Z) (c : ClockFit) : option ClockFit :=
  offset ← i64 (s64 vendor_ns - s64 mono_ns);
  steps ←
    (if ck_valid c then
       delta ← i64 (offset - ck_offset c);
       mag ← (if delta <? 0 then i64 (- delta) else Some delta);
       Some (if kStepThresholdNs <? mag then u64 (ck_steps c + 1) else ck_steps c)
     else Some (ck_steps c));
  Some (MkClock offset true steps).

Definition to_monotonic (vendor_ns : Z) (c : ClockFit) : option Z :=
  if negb (ck_valid c) then Some 0 else u64 <$> i64 (s64 vendor_ns - ck_offset c).

Definition resample_all (l : list (Z * Z)) (c : ClockFit) : option ClockFit :=
  foldl (fun c p => c ≫= resample p.1 p.2) (Some c) l.

(** The samples whose offset moved by more than the threshold. *)
Fixpoint clock_steps (offset : Z) (l : list (Z * Z)) : nat :=
  match l with
  | [] => 0
  | (v, m) :: l' =>
      ((if (kStepThresholdNs <? Z.abs (v - m - offset))%Z then 1 else 0) + clock_steps (v - m)%Z l')%nat
  end.

Definition host_time (t : Z) : Prop := 0 <= t < 2 ^ 62.

Lemma i64_small z : - 2 ^ 63 <= z < 2 ^ 63 -> i64 z = Some z.
Proof. intros Hz. unfold i64. by rewrite (proj2 (Z.leb_le _ _)), (proj2 (Z.ltb_lt _ _)) by lia. Qed.

Lemma resample_valid v m o k :
  host_time v -> host_time m -> - 2 ^ 62 < o < 2 ^ 62 ->
  resample v m (MkClock o true k)
  = Some (MkClock (v - m) true (if kStepThresholdNs <? Z.abs (v - m - o) then u64 (k + 1) else k)).
Proof.
  unfold host_time. intros Hv Hm Ho. unfold resample. rewrite !s64_small, i64_small by lia. cbn [mbind option_bind ck_valid ck_offset ck_steps].
  rewrite i64_small by lia. cbn [mbind option_bind].
  destruct (Z.ltb_spec (v - m - o) 0).
  - rewrite i64_small by lia. cbn [mbind option_bind]. by rewrite Z.abs_neq by lia.
  - cbn [mbind option_bind]. by rewrite Z.abs_eq by lia.
Qed.

Lemma clock_run l o k :
  Forall (fun p => host_time p.1 /\ host_time p.2) l -> - 2 ^ 62 < o < 2 ^ 62 ->
  resample_all l (MkClock o true (u64 k))
  = Some (MkClock (match list.last l with Some (v, m) => v - m | None => o end) true
            (u64 (k + Z.of_nat (clock_steps o l)))).
Proof.
  intros Hl. revert o k. induction Hl as [|[v m] l [Hv Hm] Hl IH]; intros o k Ho.
  { unfold resample_all. simpl. by rewrite Z.add_0_r. }
  unfold resample_all. cbn [foldl fst snd mbind option_bind] in *. rewrite resample_valid by done.
  change (foldl _ (Some ?c) l) with (resample_all l c). unfold host_time in *.
  replace (if _ <? _ then _ else u64 k)
    with (u64 (k + (if kStepThresholdNs <? Z.abs (v - m - o) then 1 else 0)))
    by (destruct (_ <? _); [by rewrite u64_add_l|by rewrite Z.add_0_r]).
  rewrite IH by lia. cbn [clock_steps]. f_equal. f_equal; [rewrite last_cons; by destruct (list.last l) as [[]|]|f_equal].
  destruct (_ <? _); lia.
Qed.

(** The clock conversion.  For host clocks below 2^62 ns and any sequence of
    resamplings: no signed operation overflows; the conversion is a translation
    by the latest pair of readings, so the vendor reading of that pair converts
    to the monotonic one exactly, distances between events are kept, and
    order with them; and the counted steps are exactly the resamplings whose
    offset moved by more than a millisecond. *)
Theorem clock_conversion v0 m0 l :
  host_time v0 -> host_time m0 -> Forall (fun p => host_time p.1 /\ host_time p.2) l ->
  let (v, m) := List.last l (v0, m0) in
  exists c, resample_all ((v0, m0) :: l) Clock_init = Some c /\
    ck_steps c = u64 (Z.of_nat (clock_steps (v0 - m0) l)) /\
    (forall t, host_time t -> to_monotonic t c = Some (u64 (t - v + m))) /\
    (forall t t' a b, host_time t -> host_time t' -> v - m <= t -> v - m <= t' ->
      to_monotonic t c = Some a -> to_monotonic t' c = Some b -> b - a = t' - t).
Proof.
  intros Hv0 Hm0 Hl. destruct (List.last l (v0, m0)) as [v m] eqn:El.
  assert (Hfirst : resample v0 m0 Clock_init = Some (MkClock (v0 - m0) true (u64 0))).
  { unfold resample, host_time in *. by rewrite !s64_small, i64_small by lia. }
  assert (Hvm : host_time v /\ host_time m /\ match list.last l with Some (a, b) => a - b | None => v0 - m0 end = v - m).
  { destruct l as [|p l _] using rev_ind; [by simplify_eq/=|].
    rewrite List.last_last in El. subst p. rewrite last_snoc. apply Forall_app in Hl as [_ Hl].
    inversion Hl as [|? ? [? ?] _]; by subst. }
  destruct Hvm as (Hv & Hm & Hoff).
  eexists. split.
  { unfold resample_all. cbn [foldl fst snd mbind option_bind]. rewrite Hfirst.
    change (foldl _ (Some ?c) l) with (resample_all l c). apply clock_run; [done|]. unfold host_time in *. lia. }
  rewrite Hoff. split; [done|].
  assert (Ht : forall t, host_time t -> to_monotonic t (MkClock (v - m) true (u64 (0 + Z.of_nat (clock_steps (v0 - m0) l))))
                 = Some (u64 (t - v + m))).
  { intros t Ht. unfold to_monotonic, host_time in *. simpl. rewrite s64_small, i64_small by lia. simpl. f_equal. f_equal. lia. }
  split; [done|]. intros t t' a b H1 H2 H3 H4. rewrite !Ht by done. unfold host_time in *.
  rewrite !u64_small by (unfold is_u64; lia). intros [= <-] [= <-]. lia.
Qed.

Lemma clock_conversion_witness :
  exists c, resample_all [(37000000500, 500); (37000010600, 10500); (99000010700, 20500)] Clock_init = Some c /\
    ck_steps c = 1 /\ to_monotonic 99000010800 c = Some 20600.
Proof.
  destruct (clock_conversion 37000000500 500 [(37000010600, 10500); (99000010700, 20500)]) as (c & Hc & Hs & Ht & _);
    [unfold host_time; lia|unfold host_time; lia|repeat constructor; simpl; lia|].
  exists c. split_and!; [exact Hc|rewrite Hs; reflexivity|rewrite Ht by (unfold host_time; lia); reflexivity].
Defined.
