(* ===== verification/Replay.v ===== *)
(** * Replay: what a late consumer is told, and the thread that tells it

    Models src/shim/core/drain.h, the [ReplayLog] of records that precede a
    consumer and the [Drainer] thread, and src/shim/core/kernelnames.h, the
    table of kernel names.  A callback is a function on the caller's state [W];
    an empty std::function is [None]. *)
From S2P Require Import Prelude Tables GpuUsdt Abi.

(** The first element of each key, in order of appearance. *)
Fixpoint first_by {A K : Type} `{EqDecision K} (key : A -> K) (l : list A) : list A :=
  match l with
  | [] => []
  | x :: l' => x :: filter (fun y => key y <> key x) (first_by key l')
  end.

Section First_by.
  Context {A K : Type} `{EqDecision K} (key : A -> K).

Lemma first_by_keys l k : k ∈ key <$> first_by key l <-> k ∈ key <$> l.
Proof.
  induction l as [|x l IH]; [done|]. cbn [first_by]. rewrite !fmap_cons, !elem_of_cons, <- IH.
  rewrite !list_elem_of_fmap. split.
  - intros [->|(y & -> & [_ Hy]%list_elem_of_filter)]; [by left|]. right. by exists y.
  - intros [->|(y & -> & Hy)]; [by left|]. destruct (decide (key y = key x)) as [E|E]; [by left|].
    right. exists y. split; [done|]. by apply list_elem_of_filter.
Qed.

Lemma first_by_snoc l x :
  first_by key (l ++ [x]) = if decide (key x ∈ key <$> l) then first_by key l else first_by key l ++ [x].
Proof.
  induction l as [|y l IH]; [done|]. cbn [first_by app]. rewrite IH, fmap_cons.
  destruct (decide (key x ∈ key <$> l)) as [Hin|Hin]; [by rewrite decide_True by (by apply elem_of_cons; right)|].
  rewrite list.filter_app. destruct (decide (key x = key y)) as [E|E].
  - rewrite decide_True by (apply elem_of_cons; by left). f_equal.
    rewrite filter_cons_False by (intros H; by apply H). by rewrite app_nil_r.
  - rewrite decide_False by (intros [?|?]%elem_of_cons; done). simpl. f_equal. by rewrite filter_cons_True.
Qed.

Lemma first_by_elem l x : x ∈ first_by key l -> x ∈ l.
Proof.
  induction l as [|y l IH]; [done|]. cbn [first_by]. rewrite !elem_of_cons. intros [->|[_ Hx]%list_elem_of_filter]; auto.
Qed.

Lemma first_by_NoDup l : NoDup (key <$> first_by key l).
Proof.
  induction l as [|x l IH]; [constructor|]. cbn [first_by]. rewrite fmap_cons. constructor.
  - rewrite list_elem_of_fmap. intros (y & E & [Hy _]%list_elem_of_filter). congruence.
  - eapply sublist_NoDup; [exact IH|]. apply fmap_sublist, sublist_filter.
Qed.
End First_by.

(** ** [ReplayLog] (drain.h) *)

Section ReplayLog.
  Context {W : Type}.

Record ReplayLog := MkReplayLog {
  modules_ : list gpu_module_load_v1;
  stalls_ : list gpu_stall_reason_map_v1;
  config_ : gpu_config_v1;
  have_config_ : bool;
  was_attached_ : bool;
  replays_ : Z;
  module_fn_ : option (gpu_module_load_v1 -> W -> W);
  config_fn_ : option (gpu_config_v1 -> W -> W);
  stall_fn_ : option (gpu_stall_reason_map_v1 -> W -> W);
}.

Definition no_config : gpu_config_v1 := GpuConfig 0 0 0 0 (replicate 7 0).

Definition ReplayLog_init : ReplayLog := MkReplayLog [] [] no_config false false 0 None None None.

Definition on_replay_module (fn : gpu_module_load_v1 -> W -> W) (l : ReplayLog) : ReplayLog :=
  MkReplayLog (modules_ l) (stalls_ l) (config_ l) (have_config_ l) (was_attached_ l) (replays_ l)
    (Some fn) (config_fn_ l) (stall_fn_ l).
Definition on_replay_config (fn : gpu_config_v1 -> W -> W) (l : ReplayLog) : ReplayLog :=
  MkReplayLog (modules_ l) (stalls_ l) (config_ l) (have_config_ l) (was_attached_ l) (replays_ l)
    (module_fn_ l) (Some fn) (stall_fn_ l).
Definition on_replay_stall (fn : gpu_stall_reason_map_v1 -> W -> W) (l : ReplayLog) : ReplayLog :=
  MkReplayLog (modules_ l) (stalls_ l) (config_ l) (have_config_ l) (was_attached_ l) (replays_ l)
    (module_fn_ l) (config_fn_ l) (Some fn).

Definition record_module (m : gpu_module_load_v1) (l : ReplayLog) : ReplayLog :=
  MkReplayLog (modules_ l ++ [m]) (stalls_ l) (config_ l) (have_config_ l) (was_attached_ l) (replays_ l)
    (module_fn_ l) (config_fn_ l) (stall_fn_ l).

Definition record_config (c : gpu_config_v1) (l : ReplayLog) : ReplayLog :=
  MkReplayLog (modules_ l) (stalls_ l) c true (was_attached_ l) (replays_ l)
    (module_fn_ l) (config_fn_ l) (stall_fn_ l).

Definition record_stall_reason (s : gpu_stall_reason_map_v1) (l : ReplayLog) : bool * ReplayLog :=
  if existsb (fun have => r_index have =? r_index s) (stalls_ l) then (false, l)
  else (true, MkReplayLog (modules_ l) (stalls_ l ++ [s]) (config_ l) (have_config_ l) (was_attached_ l)
                (replays_ l) (module_fn_ l) (config_fn_ l) (stall_fn_ l)).

(** [if (fn) for (const auto &x : xs) fn(x);] *)
Definition call_each {A : Type} (fn : option (A -> W -> W)) (xs : list A) (w : W) : W :=
  match fn with Some f => foldl (fun w x => f x w) w xs | None => w end.

Definition replay_if_newly_attached (enabled_now : bool) (l : ReplayLog) (w : W) : ReplayLog * W :=
  let newly := enabled_now && negb (was_attached_ l) in
  let w :=
    if newly then
      let w := if have_config_ l then call_each (config_fn_ l) [config_ l] w else w in
      let w := call_each (stall_fn_ l) (stalls_ l) w in
      call_each (module_fn_ l) (modules_ l) w
    else w in
  (MkReplayLog (modules_ l) (stalls_ l) (config_ l) (have_config_ l) enabled_now
     (if newly then u64 (replays_ l + 1) else replays_ l) (module_fn_ l) (config_fn_ l) (stall_fn_ l), w).

Inductive replay_op :=
| RecModule (m : gpu_module_load_v1)
| RecConfig (c : gpu_config_v1)
| RecStall (s : gpu_stall_reason_map_v1)
| Tick (enabled_now : bool).

Definition replay_step (s : ReplayLog * W) (o : replay_op) : ReplayLog * W :=
  match o with
  | RecModule m => (record_module m s.1, s.2)
  | RecConfig c => (record_config c s.1, s.2)
  | RecStall r => ((record_stall_reason r s.1).2, s.2)
  | Tick en => replay_if_newly_attached en s.1 s.2
  end.
Definition replay_run (s : ReplayLog * W) (os : list replay_op) : ReplayLog * W := foldl replay_step s os.

(** *** What a history amounts to, read off the calls themselves *)

Definition told_modules (os : list replay_op) : list gpu_module_load_v1 :=
  omap (fun o => match o with RecModule m => Some m | _ => None end) os.
Definition told_configs (os : list replay_op) : list gpu_config_v1 :=
  omap (fun o => match o with RecConfig c => Some c | _ => None end) os.
Definition told_stalls (os : list replay_op) : list gpu_stall_reason_map_v1 :=
  omap (fun o => match o with RecStall s => Some s | _ => None end) os.
Definition seen_ticks (os : list replay_op) : list bool :=
  omap (fun o => match o with Tick en => Some en | _ => None end) os.

(** Attached as of the last tick. *)
Definition attached_by (os : list replay_op) : bool := default false (list.last (seen_ticks os)).

(** A replay: the latest configuration, each stall reason once, every module. *)
Definition replay_of (os : list replay_op) : list gpu_record :=
  match list.last (told_configs os) with Some c => [RConfig c] | None => [] end ++
  map RStallMap (first_by r_index (told_stalls os)) ++ map RModule (told_modules os).

(** The replays of a history [os] that follows [pre]. *)
Fixpoint emissions (pre os : list replay_op) : list (list gpu_record) :=
  match os with
  | [] => []
  | o :: os' =>
      match o with
      | Tick true => if attached_by pre then [] else [replay_of pre]
      | _ => []
      end ++ emissions (pre ++ [o]) os'
  end.

(** The callbacks, dispatched on the record. *)
Definition tell (l : ReplayLog) (w : W) (r : gpu_record) : W :=
  match r with
  | RModule m => call_each (module_fn_ l) [m] w
  | RConfig c => call_each (config_fn_ l) [c] w
  | RStallMap s => call_each (stall_fn_ l) [s] w
  | _ => w
  end.
End ReplayLog.
Arguments ReplayLog : clear implicits.

Lemma emissions_snoc pre (os : list replay_op) o : emissions pre (os ++ [o]) = emissions pre os ++ emissions (pre ++ os) [o].
Proof.
  revert pre. induction os as [|x os IH]; intros pre; [by rewrite app_nil_r|].
  cbn [emissions app]. rewrite IH. cbn [emissions]. rewrite <- !app_assoc. done.
Qed.

Section ReplayLog_facts.
  Context {W : Type} (l0 : ReplayLog W).

(** The log holds exactly what it was told. *)
Record log_inv (os : list replay_op) (l : ReplayLog W) : Prop := {
  lv_modules : modules_ l = told_modules os;
  lv_stalls : stalls_ l = first_by r_index (told_stalls os);
  lv_config : (if have_config_ l then Some (config_ l) else None) = list.last (told_configs os);
  lv_attached : was_attached_ l = attached_by os;
  lv_fns : module_fn_ l = module_fn_ l0 /\ config_fn_ l = config_fn_ l0 /\ stall_fn_ l = stall_fn_ l0;
}.

Lemma call_each_tell {A} (inj : A -> gpu_record) (fn : option (A -> W -> W)) xs w :
  (forall w x, tell l0 w (inj x) = call_each fn [x] w) -> call_each fn xs w = foldl (tell l0) w (map inj xs).
Proof.
  intros Hf. revert w. induction xs as [|x xs IH]; intros w; [by destruct fn|]. simpl.
  rewrite <- IH, Hf. by destruct fn.
Qed.

Lemma stall_known s (l : list gpu_stall_reason_map_v1) :
  existsb (fun have => r_index have =? r_index s) l = bool_decide (r_index s ∈ r_index <$> l).
Proof.
  symmetry. destruct (existsb _ l) eqn:E; [apply bool_decide_eq_true_2|apply bool_decide_eq_false_2].
  - apply existsb_exists in E as (x & Hx & E). apply Z.eqb_eq in E. apply list_elem_of_fmap.
    exists x. split; [done|]. by apply list_elem_of_In.
  - intros (x & Ex & Hx)%list_elem_of_fmap. apply not_true_iff_false in E. apply E, existsb_exists.
    exists x. split; [by apply list_elem_of_In|]. by apply Z.eqb_eq.
Qed.

Lemma told_snoc (os : list replay_op) (o : replay_op) :
  told_modules (os ++ [o]) = told_modules os ++ told_modules [o] /\
  told_configs (os ++ [o]) = told_configs os ++ told_configs [o] /\
  told_stalls (os ++ [o]) = told_stalls os ++ told_stalls [o] /\
  seen_ticks (os ++ [o]) = seen_ticks os ++ seen_ticks [o].
Proof. unfold told_modules, told_configs, told_stalls, seen_ticks. by rewrite !omap_app. Qed.

Lemma replay_tells os l w :
  log_inv os l -> was_attached_ l = false ->
  (replay_if_newly_attached true l w).2 = foldl (tell l0) w (replay_of os).
Proof.
  intros [Hm Hs Hc Ha (Hf1 & Hf2 & Hf3)] Hat. unfold replay_if_newly_attached, replay_of.
  rewrite Hat, !foldl_app, <- Hm, <- Hs, <- Hc. cbn [andb negb snd].
  rewrite (call_each_tell RStallMap (stall_fn_ l)), (call_each_tell RModule (module_fn_ l))
    by (intros; simpl; by rewrite ?Hf1, ?Hf3).
  f_equal. f_equal. destruct (have_config_ l); [|done]. simpl. by rewrite Hf2.
Qed.

Lemma replay_step_inv os l w o :
  log_inv os l ->
  log_inv (os ++ [o]) (replay_step (l, w) o).1 /\
  (replay_step (l, w) o).2 = foldl (tell l0) w (concat (emissions os [o])) /\
  replays_ (replay_step (l, w) o).1 =
    (if (length (emissions os [o]) =? 0)%nat then replays_ l else u64 (replays_ l + 1)).
Proof.
  intros Hi. pose proof Hi as [Hm Hs Hc Ha Hf]. destruct (told_snoc os o) as (E1 & E2 & E3 & E4).
  destruct o as [m|c|s|en]; cbn [replay_step fst snd emissions].
  - split; [|done]. split; rewrite ?E1, ?E2, ?E3; unfold attached_by; rewrite ?E4; simpl; rewrite ?app_nil_r; try done.
    by rewrite Hm.
  - split; [|done]. split; rewrite ?E1, ?E2, ?E3; unfold attached_by; rewrite ?E4; simpl; rewrite ?app_nil_r; try done.
    by rewrite last_snoc.
  - unfold record_stall_reason. rewrite stall_known, Hs.
    rewrite (bool_decide_ext _ _ (first_by_keys r_index (told_stalls os) (r_index s))).
    assert (Hn : first_by r_index (told_stalls (os ++ [RecStall s])) =
      if decide (r_index s ∈ r_index <$> told_stalls os) then first_by r_index (told_stalls os)
      else first_by r_index (told_stalls os) ++ [s]) by (by rewrite E3, <- first_by_snoc).
    case_bool_decide as Hin; [rewrite decide_True in Hn by done|rewrite decide_False in Hn by done]; cbn [fst snd];
      (split; [|done]; split; rewrite ?E1, ?E2, ?Hn; unfold attached_by; rewrite ?E4; simpl; rewrite ?app_nil_r; done || by rewrite Hs).
  - rewrite app_nil_r. split; [|split].
    + split; rewrite ?E1, ?E2, ?E3; unfold attached_by; rewrite ?E4; simpl; rewrite ?app_nil_r; try done.
      by rewrite last_snoc.
    + destruct en; [|done]. destruct (attached_by os) eqn:Eat; [|rewrite (replay_tells os) by done; simpl; by rewrite app_nil_r].
      unfold replay_if_newly_attached. by rewrite Ha.
    + unfold replay_if_newly_attached. rewrite Ha. destruct en; [|done]. by destruct (attached_by os).
Qed.
End ReplayLog_facts.

(** Late attach.  Over any history of recordings and ticks, the callbacks
    run exactly at the ticks that find a consumer where the tick before found
    none, and then for: the configuration recorded last, every stall reason
    under the entry first recorded for its index, and every module load, in
    that order and in the order they were recorded; nothing is replayed to a
    consumer that stays attached, and nothing recorded so far is left out.  The
    replay counter counts those ticks. *)
Theorem replay_log_exact {W} (mf : option (gpu_module_load_v1 -> W -> W)) cf sf os w :
  let l0 := MkReplayLog [] [] no_config false false 0 mf cf sf in
  let r := replay_run (l0, w) os in
  r.2 = foldl (tell l0) w (concat (emissions [] os)) /\
  replays_ r.1 = u64 (Z.of_nat (length (emissions [] os))) /\
  modules_ r.1 = told_modules os /\ stalls_ r.1 = first_by r_index (told_stalls os) /\
  NoDup (r_index <$> stalls_ r.1) /\ was_attached_ r.1 = attached_by os.
Proof.
  intros l0 r. assert (H : log_inv l0 os r.1 /\ r.2 = foldl (tell l0) w (concat (emissions [] os)) /\
    replays_ r.1 = u64 (Z.of_nat (length (emissions [] os)))).
  { subst r. induction os as [|o os (IH1 & IH2 & IH3)] using rev_ind; [by split_and!|].
    unfold replay_run. rewrite foldl_app. change (foldl replay_step ?x os) with (replay_run x os). cbn [foldl].
    destruct (replay_run (l0, w) os) as [l w'] eqn:E. cbn [fst snd] in *.
    destruct (replay_step_inv l0 os l w' o IH1) as (H1 & H2 & H3).
    rewrite emissions_snoc, concat_app, length_app, foldl_app, <- IH2, app_nil_l. split_and!; [done|done|].
    rewrite H3, IH3. destruct (emissions os [o]) as [|x [|]] eqn:Eo; simpl; [by rewrite Nat.add_0_r| |].
    - unfold u64. rewrite Zplus_mod_idemp_l. f_equal. lia.
    - destruct o as [| | |[]]; simpl in Eo; try done. by destruct (attached_by os). }
  destruct H as ([Hm Hs Hc Ha Hf] & H2 & H3). split_and!; try done. rewrite Hs. apply first_by_NoDup.
Qed.

(** A consumer that comes, stays, leaves and comes back. *)
Example replay_demo :
  let stall i := GpuStallReason i 0 0 0 [] in
  let m i := GpuModuleLoad i 0 0 0 0 in
  emissions [] [RecStall (stall 4); RecModule (m 1); RecStall (stall 4); Tick true; RecModule (m 2); Tick true;
                RecConfig no_config; Tick false; Tick true]
  = [[RStallMap (stall 4); RModule (m 1)];
     [RConfig no_config; RStallMap (stall 4); RModule (m 1); RModule (m 2)]].
Proof. reflexivity. Qed.

(** ** [KernelNameTable] (kernelnames.h)

    A C string is its bytes without the terminator; a null pointer is [None]. *)
Record KernelNameTable := MkNames { seen_ : gset Z; records_ : list gpu_kernel_name_v1 }.
Definition KernelNameTable_init : KernelNameTable := MkNames ∅ [].

Definition name_record (id : Z) (name : option (list Z)) : gpu_kernel_name_v1 :=
  let nm := default [] name in
  let n := length nm in
  let '(n, truncated) := if (GPU_KERNEL_NAME_MAX <? n)%nat then (GPU_KERNEL_NAME_MAX, 1) else (n, 0) in
  GpuKernelName id (u16 (Z.of_nat n)) truncated (replicate 5 0)
    (take n nm ++ replicate (GPU_KERNEL_NAME_MAX - n) 0).

Definition intern (id : Z) (name : option (list Z)) (t : KernelNameTable)
    : option gpu_kernel_name_v1 * KernelNameTable :=
  if decide (id ∈ seen_ t) then (None, t)
  else
    let rec := name_record id name in
    (Some rec, MkNames ({[id]} ∪ seen_ t) (records_ t ++ [rec])).

Definition replay {W} (fn : gpu_kernel_name_v1 -> W -> W) (t : KernelNameTable) (w : W) : W :=
  foldl (fun w r => fn r w) w (records_ t).

Fixpoint intern_all (calls : list (Z * option (list Z))) (t : KernelNameTable)
    : list (option gpu_kernel_name_v1) * KernelNameTable :=
  match calls with
  | [] => ([], t)
  | (id, name) :: calls' =>
      let (r, t1) := intern id name t in
      let (rs, t2) := intern_all calls' t1 in
      (r :: rs, t2)
  end.

Definition name_ok (c : Z * option (list Z)) : Prop := is_u64 c.1 /\ Forall is_u8 (default [] c.2).

(** What the consumer is to learn from a call. *)
Definition name_shown (c : Z * option (list Z)) : KernelName :=
  MkKernelName c.1 (take 256 (default [] c.2)) (256 <? Z.of_nat (length (default [] c.2))).

Lemma kernel_name_wf id n truncated s :
  is_u64 id -> (n <= 256)%nat -> (n <= length s)%nat -> truncated = 0 \/ truncated = 1 -> Forall is_u8 s ->
  record_wf (RKernelName (GpuKernelName id (u16 (Z.of_nat n)) truncated (replicate 5 0)
                            (take n s ++ replicate (256 - n) 0))).
Proof.
  intros Hid Hn Hl Ht Hs.
  assert (Hz : forall k, Forall is_u8 (replicate k 0)) by (intros k; apply Forall_replicate; unfold is_u8; lia).
  assert (Hu : 0 <= u16 (Z.of_nat n) < 65536) by (apply Z.mod_pos_bound; lia).
  unfold record_wf. cbn [fields_of]. repeat apply List.Forall_cons; try apply List.Forall_nil; cbn [fwf].
  - exact Hid.
  - exact Hu.
  - change (256 ^ Z.of_nat 1) with 256. lia.
  - split; [apply length_replicate|apply Hz].
  - unfold GPU_KERNEL_NAME_MAX. split; [rewrite length_app, length_take, length_replicate; lia|].
    apply Forall_app. split; [by apply Forall_take|apply Hz].
Qed.

Lemma name_record_wf c : name_ok c -> record_wf (RKernelName (name_record c.1 c.2)).
Proof.
  intros [Hid Hnm]. unfold name_record, GPU_KERNEL_NAME_MAX.
  destruct (Nat.ltb_spec 256 (length (default [] c.2))); apply kernel_name_wf; auto; lia.
Qed.

Lemma name_record_view c : name_ok c -> view_kernel_name (name_record c.1 c.2) = Ok (name_shown c).
Proof.
  intros _. unfold name_record, view_kernel_name, name_shown, GPU_KERNEL_NAME_MAX.
  set (s := default [] c.2). destruct (Nat.ltb_spec 256 (length s)) as [Hl|Hl];
    cbn [k_name_len k_name k_kernel_id k_truncated].
  - change (u16 (Z.of_nat 256)) with 256. rewrite Z.ltb_irrefl, (proj2 (Z.ltb_lt 256 (Z.of_nat _))) by lia.
    change (Z.to_nat 256) with 256%nat. cbn [Nat.sub replicate]. by rewrite app_nil_r, take_take.
  - unfold u16. rewrite Z.mod_small, (proj2 (Z.ltb_ge 256 _)), Nat2Z.id by lia.
    rewrite (take_ge s (length s)), take_app_length, take_ge by lia. done.
Qed.

Lemma in_keys_snoc {B} (past : list (Z * B)) id x k : k ∈ (past ++ [(id, x)]).*1 <-> k ∈ past.*1 \/ k = id.
Proof. rewrite fmap_app, elem_of_app. change ([(id, x)].*1) with [id]. by rewrite list_elem_of_singleton. Qed.

Lemma intern_all_spec calls past t :
  records_ t = map (fun c => name_record c.1 c.2) (first_by fst past) ->
  (forall id, id ∈ seen_ t <-> id ∈ past.*1) ->
  let r := intern_all calls t in
  records_ r.2 = map (fun c => name_record c.1 c.2) (first_by fst (past ++ calls)) /\
  records_ r.2 = records_ t ++ omap id r.1.
Proof.
  revert past t. induction calls as [|[id nm] calls IH]; intros past t Hr Hs; [simpl; by rewrite !app_nil_r|].
  cbn [intern_all]. unfold intern. pose proof (first_by_snoc fst past (id, nm)) as Hf. cbn [fst] in Hf.
  replace (past ++ (id, nm) :: calls) with ((past ++ [(id, nm)]) ++ calls) by (by rewrite <- app_assoc).
  destruct (decide (id ∈ seen_ t)) as [Hin|Hin].
  - rewrite decide_True in Hf by (by apply Hs).
    specialize (IH (past ++ [(id, nm)]) t). destruct (intern_all calls t) as [rs t2]. simpl in *. apply IH; [by rewrite Hf|].
    intros id'. rewrite Hs, in_keys_snoc. split; [by left|]. intros [?| ->]; [done|by apply Hs].
  - rewrite decide_False in Hf by (by rewrite <- Hs).
    specialize (IH (past ++ [(id, nm)]) (MkNames ({[id]} ∪ seen_ t) (records_ t ++ [name_record id nm]))).
    destruct (intern_all calls _) as [rs t2]. simpl in *.
    rewrite <- (app_assoc (records_ t)) in IH. apply IH; [by rewrite Hf, map_app, Hr|]. intros id'. rewrite in_keys_snoc, <- Hs, elem_of_union, elem_of_singleton. tauto.
Qed.

(** Kernel names cross to the consumer.  After any sequence of calls of
    [intern], the records a replay hands out are one per kernel id, in the order
    the ids first came, and they are the records the calls returned, each once;
    laid out by the C rules and decoded by the consumer, whatever the padding,
    each reads as its id with the first 256 bytes of the name given with the
    id's first call, marked truncated exactly when the name was longer. *)
Theorem kernel_names_roundtrip junk calls :
  Forall name_ok calls ->
  let r := intern_all calls KernelNameTable_init in
  let replayed := replay (fun x l => l ++ [x]) r.2 [] in
  replayed = omap id r.1 /\
  NoDup (k_kernel_id <$> replayed) /\
  mapM (fun x => DecodeKernelName (encode junk (RKernelName x))) replayed = Ok (map name_shown (first_by fst calls)).
Proof.
  intros Hok r replayed.
  assert (Hrep : forall l0, foldl (fun l x => l ++ [x]) l0 (records_ r.2) = l0 ++ records_ r.2).
  { generalize (records_ r.2). intros l. induction l as [|x l IH]; intros l0; simpl; [by rewrite app_nil_r|].
    by rewrite IH, <- app_assoc. }
  assert (Er : replayed = records_ r.2) by apply (Hrep []).
  destruct (intern_all_spec calls [] KernelNameTable_init eq_refl) as [H1 H2]; [set_solver|].
  assert (Hok' : Forall name_ok (first_by fst calls)).
  { clear -Hok. induction Hok as [|c calls Hc _ IH]; [constructor|]. cbn [first_by]. constructor; [done|].
    rewrite list.Forall_forall in IH |- *. intros x [_ Hx]%list_elem_of_filter. by apply IH. }
  rewrite Er. split_and!; [exact H2| |].
  - fold r in H1. rewrite H1. simpl. rewrite <- list_fmap_compose.
    rewrite (list_fmap_ext _ (fst)); [apply first_by_NoDup|].
    intros i c _. simpl. unfold name_record. by destruct (_ <? _)%nat.
  - fold r in H1. rewrite H1. simpl. clear -Hok'. induction Hok' as [|c l Hc _ IH]; [done|]. cbn [map mapM].
    rewrite <- (app_nil_r (encode junk _)), decode_kernel_name by (by apply name_record_wf).
    rewrite name_record_view by done. simpl. by rewrite IH.
Qed.

Lemma kernel_names_roundtrip_witness :
  let calls := [(9, Some [97; 98]); (7, None); (9, Some [99]); (8, Some (replicate 300 120))] in
  Forall name_ok calls /\
  mapM (fun x => DecodeKernelName (encode (fun _ => 0) (RKernelName x)))
    (replay (fun x l => l ++ [x]) (intern_all calls KernelNameTable_init).2 [])
  = Ok [MkKernelName 9 [97; 98] false; MkKernelName 7 [] false; MkKernelName 8 (replicate 256 120) true].
Proof.
  set (calls := [(9, Some [97; 98]); (7, None); (9, Some [99]); (8, Some (replicate 300 120))]).
  assert (Hok : Forall name_ok calls).
  { repeat constructor; cbn [fst snd default]; unfold is_u64, is_u8; lia. }
  split; [exact Hok|]. destruct (kernel_names_roundtrip (fun _ => 0) calls Hok) as (_ & _ & H).
  etransitivity; [exact H|]. reflexivity.
Defined.

(** ** [Drainer] (drain.h)

    The thread's loop, one step per access to [stop_]; [on_tick]'s callback runs
    as one step.  [stop] stores the flag and waits in [join]. *)
Inductive dpc := DTest | DSleep | DRetest | DTick | DExit.

Record drainer := Drain { dr_stop : bool; dr_thread : option dpc; dr_joining : bool; dr_ticks : nat }.
Definition drainer_init : drainer := Drain false None false 0.

Inductive dstep := DStart | DStop | DJoin | DThread.

Definition dnext (has_tick : bool) (d : drainer) (s : dstep) : option drainer :=
  match s, dr_thread d with
  | DStart, None => if dr_joining d then None else Some (Drain false (Some DTest) false (dr_ticks d))
  | DStart, Some _ => None (* assigning to a joinable std::thread ends the process *)
  | DStop, None => if dr_joining d then None else Some d
  | DStop, Some p => if dr_joining d then None else Some (Drain true (Some p) true (dr_ticks d))
  | DJoin, Some DExit => if dr_joining d then Some (Drain (dr_stop d) None false (dr_ticks d)) else None
  | DJoin, _ => None
  | DThread, Some DTest => Some (Drain (dr_stop d) (Some (if dr_stop d then DExit else DSleep)) (dr_joining d) (dr_ticks d))
  | DThread, Some DSleep => Some (Drain (dr_stop d) (Some DRetest) (dr_joining d) (dr_ticks d))
  | DThread, Some DRetest => Some (Drain (dr_stop d) (Some (if dr_stop d then DExit else DTick)) (dr_joining d) (dr_ticks d))
  | DThread, Some DTick =>
      Some (Drain (dr_stop d) (Some DTest) (dr_joining d) (if has_tick then S (dr_ticks d) else dr_ticks d))
  | DThread, _ => None
  end.

Fixpoint drun (has_tick : bool) (d : drainer) (l : list dstep) : option drainer :=
  match l with [] => Some d | s :: l' => dnext has_tick d s ≫= fun d' => drun has_tick d' l' end.

Definition dinv (d : drainer) : Prop :=
  (dr_joining d = true -> dr_stop d = true /\ dr_thread d <> None) /\
  (dr_thread d = Some DExit -> dr_stop d = true /\ dr_joining d = true) /\
  (dr_thread d <> None -> dr_stop d = dr_joining d).

Lemma dinv_run has_tick l d d' : dinv d -> drun has_tick d l = Some d' -> dinv d'.
Proof.
  revert d. induction l as [|s l IH]; intros d Hi; cbn [drun]; [by intros [= <-]|].
  destruct (dnext has_tick d s) as [d1|] eqn:E; [|done]. simpl. apply IH.
  destruct d as [st [[]|] j n], s; simpl in E; try done; destruct j, st; simplify_eq/=;
    destruct Hi as (H1 & H2 & H3); simpl in *; unfold dinv; simpl;
    try (specialize (H3 ltac:(done))); try (specialize (H1 eq_refl)); try (specialize (H2 eq_refl));
    try done; split_and!; intros; destruct_and?; done.
Qed.

(** Stopping takes bounded time and ends the ticks: once [stop] has stored its
    flag the thread leaves its loop within two of its own steps, running at
    most the tick it had already decided on, and when [stop] returns there is
    no thread left to tick. *)
Theorem drainer_stops has_tick l d :
  drun has_tick drainer_init l = Some d -> dr_joining d = true ->
  exists k d', (k <= 2)%nat /\ drun has_tick d (replicate k DThread ++ [DJoin]) = Some d' /\
    dr_thread d' = None /\ (dr_ticks d' <= S (dr_ticks d))%nat /\ dnext has_tick d' DThread = None.
Proof.
  intros Hr Hj. assert (Hi : dinv d) by (eapply dinv_run; [|exact Hr]; by unfold dinv; simpl).
  destruct d as [st th j n]. simpl in Hj. subst j. destruct Hi as (H1 & _ & _). destruct (H1 eq_refl) as [Hst Ht].
  simpl in *. subst st. destruct th as [[]|]; [| | | | |done].
  - exists 1%nat. eexists. split_and!; [lia|reflexivity|done|simpl; lia|done].
  - exists 2%nat. eexists. split_and!; [lia|reflexivity|done|simpl; lia|done].
  - exists 1%nat. eexists. split_and!; [lia|reflexivity|done|simpl; lia|done].
  - exists 2%nat. eexists. split_and!; [lia|reflexivity|done|simpl; destruct has_tick; lia|done].
  - exists 0%nat. eexists. split_and!; [lia|reflexivity|done|simpl; lia|done].
Qed.
