(* ===== verification/Maps.v ===== *)
(** * Maps: the rendezvous names

    Both ends of the shim's sockets compute the socket's name from the device
    and inode of the shim's own mapping.  The producer reads /proc/self/maps in
    src/shim/core/enroll.cc ([enroll_name_from_maps], with [fgets] and [sscanf])
    and src/shim/core/cubin.cc ([cubin_name_from_maps]); the consumer reads its
    own in src/gpuprobe/enroll.go ([enrollShimIdentity]) and spells the names in
    enroll.go and cubin.go.  The file itself is text in the format of proc(5). *)
From Stdlib Require Import String Ascii.
From S2P Require Import Prelude PcTier.
#[local] Open Scope Z_scope.
#[local] Instance ascii_eq_dec' : EqDecision ascii := ascii_dec.

(** ** Numbers in text *)

Definition digit_char (d : Z) : ascii :=
  ascii_of_nat (Z.to_nat (if d <? 10 then 48 + d else 87 + d)).

(** The value of a character as a digit. *)
Definition hex_value (c : ascii) : option Z :=
  let n := Z.of_nat (nat_of_ascii c) in
  if (48 <=? n) && (n <=? 57) then Some (n - 48)
  else if (97 <=? n) && (n <=? 102) then Some (n - 87)
  else if (65 <=? n) && (n <=? 70) then Some (n - 55) else None.
Definition char_digit (base : Z) (c : ascii) : option Z :=
  match hex_value c with Some v => if v <? base then Some v else None | None => None end.

(** The digits of [z], most significant first. *)
Fixpoint to_digits (fuel : nat) (base z : Z) : list Z :=
  match fuel with
  | O => []
  | S fuel' => if z <? base then [z] else to_digits fuel' base (z / base) ++ [z mod base]
  end.
Definition from_digits (base : Z) (ds : list Z) : Z := foldl (fun a d => a * base + d) 0 ds.

(** [%lu], [%u] and Go's [%d]: 64 digits are enough for every 64-bit value. *)
Definition put_dec (z : Z) : cstr := digit_char <$> to_digits 64 10 z.
(** Hexadecimal with at least [w] digits. *)
Definition put_hex (w : nat) (z : Z) : cstr :=
  let ds := to_digits 64 16 z in digit_char <$> (replicate (w - length ds) 0 ++ ds).

(** The longest run of digits. *)
Fixpoint span_digits (base : Z) (s : cstr) : list Z * cstr :=
  match s with
  | [] => ([], [])
  | c :: s' =>
      match char_digit base c with
      | Some d => let '(ds, r) := span_digits base s' in (d :: ds, r)
      | None => ([], s)
      end
  end.

(** ** [sscanf]

    The directives of the one format the code uses.  A conversion skips white
    space first; an unsigned conversion takes a sign and, in base 16, a 0x, and
    saturates at 2^64 - 1 as strtoul does. *)
Definition is_space (c : ascii) : bool :=
  let n := nat_of_ascii c in (n =? 32)%nat || ((9 <=? n)%nat && (n <=? 13)%nat).
Fixpoint skip_space (s : cstr) : cstr :=
  match s with [] => [] | c :: s' => if is_space c then skip_space s' else s end.

Definition scan_unsigned (base : Z) (s : cstr) : option (Z * cstr) :=
  let s := skip_space s in
  let '(neg, s) :=
    match s with
    | c :: s' => if decide (c = "-"%char) then (true, s') else if decide (c = "+"%char) then (false, s') else (false, s)
    | [] => (false, s)
    end in
  let s :=
    match s with
    | c :: x :: s' =>
        if (base =? 16) && bool_decide (c = "0"%char) && (bool_decide (x = "x"%char) || bool_decide (x = "X"%char))
        then s' else s
    | _ => s
    end in
  match span_digits base s with
  | ([], _) => None
  | (ds, r) =>
      let v := from_digits base ds in
      Some (if 2 ^ 64 <=? v then 2 ^ 64 - 1 else if neg then u64 (- v) else v, r)
  end.

Fixpoint take_word (n : nat) (s : cstr) : cstr * cstr :=
  match n, s with
  | S n', c :: s' => if is_space c then ([], s) else let '(w, r) := take_word n' s' in (c :: w, r)
  | _, _ => ([], s)
  end.
Definition scan_word (n : nat) (s : cstr) : option (cstr * cstr) :=
  match take_word n (skip_space s) with ([], _) => None | (w, r) => Some (w, r) end.

Definition scan_lit (c : ascii) (s : cstr) : option cstr :=
  match s with d :: s' => if decide (d = c) then Some s' else None | [] => None end.

Record vma := Vma { v_lo : Z; v_hi : Z; v_perms : cstr; v_off : Z; v_maj : Z; v_min : Z; v_ino : Z }.

(** [sscanf(line, "%lx-%lx %7s %lx %x:%x %lu", ...) == 7] *)
Definition scan_maps_line (line : cstr) : option vma :=
  '(lo, s) ← scan_unsigned 16 line;
  s ← scan_lit "-"%char s;
  '(hi, s) ← scan_unsigned 16 s;
  '(perms, s) ← scan_word 7 (skip_space s);
  '(off, s) ← scan_unsigned 16 (skip_space s);
  '(maj, s) ← scan_unsigned 16 (skip_space s);
  s ← scan_lit ":"%char s;
  '(min, s) ← scan_unsigned 16 s;
  '(ino, s) ← scan_unsigned 10 (skip_space s);
  Some (Vma lo hi perms off (u32 maj) (u32 min) ino).

(** ** The producer *)

(** [fgets(line, 4096, f)]: up to 4095 characters, through the newline. *)
Fixpoint fgets (room : nat) (s : cstr) : cstr * cstr :=
  match room, s with
  | S room', c :: s' =>
      if decide (c = "010"%char) then ([c], s') else let '(l, r) := fgets room' s' in (c :: l, r)
  | _, _ => ([], s)
  end.
Definition kLine : nat := 4095.

Definition enroll_prefix : cstr := lit "perfagent-gpu-enroll.v1."%string.
Definition cubin_prefix : cstr := lit "perfagent-gpu-cubin.v1."%string.

(** "%u.%u.%lu" *)
Definition id_suffix (maj min ino : Z) : cstr :=
  put_dec maj ++ ["."%char] ++ put_dec min ++ ["."%char] ++ put_dec ino.

(** [snprintf] into a buffer of [outsz]: the text, unless it is truncated. *)
Definition fits (outsz : nat) (s : cstr) : option cstr :=
  if (0 <? length s)%nat && (length s <? outsz)%nat then Some s else None.

Fixpoint maps_loop (fuel : nat) (addr : Z) (outsz : nat) (s : cstr) : option cstr :=
  match fuel, s with
  | S fuel', _ :: _ =>
      let '(line, rest) := fgets kLine s in
      match scan_maps_line line with
      | None => maps_loop fuel' addr outsz rest
      | Some v =>
          if (addr <? v_lo v) || (v_hi v <=? addr) then maps_loop fuel' addr outsz rest
          else if v_ino v =? 0 then None
          else fits outsz (enroll_prefix ++ id_suffix (v_maj v) (v_min v) (v_ino v))
      end
  | _, _ => None
  end.

(** [None] is the [false] of the code, with [out] left empty. [maps] is the
    file's contents when it opens. *)
Definition enroll_name_from_maps (maps : option cstr) (addr : Z) (outsz : nat) : option cstr :=
  if (outsz =? 0)%nat then None
  else match maps with Some s => maps_loop (length s) addr outsz s | None => None end.

(** [sizeof(sockaddr_un::sun_path)] *)
Definition sun_path_size : nat := 108.

Definition cubin_name_from_maps (maps : option cstr) (addr : Z) (outsz : nat) : option cstr :=
  if (outsz =? 0)%nat then None
  else
    match enroll_name_from_maps maps addr sun_path_size with
    | None => None
    | Some enroll =>
        let plen := length enroll_prefix in
        if negb (bool_decide (take plen enroll = enroll_prefix)) then None
        else fits outsz (cubin_prefix ++ drop plen enroll)
    end.

(** ** The consumer (enroll.go, cubin.go) *)

(** strings.Fields *)
Fixpoint Fields (s : cstr) : list cstr :=
  match s with
  | [] => []
  | c :: s' =>
      if is_space c then Fields s'
      else match s' with
           | [] => [[c]]
           | d :: _ => if is_space d then [c] :: Fields s'
                       else match Fields s' with w :: ws => (c :: w) :: ws | [] => [[c]] end
           end
  end.

(** strings.Cut *)
Fixpoint Cut (s : cstr) (sep : ascii) : option (cstr * cstr) :=
  match s with
  | [] => None
  | c :: s' => if decide (c = sep) then Some ([], s') else '(a, b) ← Cut s' sep; Some (c :: a, b)
  end.

(** strconv.ParseUint *)
Definition ParseUint (s : cstr) (base bits : Z) : option Z :=
  match span_digits base s with
  | ([], _) => None
  | (ds, []) => let v := from_digits base ds in if v <? 2 ^ bits then Some v else None
  | _ => None
  end.

Definition parseMapsRange (field : cstr) : option (Z * Z) :=
  '(l, h) ← Cut field "-"%char; lv ← ParseUint l 16 64; hv ← ParseUint h 16 64; Some (lv, hv).

Definition parseMapsDev (field : cstr) : option (Z * Z) :=
  '(maj, min) ← Cut field ":"%char; mj ← ParseUint maj 16 32; mn ← ParseUint min 16 32; Some (mj, mn).

(** bufio.Scanner over the lines: a line that does not fit its buffer of 64 KiB
    ends the scan with an error. *)
Fixpoint next_line (s : cstr) : cstr * cstr :=
  match s with
  | [] => ([], [])
  | c :: s' => if decide (c = "010"%char) then ([], s') else let '(l, r) := next_line s' in (c :: l, r)
  end.
Definition MaxScanTokenSize : nat := Z.to_nat 65536.

Fixpoint identity_loop (fuel : nat) (at_ : Z) (s : cstr) : option (Z * Z * Z) :=
  match fuel, s with
  | S fuel', _ :: _ =>
      let '(line, rest) := next_line s in
      if (MaxScanTokenSize <=? length line)%nat then None
      else
        match Fields line with
        | f0 :: _ :: _ :: f3 :: f4 :: _ =>
            match parseMapsRange f0 with
            | Some (lo, hi) =>
                if (at_ <? lo) || (hi <=? at_) then identity_loop fuel' at_ rest
                else match parseMapsDev f3, ParseUint f4 10 64 with
                     | Some (maj, min), Some ino =>
                         if ino =? 0 then identity_loop fuel' at_ rest else Some (maj, min, ino)
                     | _, _ => identity_loop fuel' at_ rest
                     end
            | None => identity_loop fuel' at_ rest
            end
        | _ => identity_loop fuel' at_ rest
        end
  | _, _ => None
  end.

Section Consumer.
  (** golang.org/x/sys/unix *)
  Context (Mkdev : Z -> Z -> Z) (Major Minor : Z -> Z).

(** The file is mapped at [at_]; [maps] is the process's own map. *)
Definition enrollShimIdentity (maps : cstr) (at_ : Z) : option (Z * Z) :=
  '(maj, min, ino) ← identity_loop (length maps) at_ maps; Some (Mkdev maj min, ino).

Definition enrollAddressFor (dev ino : Z) : cstr :=
  "@"%char :: enroll_prefix ++ id_suffix (Major dev) (Minor dev) ino.
Definition cubinAddressFor (dev ino : Z) : cstr :=
  "@"%char :: cubin_prefix ++ id_suffix (Major dev) (Minor dev) ino.

Definition enrollAddress (maps : cstr) (at_ : Z) : option cstr :=
  '(dev, ino) ← enrollShimIdentity maps at_; Some (enrollAddressFor dev ino).
Definition cubinAddress (maps : cstr) (at_ : Z) : option cstr :=
  '(dev, ino) ← enrollShimIdentity maps at_; Some (cubinAddressFor dev ino).
End Consumer.

(** ** The file, as proc(5) describes it

    The rest of a line, after the inode, is a path behind spaces, or nothing. *)
Definition maps_line (v : vma) (rest : cstr) : cstr :=
  put_hex 8 (v_lo v) ++ "-"%char :: put_hex 8 (v_hi v) ++ " "%char :: v_perms v ++ " "%char ::
  put_hex 8 (v_off v) ++ " "%char :: put_hex 2 (v_maj v) ++ ":"%char :: put_hex 2 (v_min v) ++ " "%char ::
  put_dec (v_ino v) ++ rest.

Definition maps_text (vs : list (vma * cstr)) : cstr :=
  concat (map (fun vr => maps_line vr.1 vr.2 ++ ["010"%char]) vs).

Record line_ok (vr : vma * cstr) : Prop := {
  lo_addr : is_u64 (v_lo vr.1) /\ is_u64 (v_hi vr.1) /\ is_u64 (v_off vr.1);
  lo_dev : is_u32 (v_maj vr.1) /\ is_u32 (v_min vr.1);
  lo_ino : is_u64 (v_ino vr.1);
  lo_perms : length (v_perms vr.1) = 4%nat /\ Forall (fun c => is_space c = false) (v_perms vr.1);
  lo_rest : match vr.2 with [] => True | c :: _ => c = " "%char end;
  lo_newline : "010"%char ∉ maps_line vr.1 vr.2;
  lo_length : (length (maps_line vr.1 vr.2) < kLine)%nat;
}.

(** The first mapping that contains an address. *)
Fixpoint mapping_at (addr : Z) (vs : list (vma * cstr)) : option vma :=
  match vs with
  | [] => None
  | (v, _) :: vs' => if (v_lo v <=? addr) && (addr <? v_hi v) then Some v else mapping_at addr vs'
  end.

(** ** Reading back what was printed *)

Lemma digit_char_inv base d : 0 <= d < base -> base <= 16 -> char_digit base (digit_char d) = Some d.
Proof.
  intros Hd Hb. assert (H : exists n, (n < 16)%nat /\ d = Z.of_nat n) by (exists (Z.to_nat d); lia).
  destruct H as (n & Hn & ->). assert (Hv : hex_value (digit_char (Z.of_nat n)) = Some (Z.of_nat n)).
  { do 16 (destruct n as [|n]; [done|]). lia. }
  unfold char_digit. by rewrite Hv, (proj2 (Z.ltb_lt _ _)) by lia.
Qed.

(** What a digit is not. *)
Lemma digit_char_plain d :
  0 <= d < 16 ->
  is_space (digit_char d) = false /\ digit_char d <> "-"%char /\ digit_char d <> "+"%char /\
  digit_char d <> "x"%char /\ digit_char d <> "X"%char /\ digit_char d <> ":"%char /\ digit_char d <> "010"%char.
Proof.
  intros Hd. assert (H : exists n, (n < 16)%nat /\ d = Z.of_nat n) by (exists (Z.to_nat d); lia).
  destruct H as (n & Hn & ->). do 16 (destruct n as [|n]; [by split_and!|]). lia.
Qed.

Definition digits_ok (base : Z) (ds : list Z) : Prop := Forall (fun d => 0 <= d < base) ds.

(** A text that does not begin with a digit, nor with the x of a prefix. *)
Definition stops (s : cstr) : Prop :=
  match s with [] => True | c :: _ => c = " "%char \/ c = "-"%char \/ c = ":"%char \/ c = "010"%char \/ c = "."%char end.

Lemma stops_digit base s : stops s -> span_digits base s = ([], s).
Proof. destruct s as [|c s]; [done|]. simpl. intros [->|[->|[->|[->| ->]]]]; done. Qed.

Lemma span_digits_app base ds r :
  base <= 16 -> digits_ok base ds -> stops r -> span_digits base ((digit_char <$> ds) ++ r) = (ds, r).
Proof.
  intros Hb Hds Hr. induction Hds as [|d ds Hd _ IH]; [by apply stops_digit|].
  rewrite fmap_cons. cbn [app span_digits]. by rewrite digit_char_inv, IH by done.
Qed.

Lemma to_digits_ok fuel base z : 0 <= z -> 1 < base -> digits_ok base (to_digits fuel base z).
Proof.
  intros Hz Hb. revert z Hz. induction fuel as [|fuel IH]; intros z Hz; [constructor|]. simpl.
  destruct (Z.ltb_spec z base); [by repeat constructor; lia|].
  apply Forall_app. split; [apply IH; by apply Z.div_pos; lia|]. constructor; [|constructor]. by apply Z.mod_pos_bound; lia.
Qed.

Lemma from_to_digits fuel base z :
  0 <= z < base ^ Z.of_nat fuel -> 1 < base -> from_digits base (to_digits fuel base z) = z.
Proof.
  intros Hz Hb. revert z Hz. induction fuel as [|fuel IH]; intros z Hz; [unfold from_digits; simpl in *; lia|]. simpl.
  destruct (Z.ltb_spec z base); [done|]. unfold from_digits. rewrite foldl_app.
  change (foldl _ 0 (to_digits fuel base (z / base))) with (from_digits base (to_digits fuel base (z / base))).
  rewrite IH; [simpl; pose proof (Z.div_mod z base ltac:(lia)); lia|].
  split; [by apply Z.div_pos; lia|]. apply Z.div_lt_upper_bound; [lia|].
  rewrite Nat2Z.inj_succ, Z.pow_succ_r in Hz by lia. lia.
Qed.

Lemma from_digits_zeros base k ds : from_digits base (replicate k 0 ++ ds) = from_digits base ds.
Proof. unfold from_digits. rewrite foldl_app. f_equal. induction k as [|k IH]; [done|]. simpl. by rewrite Z.mul_0_l. Qed.

Lemma to_digits_nonempty fuel base z : to_digits (S fuel) base z <> [].
Proof. simpl. destruct (z <? base); [done|]. by destruct (to_digits fuel base (z / base)). Qed.

Lemma put_hex_digits w z : exists ds, put_hex w z = digit_char <$> ds /\ ds <> [] /\
  (0 <= z < 2 ^ 64 -> digits_ok 16 ds /\ from_digits 16 ds = z).
Proof.
  unfold put_hex. eexists. split; [reflexivity|]. split.
  - intros E. apply app_eq_nil in E as [_ E]. by apply (to_digits_nonempty 63 16 z).
  - intros Hz. split; [|rewrite from_digits_zeros; apply from_to_digits; lia].
    apply Forall_app. split; [apply Forall_replicate; lia|apply to_digits_ok; lia].
Qed.

Lemma put_dec_digits z : exists ds, put_dec z = digit_char <$> ds /\ ds <> [] /\
  (0 <= z < 2 ^ 64 -> digits_ok 10 ds /\ from_digits 10 ds = z).
Proof.
  unfold put_dec. eexists. split; [reflexivity|]. split; [apply (to_digits_nonempty 63)|].
  intros Hz. split; [apply to_digits_ok; lia|apply from_to_digits; lia].
Qed.

(** An unsigned conversion of printed digits, after any white space. *)
Lemma scan_unsigned_digits base ds r :
  base <= 16 -> digits_ok base ds -> ds <> [] -> stops r -> from_digits base ds < 2 ^ 64 ->
  scan_unsigned base ((digit_char <$> ds) ++ r) = Some (from_digits base ds, r).
Proof.
  intros Hb Hds Hne Hr Hlt. unfold scan_unsigned. pose proof (span_digits_app base ds r Hb Hds Hr) as Hspan.
  destruct ds as [|d ds]; [done|]. inversion Hds as [|? ? Hd Hds']; subst.
  destruct (digit_char_plain d) as (E1 & E2 & E3 & _); [lia|]. rewrite fmap_cons in *. cbn [app skip_space] in *.
  rewrite E1. rewrite (decide_False (P := digit_char d = "-"%char)), (decide_False (P := digit_char d = "+"%char)) by done.
  assert (Hx : match (digit_char <$> ds) ++ r with
    | x :: s' => if (base =? 16) && bool_decide (digit_char d = "0"%char) &&
                    (bool_decide (x = "x"%char) || bool_decide (x = "X"%char)) then s'
                 else digit_char d :: (digit_char <$> ds) ++ r
    | [] => digit_char d :: (digit_char <$> ds) ++ r end = digit_char d :: (digit_char <$> ds) ++ r).
  { destruct ds as [|d' ds]; [destruct r as [|c r]; [done|]; simpl in Hr|].
    - cbn [fmap list_fmap app].
      rewrite (bool_decide_eq_false_2 (c = "x"%char)), (bool_decide_eq_false_2 (c = "X"%char))
        by (destruct Hr as [->|[->|[->|[->| ->]]]]; done).
      cbn [orb]. by rewrite andb_false_r.
    - inversion Hds' as [|? ? Hd' _]; subst. destruct (digit_char_plain d') as (_ & _ & _ & E4 & E5 & _); [lia|].
      rewrite fmap_cons. cbn [app]. rewrite (bool_decide_eq_false_2 (digit_char d' = "x"%char)), (bool_decide_eq_false_2 (digit_char d' = "X"%char)) by done.
      cbn [orb]. by rewrite andb_false_r. }
  destruct ((digit_char <$> ds) ++ r) as [|x s'] eqn:Es.
  - rewrite Hspan. by rewrite (proj2 (Z.leb_gt _ _)) by lia.
  - rewrite Hx, Hspan. by rewrite (proj2 (Z.leb_gt _ _)) by lia.
Qed.

Lemma scan_hex w z r : 0 <= z < 2 ^ 64 -> stops r -> scan_unsigned 16 (put_hex w z ++ r) = Some (z, r).
Proof.
  intros Hz Hr. destruct (put_hex_digits w z) as (ds & -> & Hne & H). destruct (H Hz) as [Hds Hf].
  rewrite scan_unsigned_digits, Hf by (done || lia). done.
Qed.
Lemma scan_dec z r : 0 <= z < 2 ^ 64 -> stops r -> scan_unsigned 10 (put_dec z ++ r) = Some (z, r).
Proof.
  intros Hz Hr. destruct (put_dec_digits z) as (ds & -> & Hne & H). destruct (H Hz) as [Hds Hf].
  rewrite scan_unsigned_digits, Hf by (done || lia). done.
Qed.

(** Text that begins with a character that is not white space. *)
Definition starts_word (s : cstr) : Prop := match s with [] => False | c :: _ => is_space c = false end.

Lemma digits_start ds s : ds <> [] -> Forall (fun d => 0 <= d < 16) ds -> starts_word ((digit_char <$> ds) ++ s).
Proof.
  destruct ds as [|d ds]; [done|]. intros _ H. inversion H; subst. rewrite fmap_cons. by apply digit_char_plain.
Qed.
Lemma put_hex_start w z s : 0 <= z < 2 ^ 64 -> starts_word (put_hex w z ++ s).
Proof.
  intros Hz. destruct (put_hex_digits w z) as (ds & -> & Hne & H). destruct (H Hz) as [Hds _]. by apply digits_start.
Qed.
Lemma put_dec_start z s : 0 <= z < 2 ^ 64 -> starts_word (put_dec z ++ s).
Proof.
  intros Hz. destruct (put_dec_digits z) as (ds & -> & Hne & H). destruct (H Hz) as [Hds _].
  apply digits_start; [done|]. eapply List.Forall_impl; [|exact Hds]. simpl. lia.
Qed.
Lemma skip_space_start s : starts_word s -> skip_space s = s.
Proof. destruct s as [|c s]; [done|]. simpl. by intros ->. Qed.
Lemma skip_one_space s : starts_word s -> skip_space (" "%char :: s) = s.
Proof. intros Hs. simpl. by apply skip_space_start. Qed.

Lemma take_word_app n w r :
  (length w <= n)%nat -> Forall (fun c => is_space c = false) w -> take_word n (w ++ " "%char :: r) = (w, " "%char :: r).
Proof.
  intros Hn Hw. revert n Hn. induction Hw as [|c w Hc _ IH]; intros n Hn; [by destruct n|].
  destruct n as [|n]; [simpl in Hn; lia|]. cbn [app take_word length] in *. by rewrite Hc, IH by lia.
Qed.

Lemma u32_dev z : is_u32 z -> 0 <= z < 2 ^ 64.
Proof. unfold is_u32. lia. Qed.

(** The line the kernel prints is the line the producer reads. *)
Lemma scan_maps_line_ok vr nl :
  line_ok vr -> nl = [] \/ nl = ["010"%char] -> scan_maps_line (maps_line vr.1 vr.2 ++ nl) = Some vr.1.
Proof.
  destruct vr as [v rest]. intros [(Hlo & Hhi & Hoff) [Hmaj Hmin] Hino [Hpl Hps] Hrest _ _] Hnl. simpl in *.
  assert (Hr : stops (rest ++ nl)).
  { destruct rest as [|c rest]; [|subst c; by left]. destruct Hnl as [->| ->]; [done|]. simpl. tauto. }
  assert (Hw : forall s, starts_word (v_perms v ++ s)).
  { intros s. destruct (v_perms v) as [|c w]; [done|]. by inversion Hps. }
  pose proof (u32_dev _ Hmaj). pose proof (u32_dev _ Hmin). unfold is_u64 in *.
  unfold maps_line, scan_maps_line. repeat (rewrite <- ?app_assoc; cbn [app]).
  rewrite scan_hex by (simpl; tauto). cbn [mbind option_bind scan_lit]. rewrite decide_True by done. cbn [mbind option_bind].
  rewrite scan_hex by (simpl; tauto). cbn [mbind option_bind].
  rewrite skip_one_space by apply Hw. unfold scan_word. rewrite skip_space_start by apply Hw.
  rewrite take_word_app by (done || lia). destruct (v_perms v) as [|c w] eqn:Ep; [done|]. rewrite <- Ep.
  cbn [mbind option_bind].
  rewrite skip_one_space by (by apply put_hex_start). rewrite scan_hex by (simpl; tauto). cbn [mbind option_bind].
  rewrite skip_one_space by (by apply put_hex_start). rewrite scan_hex by (simpl; tauto). cbn [mbind option_bind scan_lit].
  rewrite decide_True by done. cbn [mbind option_bind]. rewrite scan_hex by (simpl; tauto). cbn [mbind option_bind].
  rewrite skip_one_space by (by apply put_dec_start). rewrite scan_dec by done. cbn [mbind option_bind].
  rewrite !u32_small by done. by destruct v.
Qed.

(** Reading a line whole. *)
Lemma fgets_line l r :
  (length l < kLine)%nat -> "010"%char ∉ l -> fgets kLine (l ++ "010"%char :: r) = (l ++ ["010"%char], r).
Proof.
  generalize kLine as n. intros n. revert n. induction l as [|c l IH]; intros n Hn Hl; destruct n as [|n]; simpl in Hn; try lia.
  - cbn [app fgets]. by rewrite decide_True.
  - cbn [app fgets]. rewrite not_elem_of_cons in Hl. destruct Hl as [Hc Hl]. rewrite decide_False by congruence.
    by rewrite IH by (done || lia).
Qed.

Lemma next_line_line l r : "010"%char ∉ l -> next_line (l ++ "010"%char :: r) = (l, r).
Proof.
  induction l as [|c l IH]; intros Hl; cbn [app next_line]; [by rewrite decide_True|].
  rewrite not_elem_of_cons in Hl. destruct Hl as [Hc Hl]. rewrite decide_False by congruence. by rewrite IH.
Qed.

Lemma maps_text_cons v rest vs :
  maps_text ((v, rest) :: vs) = maps_line v rest ++ "010"%char :: maps_text vs.
Proof. unfold maps_text. simpl. by rewrite <- app_assoc. Qed.

(** The producer's scan finds the mapping. *)
Lemma maps_loop_spec addr outsz vs fuel :
  Forall line_ok vs -> (length (maps_text vs) <= fuel)%nat ->
  maps_loop fuel addr outsz (maps_text vs) =
    match mapping_at addr vs with
    | Some v => if v_ino v =? 0 then None else fits outsz (enroll_prefix ++ id_suffix (v_maj v) (v_min v) (v_ino v))
    | None => None
    end.
Proof.
  intros Hvs. revert fuel. induction Hvs as [|[v rest] vs Hok _ IH]; intros fuel Hf; [by destruct fuel|].
  rewrite maps_text_cons in *. pose proof (lo_length _ Hok) as Hlen. pose proof (lo_newline _ Hok) as Hnl. cbn [fst snd] in *.
  rewrite length_app in Hf. simpl in Hf. destruct fuel as [|fuel]; [lia|].
  assert (Hne : maps_line v rest ++ "010"%char :: maps_text vs <> []) by (by destruct (maps_line v rest)).
  destruct (maps_line v rest ++ "010"%char :: maps_text vs) as [|c s] eqn:Es; [done|]. rewrite <- Es. clear Es Hne c s.
  cbn [maps_loop].
  destruct (maps_line v rest ++ "010"%char :: maps_text vs) as [|c s] eqn:Es; [by destruct (maps_line v rest)|].
  rewrite <- Es, fgets_line by done.
  pose proof (scan_maps_line_ok (v, rest) ["010"%char] Hok ltac:(by right)) as Hscan. cbn [fst snd] in Hscan. rewrite Hscan.
  cbn [mapping_at]. rewrite Z.ltb_antisym, (Z.leb_antisym addr (v_hi v)), <- negb_andb.
  destruct ((v_lo v <=? addr) && (addr <? v_hi v)); [done|]. cbn [negb]. apply IH. lia.
Qed.

(** ** The consumer's reading of the same line *)

Definition plain (s : cstr) : Prop := Forall (fun c => is_space c = false) s.
Definition ends_word (r : cstr) : Prop := match r with [] => True | c :: _ => is_space c = true end.

Lemma Fields_word w r : w <> [] -> plain w -> ends_word r -> Fields (w ++ r) = w :: Fields r.
Proof.
  intros Hne Hw Hr. induction Hw as [|c w Hc Hw IH]; [done|]. cbn [app Fields]. rewrite Hc.
  destruct w as [|d w].
  - cbn [app]. destruct r as [|e r]; [done|]. simpl in Hr. by rewrite Hr.
  - cbn [app] in *. inversion Hw as [|? ? Hd _]; subst. rewrite Hd, IH by done. done.
Qed.

Lemma Fields_space s : Fields (" "%char :: s) = Fields s.
Proof. done. Qed.

Lemma digits_plain ds : Forall (fun d => 0 <= d < 16) ds -> plain (digit_char <$> ds).
Proof.
  intros H. apply Forall_fmap. eapply List.Forall_impl; [|exact H]. intros d Hd. by apply digit_char_plain.
Qed.
Lemma digits_without ds c :
  Forall (fun d => 0 <= d < 16) ds -> c = "-"%char \/ c = ":"%char -> c ∉ digit_char <$> ds.
Proof.
  intros H Hc (d & -> & Hd)%list_elem_of_fmap. rewrite list.Forall_forall in H. specialize (H d Hd).
  destruct (digit_char_plain d H) as (_ & H1 & _ & _ & _ & H2 & _). by destruct Hc.
Qed.

Lemma put_hex_facts w z :
  0 <= z < 2 ^ 64 ->
  put_hex w z <> [] /\ plain (put_hex w z) /\ ("-"%char ∉ put_hex w z) /\ (":"%char ∉ put_hex w z) /\
  forall bits, z < 2 ^ bits -> ParseUint (put_hex w z) 16 bits = Some z.
Proof.
  intros Hz. destruct (put_hex_digits w z) as (ds & -> & Hne & H). destruct (H Hz) as [Hds Hf].
  split_and!; [by destruct ds|by apply digits_plain|apply digits_without; tauto|apply digits_without; tauto|].
  intros bits Hb. unfold ParseUint. rewrite <- (app_nil_r (digit_char <$> ds)), span_digits_app by (done || lia).
  destruct ds as [|d ds]; [done|]. by rewrite Hf, (proj2 (Z.ltb_lt _ _)).
Qed.
Lemma put_dec_facts z :
  0 <= z < 2 ^ 64 -> put_dec z <> [] /\ plain (put_dec z) /\ ParseUint (put_dec z) 10 64 = Some z.
Proof.
  intros Hz. destruct (put_dec_digits z) as (ds & -> & Hne & H). destruct (H Hz) as [Hds Hf].
  split_and!; [by destruct ds|apply digits_plain; eapply List.Forall_impl; [|exact Hds]; simpl; lia|].
  unfold ParseUint. rewrite <- (app_nil_r (digit_char <$> ds)), span_digits_app by (done || lia).
  destruct ds as [|d ds]; [done|]. rewrite Hf, (proj2 (Z.ltb_lt _ _)); [done|lia].
Qed.

Lemma Cut_app a b sep : sep ∉ a -> Cut (a ++ sep :: b) sep = Some (a, b).
Proof.
  induction a as [|c a IH]; intros Ha; cbn [app Cut]; [by rewrite decide_True|].
  rewrite not_elem_of_cons in Ha. destruct Ha as [Hc Ha]. rewrite decide_False by congruence. by rewrite IH.
Qed.

Lemma Fields_maps_line vr :
  line_ok vr ->
  exists tail, Fields (maps_line vr.1 vr.2) =
    (put_hex 8 (v_lo vr.1) ++ "-"%char :: put_hex 8 (v_hi vr.1)) :: v_perms vr.1 :: put_hex 8 (v_off vr.1) ::
    (put_hex 2 (v_maj vr.1) ++ ":"%char :: put_hex 2 (v_min vr.1)) :: put_dec (v_ino vr.1) :: tail.
Proof.
  destruct vr as [v rest]. intros [(Hlo & Hhi & Hoff) [Hmaj Hmin] Hino [Hpl Hps] Hrest _ _]. simpl in *.
  pose proof (u32_dev _ Hmaj) as Hmaj'. pose proof (u32_dev _ Hmin) as Hmin'. unfold is_u64 in *.
  destruct (put_hex_facts 8 _ Hlo) as (N1 & P1 & _). destruct (put_hex_facts 8 _ Hhi) as (_ & P2 & _).
  destruct (put_hex_facts 8 _ Hoff) as (N3 & P3 & _). destruct (put_hex_facts 2 _ Hmaj') as (N4 & P4 & _).
  destruct (put_hex_facts 2 _ Hmin') as (_ & P5 & _). destruct (put_dec_facts _ Hino) as (N6 & P6 & _).
  exists (Fields rest). unfold maps_line.
  assert (Hj : forall (a b : cstr) c, plain a -> plain b -> is_space c = false -> plain (a ++ c :: b))
    by (intros; apply Forall_app; split; [done|by constructor]).
  match goal with |- Fields (?a ++ "-"%char :: ?b ++ ?c) = _ => replace (a ++ "-"%char :: b ++ c) with ((a ++ "-"%char :: b) ++ c)
    by (rewrite <- app_assoc; done) end.
  rewrite Fields_word by (done || (by destruct (put_hex 8 (v_lo v))) || by apply Hj). rewrite Fields_space.
  rewrite Fields_word by (done || by destruct (v_perms v)). rewrite Fields_space.
  rewrite Fields_word by done. rewrite Fields_space.
  match goal with |- _ :: _ :: _ :: Fields (?a ++ ":"%char :: ?b ++ ?c) = _ => replace (a ++ ":"%char :: b ++ c) with ((a ++ ":"%char :: b) ++ c)
    by (rewrite <- app_assoc; done) end.
  rewrite Fields_word by (done || (by destruct (put_hex 2 (v_maj v))) || by apply Hj). rewrite Fields_space.
  rewrite Fields_word; [done|done|done|]. destruct rest as [|c rest]; [done|by subst c].
Qed.

(** The first file mapping that contains an address. *)
Fixpoint file_at (addr : Z) (vs : list (vma * cstr)) : option vma :=
  match vs with
  | [] => None
  | (v, _) :: vs' =>
      if (v_lo v <=? addr) && (addr <? v_hi v) && negb (v_ino v =? 0) then Some v else file_at addr vs'
  end.

Lemma identity_loop_spec addr vs fuel :
  Forall line_ok vs -> (length (maps_text vs) <= fuel)%nat ->
  identity_loop fuel addr (maps_text vs) = (fun v => (v_maj v, v_min v, v_ino v)) <$> file_at addr vs.
Proof.
  intros Hvs. revert fuel. induction Hvs as [|[v rest] vs Hok _ IH]; intros fuel Hf; [by destruct fuel|].
  rewrite maps_text_cons in *. pose proof (lo_length _ Hok) as Hlen. pose proof (lo_newline _ Hok) as Hnl.
  destruct (Fields_maps_line _ Hok) as [tail Hfields]. cbn [fst snd] in *.
  rewrite length_app in Hf. simpl in Hf. destruct fuel as [|fuel]; [lia|]. cbn [identity_loop].
  destruct (maps_line v rest ++ "010"%char :: maps_text vs) as [|c s] eqn:Es; [by destruct (maps_line v rest)|].
  rewrite <- Es, next_line_line by done. clear Es c s.
  rewrite (proj2 (Nat.leb_gt _ _)) by (unfold MaxScanTokenSize, kLine in *; lia). rewrite Hfields.
  destruct Hok as [(Hlo & Hhi & _) [Hmaj Hmin] Hino _ _ _ _]. cbn [fst snd] in *. pose proof (u32_dev _ Hmaj) as Hmaj'. pose proof (u32_dev _ Hmin) as Hmin'.
  unfold is_u64, is_u32 in *.
  destruct (put_hex_facts 8 _ Hlo) as (_ & _ & D1 & _ & P1). destruct (put_hex_facts 8 _ Hhi) as (_ & _ & _ & _ & P2).
  destruct (put_hex_facts 2 _ Hmaj') as (_ & _ & _ & D4 & P4). destruct (put_hex_facts 2 _ Hmin') as (_ & _ & _ & _ & P5).
  destruct (put_dec_facts _ Hino) as (_ & _ & P6).
  unfold parseMapsRange, parseMapsDev. rewrite !Cut_app by done. cbn [mbind option_bind].
  rewrite P1, P2, P4, P5, P6 by lia. cbn [mbind option_bind file_at]. rewrite Z.ltb_antisym, (Z.leb_antisym addr (v_hi v)), <- negb_andb.
  destruct ((v_lo v <=? addr) && (addr <? v_hi v)); cbn [negb andb]; [|apply IH; lia].
  destruct (v_ino v =? 0); cbn [negb]; [apply IH; lia|done].
Qed.

(** ** The names *)

Lemma to_digits_length fuel base z k :
  1 < base -> 0 <= z < base ^ Z.of_nat k -> (1 <= k)%nat -> (length (to_digits fuel base z) <= k)%nat.
Proof.
  intros Hb. revert z k. induction fuel as [|fuel IH]; intros z k Hz Hk; simpl; [lia|].
  destruct (Z.ltb_spec z base); [simpl; lia|]. rewrite length_app. simpl.
  destruct k as [|[|k]]; [lia|change (Z.of_nat 1) with 1 in Hz; rewrite Z.pow_1_r in Hz; lia|].
  enough (length (to_digits fuel base (z / base)) <= S k)%nat by lia. apply IH; [|lia].
  split; [by apply Z.div_pos; lia|]. apply Z.div_lt_upper_bound; [lia|].
  rewrite (Nat2Z.inj_succ (S k)), Z.pow_succ_r in Hz by lia. lia.
Qed.

Lemma id_suffix_length maj min ino :
  is_u32 maj -> is_u32 min -> is_u64 ino -> (length (id_suffix maj min ino) <= 42)%nat.
Proof.
  unfold is_u32, is_u64. intros H1 H2 H3. unfold id_suffix, put_dec. rewrite !length_app, !length_fmap. change (length ["."%char]) with 1%nat.
  pose proof (to_digits_length 64 10 maj 10 ltac:(lia) ltac:(lia) ltac:(lia)).
  pose proof (to_digits_length 64 10 min 10 ltac:(lia) ltac:(lia) ltac:(lia)).
  pose proof (to_digits_length 64 10 ino 20 ltac:(lia) ltac:(lia) ltac:(lia)). lia.
Qed.

Lemma put_dec_inj a b r r' :
  0 <= a < 2 ^ 64 -> 0 <= b < 2 ^ 64 -> stops r -> stops r' -> put_dec a ++ r = put_dec b ++ r' -> a = b /\ r = r'.
Proof.
  intros Ha Hb Hr Hr' E. destruct (put_dec_digits a) as (da & Ea & _ & Pa), (put_dec_digits b) as (db & Eb & _ & Pb).
  destruct (Pa Ha) as [Oa Fa], (Pb Hb) as [Ob Fb]. rewrite Ea, Eb in E.
  pose proof (span_digits_app 10 da r ltac:(lia) Oa Hr) as Sa. pose proof (span_digits_app 10 db r' ltac:(lia) Ob Hr') as Sb.
  rewrite E, Sb in Sa. simplify_eq. done.
Qed.

Lemma id_suffix_inj maj min ino maj' min' ino' :
  is_u32 maj -> is_u32 min -> is_u64 ino -> is_u32 maj' -> is_u32 min' -> is_u64 ino' ->
  id_suffix maj min ino = id_suffix maj' min' ino' -> (maj, min, ino) = (maj', min', ino').
Proof.
  intros H1%u32_dev H2%u32_dev H3 H4%u32_dev H5%u32_dev H6 E. unfold id_suffix, is_u64 in *. cbn [app] in E.
  apply put_dec_inj in E as [-> E]; [|done|done|simpl; tauto|simpl; tauto]. injection E as E.
  apply put_dec_inj in E as [-> E]; [|done|done|simpl; tauto|simpl; tauto]. injection E as E.
  rewrite <- (app_nil_r (put_dec ino)), <- (app_nil_r (put_dec ino')) in E. apply put_dec_inj in E as [-> _]; done.
Qed.

Lemma fits_ok outsz p s : (length p + length s < outsz)%nat -> p <> [] -> fits outsz (p ++ s) = Some (p ++ s).
Proof.
  intros Hl Hp. unfold fits. rewrite !(proj2 (Nat.ltb_lt _ _)); [done| |]; rewrite ?length_app; [lia|].
  destruct p; [done|]. simpl. lia.
Qed.

Lemma mapping_at_ok addr vs v : Forall line_ok vs -> mapping_at addr vs = Some v -> exists rest, line_ok (v, rest).
Proof.
  induction 1 as [|[w rest] vs Hok _ IH]; [done|]. cbn [mapping_at]. destruct (_ && _); [|done].
  intros [= <-]. by exists rest.
Qed.

Section Agree.
  Context (Mkdev : Z -> Z -> Z) (Major Minor : Z -> Z).
  Hypothesis Major_Mkdev : forall a b, is_u32 a -> is_u32 b -> Major (Mkdev a b) = a.
  Hypothesis Minor_Mkdev : forall a b, is_u32 a -> is_u32 b -> Minor (Mkdev a b) = b.

(** C29: The two ends meet.  The producer reads the map of its own process at an
    address inside the shim, the consumer the map of its own process where it
    has mapped the shim's file; when both lines name the same device and inode,
    each side derives a name, the enrolment names are equal and so are the cubin
    names (with Go's @ for the leading NUL), the two channels have different
    names, and a file with another device or inode has other names.  Both
    parsers read any file in the format of proc(5). *)
Theorem rendezvous_names_agree pvs cvs addr at_ v v' :
  Forall line_ok pvs -> Forall line_ok cvs ->
  mapping_at addr pvs = Some v -> v_ino v <> 0 ->
  file_at at_ cvs = Some v' -> (v_maj v', v_min v', v_ino v') = (v_maj v, v_min v, v_ino v) ->
  exists enroll cubin,
    enroll_name_from_maps (Some (maps_text pvs)) addr sun_path_size = Some enroll /\
    cubin_name_from_maps (Some (maps_text pvs)) addr sun_path_size = Some cubin /\
    enrollAddress Mkdev Major Minor (maps_text cvs) at_ = Some ("@"%char :: enroll) /\
    cubinAddress Mkdev Major Minor (maps_text cvs) at_ = Some ("@"%char :: cubin) /\
    enroll <> cubin /\
    forall maj min ino, is_u32 maj -> is_u32 min -> is_u64 ino ->
      enroll = enroll_prefix ++ id_suffix maj min ino -> (maj, min, ino) = (v_maj v, v_min v, v_ino v).
Proof.
  intros Hp Hc Hv Hino Hv' E. destruct (mapping_at_ok _ _ _ Hp Hv) as [rest Hok].
  destruct Hok as [_ [Hmaj Hmin] Hi _ _ _ _]. cbn [fst snd] in *.
  pose proof (id_suffix_length _ _ _ Hmaj Hmin Hi) as Hlen. injection E as E1 E2 E3.
  assert (He : enroll_name_from_maps (Some (maps_text pvs)) addr sun_path_size
               = Some (enroll_prefix ++ id_suffix (v_maj v) (v_min v) (v_ino v))).
  { unfold enroll_name_from_maps. cbn [Nat.eqb sun_path_size]. rewrite maps_loop_spec, Hv by done.
    rewrite (proj2 (Z.eqb_neq _ _)) by done. apply fits_ok; [|done]. change (length enroll_prefix) with 24%nat. unfold sun_path_size. lia. }
  exists (enroll_prefix ++ id_suffix (v_maj v) (v_min v) (v_ino v)), (cubin_prefix ++ id_suffix (v_maj v) (v_min v) (v_ino v)).
  split_and!.
  - done.
  - unfold cubin_name_from_maps. rewrite He. cbn [Nat.eqb sun_path_size].
    rewrite take_app_length, drop_app_length, bool_decide_eq_true_2 by done. cbn [negb].
    apply fits_ok; [|done]. change (length cubin_prefix) with 23%nat. unfold sun_path_size. lia.
  - unfold enrollAddress, enrollShimIdentity. rewrite identity_loop_spec, Hv' by done. cbn [fmap option_fmap option_map mbind option_bind].
    unfold enrollAddressFor. by rewrite E1, E2, E3, Major_Mkdev, Minor_Mkdev.
  - unfold cubinAddress, enrollShimIdentity. rewrite identity_loop_spec, Hv' by done. cbn [fmap option_fmap option_map mbind option_bind].
    unfold cubinAddressFor. by rewrite E1, E2, E3, Major_Mkdev, Minor_Mkdev.
  - done.
  - intros maj min ino H1 H2 H3 Heq. apply app_inv_head in Heq. symmetry. by apply id_suffix_inj.
Qed.
End Agree.

Definition demo_producer : list (vma * cstr) :=
  [(Vma 0x55d0c0000000 0x55d0c0001000 (lit "r--p"%string) 0 253 1 77, lit "   /usr/bin/app"%string);
   (Vma 0x7fc9a0a00000 0x7fc9a0a21000 (lit "r-xp"%string) 0x2000 253 1 1234567, lit "   /opt/shim.so"%string)].
Definition demo_consumer : list (vma * cstr) :=
  [(Vma 0x400000 0x401000 (lit "rw-p"%string) 0 0 0 0, []);
   (Vma 0x7f0000000000 0x7f0000001000 (lit "r--p"%string) 0 253 1 1234567, lit "   /opt/shim.so"%string)].

#[local] Instance is_u64_dec z : Decision (is_u64 z).
Proof. unfold is_u64. apply _. Defined.
#[local] Instance is_u32_dec z : Decision (is_u32 z).
Proof. unfold is_u32. apply _. Defined.

Lemma demo_lines_ok : Forall line_ok demo_producer /\ Forall line_ok demo_consumer.
Proof.
  split; (apply List.Forall_cons; [|apply List.Forall_cons; [|apply List.Forall_nil]]);
    (split; [| | | |exact eq_refl || exact I| |]); apply (bool_decide_unpack _); vm_compute; exact I.
Qed.

Lemma rendezvous_names_agree_witness :
  exists enroll, enroll_name_from_maps (Some (maps_text demo_producer)) 0x7fc9a0a00ff0 sun_path_size = Some enroll /\
    enroll = lit "perfagent-gpu-enroll.v1.253.1.1234567"%string /\
    enrollAddress (fun a b => a * 2 ^ 32 + b) (fun d => d / 2 ^ 32) (fun d => d mod 2 ^ 32)
      (maps_text demo_consumer) 0x7f0000000010 = Some ("@"%char :: enroll).
Proof.
  destruct (rendezvous_names_agree (fun a b => a * 2 ^ 32 + b) (fun d => d / 2 ^ 32) (fun d => d mod 2 ^ 32)
    ltac:(unfold is_u32; intros; rewrite Z.div_add_l, Z.div_small by lia; lia)
    ltac:(unfold is_u32; intros; rewrite Z.add_comm, Z_mod_plus_full, Z.mod_small by lia; done)
    demo_producer demo_consumer 0x7fc9a0a00ff0 0x7f0000000010 _ _ (proj1 demo_lines_ok) (proj2 demo_lines_ok)
    eq_refl ltac:(done) eq_refl eq_refl) as (enroll & cubin & H1 & _ & H2 & _).
  exists enroll. split_and!; [done| |done]. enough (Some enroll = Some (lit "perfagent-gpu-enroll.v1.253.1.1234567"%string)) as [= ->] by done.
  rewrite <- H1. vm_compute. reflexivity.
Defined.
