(* ===== verification/Rendezvous.v ===== *)
(** * Rendezvous: the startup handshake and the cubin offer

    Models the socket half of src/shim/core/enroll.cc ([deadline], [arm],
    [enroll_connect], [enroll_with_consumer], [enroll_timeout_ms]) and of
    src/shim/core/cubin.cc ([cubin_seal_bytes], [cubin_offer_fd], [cubin_offer],
    [cubin_offer_to_consumer], [cubin_timeout_ms]), and the consumer's reading of
    the offer header in src/gpuprobe/cubin.go.  The kernel's answers are a
    parameter: what each call returns and how long it blocks, given the timeout
    armed for it. *)
From Stdlib Require Import String Ascii.
From S2P Require Import Prelude PcTier Maps Tables GpuUsdt Abi.
#[local] Open Scope Z_scope.

(** EWOULDBLOCK is EAGAIN. *)
Inductive errno := EINTR | EISCONN | EAGAIN | EINPROGRESS | ECONNREFUSED | ENOENT | EOTHER (code : Z).

Inductive connect_ret := ConnOk | ConnErr (e : errno).
Inductive send_ret := Sent (n : nat) | SendErr (e : errno).
Inductive read_ret := Got (b : Z) | Eof | ReadErr (e : errno).
Inductive answer := AConn (r : connect_ret) | ASend (r : send_ret) | ARead (r : read_ret).

(** The kernel and the passing of time: [k_lag n] is the time, in ms, the
    process spends before arming its [n]th call, [k_block n t] how long that
    call blocks under a timeout of [t]. *)
Record kernel := Kernel {
  k_socket : Z;
  k_setsockopt : nat -> bool;
  k_lag : nat -> Z;
  k_block : nat -> Z -> Z;
  k_connect : nat -> connect_ret;
  k_send : nat -> send_ret;
  k_read : nat -> read_ret;
}.

(** The exchange so far: calls made, the clock, the time spent blocked, and the
    answers. *)
Record xstate := XState { x_calls : nat; x_now : Z; x_blocked : Z; x_answers : list answer }.

(** ** [deadline] and [arm] *)

Definition deadline_in (now budget_ms : Z) : Z := now + budget_ms.
Definition left (dl now : Z) : Z := let d := dl - now in if 0 <? d then d else 0.

(** [struct timeval] of the remaining budget; [None] when it is spent. *)
Definition timeval_of (ms : Z) : Z * Z := (ms / 1000, ms mod 1000 * 1000).
Definition timeval_ms (tv : Z * Z) : Z := tv.1 * 1000 + tv.2 / 1000.

Definition arm (k : kernel) (n : nat) (dl now : Z) : option (Z * Z) :=
  let l := left dl now in
  if l <=? 0 then None else if k_setsockopt k n then Some (timeval_of l) else None.

(** [for (;;) { if (!arm(fd, dl)) ...; r = call(); if (interrupted) continue; ... }] *)
Section Phase.
  Context {A R : Type} (k : kernel) (ask : nat -> A) (retry : A -> bool) (verdict : A -> R) (late : R)
    (tag : A -> answer).

Fixpoint phase (fuel : nat) (dl : Z) (st : xstate) : option (R * xstate) :=
  match fuel with
  | O => None
  | S fuel' =>
      let n := x_calls st in
      let now := x_now st + k_lag k n in
      match arm k n dl now with
      | None => Some (late, XState (S n) now (x_blocked st) (x_answers st))
      | Some tv =>
          let d := k_block k n (timeval_ms tv) in
          let a := ask n in
          let st := XState (S n) (now + d) (x_blocked st + d) (x_answers st ++ [tag a]) in
          if retry a then phase fuel' dl st else Some (verdict a, st)
      end
  end.
End Phase.

(** ** The startup rendezvous *)

Inductive EnrollResult :=
| kEnrollDisabled | kEnrollNoAddress | kEnrollNoListener | kEnrollConfirmed | kEnrollRefused
| kEnrollTimedOut | kEnrollError.
#[global] Instance enroll_result_eq_dec : EqDecision EnrollResult.
Proof. solve_decision. Defined.

Definition conn_retry (r : connect_ret) : bool := match r with ConnErr EINTR => true | _ => false end.
Definition enroll_conn (r : connect_ret) : EnrollResult :=
  match r with
  | ConnOk | ConnErr EISCONN => kEnrollConfirmed
  | ConnErr EAGAIN | ConnErr EINPROGRESS => kEnrollTimedOut
  | ConnErr ECONNREFUSED | ConnErr ENOENT => kEnrollNoListener
  | ConnErr _ => kEnrollError
  end.

Definition read_retry (r : read_ret) : bool := match r with ReadErr EINTR => true | _ => false end.
Definition enroll_read (r : read_ret) : EnrollResult :=
  match r with
  | Got b => if b =? 75 then kEnrollConfirmed else kEnrollRefused
  | Eof => kEnrollError
  | ReadErr EAGAIN => kEnrollTimedOut
  | ReadErr _ => kEnrollError
  end.

(** The leading NUL and the name must fit [sun_path]. *)
Definition abstract_addr (name : cstr) : bool := negb (sun_path_size <? length name + 1)%nat.

Definition enroll_connect (fuel : nat) (k : kernel) (name : option cstr) (timeout_ms : Z) (st : xstate)
    : option (EnrollResult * xstate) :=
  match name with
  | None | Some [] => Some (kEnrollNoAddress, st)
  | Some nm =>
      if negb (abstract_addr nm) then Some (kEnrollNoAddress, st)
      else if k_socket k <? 0 then Some (kEnrollError, st)
      else
        let dl := deadline_in (x_now st) timeout_ms in
        '(res, st) ← phase k (k_connect k) conn_retry enroll_conn kEnrollTimedOut AConn fuel dl st;
        match res with
        | kEnrollConfirmed => phase k (k_read k) read_retry enroll_read kEnrollTimedOut ARead fuel dl st
        | _ => Some (res, st)
        end
  end.

(** [self] is the address of the function in its own mapping. *)
Definition enroll_with_consumer (fuel : nat) (k : kernel) (maps : option cstr) (self timeout_ms : Z) (st : xstate)
    : option (EnrollResult * xstate) :=
  if timeout_ms =? 0 then Some (kEnrollDisabled, st)
  else match enroll_name_from_maps maps self sun_path_size with
       | None => Some (kEnrollNoAddress, st)
       | Some name => enroll_connect fuel k (Some name) timeout_ms st
       end.

Definition enroll_result_name (r : EnrollResult) : cstr :=
  match r with
  | kEnrollDisabled => lit "disabled"%string
  | kEnrollNoAddress => lit "no-address"%string
  | kEnrollNoListener => lit "no-listener"%string
  | kEnrollConfirmed => lit "confirmed"%string
  | kEnrollRefused => lit "refused"%string
  | kEnrollTimedOut => lit "timed-out"%string
  | kEnrollError => lit "error"%string
  end.

(** ** The cubin offer *)

Inductive CubinOfferResult :=
| kCubinOfferDisabled | kCubinOfferNoAddress | kCubinOfferNoListener | kCubinOfferAccepted | kCubinOfferRefused
| kCubinOfferTimedOut | kCubinOfferError.
#[global] Instance offer_result_eq_dec : EqDecision CubinOfferResult.
Proof. solve_decision. Defined.

Record CubinOfferHeader := CubinHeader { h_magic : Z; h_version : Z; h_flags : Z; h_size : Z; h_crc : Z }.
(** 'C' 'U' 'B' '1', the first byte lowest. *)
Definition kCubinOfferMagic : Z := Z.lor (Z.lor (Z.lor 67 (Z.shiftl 85 8)) (Z.shiftl 66 16)) (Z.shiftl 49 24).
Definition kCubinOfferVersion : Z := 1.
Definition header_fields (h : CubinOfferHeader) : list cfield :=
  [FInt 4 (h_magic h); FInt 2 (h_version h); FInt 2 (h_flags h); FInt 8 (h_size h); FInt 8 (h_crc h)].
(** The header is cleared before it is filled. *)
Definition header_bytes (h : CubinOfferHeader) : list Z := layout (fun _ => 0) (header_fields h).

Definition offer_conn (r : connect_ret) : CubinOfferResult :=
  match r with
  | ConnOk | ConnErr EISCONN => kCubinOfferAccepted
  | ConnErr EAGAIN | ConnErr EINPROGRESS => kCubinOfferTimedOut
  | ConnErr ECONNREFUSED | ConnErr ENOENT => kCubinOfferNoListener
  | ConnErr _ => kCubinOfferError
  end.
Definition send_retry (r : send_ret) : bool := match r with SendErr EINTR => true | _ => false end.
Definition offer_send (r : send_ret) : CubinOfferResult :=
  match r with
  | Sent n => if (n =? 24)%nat then kCubinOfferAccepted else kCubinOfferError
  | SendErr EAGAIN => kCubinOfferTimedOut
  | SendErr _ => kCubinOfferError
  end.
Definition offer_read (r : read_ret) : CubinOfferResult :=
  match r with
  | Got b => if b =? 75 then kCubinOfferAccepted else kCubinOfferRefused
  | Eof => kCubinOfferError
  | ReadErr EAGAIN => kCubinOfferTimedOut
  | ReadErr _ => kCubinOfferError
  end.

(** The two counters, and what the consumer's end of the socket received: the
    bytes of each [sendmsg], with the descriptor. *)
Record offer_state := OfferState { o_offered : Z; o_failed : Z; o_sent : list (list Z * Z); o_x : xstate }.
Definition offered_one (s : offer_state) : offer_state :=
  OfferState (u64 (o_offered s + 1)) (o_failed s) (o_sent s) (o_x s).
Definition failed_one (s : offer_state) : offer_state :=
  OfferState (o_offered s) (u64 (o_failed s + 1)) (o_sent s) (o_x s).
Definition with_x (x : xstate) (s : offer_state) : offer_state := OfferState (o_offered s) (o_failed s) (o_sent s) x.

(** What [sendmsg] put on the wire: the prefix its last answer reports. *)
Definition wire_of (header : list Z) (fd : Z) (answers : list answer) : list (list Z * Z) :=
  omap (fun a => match a with ASend (Sent (S n)) => Some (take (S n) header, fd) | _ => None end) answers.

Definition cubin_offer_fd (fuel : nat) (k : kernel) (name : option cstr) (fd size crc timeout_ms : Z) (s : offer_state)
    : option (CubinOfferResult * offer_state) :=
  if timeout_ms =? 0 then Some (kCubinOfferDisabled, s)
  else
  match name with
  | None | Some [] => Some (kCubinOfferNoAddress, s)
  | Some nm =>
      if (fd <? 0) || (size =? 0) then Some (kCubinOfferError, s)
      else if negb (abstract_addr nm) then Some (kCubinOfferNoAddress, s)
      else
        let s := offered_one s in
        if k_socket k <? 0 then Some (kCubinOfferError, failed_one s)
        else
          let dl := deadline_in (x_now (o_x s)) timeout_ms in
          '(res, x) ← phase k (k_connect k) conn_retry offer_conn kCubinOfferTimedOut AConn fuel dl (o_x s);
          let s := with_x x s in
          if negb (bool_decide (res = kCubinOfferAccepted))
          then Some (res, if negb (bool_decide (res = kCubinOfferNoListener)) then failed_one s else s)
          else
            let h := header_bytes (CubinHeader kCubinOfferMagic kCubinOfferVersion 0 size crc) in
            '(res, x') ← phase k (k_send k) send_retry offer_send kCubinOfferTimedOut ASend fuel dl x;
            let s := OfferState (o_offered s) (o_failed s)
                       (o_sent s ++ wire_of h fd (drop (length (x_answers x)) (x_answers x'))) x' in
            if negb (bool_decide (res = kCubinOfferAccepted)) then Some (res, failed_one s)
            else
              '(res, x) ← phase k (k_read k) read_retry offer_read kCubinOfferTimedOut ARead fuel dl x';
              let s := with_x x s in
              Some (res, if negb (bool_decide (res = kCubinOfferAccepted)) then failed_one s else s)
  end.

Definition cubin_offer_result_name (r : CubinOfferResult) : cstr :=
  match r with
  | kCubinOfferDisabled => lit "disabled"%string
  | kCubinOfferNoAddress => lit "no-address"%string
  | kCubinOfferNoListener => lit "no-listener"%string
  | kCubinOfferAccepted => lit "accepted"%string
  | kCubinOfferRefused => lit "refused"%string
  | kCubinOfferTimedOut => lit "timed-out"%string
  | kCubinOfferError => lit "error"%string
  end.

(** *** The sealed memfd

    [w_writes] are the answers of successive [write] calls; the loop has no
    result while it needs an answer that has not come. *)
Inductive write_ret := Wrote (n : nat) | WriteErr (e : errno).
Record memfd_env := MemfdEnv {
  w_fd : Z;
  w_writes : list write_ret;
  w_add_seals : bool;
  w_get_seals : Z;
}.

Definition F_SEAL_SEAL : Z := 0x0001.
Definition F_SEAL_SHRINK : Z := 0x0002.
Definition F_SEAL_GROW : Z := 0x0004.
Definition F_SEAL_WRITE : Z := 0x0008.
Definition kRequiredSeals : Z := Z.lor (Z.lor (Z.lor F_SEAL_SEAL F_SEAL_SHRINK) F_SEAL_GROW) F_SEAL_WRITE.

(** The contents written and what is left to write; [false] is the error exit.
    [write] of [len - off] bytes writes at most that many. *)
Fixpoint write_loop (answers : list write_ret) (content todo : list Z) : option (bool * list Z) :=
  match todo with
  | [] => Some (true, content)
  | _ =>
      match answers with
      | [] => None
      | Wrote (S n) :: answers' => write_loop answers' (content ++ take (S n) todo) (drop (S n) todo)
      | WriteErr EINTR :: answers' => write_loop answers' content todo
      | _ :: _ => Some (false, content)
      end
  end.

(** The descriptor with its contents, or [-1]. *)
Definition cubin_seal_bytes (e : memfd_env) (bytes : option (list Z)) : option (Z * list Z) :=
  match bytes with
  | None | Some [] => Some (-1, [])
  | Some bs =>
      if w_fd e <? 0 then Some (-1, [])
      else
        '(ok, content) ← write_loop (w_writes e) [] bs;
        if negb ok then Some (-1, [])
        else if negb (w_add_seals e) then Some (-1, [])
        else if (w_get_seals e <? 0) || negb (Z.land (w_get_seals e) kRequiredSeals =? kRequiredSeals)
        then Some (-1, [])
        else Some (w_fd e, content)
  end.

Definition bytes_len (bytes : option (list Z)) : Z := match bytes with Some bs => Z.of_nat (length bs) | None => 0 end.

Definition cubin_offer (fuel : nat) (k : kernel) (e : memfd_env) (name : option cstr) (bytes : option (list Z))
    (crc timeout_ms : Z) (s : offer_state) : option (CubinOfferResult * offer_state) :=
  if timeout_ms =? 0 then Some (kCubinOfferDisabled, s)
  else
    '(fd, _) ← cubin_seal_bytes e bytes;
    if fd <? 0 then Some (kCubinOfferError, failed_one (offered_one s))
    else cubin_offer_fd fuel k name fd (bytes_len bytes) crc timeout_ms s.

Definition cubin_offer_to_consumer (fuel : nat) (k : kernel) (e : memfd_env) (maps : option cstr) (self : Z)
    (bytes : option (list Z)) (crc timeout_ms : Z) (s : offer_state) : option (CubinOfferResult * offer_state) :=
  if timeout_ms =? 0 then Some (kCubinOfferDisabled, s)
  else match cubin_name_from_maps maps self sun_path_size with
       | None => Some (kCubinOfferNoAddress, s)
       | Some name => cubin_offer fuel k e (Some name) bytes crc timeout_ms s
       end.

(** *** The budgets

    [strtol] of the variable's value: no digits, trailing text, a value outside
    [long] or outside 0..600000 give the default. *)
Definition timeout_of (v : option cstr) (dflt : Z) : Z :=
  match v with
  | None | Some [] => dflt
  | Some s =>
      let s := skip_space s in
      let '(neg, s) :=
        match s with
        | c :: s' => if Ascii.eqb c "-" then (true, s') else if Ascii.eqb c "+" then (false, s') else (false, s)
        | [] => (false, s)
        end in
      match span_digits 10 s with
      | ([], _) => dflt
      | (ds, []) =>
          let n := if neg then - from_digits 10 ds else from_digits 10 ds in
          if (n <? - 2 ^ 63) || (2 ^ 63 <=? n) then dflt
          else if (n <? 0) || (600000 <? n) then dflt else n
      | _ => dflt
      end
  end.
Definition enroll_timeout_ms (v : option cstr) (dflt : Z) : Z := timeout_of v dflt.
Definition cubin_timeout_ms (v : option cstr) (dflt : Z) : Z := timeout_of v dflt.

(** *** The consumer's decoder (cubin.go) *)

Definition cubinHeaderSize : nat := 24.
Definition cubinHeaderMagic : Z := Z.lor (Z.lor (Z.lor 67 (Z.shiftl 85 8)) (Z.shiftl 66 16)) (Z.shiftl 49 24).
Definition cubinHeaderVersion : Z := 1.
Inductive header_err := ErrShort | ErrMagic | ErrVersion | ErrFlags | ErrSize.
Definition decodeCubinHeader (b : list Z) : CubinOfferHeader + header_err :=
  if (length b <? cubinHeaderSize)%nat then inr ErrShort
  else
    let h := CubinHeader (Uint32 b 0) (Uint16 b 4) (Uint16 b 6) (Uint64 b 8) (Uint64 b 16) in
    if negb (h_magic h =? cubinHeaderMagic) then inr ErrMagic
    else if negb (h_version h =? cubinHeaderVersion) then inr ErrVersion
    else if negb (h_flags h =? 0) then inr ErrFlags
    else if h_size h =? 0 then inr ErrSize else inl h.

(** ** One budget for the whole exchange *)

Definition lag_sum (k : kernel) (n : nat) : Z := foldr Z.add 0 (map (k_lag k) (seq 0 n)).

Lemma lag_sum_S k n : lag_sum k (S n) = lag_sum k n + k_lag k n.
Proof.
  unfold lag_sum. rewrite seq_S, map_app, foldr_app. simpl. generalize (map (k_lag k) (seq 0 n)) as l.
  intros l. induction l as [|x l IH]; simpl; [lia|]. rewrite IH. lia.
Qed.

Lemma timeval_exact ms : 0 <= ms -> timeval_ms (timeval_of ms) = ms.
Proof.
  intros H. unfold timeval_ms, timeval_of. simpl. rewrite Z.div_mul by lia. pose proof (Z.div_mod ms 1000). lia.
Qed.

Section Budget.
  Context (k : kernel) (start budget : Z) (N : nat).
  Hypothesis budget_ok : 0 <= budget.
  (** Time does not run backwards, and a call returns by the timeout armed for it. *)
  Hypothesis lag_ok : forall n, 0 <= k_lag k n.
  Hypothesis block_ok : forall n t, 0 <= t -> 0 <= k_block k n t <= t.
  (** Time passes: the budget is used up by the first [N] calls, however short. *)
  Hypothesis time_passes : budget <= lag_sum k N.

Lemma lag_sum_le m : (N <= m)%nat -> budget <= lag_sum k m.
Proof using lag_ok time_passes.
  induction 1 as [|m _ IH]; [done|]. rewrite lag_sum_S. specialize (lag_ok m). lia.
Qed.

Let dl := deadline_in start budget.

Record in_budget (st : xstate) : Prop := {
  ib_blocked : 0 <= x_blocked st <= budget;
  ib_now : start + x_blocked st <= x_now st;
  ib_lag : start + lag_sum k (x_calls st) <= x_now st;
}.

Lemma left_spec now : 0 <= left dl now /\ (0 < left dl now -> left dl now = dl - now) /\ (dl <= now -> left dl now = 0).
Proof. unfold left. destruct (Z.ltb_spec 0 (dl - now)); lia. Qed.

Section OnePhase.
  Context {A R : Type} (ask : nat -> A) (retry : A -> bool) (verdict : A -> R) (late : R) (tag : A -> answer).

(** An exchange phase returns, stays in the budget, and its result is decided
    by its last answer after interrupted ones, or by the deadline. *)
Lemma phase_ok fuel st :
  in_budget st -> (N < x_calls st + fuel)%nat -> fuel <> 0%nat ->
  exists r st' retries,
    phase k ask retry verdict late tag fuel dl st = Some (r, st') /\ in_budget st' /\
    (x_calls st < x_calls st')%nat /\ Forall (fun a => retry a = true) retries /\
    ((r = late /\ x_answers st' = x_answers st ++ map tag retries) \/
     exists a, retry a = false /\ r = verdict a /\ x_answers st' = x_answers st ++ map tag (retries ++ [a])).
Proof using budget_ok lag_ok block_ok time_passes.
  revert st. induction fuel as [|fuel IH]; intros st [Hb Hn Hl] Hf Hne; [done|]. cbn [phase].
  pose proof (lag_ok (x_calls st)) as Hlag. set (now := x_now st + k_lag k (x_calls st)).
  destruct (left_spec now) as (L1 & L2 & L3). unfold arm.
  assert (Hlate : in_budget (XState (S (x_calls st)) now (x_blocked st) (x_answers st))).
  { split; cbn [x_blocked x_now x_calls]; [done|lia|rewrite lag_sum_S; lia]. }
  destruct (Z.leb_spec (left dl now) 0).
  { eexists _, _, []. split; [reflexivity|]. split; [done|]. split; [simpl; lia|]. split; [constructor|].
    left. by rewrite app_nil_r. }
  destruct (k_setsockopt k (x_calls st)).
  2: { eexists _, _, []. split; [reflexivity|]. split; [done|]. split; [simpl; lia|]. split; [constructor|].
       left. by rewrite app_nil_r. }
  rewrite timeval_exact by lia. pose proof (block_ok (x_calls st) (left dl now) L1) as Hblk.
  set (d := k_block k (x_calls st) (left dl now)) in *. specialize (L2 ltac:(lia)). unfold dl, deadline_in in *.
  set (a := ask (x_calls st)).
  set (st1 := XState (S (x_calls st)) (now + d) (x_blocked st + d) (x_answers st ++ [tag a])).
  assert (Hi : in_budget st1).
  { split; unfold st1; cbn [x_blocked x_now x_calls]; [lia|lia|rewrite lag_sum_S; lia]. }
  destruct (retry a) eqn:Ea.
  - assert (Hcalls : (x_calls st < N)%nat).
    { destruct (Nat.lt_ge_cases (x_calls st) N) as [?|Hge]; [done|].
      pose proof (lag_sum_le (S (x_calls st)) ltac:(lia)) as Hbig. rewrite lag_sum_S in Hbig. lia. }
    destruct (IH st1 Hi) as (r & st' & retries & H1 & H2 & H3 & H4 & H5); [simpl; lia|lia|].
    exists r, st', (a :: retries). split; [done|]. split; [done|]. split; [simpl in H3; lia|]. split; [by constructor|].
    destruct H5 as [[-> E]|(b & Hb1 & -> & E)]; [left|right; exists b]; unfold st1 in E; cbn [x_answers] in E;
      rewrite E, <- app_assoc; done.
  - eexists _, st1, []. split; [reflexivity|]. split; [done|]. split; [simpl; lia|]. split; [constructor|].
    right. by exists a.
Qed.
End OnePhase.
End Budget.

(** What the code relies on: time does not run backwards, a socket call returns
    by the timeout armed for it, and enough armings use up the budget. *)
Record kernel_ok (k : kernel) (budget : Z) (N : nat) : Prop := {
  ko_lag : forall n, 0 <= k_lag k n;
  ko_block : forall n t, 0 <= t -> 0 <= k_block k n t <= t;
  ko_time : budget <= lag_sum k N;
}.

Definition x_init (now : Z) : xstate := XState 0 now 0 [].

Lemma x_init_ok k now budget : 0 <= budget -> in_budget k now budget (x_init now).
Proof. intros H. split; simpl; unfold lag_sum; simpl; lia. Qed.

Definition connected (c : connect_ret) : Prop := c = ConnOk \/ c = ConnErr EISCONN.
Definition unbound (c : connect_ret) : Prop := c = ConnErr ECONNREFUSED \/ c = ConnErr ENOENT.

Lemma enroll_conn_confirmed c : enroll_conn c = kEnrollConfirmed -> connected c.
Proof. destruct c as [|[]]; try done; ((by left) || (by right)). Qed.
Lemma enroll_conn_no_listener c : enroll_conn c = kEnrollNoListener -> unbound c.
Proof. destruct c as [|[]]; try done; ((by left) || (by right)). Qed.
Lemma enroll_conn_not_refused c : enroll_conn c <> kEnrollRefused.
Proof. by destruct c as [|[]]. Qed.

(** The answers of an exchange that got as far as a status byte. *)
Definition replied (answers : list answer) (mid : list answer) (b : Z) : Prop :=
  exists cs c rs, Forall (fun c => conn_retry c = true) cs /\ connected c /\ Forall (fun r => read_retry r = true) rs /\
    answers = map AConn (cs ++ [c]) ++ mid ++ map ARead (rs ++ [Got b]).

(** What the result of the rendezvous says of the answers received. *)
Record enroll_told (timeout_ms : Z) (r : EnrollResult) (st : xstate) : Prop := {
  et_blocked : 0 <= x_blocked st <= timeout_ms;
  et_reply : r = kEnrollConfirmed \/ r = kEnrollRefused ->
    exists b, replied (x_answers st) [] b /\ (r = kEnrollConfirmed <-> b = 75);
  et_unbound : r = kEnrollNoListener -> exists cs c, unbound c /\ x_answers st = map AConn (cs ++ [c]);
}.

Lemma enroll_told_other timeout_ms r st :
  0 <= x_blocked st <= timeout_ms -> r <> kEnrollConfirmed -> r <> kEnrollRefused -> r <> kEnrollNoListener ->
  enroll_told timeout_ms r st.
Proof. intros H N1 N2 N3. split; [done|by intros [|]|done]. Qed.

(** The connect phase when it does not connect. *)
Lemma enroll_conn_told timeout_ms cs r st :
  0 <= x_blocked st <= timeout_ms -> r <> kEnrollConfirmed ->
  (r = kEnrollTimedOut \/ exists c, r = enroll_conn c /\ x_answers st = map AConn (cs ++ [c])) ->
  enroll_told timeout_ms r st.
Proof.
  intros Hb Hne [->|(c & -> & Ea)]; [by apply enroll_told_other|]. split; [done| |].
  - intros [?|Hr]; [done|]. by destruct (enroll_conn_not_refused c).
  - intros Hr. exists cs, c. split; [by apply enroll_conn_no_listener|done].
Qed.

(** The reply phase after a connection. *)
Lemma enroll_read_told timeout_ms cs c rs a st :
  0 <= x_blocked st <= timeout_ms -> Forall (fun c => conn_retry c = true) cs -> connected c ->
  Forall (fun r => read_retry r = true) rs ->
  x_answers st = map AConn (cs ++ [c]) ++ map ARead (rs ++ [a]) -> enroll_told timeout_ms (enroll_read a) st.
Proof.
  intros Hb Hcs Hc Hrs Ea. destruct a as [b| |[]]; try by apply enroll_told_other.
  simpl. destruct (Z.eqb_spec b 75) as [->|Hb75]; (split; [done|intros _|done]).
  - exists 75. split; [|done]. by exists cs, c, rs.
  - exists b. split; [by exists cs, c, rs|done].
Qed.

(** C35: The startup rendezvous holds the application for one budget.  Whatever
    the kernel answers and however often a signal interrupts, as long as it
    honours the timeouts armed: [enroll_connect] returns, having blocked for at
    most [timeout_ms] over connect and reply together.  It answers confirmed or
    refused only when the connection was made and the consumer's status byte
    was read, confirmed exactly for a 'K', and no-listener only when the last
    connect was refused. *)
Theorem enroll_one_budget k N name timeout_ms now :
  kernel_ok k timeout_ms N -> 0 <= timeout_ms ->
  exists r st, enroll_connect (S N) k name timeout_ms (x_init now) = Some (r, st) /\ enroll_told timeout_ms r st.
Proof.
  intros [H1 H2 H3] Ht. unfold enroll_connect.
  assert (Hsame : forall r, r <> kEnrollConfirmed -> r <> kEnrollRefused -> r <> kEnrollNoListener ->
    exists r' st, Some (r, x_init now) = Some (r', st) /\ enroll_told timeout_ms r' st).
  { intros r N1 N2 N3. exists r, (x_init now). split; [done|]. apply enroll_told_other; simpl; done || lia. }
  destruct name as [[|ch nm]|]; [by apply Hsame| |by apply Hsame].
  destruct (negb (abstract_addr (ch :: nm))); [by apply Hsame|]. destruct (k_socket k <? 0); [by apply Hsame|].
  destruct (phase_ok k now timeout_ms N Ht H1 H2 H3 (k_connect k) conn_retry enroll_conn kEnrollTimedOut AConn
    (S N) (x_init now) (x_init_ok k now timeout_ms Ht) ltac:(simpl; lia) ltac:(done))
    as (r & st & cs & E & Hi & Hc & Hcs & Hr).
  simpl x_now. rewrite E. cbn [mbind option_bind]. cbn [x_init x_answers app] in Hr.
  destruct (decide (r = kEnrollConfirmed)) as [->|Hne].
  2: { exists r, st. split; [by destruct r|]. apply (enroll_conn_told _ cs); [apply Hi|done|].
       destruct Hr as [[-> _]|(c & _ & -> & Ea)]; [by left|right; by exists c]. }
  destruct Hr as [[? _]|(c & _ & Ec & Ea)]; [done|].
  destruct (phase_ok k now timeout_ms N Ht H1 H2 H3 (k_read k) read_retry enroll_read kEnrollTimedOut ARead
    (S N) st Hi ltac:(lia) ltac:(done)) as (r & st' & rs & E' & Hi' & _ & Hrs & Hr).
  exists r, st'. split; [exact E'|].
  destruct Hr as [[-> _]|(a & _ & -> & Ea')]; [apply enroll_told_other; by try apply Hi'|].
  apply (enroll_read_told _ cs c rs); [apply Hi'|done|by apply enroll_conn_confirmed|done|by rewrite Ea', Ea].
Qed.

(** Signals during both phases, then a 'K'. *)
Definition demo_kernel : kernel :=
  Kernel 5 (fun _ => true) (fun _ => 5) (fun _ t => Z.min t 3)
    (fun n => if (n =? 0)%nat then ConnErr EINTR else ConnOk) (fun _ => Sent 24)
    (fun n => if (n <? 3)%nat then ReadErr EINTR else Got 75).

Lemma demo_kernel_ok : kernel_ok demo_kernel 100 20.
Proof. split; simpl; [lia|lia|by vm_compute]. Qed.

Lemma enroll_one_budget_witness :
  exists st, enroll_connect 21 demo_kernel (Some (lit "x"%string)) 100 (x_init 7000) = Some (kEnrollConfirmed, st) /\
    x_blocked st = 12 /\ replied (x_answers st) [] 75.
Proof.
  destruct (enroll_one_budget demo_kernel 20 (Some (lit "x"%string)) 100 7000 demo_kernel_ok ltac:(lia)) as (r & st & E & Ht).
  assert (Hr : r = kEnrollConfirmed /\ x_blocked st = 12) by (vm_compute in E; injection E as <- <-; done).
  destruct Hr as [-> Hb]. destruct (et_reply _ _ _ Ht (or_introl eq_refl)) as (b & Hb1 & [Hb2 _]).
  exists st. split; [exact E|]. split; [exact Hb|]. by rewrite (Hb2 eq_refl) in Hb1.
Defined.

(** ** The offer *)

(** The header's wire form reads back. *)
Lemma header_roundtrip size crc rest :
  0 < size < 2 ^ 64 -> is_u64 crc ->
  let h := CubinHeader kCubinOfferMagic kCubinOfferVersion 0 size crc in
  length (header_bytes h) = 24%nat /\ decodeCubinHeader (header_bytes h ++ rest) = inl h.
Proof.
  intros Hs Hc h. unfold header_bytes.
  assert (Hwf : Forall fwf (header_fields h)).
  { unfold header_fields, h. repeat (apply List.Forall_cons; [cbn [fwf h_magic h_version h_flags h_size h_crc]|]);
      try apply List.Forall_nil.
    - by vm_compute.
    - by vm_compute.
    - lia.
    - change (256 ^ Z.of_nat 8) with (2 ^ 64). lia.
    - exact Hc. }
  rewrite layout_packed by done. split; [by rewrite flat_length|].
  unfold decodeCubinHeader, cubinHeaderSize. rewrite enough_bytes by done. read_fields Hwf.
  change (CubinHeader (h_magic h) (h_version h) (h_flags h) (h_size h) (h_crc h)) with h.
  assert (E : (h_size h =? 0) = false) by (apply Z.eqb_neq; simpl; lia). rewrite E. reflexivity.
Qed.

Definition uninterrupted (w : write_ret) : bool := match w with WriteErr EINTR => false | _ => true end.

(** The loop returns once it has had enough answers, and only with everything
    written does it succeed. *)
Lemma write_loop_returns answers content todo :
  (length todo <= length (List.filter uninterrupted answers))%nat ->
  exists ok, exists c, write_loop answers content todo = Some (ok, c) /\ (ok = true -> c = content ++ todo).
Proof.
  revert content todo. induction answers as [|a answers IH]; intros content todo Hl.
  - destruct todo; [|simpl in Hl; lia]. exists true, content. simpl. by rewrite app_nil_r.
  - destruct todo as [|b todo]; [exists true, content; simpl; by rewrite app_nil_r|].
    destruct a as [[|n]|[]]; cbn [write_loop]; try (by exists false, content); cbn [List.filter uninterrupted length] in Hl.
    + destruct (IH (content ++ take (S n) (b :: todo)) (drop (S n) (b :: todo))) as (ok & c & E & Hc).
      { rewrite length_drop. simpl length. lia. }
      exists ok, c. split; [exact E|]. intros Hok. rewrite (Hc Hok), <- app_assoc. by rewrite take_drop.
    + apply IH. simpl. lia.
Qed.

Lemma offer_conn_accepted c : offer_conn c = kCubinOfferAccepted -> connected c.
Proof. destruct c as [|[]]; try done; ((by left) || (by right)). Qed.
Lemma offer_conn_kinds c : offer_conn c <> kCubinOfferRefused /\ offer_conn c <> kCubinOfferDisabled /\ offer_conn c <> kCubinOfferNoAddress.
Proof. by destruct c as [|[]]. Qed.
Lemma offer_send_accepted r : offer_send r = kCubinOfferAccepted -> r = Sent 24.
Proof. destruct r as [n|[]]; try done. simpl. destruct (Nat.eqb_spec n 24) as [->|]; done. Qed.

Lemma wire_of_retries h fd rs r :
  Forall (fun r => send_retry r = true) rs -> r = Sent 24 -> length h = 24%nat ->
  wire_of h fd (map ASend (rs ++ [r])) = [(h, fd)].
Proof.
  intros Hrs -> Hl. induction Hrs as [|x rs Hx _ IH]; [simpl; by rewrite take_ge by lia|].
  destruct x as [|[]]; try done.
Qed.

(** Whether an outcome is counted as a failure to send. *)
Definition counts_failed (r : CubinOfferResult) : bool :=
  match r with kCubinOfferAccepted | kCubinOfferNoListener => false | _ => true end.

(** What the state says of an offer that was made. *)
Record offer_made (size crc fd timeout_ms : Z) (s : offer_state) (r : CubinOfferResult) (s' : offer_state) : Prop := {
  om_offered : o_offered s' = u64 (o_offered s + 1);
  om_failed : o_failed s' = if counts_failed r then u64 (o_failed s + 1) else o_failed s;
  om_blocked : 0 <= x_blocked (o_x s') <= timeout_ms;
  om_accepted : r = kCubinOfferAccepted \/ r = kCubinOfferRefused ->
    exists h b mid, o_sent s' = o_sent s ++ [(h, fd)] /\
      decodeCubinHeader h = inl (CubinHeader kCubinOfferMagic kCubinOfferVersion 0 size crc) /\
      replied (x_answers (o_x s')) mid b /\ (r = kCubinOfferAccepted <-> b = 75);
}.

Lemma offer_made_other size crc fd timeout_ms s r s' :
  o_offered s' = u64 (o_offered s + 1) -> 0 <= x_blocked (o_x s') <= timeout_ms ->
  o_failed s' = (if counts_failed r then u64 (o_failed s + 1) else o_failed s) ->
  r <> kCubinOfferAccepted -> r <> kCubinOfferRefused -> offer_made size crc fd timeout_ms s r s'.
Proof. intros H1 H2 H3 N1 N2. split; [done|done|done|by intros [|]]. Qed.

Lemma bool_decide_neq (r r' : CubinOfferResult) : r <> r' -> bool_decide (r = r') = false.
Proof. apply bool_decide_eq_false_2. Qed.

(** The last phase, after the header is on the wire. *)
Lemma offer_reply_made size crc fd timeout_ms s0 s cs c rs ss a x :
  0 < size < 2 ^ 64 -> is_u64 crc -> 0 <= x_blocked x <= timeout_ms ->
  Forall (fun c => conn_retry c = true) cs -> connected c -> Forall (fun r => read_retry r = true) rs ->
  x_answers x = map AConn (cs ++ [c]) ++ map ASend (ss ++ [Sent 24]) ++ map ARead (rs ++ [a]) ->
  o_offered s = u64 (o_offered s0 + 1) -> o_failed s = o_failed s0 ->
  o_sent s = o_sent s0 ++ [(header_bytes (CubinHeader kCubinOfferMagic kCubinOfferVersion 0 size crc), fd)] ->
  let r := offer_read a in
  offer_made size crc fd timeout_ms s0 r
    (if negb (bool_decide (r = kCubinOfferAccepted)) then failed_one (with_x x s) else with_x x s).
Proof.
  intros Hs Hc Hb Hcs Hcn Hrs Ha Ho Hf Hsent r. subst r.
  destruct (header_roundtrip size crc [] Hs Hc) as [_ Hdec]. rewrite app_nil_r in Hdec.
  destruct a as [b| |e]; simpl.
  - destruct (Z.eqb_spec b 75) as [->|Hne]; simpl; (split; simpl; [done|by rewrite Hf|done|intros _]).
    + eexists _, 75, (map ASend (ss ++ [Sent 24])). split_and!; [exact Hsent|exact Hdec| |done].
      exists cs, c, rs. by split_and!.
    + eexists _, b, (map ASend (ss ++ [Sent 24])). split_and!; [exact Hsent|exact Hdec| |done].
      exists cs, c, rs. by split_and!.
  - apply offer_made_other; simpl; rewrite ?Hf; done.
  - destruct e; apply offer_made_other; simpl; rewrite ?Hf; done.
Qed.

Lemma cubin_offer_fd_made k N nm fd size crc timeout_ms s now :
  kernel_ok k timeout_ms N -> 0 < timeout_ms -> nm <> [] -> abstract_addr nm = true -> 0 <= fd ->
  0 < size < 2 ^ 64 -> is_u64 crc -> o_x s = x_init now ->
  exists r s', cubin_offer_fd (S N) k (Some nm) fd size crc timeout_ms s = Some (r, s') /\
    offer_made size crc fd timeout_ms s r s'.
Proof.
  intros [H1 H2 H3] Ht Hnm Ha Hfd Hs Hc Hx. assert (Ht0 : 0 <= timeout_ms) by lia. unfold cubin_offer_fd.
  rewrite (proj2 (Z.eqb_neq timeout_ms 0)) by lia. destruct nm as [|ch nm]; [done|].
  rewrite (proj2 (Z.ltb_ge fd 0)), (proj2 (Z.eqb_neq size 0)), Ha by lia. cbn [orb negb].
  destruct (k_socket k <? 0).
  { eexists _, _. split; [reflexivity|]. apply offer_made_other; try done. simpl. rewrite Hx. simpl. lia. }
  simpl o_x. rewrite Hx.
  destruct (phase_ok k now timeout_ms N Ht0 H1 H2 H3 (k_connect k) conn_retry offer_conn kCubinOfferTimedOut AConn
    (S N) (x_init now) (x_init_ok k now timeout_ms Ht0) ltac:(simpl; lia) ltac:(done))
    as (r & x & cs & E & Hi & Hcl & Hcs & Hr).
  simpl x_now. rewrite E. cbn [mbind option_bind]. clear E. cbn [x_init x_answers app] in Hr.
  destruct (decide (r = kCubinOfferAccepted)) as [->|Hne].
  2: { rewrite bool_decide_neq by done. cbn [negb]. eexists _, _. split; [reflexivity|].
       assert (Hk : r <> kCubinOfferRefused).
       { destruct Hr as [[-> _]|(c & _ & -> & _)]; [done|]. by destruct (offer_conn_kinds c). }
       apply offer_made_other; try done; destruct (decide (r = kCubinOfferNoListener)) as [->|Hnl]; simpl;
         rewrite ?bool_decide_neq by done; simpl; try apply Hi; try done.
       by destruct r. }
  destruct Hr as [[? _]|(c & _ & Ec & Ea)]; [done|]. cbn [bool_decide negb]. rewrite bool_decide_eq_true_2 by done. cbn [negb].
  destruct (phase_ok k now timeout_ms N Ht0 H1 H2 H3 (k_send k) send_retry offer_send kCubinOfferTimedOut ASend
    (S N) x Hi ltac:(lia) ltac:(done)) as (r & x' & ss & E & Hi' & Hcl' & Hss & Hr).
  rewrite E. cbn [mbind option_bind]. clear E.
  destruct (decide (r = kCubinOfferAccepted)) as [->|Hne].
  2: { rewrite bool_decide_neq by done. cbn [negb]. eexists _, _. split; [reflexivity|].
       assert (Hk : r = kCubinOfferTimedOut \/ r = kCubinOfferError).
       { destruct Hr as [[-> _]|(a & _ & -> & _)]; [by left|]. destruct a as [n|[]]; simpl in *; try (by left); try (by right).
         destruct (n =? 24)%nat; [done|by right]. }
       apply offer_made_other; simpl; try apply Hi'; try done; by destruct Hk as [->| ->]. }
  destruct Hr as [[? _]|(a & _ & Esend & Ea')]; [done|]. symmetry in Esend. apply offer_send_accepted in Esend. subst a.
  rewrite bool_decide_eq_true_2 by done. cbn [negb].
  destruct (phase_ok k now timeout_ms N Ht0 H1 H2 H3 (k_read k) read_retry offer_read kCubinOfferTimedOut ARead
    (S N) x' Hi' ltac:(lia) ltac:(done)) as (r & x2 & rs & E & Hi2 & _ & Hrs & Hr).
  rewrite E. cbn [mbind option_bind]. clear E. eexists _, _. split; [reflexivity|].
  destruct (header_roundtrip size crc [] Hs Hc) as [Hlen _].
  assert (Hwire : wire_of (header_bytes (CubinHeader kCubinOfferMagic kCubinOfferVersion 0 size crc)) fd
      (drop (length (x_answers x)) (x_answers x'))
    = [(header_bytes (CubinHeader kCubinOfferMagic kCubinOfferVersion 0 size crc), fd)]).
  { rewrite Ea', drop_app_length. by apply wire_of_retries. }
  destruct Hr as [[-> _]|(a & _ & -> & Ea2)].
  - apply offer_made_other; simpl; try apply Hi2; done.
  - apply (offer_reply_made size crc fd timeout_ms s _ cs c rs ss a x2); simpl; try done; try apply Hi2.
    + by apply offer_conn_accepted.
    + by rewrite Ea2, Ea', Ea, <- app_assoc.
    + by rewrite Hwire.
Qed.

(** The descriptor holds all the bytes, sealed, or there is none. *)
Lemma cubin_seal_cases e bs :
  bs <> [] -> (length bs <= length (List.filter uninterrupted (w_writes e)))%nat ->
  cubin_seal_bytes e (Some bs) = Some (-1, []) \/
  (cubin_seal_bytes e (Some bs) = Some (w_fd e, bs) /\ 0 <= w_fd e /\
   Z.land (w_get_seals e) kRequiredSeals = kRequiredSeals).
Proof.
  intros Hbs Hw. destruct bs as [|b bs]; [done|]. unfold cubin_seal_bytes.
  destruct (Z.ltb_spec (w_fd e) 0) as [?|Hfd]; [by left|].
  destruct (write_loop_returns (w_writes e) [] (b :: bs) Hw) as (ok & content & -> & Hok). cbn [mbind option_bind].
  destruct ok; [|by left]. rewrite (Hok eq_refl). cbn [negb app].
  destruct (w_add_seals e); [|by left]. cbn [negb].
  destruct (Z.eqb_spec (Z.land (w_get_seals e) kRequiredSeals) kRequiredSeals) as [Hseal|]; cbn [negb];
    [|rewrite orb_true_r; by left].
  rewrite orb_false_r. destruct (w_get_seals e <? 0); [by left|]. by right.
Qed.

(** C28: A module's bytes are handed over whole or not at all, and accounted for.
    With a usable address and a kernel that honours its timeouts, [cubin_offer]
    returns after blocking for at most [timeout_ms] over connect, send and reply
    together.  It counts one offer, and one failure exactly when it answers
    neither accepted nor no-listener.  When it answers accepted or refused, a
    memfd holding exactly the module's bytes, under all four seals, was passed
    with one whole header, which the consumer decodes to the module's size and
    CRC, and the status byte was read: 'K' exactly for accepted. *)
Theorem cubin_offer_accounted k N e nm bs crc timeout_ms s now :
  kernel_ok k timeout_ms N -> 0 < timeout_ms -> nm <> [] -> abstract_addr nm = true ->
  bs <> [] -> Z.of_nat (length bs) < 2 ^ 64 -> is_u64 crc -> o_x s = x_init now ->
  (length bs <= length (List.filter uninterrupted (w_writes e)))%nat ->
  exists r s', cubin_offer (S N) k e (Some nm) (Some bs) crc timeout_ms s = Some (r, s') /\
    offer_made (Z.of_nat (length bs)) crc (w_fd e) timeout_ms s r s' /\
    (r = kCubinOfferAccepted \/ r = kCubinOfferRefused ->
      0 <= w_fd e /\ cubin_seal_bytes e (Some bs) = Some (w_fd e, bs) /\
      Z.land (w_get_seals e) kRequiredSeals = kRequiredSeals).
Proof.
  intros Hk Ht Hnm Ha Hbs Hlen Hc Hx Hw. unfold cubin_offer. rewrite (proj2 (Z.eqb_neq timeout_ms 0)) by lia.
  destruct (cubin_seal_cases e bs Hbs Hw) as [->|(Hseal & Hfd & Hall)].
  { eexists _, _. split; [reflexivity|]. split; [|by intros [|]]. apply offer_made_other; try done.
    simpl. rewrite Hx. simpl. lia. }
  rewrite Hseal. cbn [mbind option_bind bytes_len]. rewrite (proj2 (Z.ltb_ge _ _)) by done.
  destruct (cubin_offer_fd_made k N nm (w_fd e) (Z.of_nat (length bs)) crc timeout_ms s now Hk Ht Hnm Ha Hfd)
    as (r & s' & E & Hm); [split; [destruct bs; [done|simpl; lia]|done]|done|done|].
  by exists r, s'.
Qed.

Lemma cubin_offer_accounted_witness :
  let e := MemfdEnv 9 [WriteErr EINTR; Wrote 2; Wrote 1; Wrote 1] true 15 in
  let s := OfferState 4 1 [] (x_init 7000) in
  exists s', cubin_offer 21 demo_kernel e (Some (lit "x"%string)) (Some [7; 8; 9]) 77 100 s = Some (kCubinOfferAccepted, s') /\
    o_offered s' = 5 /\ o_failed s' = 1 /\ length (o_sent s') = 1%nat.
Proof.
  intros e s. unfold e, s.
  assert (Hw : exists r s', cubin_offer 21 demo_kernel (MemfdEnv 9 [WriteErr EINTR; Wrote 2; Wrote 1; Wrote 1] true 15)
      (Some (lit "x"%string)) (Some [7; 8; 9]) 77 100 (OfferState 4 1 [] (x_init 7000)) = Some (r, s') /\
    offer_made 3 77 9 100 (OfferState 4 1 [] (x_init 7000)) r s').
  { destruct (cubin_offer_accounted demo_kernel 20 (MemfdEnv 9 [WriteErr EINTR; Wrote 2; Wrote 1; Wrote 1] true 15)
      (lit "x"%string) [7; 8; 9] 77 100 (OfferState 4 1 [] (x_init 7000)) 7000 demo_kernel_ok ltac:(lia) ltac:(done) eq_refl
      ltac:(done) ltac:(simpl; lia) ltac:(unfold is_u64; lia) eq_refl ltac:(simpl; lia)) as (r & s' & E & Hm & _).
    by exists r, s'. }
  destruct Hw as (r & s' & E & Hm).
  assert (Hr : r = kCubinOfferAccepted /\ length (o_sent s') = 1%nat) by (vm_compute in E; injection E as <- <-; done).
  destruct Hr as [-> Hl]. exists s'. split; [exact E|]. split; [exact (om_offered _ _ _ _ _ _ _ Hm)|].
  split; [exact (om_failed _ _ _ _ _ _ _ Hm)|exact Hl].
Defined.
