(* ===== verification/Adapter.v ===== *)
(** * Adapter: the parts of the CUPTI adapter that decide what a record says

    Models, of src/shim/nvidia/cupti_adapter.cc: the correlation numbers
    ([make_corr], [correlate_launch], [correlate_activity]), [hash_name], the
    conversion of vendor times, the announcement of modules
    ([on_cubin_captured], [consumer_attached] and the replay in [on_tick]) and
    the report of graph executions in [on_tick].  A compare-exchange loop takes
    effect at one access to its word, so a history of calls is the sequence of
    those accesses. *)
From S2P Require Import Prelude Tables GpuUsdt Abi Timers Replay.

(** ** Correlation

    [g_corr] is [epoch << 32 | last_id]. *)
Definition kWrapGuard : Z := 2 ^ 31.

Definition make_corr (epoch id : Z) : Z := Z.lor (u64 (Z.shiftl (u32 (epoch + 1)) 32)) id.

Definition corr_last (cur : Z) : Z := u32 cur.
Definition corr_epoch (cur : Z) : Z := u32 (Z.shiftr cur 32).

(** The result, and the word after the call. *)
Definition correlate_launch (id cur : Z) : Z * Z :=
  let last := corr_last cur in
  let epoch := corr_epoch cur in
  if (id <? last) && (kWrapGuard <? u32 (last - id)) then
    let next_epoch := u32 (epoch + 1) in
    (make_corr next_epoch id, Z.lor (u64 (Z.shiftl next_epoch 32)) id)
  else if last <? id then (make_corr epoch id, Z.lor (u64 (Z.shiftl epoch 32)) id)
  else (make_corr epoch id, cur).

Definition correlate_activity (id cur : Z) : Z :=
  let last := corr_last cur in
  let epoch := corr_epoch cur in
  let epoch := if (last <? id) && (kWrapGuard <? u32 (id - last)) && (0 <? epoch) then u32 (epoch - 1) else epoch in
  make_corr epoch id.

Fixpoint correlate_all (ids : list Z) (cur : Z) : list Z * Z :=
  match ids with
  | [] => ([], cur)
  | id :: ids' =>
      let '(c, cur1) := correlate_launch id cur in
      let '(cs, cur2) := correlate_all ids' cur1 in
      (c :: cs, cur2)
  end.

(** CUPTI issues the ids of a counter [n], of which a record carries the low 32
    bits.  [near m n]: a launch that comes when [m] is the latest: not 2^31
    ahead, and behind by no more than 2^31 and by no wrap. *)
Definition near (m n : Z) : Prop :=
  (m < n -> n - m < 2 ^ 31) /\ (n <= m -> n / 2 ^ 32 = m / 2 ^ 32 /\ m - n <= 2 ^ 31).
Fixpoint nearly_ordered (m : Z) (ns : list Z) : Prop :=
  match ns with [] => True | n :: ns' => 0 <= n < 2 ^ 64 - 2 ^ 32 /\ near m n /\ nearly_ordered (Z.max m n) ns' end.

Lemma word_split n : 0 <= n < 2 ^ 64 -> corr_epoch n = n / 2 ^ 32 /\ corr_last n = n mod 2 ^ 32.
Proof.
  intros Hn. unfold corr_epoch, corr_last, u32. rewrite Z.shiftr_div_pow2 by lia. split; [|done].
  apply Z.mod_small. change 4294967296 with (2 ^ 32). split; [apply Z.div_pos; lia|apply Z.div_lt_upper_bound; lia].
Qed.

(** A word from its halves. *)
Lemma word_join e i : 0 <= e < 2 ^ 32 -> 0 <= i < 2 ^ 32 -> Z.lor (u64 (Z.shiftl e 32)) i = e * 2 ^ 32 + i.
Proof.
  intros He Hi. rewrite u64_small by (unfold is_u64; rewrite Z.shiftl_mul_pow2 by lia; lia). by apply lor_fields.
Qed.

Lemma make_corr_spec e i : 0 <= e < 2 ^ 32 - 1 -> 0 <= i < 2 ^ 32 -> make_corr e i = (e + 1) * 2 ^ 32 + i.
Proof. intros He Hi. unfold make_corr. rewrite u32_small by (unfold is_u32; lia). apply word_join; lia. Qed.

(** The two halves of a counter value, as variables. *)
Lemma halves n : 0 <= n < 2 ^ 64 - 2 ^ 32 ->
  exists e i, n = e * 2 ^ 32 + i /\ 0 <= e < 2 ^ 32 - 1 /\ 0 <= i < 2 ^ 32 /\ n / 2 ^ 32 = e /\ n mod 2 ^ 32 = i.
Proof.
  intros Hn. exists (n / 2 ^ 32), (n mod 2 ^ 32). pose proof (Z.div_mod n (2 ^ 32) ltac:(lia)).
  pose proof (Z.mod_pos_bound n (2 ^ 32) ltac:(lia)). split; [lia|].
  split; [split; [apply Z.div_pos; lia|apply Z.div_lt_upper_bound; lia]|done].
Qed.

Lemma correlate_launch_near m n :
  0 <= m < 2 ^ 64 - 2 ^ 32 -> 0 <= n < 2 ^ 64 - 2 ^ 32 -> near m n ->
  correlate_launch (n mod 2 ^ 32) m = (n + 2 ^ 32, Z.max m n).
Proof.
  intros Hm Hn [Ha Hb]. unfold correlate_launch, kWrapGuard. destruct (word_split m ltac:(lia)) as [-> ->].
  destruct (halves m Hm) as (em & im & Em & He & Hi & Ed & Ei), (halves n Hn) as (en & jn & En & He' & Hi' & Ed' & Ei').
  rewrite Ed, Ei, Ei' in *. rewrite Ed' in Hb.
  assert (Hcase : (m < n /\ (en = em \/ en = em + 1)) \/ (n <= m /\ en = em)) by (destruct (Z.le_gt_cases n m); lia).
  destruct (Z.ltb_spec jn im) as [Hlt|Hge]; cbn [andb].
  - rewrite (u32_small (im - jn)) by (unfold is_u32; lia). destruct (Z.ltb_spec (2 ^ 31) (im - jn)).
    + assert (Hen : en = em + 1) by lia. rewrite (u32_small (em + 1)) by (unfold is_u32; lia).
      rewrite make_corr_spec, word_join by lia. f_equal; lia.
    + rewrite (proj2 (Z.ltb_ge _ _)) by lia. rewrite make_corr_spec by lia. f_equal; lia.
  - destruct (Z.ltb_spec im jn); rewrite make_corr_spec, ?word_join by lia; f_equal; lia.
Qed.

Lemma correlate_activity_recent m n :
  0 <= n <= m -> m < 2 ^ 64 - 2 ^ 32 -> m - n < 2 ^ 31 -> correlate_activity (n mod 2 ^ 32) m = n + 2 ^ 32.
Proof.
  intros Hn Hm Hd. unfold correlate_activity, kWrapGuard. destruct (word_split m ltac:(lia)) as [-> ->].
  destruct (halves m ltac:(lia)) as (em & im & Em & He & Hi & Ed & Ei), (halves n ltac:(lia)) as (en & jn & En & He' & Hi' & Ed' & Ei').
  rewrite Ed, Ei, Ei'. assert (Hcase : en = em \/ em = en + 1) by lia.
  destruct (Z.ltb_spec im jn) as [Hlt|Hge]; cbn [andb]; [|rewrite make_corr_spec by lia; lia].
  rewrite (u32_small (jn - im)) by (unfold is_u32; lia).
  rewrite !(proj2 (Z.ltb_lt _ _)) by lia. cbn [andb]. rewrite u32_small by (unfold is_u32; lia).
  rewrite make_corr_spec by lia. lia.
Qed.

Lemma correlate_all_near ns m :
  0 <= m < 2 ^ 64 - 2 ^ 32 -> nearly_ordered m ns ->
  correlate_all (map (fun n => n mod 2 ^ 32) ns) m = (map (fun n => n + 2 ^ 32) ns, foldl Z.max m ns).
Proof.
  revert m. induction ns as [|n ns IH]; intros m Hm Hns; [done|]. destruct Hns as (Hn & Hnear & Hns). cbn [map correlate_all].
  rewrite correlate_launch_near by done. rewrite IH by (done || lia). done.
Qed.

Lemma nearly_ordered_range ns m :
  0 <= m < 2 ^ 64 - 2 ^ 32 -> nearly_ordered m ns ->
  m <= foldl Z.max m ns < 2 ^ 64 - 2 ^ 32 /\ Forall (fun n => 0 <= n <= foldl Z.max m ns) ns.
Proof.
  revert m. induction ns as [|n ns IH]; intros m Hm Hns; simpl; [split; [lia|constructor]|].
  destruct Hns as (Hn & _ & Hns). destruct (IH (Z.max m n) ltac:(lia) Hns) as [H1 H2]. split; [lia|].
  constructor; [lia|done].
Qed.

(** C14: Correlation numbers survive the wrap of CUPTI's 32-bit ids.  Take the
    launches in the order they reach [g_corr], each within 2^31 of the latest
    and, when it comes late, of the same wrap: each gets its 64-bit ordinal plus
    2^32, which is not zero and differs from that of every other launch; and the
    execution record of any of the last 2^31 launches gets the number its launch
    got, however many launches came after it.  (What the order excludes is a
    launch that is overtaken across the wrap: [correlation_wrap_reorder] shows
    the wrong number it gets.) *)
Theorem correlation_exact ns :
  nearly_ordered 0 ns ->
  let '(corrs, cur) := correlate_all (map (fun n => n mod 2 ^ 32) ns) 0 in
  corrs = map (fun n => n + 2 ^ 32) ns /\ cur = foldl Z.max 0 ns /\
  Forall (fun c => c <> 0) corrs /\ (NoDup ns -> NoDup corrs) /\
  (forall i n, ns !! i = Some n -> cur - n < 2 ^ 31 ->
    corrs !! i = Some (correlate_activity (n mod 2 ^ 32) cur)).
Proof.
  intros Hns. rewrite correlate_all_near by (done || lia).
  destruct (nearly_ordered_range ns 0 ltac:(lia) Hns) as [Hm Hr].
  split_and!; [done|done| | |].
  - apply Forall_map. eapply List.Forall_impl; [|exact Hr]. simpl. lia.
  - intros Hnd. apply NoDup_fmap_2; [|done]. intros a b. lia.
  - intros i n Hi Hd. rewrite list_lookup_fmap, Hi. simpl. f_equal. symmetry.
    apply correlate_activity_recent; [|lia|done]. exact (Forall_lookup_1 _ _ _ _ Hr Hi).
Qed.

Lemma correlation_exact_witness :
  nearly_ordered 0 [3; 2 ^ 31; 2 ^ 32 - 1; 2 ^ 32 - 3; 2 ^ 32 + 1; 2 ^ 32] /\
  (correlate_all (map (fun n => n mod 2 ^ 32) [3; 2 ^ 31; 2 ^ 32 - 1; 2 ^ 32 - 3; 2 ^ 32 + 1; 2 ^ 32]) 0).1 =
    map (fun n => n + 2 ^ 32) [3; 2 ^ 31; 2 ^ 32 - 1; 2 ^ 32 - 3; 2 ^ 32 + 1; 2 ^ 32].
Proof.
  assert (H : nearly_ordered 0 [3; 2 ^ 31; 2 ^ 32 - 1; 2 ^ 32 - 3; 2 ^ 32 + 1; 2 ^ 32])
    by (cbn [nearly_ordered]; unfold near; repeat split; intros; first [lia | reflexivity]).
  split; [exact H|]. pose proof (correlation_exact _ H) as E. destruct (correlate_all _ 0) as [corrs cur]. exact (proj1 E).
Defined.

(** Two launches that reach [g_corr] in the wrong order across the wrap: the
    one before the wrap comes second, is taken for an advance of 2^31 and more,
    and gets the number that the launch 2^32 later will have; the launch after
    it then starts another epoch, so that its own execution, and every later
    one, is numbered one epoch further than CUPTI is. *)
Theorem correlation_wrap_reorder :
  let ns := [2 ^ 31; 2 ^ 32 - 2; 2 ^ 32; 2 ^ 32 - 1; 2 ^ 32 + 1; 2 ^ 32 + 2] in
  let '(corrs, cur) := correlate_all (map (fun n => n mod 2 ^ 32) ns) 0 in
  corrs = map (fun n => n + 2 ^ 32) [2 ^ 31; 2 ^ 32 - 2; 2 ^ 32; 2 * 2 ^ 32 - 1; 2 * 2 ^ 32 + 1; 2 * 2 ^ 32 + 2] /\
  correlate_activity 0 cur = 3 * 2 ^ 32 /\ correlate_launch 0 (2 ^ 32 - 2) = (2 * 2 ^ 32, 2 ^ 32).
Proof. vm_compute. done. Qed.

(** Every number handed out is at least 2^32. *)
Lemma correlation_large other cur :
  0 <= other < 2 ^ 32 -> 0 <= cur < 2 ^ 64 - 2 ^ 33 ->
  2 ^ 32 <= (correlate_launch other cur).1 /\ 2 ^ 32 <= correlate_activity other cur.
Proof.
  intros Ho Hcur.
  assert (Hbig : forall e, 0 <= e < 2 ^ 32 - 1 -> 2 ^ 32 <= make_corr e other) by (intros e He; rewrite make_corr_spec; lia).
  destruct (word_split cur ltac:(lia)) as [E1 E2].
  assert (He : 0 <= cur / 2 ^ 32 < 2 ^ 32 - 2)
    by (split; [apply Z.div_pos; lia|apply Z.div_lt_upper_bound; lia]).
  unfold correlate_launch, correlate_activity. rewrite E1. split.
  - rewrite (u32_small (cur / 2 ^ 32 + 1)) by (unfold is_u32; lia).
    repeat case_match; simpl; apply Hbig; lia.
  - case_match eqn:Hc; apply Hbig; [|lia].
    apply andb_true_iff in Hc as [_ Hc]. apply Z.ltb_lt in Hc. rewrite u32_small by (unfold is_u32; lia). lia.
Qed.

(** ** Module announcements

    The wire as the module probe sees it: the probe's semaphore, the sequence
    number and the records sent.  The semaphore changes between calls. *)
Record module_wire := MkModuleWire {
  module_semaphore : bool;
  g_module_seq : Z;
  module_sent : list (Z * gpu_module_load_v1);
}.

(** [gpu_module_load_v1_emit(&r, 1, g_module_seq.fetch_add(1))] *)
Definition module_emit (r : gpu_module_load_v1) (w : module_wire) : module_wire :=
  MkModuleWire (module_semaphore w) (u64 (g_module_seq w + 1)) (module_sent w ++ [(g_module_seq w, r)]).

Definition consumer_attached (g_consumer_enrolled : bool) (w : module_wire) : bool :=
  g_consumer_enrolled || module_semaphore w.

(** The callback InitializeInjection registers with the replay log. *)
Definition replay_module_callback (r : gpu_module_load_v1) (w : module_wire) : module_wire :=
  if module_semaphore w then module_emit r w else w.

Definition announcer : Type := ReplayLog module_wire * module_wire.
Definition announcer_init : announcer :=
  (on_replay_module replay_module_callback ReplayLog_init, MkModuleWire false 0 []).

Definition on_cubin_captured (module_id load_ns crc bytes len : Z) (s : announcer) : announcer :=
  let r := GpuModuleLoad crc module_id len load_ns bytes in
  if module_semaphore s.2 then (s.1, module_emit r s.2)
  else (record_module r s.1, s.2).

(** A capture settles; a tick replays; the kernel changes the semaphore. *)
Inductive module_op :=
| Captured (module_id load_ns crc bytes len : Z)
| ReplayTick
| Semaphore (on : bool).

Definition announcer_step (g_consumer_enrolled : bool) (s : announcer) (o : module_op) : announcer :=
  match o with
  | Captured module_id load_ns crc bytes len => on_cubin_captured module_id load_ns crc bytes len s
  | ReplayTick => replay_if_newly_attached (consumer_attached g_consumer_enrolled s.2) s.1 s.2
  | Semaphore on => (s.1, MkModuleWire on (g_module_seq s.2) (module_sent s.2))
  end.
Definition module_run (g_consumer_enrolled : bool) (s : announcer) (os : list module_op) : announcer :=
  foldl (announcer_step g_consumer_enrolled) s os.

Definition captured (os : list module_op) : list gpu_module_load_v1 :=
  omap (fun o => match o with
    | Captured module_id load_ns crc bytes len => Some (GpuModuleLoad crc module_id len load_ns bytes)
    | _ => None end) os.

Definition steady (os : list module_op) : bool :=
  forallb (fun o => match o with Semaphore _ => false | _ => true end) os.

Lemma captured_app os os' : captured (os ++ os') = captured os ++ captured os'.
Proof. apply omap_app. Qed.

(** Sequence numbers count the records sent. *)
Definition wire_ok (w : module_wire) : Prop :=
  g_module_seq w = u64 (Z.of_nat (length (module_sent w))) /\
  (forall i x, module_sent w !! i = Some x -> x.1 = u64 (Z.of_nat i)).

Lemma module_emit_ok r w : wire_ok w -> wire_ok (module_emit r w).
Proof.
  intros [Hs Hi]. split; simpl.
  - rewrite length_app, Hs. unfold u64. rewrite Zplus_mod_idemp_l. f_equal. simpl. lia.
  - intros i x [Hx|[Hl Hx]]%lookup_app_Some; [by apply Hi|].
    apply list_lookup_singleton_Some in Hx as [Hx <-]. simpl. rewrite Hs. do 2 f_equal. lia.
Qed.

Lemma replay_all_on ms w :
  module_semaphore w = true ->
  let w' := foldl (fun w x => replay_module_callback x w) w ms in
  module_semaphore w' = true /\ map snd (module_sent w') = map snd (module_sent w) ++ ms /\ (wire_ok w -> wire_ok w').
Proof.
  revert w. induction ms as [|m ms IH]; intros w Hw; simpl; [by rewrite app_nil_r|].
  replace (replay_module_callback m w) with (module_emit m w) by (unfold replay_module_callback; by rewrite Hw).
  destruct (IH (module_emit m w) Hw) as (H1 & H2 & H3). split; [done|]. split.
  - rewrite H2. simpl. rewrite map_app, <- app_assoc. done.
  - intros Hok. by apply H3, module_emit_ok.
Qed.

(** The state of the announcer when no consumer has enrolled: [heard] once the
    first tick with a consumer has passed. *)
Record announcer_inv (on heard : bool) (done : list gpu_module_load_v1) (s : announcer) : Prop := {
  an_on : module_semaphore s.2 = on;
  an_log : have_config_ s.1 = false /\ stalls_ s.1 = [] /\ module_fn_ s.1 = Some replay_module_callback;
  an_edge : was_attached_ s.1 = heard;
  an_sent : map snd (module_sent s.2) ++ (if heard then [] else modules_ s.1) ≡ₚ done;
  an_wire : wire_ok s.2;
}.

Definition is_tick (o : module_op) : bool := match o with ReplayTick => true | _ => false end.

Lemma module_step_inv on heard done s o :
  (on = false -> heard = false) -> steady [o] = true -> announcer_inv on heard done s ->
  announcer_inv on (heard || (on && is_tick o)) (done ++ captured [o]) (announcer_step false s o).
Proof.
  destruct s as [l w]. intros Hoh Ho [Hon (Hc & Hs & Hf) He Hsent Hw]. simpl in *.
  destruct o as [mid ns crc p len| |b]; [| |done]; simpl.
  - rewrite andb_false_r, orb_false_r. unfold on_cubin_captured. simpl. rewrite Hon. destruct on; simpl.
    + split; simpl; [done|done|done| |by apply module_emit_ok].
      rewrite map_app, <- Hsent. simpl. destruct heard; [by rewrite !app_nil_r|].
      rewrite <- !app_assoc. apply Permutation_app_head, Permutation_app_comm.
    + rewrite (Hoh eq_refl) in *. split; simpl; [done|done|done| |done]. by rewrite app_assoc, Hsent.
  - rewrite app_nil_r, andb_true_r. unfold consumer_attached, replay_if_newly_attached. simpl. rewrite Hc, Hs, Hf, He, Hon.
    destruct on; cbn [andb]; [|rewrite (Hoh eq_refl) in *; by split].
    destruct heard; cbn [andb negb orb]; [by split|].
    destruct (replay_all_on (modules_ l) w Hon) as (H1 & H2 & H3).
    replace (call_each (stall_fn_ l) [] w) with w by (by destruct (stall_fn_ l)).
    split; simpl; [done|done|done| |by apply H3]. rewrite app_nil_r, H2. done.
Qed.

Lemma module_run_inv on os heard done s :
  (on = false -> heard = false) -> steady os = true -> announcer_inv on heard done s ->
  announcer_inv on (heard || (on && existsb is_tick os)) (done ++ captured os) (module_run false s os).
Proof.
  revert heard done s. induction os as [|o os IH]; intros heard done s Hoh Hst Hi.
  { simpl. by rewrite andb_false_r, orb_false_r, app_nil_r. }
  cbn [module_run foldl].
  assert (Hst' : steady [o] = true /\ steady os = true)
    by (unfold steady in *; simpl in *; apply andb_true_iff in Hst; by rewrite andb_true_r).
  destruct Hst' as [H1 H2]. pose proof (module_step_inv on heard done s o Hoh H1 Hi) as Hi'.
  apply IH in Hi'; [|intros ->; simpl; by rewrite (Hoh eq_refl)|done].
  change (o :: os) with ([o] ++ os). rewrite captured_app, app_assoc. simpl existsb.
  replace (heard || on && (is_tick o || existsb is_tick os))
    with (heard || on && is_tick o || on && existsb is_tick os) by (by destruct heard, on, (is_tick o)).
  done.
Qed.

(** Every module is announced exactly once to the consumer that attaches.
    In a process whose rendezvous found nobody, let modules settle and ticks
    pass in any order before the probe's semaphore arms and after: from the
    first tick after it arms on, the records sent are the settled modules, each
    once, numbered 0, 1, 2, ... without a hole, whether it settled before the
    attach, after it, or between the attach and the tick. *)
Theorem modules_announced_once before after :
  steady before = true -> steady after = true -> existsb is_tick after = true ->
  let w := (module_run false announcer_init (before ++ Semaphore true :: after)).2 in
  map snd (module_sent w) ≡ₚ captured before ++ captured after /\
  (forall i x, module_sent w !! i = Some x -> x.1 = u64 (Z.of_nat i)).
Proof.
  intros Hb Ha Ht w. subst w. unfold module_run. rewrite foldl_app. cbn [foldl].
  assert (H0 : announcer_inv false false [] announcer_init) by (split; simpl; done).
  pose proof (module_run_inv false before false [] _ ltac:(done) Hb H0) as [_ H1 He Hs Hw].
  unfold module_run in *. set (s := foldl _ _ before) in *.
  assert (H2 : announcer_inv true false (captured before) (announcer_step false s (Semaphore true))) by (by split).
  apply (module_run_inv true after) in H2 as [_ _ _ Hs' Hw']; [|done|done].
  unfold module_run in *. rewrite Ht in Hs'. cbn [orb andb] in Hs'. rewrite app_nil_r in Hs'. split; [done|exact (proj2 Hw')].
Qed.

Lemma modules_announced_once_witness :
  let before := [Captured 1 10 100 4096 8; ReplayTick; Captured 2 20 200 8192 8] in
  let after := [Captured 3 30 300 12288 8; ReplayTick; Captured 4 40 400 16384 8; ReplayTick] in
  steady before = true /\ existsb is_tick after = true /\
  map snd (module_sent (module_run false announcer_init (before ++ Semaphore true :: after)).2)
    ≡ₚ captured before ++ captured after.
Proof.
  intros before after. split; [reflexivity|]. split; [reflexivity|].
  exact (proj1 (modules_announced_once before after eq_refl eq_refl eq_refl)).
Defined.

(** When the rendezvous did confirm a consumer, [consumer_attached] holds from
    the start.  A module that settles before the semaphore arms goes to the log,
    and the first tick spends the attach edge on a callback that sends nothing:
    whatever happens afterwards, the module is not announced. *)
Theorem enrolled_module_lost mid ns crc p len later :
  GpuModuleLoad crc mid len ns p ∉ captured later ->
  GpuModuleLoad crc mid len ns p ∉
    map snd (module_sent (module_run true announcer_init (Captured mid ns crc p len :: ReplayTick :: later)).2).
Proof.
  set (r := GpuModuleLoad crc mid len ns p). intros Hl. unfold module_run. cbn [foldl].
  set (s := announcer_step true _ ReplayTick).
  assert (Hs : was_attached_ s.1 = true /\ r ∉ map snd (module_sent s.2)) by (split; [done|by apply not_elem_of_nil]).
  clearbody s. revert s Hs. induction later as [|o later IH]; intros [l w] [Ha Hr]; [done|]. cbn [foldl fst snd] in *.
  assert (Hl' : (r ∉ captured later) /\ (r ∉ captured [o])).
  { change (o :: later) with ([o] ++ later) in Hl. rewrite captured_app, elem_of_app in Hl. tauto. }
  apply IH; [tauto|]. clear IH Hl. destruct Hl' as [_ Ho]. destruct o as [mid' ns' crc' p' len'| |b]; simpl in *.
  - unfold on_cubin_captured. simpl. destruct (module_semaphore w); simpl; [|done]. split; [done|].
    rewrite map_app, elem_of_app. simpl. intros [?|[E|[]%elem_of_nil]%elem_of_cons]; [done|]. apply Ho.
    rewrite E. by apply elem_of_cons; left.
  - unfold replay_if_newly_attached. by rewrite Ha.
  - done.
Qed.

(** The log keeps what it has replayed, so a consumer that detaches and comes
    back is sent the same record again, with the same [bytes_ptr], although the
    tick that sent it first has drained the queue and freed the copy. *)
Theorem reattach_repeats_bytes_ptr mid ns crc p len :
  let r := GpuModuleLoad crc mid len ns p in
  module_sent (module_run false announcer_init
    [Captured mid ns crc p len; Semaphore true; ReplayTick; Semaphore false; ReplayTick; Semaphore true; ReplayTick]).2
  = [(0, r); (1, r)].
Proof. reflexivity. Qed.

(** ** Reports of loss ([emit_dropped], and the graph executions in [on_tick])

    [g_exec_from_graph] only grows (by [handle_kernel]); the timer reports what
    it grew by. *)
Record drop_state := MkDrops {
  drop_semaphore : bool;
  g_dropped_seq : Z;
  drops_sent : list (Z * gpu_dropped_v1);
  g_exec_from_graph : Z;
  g_graph_exec_reported : Z;
}.
Definition drop_init : drop_state := MkDrops false 0 [] 0 0.

Definition emit_dropped (count klass : Z) (s : drop_state) : drop_state :=
  if count =? 0 then s
  else if negb (drop_semaphore s) then s
  else MkDrops (drop_semaphore s) (u64 (g_dropped_seq s + 1))
         (drops_sent s ++ [(g_dropped_seq s, GpuDropped count klass (replicate 7 0))])
         (g_exec_from_graph s) (g_graph_exec_reported s).

(** Lines of [on_tick] between the cubin drain and the tier gate. *)
Definition report_graphs (s : drop_state) : drop_state :=
  let graphs := g_exec_from_graph s in
  let reported := g_graph_exec_reported s in
  if reported <? graphs then
    emit_dropped (u64 (graphs - reported)) GPU_DROP_CLASS_GRAPH_EXEC
      (MkDrops (drop_semaphore s) (g_dropped_seq s) (drops_sent s) graphs graphs)
  else s.

Inductive graph_op := GraphExec | GraphTick | DropSemaphore (on : bool).
Definition graph_step (s : drop_state) (o : graph_op) : drop_state :=
  match o with
  | GraphExec => MkDrops (drop_semaphore s) (g_dropped_seq s) (drops_sent s) (u64 (g_exec_from_graph s + 1))
                   (g_graph_exec_reported s)
  | GraphTick => report_graphs s
  | DropSemaphore on => MkDrops on (g_dropped_seq s) (drops_sent s) (g_exec_from_graph s) (g_graph_exec_reported s)
  end.
Definition graph_run (s : drop_state) (os : list graph_op) : drop_state := foldl graph_step s os.

Definition graph_execs (os : list graph_op) : Z :=
  Z.of_nat (length (List.filter (fun o => match o with GraphExec => true | _ => false end) os)).
(** What a consumer that adds the records up arrives at. *)
Definition drop_total (s : drop_state) : Z := foldr (fun x acc => d_count x.2 + acc) 0 (drops_sent s).
Definition drop_heard (os : list graph_op) : bool :=
  forallb (fun o => match o with DropSemaphore b => b | _ => true end) os.

Lemma drop_total_snoc l x :
  foldr (fun (x : Z * gpu_dropped_v1) acc => d_count x.2 + acc) 0 (l ++ [x]) =
  foldr (fun x acc => d_count x.2 + acc) 0 l + d_count x.2.
Proof. induction l as [|y l IH]; simpl; [lia|]. rewrite IH. lia. Qed.

(** With a consumer attached: [lost] executions will never be on the wire. *)
Record graph_inv (lost execs : Z) (s : drop_state) : Prop := {
  gi_sem : drop_semaphore s = true;
  gi_execs : g_exec_from_graph s = execs;
  gi_reported : 0 <= g_graph_exec_reported s <= execs;
  gi_total : drop_total s + lost = g_graph_exec_reported s;
}.

Lemma report_graphs_inv lost execs s :
  execs < 2 ^ 64 -> graph_inv lost execs s ->
  graph_inv lost execs (report_graphs s) /\ g_graph_exec_reported (report_graphs s) = execs.
Proof.
  intros Hb [Hs He Hr Ht]. unfold report_graphs. rewrite He.
  destruct (Z.ltb_spec (g_graph_exec_reported s) execs) as [Hlt|]; [|by split; [split|lia]].
  unfold emit_dropped. rewrite u64_small by (unfold is_u64; lia).
  rewrite (proj2 (Z.eqb_neq _ _)) by lia. simpl drop_semaphore. rewrite Hs. cbn [negb]. split; [|done].
  split; simpl; [done|done|lia|]. unfold drop_total in *. simpl. rewrite drop_total_snoc. simpl. lia.
Qed.

Lemma graph_run_inv os lost execs s :
  drop_heard os = true -> execs + graph_execs os < 2 ^ 64 -> graph_inv lost execs s ->
  graph_inv lost (execs + graph_execs os) (graph_run s os).
Proof.
  revert execs s. induction os as [|o os IH]; intros execs s Hh Hb Hi; [by rewrite Z.add_0_r|].
  apply andb_true_iff in Hh as [Ho Hh]. assert (Hge : 0 <= graph_execs os) by (unfold graph_execs; lia).
  destruct o as [| |b]; cbn [graph_run foldl].
  - assert (E : execs + graph_execs (GraphExec :: os) = execs + 1 + graph_execs os)
      by (unfold graph_execs; simpl length; lia).
    rewrite E in *. apply IH; [done|done|]. destruct Hi as [Hs He Hr Ht].
    split; simpl; [done| |lia|done]. rewrite He, u64_small by (unfold is_u64; lia). done.
  - apply IH; [done|done|]. by apply report_graphs_inv; [unfold graph_execs in *; simpl in *; lia|].
  - destruct b; [|done]. apply IH; [done|done|]. destruct Hi. by split.
Qed.

(** Graph executions are reported as a delta.  With a consumer attached,
    after any interleaving of executions and ticks the counts on the wire add up
    to no more than the executions seen, and after one more tick to exactly
    these. *)
Theorem graph_deltas_sum os :
  drop_heard os = true -> graph_execs os < 2 ^ 64 ->
  let s := graph_run drop_init (DropSemaphore true :: os) in
  drop_total s <= graph_execs os /\ drop_total (report_graphs s) = graph_execs os.
Proof.
  intros Hh Hb s. assert (Hi : graph_inv 0 (0 + graph_execs os) s) by (apply (graph_run_inv os 0 0 (MkDrops true 0 [] 0 0)); [done|done|by split]).
  destruct (report_graphs_inv _ _ _ Hb Hi) as [[] E], Hi. split; lia.
Qed.

Lemma graph_deltas_sum_witness :
  let os := [GraphExec; GraphExec; GraphTick; GraphExec; GraphTick; GraphTick; GraphExec] in
  drop_heard os = true /\ drop_total (report_graphs (graph_run drop_init (DropSemaphore true :: os))) = 4.
Proof. intros os. split; [reflexivity|]. exact (proj2 (graph_deltas_sum os eq_refl ltac:(vm_compute; done))). Defined.

Lemma unheard_execs n : Z.of_nat n < 2 ^ 64 ->
  graph_run drop_init (replicate n GraphExec) = MkDrops false 0 [] (Z.of_nat n) 0.
Proof.
  induction n as [|n IH]; intros Hb; [done|]. replace (S n) with (n + 1)%nat at 1 by lia.
  unfold graph_run in *. rewrite replicate_add, foldl_app, IH by lia. simpl. f_equal.
  rewrite u64_small by (unfold is_u64; lia). lia.
Qed.

(** A tick without a consumer marks the executions so far as reported and sends
    nothing: however many ticks follow, the wire is short by these. *)
Theorem graph_execs_unheard_lost (n : nat) os :
  drop_heard os = true -> Z.of_nat n + graph_execs os < 2 ^ 64 ->
  let s := graph_run drop_init (replicate n GraphExec ++ GraphTick :: DropSemaphore true :: os) in
  drop_total (report_graphs s) = graph_execs os /\ g_exec_from_graph s = Z.of_nat n + graph_execs os.
Proof.
  intros Hh Hb s. assert (Hge : 0 <= graph_execs os) by (unfold graph_execs; lia).
  assert (Hi : graph_inv (Z.of_nat n) (Z.of_nat n + graph_execs os) s).
  { subst s. unfold graph_run. rewrite foldl_app. fold (graph_run drop_init (replicate n GraphExec)).
    rewrite unheard_execs by lia. cbn [foldl]. apply (graph_run_inv os); [done|done|]. unfold graph_step, report_graphs, emit_dropped. simpl.
    destruct (Z.ltb_spec 0 (Z.of_nat n)); [|split; simpl; unfold drop_total; simpl; done || lia].
    by case_match; split; simpl; unfold drop_total; simpl; done || lia. }
  destruct (report_graphs_inv _ _ _ Hb Hi) as [[] E], Hi. split; lia.
Qed.
