(* ===== verification/Modules.v ===== *)
(** * Modules: from the callback of a loaded module to the consumer

    Composes, as src/shim/nvidia/cupti_adapter.cc does, the cubin queue
    (CubinQueue) with the announcements (Adapter): [on_module_loaded] copies on
    the application's threads, and the module half of [on_tick] settles, replays
    and drains on the timer thread.  The semaphore of the module probe, which the
    kernel arms when a consumer attaches, is read afresh by each of them. *)
From S2P Require Import Prelude Tables GpuUsdt Abi Batch CubinQueue Replay Adapter.

(** Where the timer is in the module half of [on_tick]. *)
Inductive tick_pc := TIdle | TSettle | TReplay | TGate | TDrain.
#[global] Instance tick_pc_eq_dec : EqDecision tick_pc.
Proof. solve_decision. Defined.

Record modules := MkModules {
  g_cubins : queue;
  ann : announcer;
  tick : tick_pc;
  g_module_no_bytes : Z;
  g_module_retained : Z;
}.
Definition modules_init : modules := MkModules queue_init announcer_init TIdle 0 0.

Definition set_cubins (q : queue) (s : modules) : modules :=
  MkModules q (ann s) (tick s) (g_module_no_bytes s) (g_module_retained s).
Definition set_ann (a : announcer) (s : modules) : modules :=
  MkModules (g_cubins s) a (tick s) (g_module_no_bytes s) (g_module_retained s).
Definition set_tick (p : tick_pc) (s : modules) : modules :=
  MkModules (g_cubins s) (ann s) p (g_module_no_bytes s) (g_module_retained s).

Section Modules.
  Context (lim : CubinQueueLimits) (crc : list Z -> Z) (g_consumer_enrolled : bool).

Definition attached_now (s : modules) : bool := consumer_attached g_consumer_enrolled (ann s).2.

(** [on_module_loaded] up to the copy, on thread [t].  [pCubin] is [None] for a
    null descriptor or a null pointer, and otherwise the vendor's bytes. *)
Definition on_module_loaded (t : nat) (pCubin : cubin_view) (moduleId now : Z) (alloc_ok : bool) (s : modules) : option modules :=
  if view_empty pCubin
  then Some (MkModules (g_cubins s) (ann s) (tick s) (u64 (g_module_no_bytes s + 1)) (g_module_retained s))
  else
    let s := if attached_now s then s
             else MkModules (g_cubins s) (ann s) (tick s) (g_module_no_bytes s) (u64 (g_module_retained s + 1)) in
    q ← qnext lim crc (g_cubins s) (Capture t pCubin moduleId now alloc_ok); Some (set_cubins q s).

(** [on_cubin_captured] runs inside [settle], right after the key was computed. *)
Definition told_by (q q' : queue) (a : announcer) : announcer :=
  match settling q, settling q' with
  | SHeld _ _ _, SKeyed _ _ e =>
      Adapter.on_cubin_captured (en_module_id e) (en_load_ns e) (en_crc e) (Z.of_nat (en_bytes e)) (en_len e) a
  | _, _ => a
  end.

(** The next operation of the timer thread; [accepted] is whether an offer is. *)
Definition tick_step (accepted : bool) (s : modules) : option modules :=
  match tick s with
  | TIdle => q ← qnext lim crc (g_cubins s) SettleBegin; Some (set_tick TSettle (set_cubins q s))
  | TSettle =>
      match settling (g_cubins s) with
      | SIdle => Some (set_tick TReplay s)
      | _ => q ← qnext lim crc (g_cubins s) Settle; Some (set_ann (told_by (g_cubins s) q (ann s)) (set_cubins q s))
      end
  | TReplay => Some (set_tick TGate (set_ann (replay_if_newly_attached (attached_now s) (ann s).1 (ann s).2) s))
  | TGate =>
      if attached_now s then q ← qnext lim crc (g_cubins s) (DrainBegin 0%nat); Some (set_tick TDrain (set_cubins q s))
      else Some (set_tick TIdle s)
  | TDrain =>
      match draining (g_cubins s) !! 0%nat with
      | None => Some (set_tick TIdle s)
      | Some _ => q ← qnext lim crc (g_cubins s) (CubinQueue.Drain 0%nat accepted); Some (set_cubins q s)
      end
  end.

Inductive module_step :=
| Loaded (t : nat) (pCubin : cubin_view) (moduleId now : Z) (alloc_ok : bool)
| Parked (t : nat)
| Armed (on : bool)
| Timer (accepted : bool).

Definition mnext (s : modules) (o : module_step) : option modules :=
  match o with
  | Loaded t v m now ok => on_module_loaded t v m now ok s
  | Parked t => q ← qnext lim crc (g_cubins s) (Park t); Some (set_cubins q s)
  | Armed on => Some (set_ann (announcer_step g_consumer_enrolled (ann s) (Semaphore on)) s)
  | Timer accepted => tick_step accepted s
  end.
Fixpoint mrun (s : modules) (l : list module_step) : option modules :=
  match l with [] => Some s | o :: l' => s' ← mnext s o; mrun s' l' end.

(** The consumer does not leave, and does not arrive between a tick's replay and
    its decision to drain. *)
Fixpoint calm (s : modules) (l : list module_step) : bool :=
  match l with
  | [] => true
  | o :: l' =>
      match o with Armed on => on && negb (bool_decide (tick s = TGate)) | _ => true end &&
      match mnext s o with Some s' => calm s' l' | None => true end
  end.
End Modules.

(** ** Told before offered *)

Lemma keyed_step lim crc q q' o e :
  qnext lim crc q o = Some q' -> e ∈ keyed q' ->
  e ∈ keyed q \/ exists d b e0, settling q = SHeld d b e0 /\ settling q' = SKeyed d b e.
Proof.
  intros Hs He. destruct o as [t v m ns ok|t| | |t|t ok]; simpl in Hs.
  - left. destruct (capturing q !! t); [done|]. injection Hs as <-. unfold capture_copy in He.
    destruct (view_empty v); [done|]. destruct (_ <? view_size v); [done|]. destruct ok; [|done]. simpl in He. by destruct (copy_to _ _).
  - left. destruct (capturing q !! t); [|done]. injection Hs as <-. unfold capture_park in He. by destruct (_ || _).
  - left. destruct (settling q) eqn:E; try done. injection Hs as <-. unfold keyed in *. by rewrite E.
  - destruct (settling q) as [|d b|d b x|d b x|d b x] eqn:E; try done; injection Hs as <-.
    + left. unfold settle_pop, keyed in *. rewrite E. destruct (d <? b)%nat; [destruct (pending_ q)|]; done.
    + unfold settle_key in *. destruct (crc _ =? 0); [left; unfold keyed in *; by rewrite E|].
      destruct (bool_decide _); [left; unfold keyed in *; by rewrite E|]. simpl in *. unfold keyed in He. simpl in He.
      rewrite !elem_of_app, list_elem_of_singleton in He. unfold keyed. rewrite E. simpl. rewrite !elem_of_app.
      destruct He as [He|[He| ->]]; [by left; left|by left; right; left|]. right. by exists d, b, x.
    + left. unfold settle_push in He. destruct (_ || _); unfold keyed in *; rewrite E; simpl in *; rewrite !elem_of_app in *; set_solver.
    + left. unfold settle_note, keyed in *. rewrite E. destruct (_ <? _); done.
  - left. destruct (draining q !! t) eqn:E; [done|]. injection Hs as <-. unfold keyed in *. simpl in He.
    by rewrite (hands_insert drain_hand _ _ _ E) in He.
  - left. destruct (draining q !! t) as [[d b|d b x]|] eqn:E; [| |done]; injection Hs as <-; unfold keyed in *.
    + unfold drain_pop in He. pose proof (hands_delete drain_hand _ _ _ E) as Hd. simpl in Hd.
      destruct (d <? b)%nat; [destruct (q_ q) as [|y rest] eqn:Eq|]; simpl in He; rewrite ?Eq in He.
      * by rewrite Hd in He.
      * pose proof (hands_update drain_hand _ _ _ (DHeld d b y) E) as Hu. simpl in Hu.
        rewrite Hu in He. rewrite !elem_of_app, !elem_of_cons in *. tauto.
      * by rewrite Hd in He.
    + simpl in He. pose proof (hands_update drain_hand _ _ _ (DLoop (S d) b) E) as Hu. simpl in Hu.
      rewrite <- Hu, !elem_of_app, elem_of_cons. rewrite !elem_of_app in He. tauto.
Qed.

Lemma offered_step lim crc q q' o x :
  qnext lim crc q o = Some q' -> x ∈ offered q' ->
  x ∈ offered q \/ exists t ok e, o = CubinQueue.Drain t ok /\ e ∈ keyed q /\ x.1 = en_crc e.
Proof.
  intros Hs Hx. destruct o as [t v m ns ok|t| | |t|t ok]; simpl in Hs.
  - left. destruct (capturing q !! t); [done|]. injection Hs as <-. unfold capture_copy in Hx.
    destruct (view_empty v); [done|]. destruct (_ <? view_size v); [done|]. destruct ok; [|done]. simpl in Hx. by destruct (copy_to _ _).
  - left. destruct (capturing q !! t); [|done]. injection Hs as <-. unfold capture_park in Hx. by destruct (_ || _).
  - left. destruct (settling q); try done. by injection Hs as <-.
  - left. destruct (settling q) as [|d b|d b y|d b y|d b y]; try done; injection Hs as <-;
      unfold settle_pop, settle_key, settle_push, settle_note in Hx; repeat case_match; done.
  - left. destruct (draining q !! t); [done|]. by injection Hs as <-.
  - destruct (draining q !! t) as [[d b|d b e]|] eqn:E; [| |done]; injection Hs as <-.
    + left. unfold drain_pop in Hx. by repeat case_match.
    + simpl in Hx. apply elem_of_app in Hx as [Hx|Hx]; [by left|]. apply list_elem_of_singleton in Hx as ->. right.
      exists t, ok, e. split_and!; [done| |done]. unfold keyed. apply elem_of_app. left.
      pose proof (hands_delete drain_hand _ _ _ E) as Hd. rewrite <- Hd. by left.
Qed.

Definition sent (s : modules) : list gpu_module_load_v1 := map snd (module_sent (ann s).2).

(** Every copy with a key was handed to [on_cubin_captured]; every code offered
    was announced; once a replay saw the consumer, nothing is held back. *)
Record told_inv (s : modules) : Prop := {
  ti_keyed : forall e, e ∈ keyed (g_cubins s) -> exists r, r ∈ sent s ++ modules_ (ann s).1 /\ m_cubin_crc r = en_crc e;
  ti_offered : forall x, x ∈ offered (g_cubins s) -> exists r, r ∈ sent s /\ m_cubin_crc r = x.1;
  ti_on : was_attached_ (ann s).1 = true -> module_semaphore (ann s).2 = true;
  ti_replayed : was_attached_ (ann s).1 = true -> forall r, r ∈ modules_ (ann s).1 -> r ∈ sent s;
  ti_gate : tick s = TGate -> module_semaphore (ann s).2 = true -> was_attached_ (ann s).1 = true;
  ti_drain : tick s = TDrain -> was_attached_ (ann s).1 = true;
  ti_log : have_config_ (ann s).1 = false /\ stalls_ (ann s).1 = [] /\ module_fn_ (ann s).1 = Some replay_module_callback;
}.

(** A step of the queue alone. *)
Lemma queue_told lim crc s q o :
  told_inv s -> qnext lim crc (g_cubins s) o = Some q ->
  (forall d b e0 e, settling (g_cubins s) = SHeld d b e0 -> settling q <> SKeyed d b e) ->
  (tick s = TDrain \/ forall t ok, o <> CubinQueue.Drain t ok) -> told_inv (set_cubins q s).
Proof.
  intros [K O N R G D L] Hs Hk Hd. split; try done.
  - intros e He. destruct (keyed_step lim crc _ _ _ e Hs He) as [He'|(d & b & e0 & E1 & E2)]; [by apply K|by destruct (Hk d b e0 e)].
  - intros x Hx. destruct (offered_step lim crc _ _ _ x Hs Hx) as [Hx'|(t & ok & e & -> & He & Ex)]; [by apply O|].
    destruct Hd as [Ht|Hd]; [|by destruct (Hd t ok)]. destruct (K e He) as (r & Hr & Er). rewrite Ex. exists r. split; [|done].
    apply elem_of_app in Hr as [Hr|Hr]; [done|]. by apply R; [apply D|].
Qed.

(** The log takes the record, or the wire does. *)
Lemma settle_told lim crc s q :
  told_inv s -> qnext lim crc (g_cubins s) Settle = Some q ->
  told_inv (set_ann (told_by (g_cubins s) q (ann s)) (set_cubins q s)).
Proof.
  intros Hi Hs. destruct (settling (g_cubins s)) as [|d b|d b e0|d b e0|d b e0] eqn:E1; try (by simpl in Hs; rewrite E1 in Hs).
  all: try (unfold told_by; rewrite E1; apply (queue_told lim crc s q Settle); try done; [congruence|by right]).
  destruct (settling q) as [|d' b'|d' b' e'|d' b' e|d' b' e'] eqn:E2;
    try (unfold told_by; rewrite E1, E2; apply (queue_told lim crc s q Settle); try done; [congruence|by right]).
  unfold told_by. rewrite E1, E2. destruct Hi as [K O N R G D L].
  assert (Ho : offered q = offered (g_cubins s)).
  { simpl in Hs. rewrite E1 in Hs. injection Hs as <-. unfold settle_key. by repeat case_match. }
  set (r := GpuModuleLoad (en_crc e) (en_module_id e) (en_len e) (en_load_ns e) (Z.of_nat (en_bytes e))).
  assert (K' : forall x, x ∈ keyed q -> x = e \/ exists y, y ∈ sent s ++ modules_ (ann s).1 /\ m_cubin_crc y = en_crc x).
  { intros x Hx. destruct (keyed_step lim crc _ _ _ x Hs Hx) as [Hx'|(? & ? & ? & _ & Ex)]; [right; by apply K|]. left. congruence. }
  unfold Adapter.on_cubin_captured. fold r. destruct (module_semaphore (ann s).2) eqn:Em; split; simpl; try done; unfold sent in *; simpl.
  - intros x Hx. rewrite map_app. simpl. destruct (K' x Hx) as [->|(y & Hy & Ey)].
    + exists r. split; [|done]. rewrite !elem_of_app, list_elem_of_singleton. tauto.
    + exists y. split; [|done]. rewrite !elem_of_app in *. tauto.
  - rewrite Ho. intros x Hx. destruct (O x Hx) as (y & Hy & Ey). exists y. split; [|done]. rewrite map_app, elem_of_app. tauto.
  - intros Hw y Hy. rewrite map_app, elem_of_app. left. by apply R.
  - intros Ht _. by apply G.
  - intros x Hx. destruct (K' x Hx) as [->|(y & Hy & Ey)].
    + exists r. split; [|done]. rewrite !elem_of_app, list_elem_of_singleton. tauto.
    + exists y. split; [|done]. rewrite !elem_of_app in *. tauto.
  - by rewrite Ho.
  - intros Hw. apply N in Hw. congruence.
  - intros Hw. apply N in Hw. congruence.
  - congruence.
Qed.

Lemma replay_tells_modules s :
  told_inv s -> told_inv (set_tick TGate (set_ann (replay_if_newly_attached (attached_now false s) (ann s).1 (ann s).2) s)).
Proof.
  intros [K O N R G D (L1 & L2 & L3)]. unfold attached_now, consumer_attached. simpl.
  unfold replay_if_newly_attached. rewrite L1, L2, L3. cbn [call_each foldl].
  replace (call_each (stall_fn_ (ann s).1) [] (ann s).2) with (ann s).2 by (by destruct (stall_fn_ (ann s).1)).
  destruct (module_semaphore (ann s).2) eqn:Em; cbn [andb].
  - destruct (was_attached_ (ann s).1) eqn:Ew; cbn [negb]; [split; simpl; auto; intros; congruence|].
    destruct (replay_all_on (modules_ (ann s).1) (ann s).2 Em) as (H1 & H2 & _). split; simpl; unfold sent; simpl; try done.
    + intros e He. rewrite H2. destruct (K e He) as (r & Hr & Er). exists r. split; [|done]. unfold sent in Hr. rewrite !elem_of_app in *. tauto.
    + intros x Hx. rewrite H2. destruct (O x Hx) as (r & Hr & Er). exists r. split; [|done]. apply elem_of_app. by left.
    + intros _ r Hr. rewrite H2. apply elem_of_app. by right.
  - split; simpl; try done. by rewrite Em.
Qed.

Lemma capture_copy_settling lim t v m now ok q : settling (capture_copy lim t v m now ok q) = settling q.
Proof.
  unfold capture_copy. destruct (view_empty v); [done|]. destruct (_ <? view_size v); [done|]. destruct ok; [|done].
  simpl. by destruct (copy_to _ _).
Qed.

Lemma mnext_told lim crc s o s' :
  told_inv s -> mnext lim crc false s o = Some s' ->
  match o with Armed on => on = true /\ tick s <> TGate | _ => True end -> told_inv s'.
Proof.
  intros Hi Hs Hc. destruct o as [t v m now ok|t|on|ok]; cbn [mnext] in Hs.
  - unfold on_module_loaded in Hs. destruct (view_empty v); [injection Hs as <-; by destruct Hi|].
    set (s1 := if attached_now false s then s else _) in Hs. assert (H1 : told_inv s1) by (unfold s1; destruct (attached_now false s); by destruct Hi).
    apply bind_Some in Hs as (q & Eq & [= <-]). eapply (queue_told lim crc s1); [done|exact Eq| |by right].
    intros d b e0 e E1 E2. simpl in Eq. destruct (capturing _ !! t); [done|]. injection Eq as <-.
    rewrite capture_copy_settling in E2. congruence.
  - apply bind_Some in Hs as (q & Eq & [= <-]). eapply (queue_told lim crc s); [done|exact Eq| |by right].
    intros d b e0 e E1 E2. simpl in Eq. destruct (capturing _ !! t); [|done]. injection Eq as <-. unfold capture_park in E2.
    repeat case_match; simpl in *; congruence.
  - injection Hs as <-. destruct Hc as [-> Hg]. destruct Hi as [K O N R G D L]. by split.
  - unfold tick_step in Hs. destruct (tick s) eqn:Et.
    + apply bind_Some in Hs as (q & Eq & [= <-]). assert (Hi' : told_inv (set_cubins q s)).
      { eapply (queue_told lim crc s); [done|exact Eq| |by right]. intros d b e0 e E1. simpl in Eq. by rewrite E1 in Eq. }
      destruct Hi'. by split.
    + assert (Hset : forall q, qnext lim crc (g_cubins s) Settle = Some q -> told_inv (set_ann (told_by (g_cubins s) q (ann s)) (set_cubins q s)))
        by (intros q; by apply settle_told).
      destruct (settling (g_cubins s)) eqn:Es; [injection Hs as <-; destruct Hi; by split|..];
        apply bind_Some in Hs as (q & Eq & [= <-]); by apply Hset.
    + injection Hs as <-. by apply replay_tells_modules.
    + destruct (attached_now false s) eqn:Ea; [|injection Hs as <-; destruct Hi; by split].
      apply bind_Some in Hs as (q & Eq & [= <-]). assert (Hi' : told_inv (set_cubins q s)).
      { eapply (queue_told lim crc s); [done|exact Eq| |by right]. intros d b e0 e E1 E2. simpl in Eq.
        destruct (draining _ !! _); [done|]. injection Eq as <-. simpl in E2. congruence. }
      destruct Hi' as [K O N R G D L]. split; try done. intros _. by apply G.
    + destruct (draining (g_cubins s) !! 0%nat) as [x|] eqn:Ed; [|injection Hs as <-; destruct Hi; by split].
      apply bind_Some in Hs as (q & Eq & [= <-]). eapply (queue_told lim crc s); [done|exact Eq| |by left].
      intros d b e0 e E1 E2. simpl in Eq. rewrite Ed in Eq. destruct x; injection Eq as <-; simpl in E2;
        [unfold drain_pop in E2; repeat case_match; simpl in *; congruence|congruence].
Qed.

Lemma mrun_told lim crc l s s' :
  told_inv s -> mrun lim crc false s l = Some s' -> calm lim crc false s l = true -> told_inv s'.
Proof.
  revert s. induction l as [|o l IH]; intros s Hi Hr Hc; [by injection Hr as <-|]. simpl in Hr, Hc.
  apply bind_Some in Hr as (s1 & E & Hr). rewrite E in Hc. apply andb_true_iff in Hc as [Hc1 Hc2].
  apply (IH s1); try done. eapply mnext_told; [done|exact E|]. destruct o; try done.
  apply andb_true_iff in Hc1 as [H1 H2]. split; [done|]. by apply negb_true_iff, bool_decide_eq_false in H2.
Qed.

(** C21: The consumer hears of a module before it is handed its code.  In a process
    whose rendezvous found nobody, let modules be loaded on any threads, the timer
    tick and the consumer attach in any interleaving of the individual operations
    on the queue, the log and the probe: whenever the code of a module has been
    offered, the record with its CRC is already on the wire, and no copy that
    waits in the queue is unknown to both the wire and the replay log.  This is
    under two conditions on the consumer, both in [calm]: it does not leave, and
    it does not attach in the instant between a tick's replay and its decision to
    drain, where the code does offer a module untold
    ([attach_at_gate_offers_untold]). *)
Theorem modules_told_before_offered lim crc l s :
  mrun lim crc false modules_init l = Some s -> calm lim crc false modules_init l = true ->
  (forall c bs, (c, bs) ∈ offered (g_cubins s) -> exists r, r ∈ sent s /\ m_cubin_crc r = c) /\
  (forall e, e ∈ q_ (g_cubins s) -> exists r, r ∈ sent s ++ modules_ (ann s).1 /\ m_cubin_crc r = en_crc e).
Proof.
  intros Hr Hc. assert (H0 : told_inv modules_init).
  { split; try done; intros x Hx; by apply not_elem_of_nil in Hx. }
  pose proof (mrun_told lim crc l _ s H0 Hr Hc) as [K O _ _ _ _ _]. split.
  - intros c bs Hx. apply (O (c, bs) Hx).
  - intros e He. apply K. unfold keyed. rewrite !elem_of_app. tauto.
Qed.

(** *** Two loads, an attach, the tick that tells and hands over *)

Definition demo_crc (bs : list Z) : Z := foldr Z.add 1 bs.
Definition demo_loads : list module_step :=
  [Loaded 5 (Some [7; 8]) 1 100 true; Parked 5; Loaded 6 None 2 110 true].
Definition demo_modules_steps (attach_at : nat) (n : nat) : list module_step :=
  demo_loads ++ replicate attach_at (Timer true) ++ Armed true :: replicate n (Timer true).
Definition demo_modules (attach_at n : nat) : modules :=
  default modules_init (mrun default_limits demo_crc false modules_init (demo_modules_steps attach_at n)).

Lemma demo_modules_runs :
  match mrun default_limits demo_crc false modules_init (demo_modules_steps 6 7) with Some _ => true | None => false end = true.
Proof. vm_compute. reflexivity. Qed.
Lemma demo_modules_run : mrun default_limits demo_crc false modules_init (demo_modules_steps 6 7) = Some (demo_modules 6 7).
Proof. unfold demo_modules. generalize demo_modules_runs. by destruct (mrun default_limits demo_crc false modules_init (demo_modules_steps 6 7)). Qed.

Lemma modules_told_before_offered_witness :
  (16, [7; 8]) ∈ offered (g_cubins (demo_modules 6 7)) /\ exists r, r ∈ sent (demo_modules 6 7) /\ m_cubin_crc r = 16.
Proof.
  assert (Hin : (16, [7; 8]) ∈ offered (g_cubins (demo_modules 6 7))).
  { assert (E : offered (g_cubins (demo_modules 6 7)) = [(16, [7; 8])]) by (vm_compute; reflexivity). rewrite E. by left. }
  split; [exact Hin|].
  exact (proj1 (modules_told_before_offered default_limits demo_crc (demo_modules_steps 6 7) (demo_modules 6 7) demo_modules_run
    ltac:(vm_compute; reflexivity)) 16 [7; 8] Hin).
Defined.

(** The instant the theorem leaves out: a consumer that attaches between the replay
    and the decision to drain is handed the code of a module it was never told
    of, and the next tick announces the module with the address of a copy that
    has been freed. *)
Theorem attach_at_gate_offers_untold :
  offered (g_cubins (demo_modules 8 4)) = [(16, [7; 8])] /\ sent (demo_modules 8 4) = [] /\
  exists r, sent (demo_modules 8 9) = [r] /\ m_cubin_crc r = 16 /\
    h_blocks (mem (g_cubins (demo_modules 8 9))) !! Z.to_nat (m_bytes_ptr r) = None.
Proof. split; [vm_compute; reflexivity|]. split; [vm_compute; reflexivity|]. eexists. split; [vm_compute; reflexivity|]. split; vm_compute; reflexivity. Qed.
