(* ===== verification/PcSampling.v ===== *)
(** * PcSampling: pulling PC samples out of CUPTI

    Models, of src/shim/nvidia/cupti_adapter.cc, a context's buffer
    ([pc_setup_buffer]), the drain of one context ([pc_drain_ctx_locked]) and of
    all of them ([pc_drain_all]).  CUPTI is a
    parameter: [getdata n] is what the [n]-th call of cuptiPCSamplingGetData
    answers, with the contents of the client's buffer after it; [sem n] is what
    the [n]-th reading of a probe's semaphore finds. *)
From S2P Require Import Prelude Tables GpuUsdt Abi Batch Timers Adapter.

(** CUpti_PCSamplingPCData; a stall reason is its index and its samples. *)
Record pc_data := PcData {
  pd_cubinCrc : Z; pd_pcOffset : Z; pd_functionIndex : Z; pd_correlationId : Z;
  pd_stallReasonCount : nat; pd_stallReason : list (Z * Z);
}.
(** CUpti_PCSamplingData *)
Record sampling_data := SamplingData {
  totalNumPcs : nat; remainingNumPcs : nat;
  droppedSamples : Z; totalSamples : Z; nonUsrKernelsTotalSamples : Z;
  hardwareBufferFull : bool; pPcData : list pc_data;
}.
Inductive getdata_result := GdOutOfMemory | GdError | GdSuccess (d : sampling_data).

Definition kPCMaxDrainRounds : nat := 64.

Inductive pc_counter :=
| g_pc_getdata_calls | g_pc_buffer_full | g_pc_getdata_failed | g_pc_dropped_hw | g_pc_non_user
| g_pc_total_samples | g_pc_pcs | g_pc_zero_stall | g_pc_emitted_counts | g_pc_records
| g_pc_unattached | g_pc_drain_rounds_capped.
#[global] Instance pc_counter_eq_dec : EqDecision pc_counter.
Proof. solve_decision. Defined.

(** The client-owned memory CUPTI writes into: for each entry of [pcs] where its
    [stallReason] points in [stalls], the length of [stalls], and the
    [collectNumPcs] of the data header that names them. *)
Record pc_buffer := PcBuffer { buf_pcs : list nat; buf_stalls : nat; buf_collectNumPcs : nat }.

Definition pc_setup_buffer (g_pc_collect_num_pcs g_num_stall_reasons : nat) : pc_buffer :=
  PcBuffer (map (fun i => i * g_num_stall_reasons)%nat (seq 0 g_pc_collect_num_pcs))
    (g_pc_collect_num_pcs * g_num_stall_reasons) g_pc_collect_num_pcs.

Record PCContext := MkPCContext {
  pc_ctx : Z; pc_buf : pc_buffer; last_dropped : Z; last_non_user : Z; pc_enabled : bool;
}.

Record pc_state := MkPc {
  pc_cnt : pc_counter -> Z;
  g_pcb : Batch_t (T := gpu_pc_sample_batch_v1);
  pc_fires : list (fire gpu_pc_sample_batch_v1);
  pc_drops : drop_state;
  pc_calls : nat;
  pc_reads : nat;
}.

Definition pc_count (c : pc_counter) (d : Z) (s : pc_state) : pc_state :=
  MkPc (fun c' => if bool_decide (c' = c) then u64 (pc_cnt s c' + d) else pc_cnt s c')
    (g_pcb s) (pc_fires s) (pc_drops s) (pc_calls s) (pc_reads s).

(** The wire record of a (PC, stall reason) pair. *)
Definition pc_record (pc : pc_data) (sr : Z * Z) : gpu_pc_sample_batch_v1 :=
  GpuPcSample (pd_cubinCrc pc) (pd_correlationId pc) (pd_pcOffset pc) (pd_functionIndex pc) sr.1 sr.2 0.

Section Drain.
  Context (getdata : nat -> getdata_result) (sem : nat -> bool).
  Context (g_pc_collect_num_pcs g_num_stall_reasons : nat).

Definition pc_emit_dropped (count klass : Z) (s : pc_state) : pc_state :=
  let d := pc_drops s in
  MkPc (pc_cnt s) (g_pcb s) (pc_fires s)
    (emit_dropped count klass
       (MkDrops (sem (pc_reads s)) (g_dropped_seq d) (drops_sent d) (g_exec_from_graph d) (g_graph_exec_reported d)))
    (pc_calls s) (S (pc_reads s)).

(** [if (g_pcb->add(r)) g_pc_records++; else g_pc_unattached++;] *)
Definition pc_add (r : gpu_pc_sample_batch_v1) (s : pc_state) : pc_state :=
  let '(ok, (b, fs)) := add 32 log_emit r (sem (pc_reads s)) (sem (S (pc_reads s))) (g_pcb s) (pc_fires s) in
  pc_count (if ok then g_pc_records else g_pc_unattached) 1
    (MkPc (pc_cnt s) b fs (pc_drops s) (pc_calls s) (S (S (pc_reads s)))).

Definition pc_pair (pc : pc_data) (s : pc_state) (sr : Z * Z) : pc_state :=
  if sr.2 =? 0 then pc_count g_pc_zero_stall 1 s
  else pc_add (pc_record pc sr) (pc_count g_pc_emitted_counts sr.2 s).

Definition pc_one (s : pc_state) (pc : pc_data) : pc_state :=
  let nst := Nat.min (pd_stallReasonCount pc) g_num_stall_reasons in
  foldl (pc_pair pc) s (take nst (pd_stallReason pc)).

(** The body of a round after a successful call. *)
Definition pc_take_data (d : sampling_data) (c : PCContext) (s : pc_state) : PCContext * pc_state :=
  let s := if hardwareBufferFull d
           then pc_emit_dropped 1 GPU_DROP_CLASS_PC_BUFFER_FULL (pc_count g_pc_buffer_full 1 s) else s in
  let '(c, s) :=
    if last_dropped c <? droppedSamples d then
      let x := u64 (droppedSamples d - last_dropped c) in
      (MkPCContext (pc_ctx c) (pc_buf c) (droppedSamples d) (last_non_user c) (pc_enabled c),
       pc_emit_dropped x GPU_DROP_CLASS_PC_DROPPED_HW (pc_count g_pc_dropped_hw x s))
    else (c, s) in
  let '(c, s) :=
    if last_non_user c <? nonUsrKernelsTotalSamples d then
      let x := u64 (nonUsrKernelsTotalSamples d - last_non_user c) in
      (MkPCContext (pc_ctx c) (pc_buf c) (last_dropped c) (nonUsrKernelsTotalSamples d) (pc_enabled c),
       pc_emit_dropped x GPU_DROP_CLASS_PC_NON_USER_KERNEL (pc_count g_pc_non_user x s))
    else (c, s) in
  let s := pc_count g_pc_total_samples (totalSamples d) s in
  let npcs := Nat.min (totalNumPcs d) g_pc_collect_num_pcs in
  let s := pc_count g_pc_pcs (Z.of_nat npcs) s in
  (c, foldl pc_one s (take npcs (pPcData d))).

(** The rounds that are left; the last of them is the one that is counted when
    CUPTI still has data. *)
Fixpoint pc_rounds (left : nat) (c : PCContext) (s : pc_state) : PCContext * pc_state :=
  match left with
  | O => (c, s)
  | S left' =>
      let answer := getdata (pc_calls s) in
      let s := pc_count g_pc_getdata_calls 1 s in
      let s := MkPc (pc_cnt s) (g_pcb s) (pc_fires s) (pc_drops s) (S (pc_calls s)) (pc_reads s) in
      match answer with
      | GdOutOfMemory => (c, pc_emit_dropped 1 GPU_DROP_CLASS_PC_BUFFER_FULL (pc_count g_pc_buffer_full 1 s))
      | GdError => (c, pc_count g_pc_getdata_failed 1 s)
      | GdSuccess d =>
          let '(c, s) := pc_take_data d c s in
          if (remainingNumPcs d =? 0)%nat then (c, s)
          else pc_rounds left' c (if (left' =? 0)%nat then pc_count g_pc_drain_rounds_capped 1 s else s)
      end
  end.

Definition pc_drain_ctx_locked (c : PCContext) (s : pc_state) : PCContext * pc_state :=
  if negb (pc_enabled c) then (c, s) else pc_rounds kPCMaxDrainRounds c s.

Fixpoint pc_drain_ctxs (cs : list PCContext) (s : pc_state) : list PCContext * pc_state :=
  match cs with
  | [] => ([], s)
  | c :: cs' =>
      let '(c, s) := pc_drain_ctx_locked c s in
      let '(cs', s) := pc_drain_ctxs cs' s in
      (c :: cs', s)
  end.

Definition pc_flush (s : pc_state) : pc_state :=
  let '(b, fs) := flush log_emit (sem (pc_reads s)) (g_pcb s) (pc_fires s) in
  MkPc (pc_cnt s) b fs (pc_drops s) (pc_calls s) (S (pc_reads s)).

Definition pc_drain_all (reason : PCDrainReason) (cs : list PCContext) (s : pc_state) : list PCContext * pc_state :=
  let '(cs, s) := pc_drain_ctxs cs s in
  (cs, match reason with kPeriodic => s | _ => pc_flush s end).

(** *** What a drain amounts to, read off CUPTI's answers *)

Definition more (a : getdata_result) : bool :=
  match a with GdSuccess d => negb (remainingNumPcs d =? 0)%nat | _ => false end.

(** The answers of one drain: up to the first that leaves nothing. *)
Fixpoint answers (left i : nat) : list getdata_result :=
  match left with
  | O => []
  | S left' => getdata i :: if more (getdata i) then answers left' (S i) else []
  end.

Definition npcs_of (d : sampling_data) : nat := Nat.min (totalNumPcs d) g_pc_collect_num_pcs.
Definition stalls_of (pc : pc_data) : list (Z * Z) :=
  take (Nat.min (pd_stallReasonCount pc) g_num_stall_reasons) (pd_stallReason pc).
Definition pairs_of (a : getdata_result) : list (pc_data * (Z * Z)) :=
  match a with
  | GdSuccess d => concat (map (fun pc => map (pair pc) (stalls_of pc)) (take (npcs_of d) (pPcData d)))
  | _ => []
  end.
Definition counted_pairs (ps : list (pc_data * (Z * Z))) : list (pc_data * (Z * Z)) :=
  List.filter (fun p => negb (p.2.2 =? 0)) ps.
Definition records_of (ps : list (pc_data * (Z * Z))) : list gpu_pc_sample_batch_v1 :=
  map (fun p => pc_record p.1 p.2) (counted_pairs ps).
Definition samples_of (ps : list (pc_data * (Z * Z))) : Z := foldr (fun p acc => p.2.2 + acc) 0 ps.

(** How far the highest value seen of a cumulative counter has moved. *)
Definition seen_to (field : sampling_data -> Z) (last : Z) (a : getdata_result) : Z :=
  match a with GdSuccess d => Z.max last (field d) | _ => last end.
End Drain.

(** ** The effect of a piece of the drain: the records handed to the batch and
    the counters, up to the width of the counters *)

(** The additions that found the semaphore up, and those that found it down. *)
Definition heard {T} (up : bool) (ops : list (batch_op T)) : Z :=
  Z.of_nat (length (List.filter (fun o => match o with Add _ en _ => Bool.eqb en up | Flush _ => false end) ops)).

Record moved (s s' : pc_state) (rs : list gpu_pc_sample_batch_v1) (f : pc_counter -> Z) (calls : nat) : Prop := {
  mv_batch : exists ops, added ops = rs /\
    (g_pcb s', pc_fires s') = batch_run 32 log_emit (g_pcb s, pc_fires s) ops /\
    u64 (pc_cnt s' g_pc_records) = u64 (pc_cnt s g_pc_records + heard true ops) /\
    u64 (pc_cnt s' g_pc_unattached) = u64 (pc_cnt s g_pc_unattached + heard false ops);
  mv_cnt : forall c, c <> g_pc_records -> c <> g_pc_unattached -> u64 (pc_cnt s' c) = u64 (pc_cnt s c + f c);
  mv_calls : pc_calls s' = (pc_calls s + calls)%nat;
}.

Definition just (c : pc_counter) (d : Z) (c' : pc_counter) : Z := if bool_decide (c' = c) then d else 0.
Definition plus2 (f g : pc_counter -> Z) (c : pc_counter) : Z := f c + g c.

Lemma u64_eq_add a b d : u64 a = u64 b -> u64 (a + d) = u64 (b + d).
Proof. intros E. rewrite <- (u64_add a), <- (u64_add b). by rewrite E. Qed.

Lemma heard_app {T} up (ops ops' : list (batch_op T)) : heard up (ops ++ ops') = heard up ops + heard up ops'.
Proof. unfold heard. rewrite List.filter_app, length_app. lia. Qed.

(** Every addition found it one way or the other. *)
Lemma heard_added {T} (ops : list (batch_op T)) : heard true ops + heard false ops = Z.of_nat (length (added ops)).
Proof. unfold heard. induction ops as [|[r [] en'|en] ops IH]; simpl in *; lia. Qed.

(** Nothing is added. *)
Lemma moved_still s s' f calls :
  g_pcb s' = g_pcb s -> pc_fires s' = pc_fires s -> pc_cnt s' g_pc_records = pc_cnt s g_pc_records ->
  pc_cnt s' g_pc_unattached = pc_cnt s g_pc_unattached ->
  (forall c, c <> g_pc_records -> c <> g_pc_unattached -> u64 (pc_cnt s' c) = u64 (pc_cnt s c + f c)) ->
  pc_calls s' = (pc_calls s + calls)%nat -> moved s s' [] f calls.
Proof.
  intros H1 H2 H3 H4 Hc Hk. split; [|done|done]. exists [].
  unfold heard; simpl. by rewrite H1, H2, H3, H4, !Z.add_0_r.
Qed.

Lemma moved_refl s : moved s s [] (fun _ => 0) 0.
Proof. apply moved_still; try done; intros; by rewrite ?Z.add_0_r, ?Nat.add_0_r. Qed.

Lemma moved_trans s1 s2 s3 rs rs' f g n m :
  moved s1 s2 rs f n -> moved s2 s3 rs' g m -> moved s1 s3 (rs ++ rs') (plus2 f g) (n + m).
Proof.
  intros [(o1 & A1 & B1 & R1 & U1) C1 K1] [(o2 & A2 & B2 & R2 & U2) C2 K2]. split.
  - exists (o1 ++ o2). unfold added in *. rewrite omap_app, A1, A2. split; [done|].
    unfold batch_run in *. rewrite foldl_app, <- B1, !heard_app, !Z.add_assoc. split; [done|].
    split; [rewrite R2|rewrite U2]; by apply u64_eq_add.
  - intros c Hr Hu. rewrite C2 by done. unfold plus2. rewrite Z.add_assoc. apply u64_eq_add. by apply C1.
  - lia.
Qed.

Lemma moved_then s1 s2 s3 rs f g :
  moved s1 s2 [] f 0 -> moved s2 s3 rs g 0 -> moved s1 s3 rs (plus2 f g) 0.
Proof. apply moved_trans. Qed.

Lemma moved_ext s s' rs f g n :
  (forall c, f c = g c) -> moved s s' rs f n -> moved s s' rs g n.
Proof. intros E [B C K]. split; [done| |done]. intros c Hr Hu. rewrite <- E. by apply C. Qed.

Lemma pc_count_moved c d s :
  c <> g_pc_records -> c <> g_pc_unattached -> moved s (pc_count c d s) [] (just c d) 0.
Proof.
  intros Hr Hu. apply moved_still; simpl; try done; [by rewrite bool_decide_eq_false_2 by congruence..|].
  intros c' _ _. unfold just. case_bool_decide; [|by rewrite Z.add_0_r].
  unfold u64. by rewrite Zmod_mod.
Qed.

Section Facts.
  Context (getdata : nat -> getdata_result) (sem : nat -> bool) (P R : nat).

Lemma pc_drop_moved count klass s : moved s (pc_emit_dropped sem count klass s) [] (fun _ => 0) 0.
Proof using Type. apply moved_still; try done; intros; simpl; by rewrite ?Z.add_0_r, ?Nat.add_0_r. Qed.

Lemma pc_add_moved r s : moved s (pc_add sem r s) [r] (fun _ => 0) 0.
Proof using Type.
  unfold pc_add. set (en := sem (pc_reads s)). set (en' := sem (S (pc_reads s))).
  destruct (add 32 log_emit r en en' (g_pcb s) (pc_fires s)) as [ok [b fs]] eqn:E.
  assert (Hok : ok = en) by (unfold add in E; destruct en; simplify_eq/=; repeat case_match; by simplify_eq/=).
  split; simpl.
  - exists [Add r en en']. split; [done|]. split; [unfold batch_run; simpl; by rewrite E|].
    rewrite Hok. unfold heard. destruct en; simpl; rewrite ?Z.add_0_r; split; try done; unfold u64; by rewrite Zmod_mod.
  - intros c Hr Hu. rewrite bool_decide_eq_false_2 by (destruct ok; congruence). by rewrite Z.add_0_r.
  - lia.
Qed.

(** What a list of pairs does to the counters. *)
Definition pair_tally (ps : list (pc_data * (Z * Z))) (c : pc_counter) : Z :=
  match c with
  | g_pc_zero_stall => Z.of_nat (length ps) - Z.of_nat (length (counted_pairs ps))
  | g_pc_emitted_counts => samples_of ps
  | _ => 0
  end.

Lemma pair_tally_app ps ps' c : pair_tally (ps ++ ps') c = pair_tally ps c + pair_tally ps' c.
Proof using Type.
  unfold pair_tally, counted_pairs. destruct c; try done.
  - rewrite List.filter_app, !length_app. lia.
  - unfold samples_of. induction ps as [|p ps IH]; simpl in *; lia.
Qed.

Lemma records_of_app ps ps' : records_of (ps ++ ps') = records_of ps ++ records_of ps'.
Proof using Type. unfold records_of, counted_pairs. by rewrite List.filter_app, map_app. Qed.

Lemma pc_pair_moved pc s sr :
  moved s (pc_pair sem pc s sr) (records_of [(pc, sr)]) (pair_tally [(pc, sr)]) 0.
Proof using Type.
  unfold pc_pair, records_of, counted_pairs. simpl. destruct (Z.eqb_spec sr.2 0) as [E|E]; simpl.
  - eapply moved_ext; [|by apply pc_count_moved]. intros c. unfold just, pair_tally, counted_pairs, samples_of.
    destruct c; simpl; rewrite ?E; done.
  - eapply moved_ext; [|eapply moved_then; [|apply pc_add_moved]; by apply pc_count_moved].
    intros c. unfold plus2, just, pair_tally, counted_pairs, samples_of.
    destruct c; simpl; rewrite ?(proj2 (Z.eqb_neq _ _) E); simpl; lia.
Qed.

(** Folds of moves. *)
Lemma fold_moved {A} (g : pc_state -> A -> pc_state) (ps : A -> list (pc_data * (Z * Z))) l s :
  (forall s x, moved s (g s x) (records_of (ps x)) (pair_tally (ps x)) 0) ->
  moved s (foldl g s l) (records_of (concat (map ps l))) (pair_tally (concat (map ps l))) 0.
Proof using Type.
  intros Hg. revert s. induction l as [|x l IH]; intros s; simpl.
  { eapply moved_ext; [|apply moved_refl]. by intros []. }
  rewrite records_of_app. eapply moved_ext; [|apply (moved_trans _ _ _ _ _ _ _ 0 0 (Hg s x) (IH _))].
  intros c. by rewrite pair_tally_app.
Qed.

Lemma pc_one_moved s pc :
  moved s (pc_one sem R s pc) (records_of (map (pair pc) (stalls_of R pc))) (pair_tally (map (pair pc) (stalls_of R pc))) 0.
Proof using Type.
  change (pc_one sem R s pc) with (foldl (pc_pair sem pc) s (stalls_of R pc)).
  pose proof (fold_moved (pc_pair sem pc) (fun sr => [(pc, sr)]) (stalls_of R pc) s ltac:(intros; apply pc_pair_moved)) as H.
  assert (E : concat (map (fun sr => [(pc, sr)]) (stalls_of R pc)) = map (pair pc) (stalls_of R pc)).
  { clear H. induction (stalls_of R pc) as [|x l IH]; simpl; [done|]. by f_equal. }
  by rewrite E in H.
Qed.

(** What one answer does to the counters; [c] is the context before it. *)
Definition tally (c : PCContext) (a : getdata_result) (k : pc_counter) : Z :=
  match k, a with
  | g_pc_getdata_calls, _ => 1
  | g_pc_buffer_full, GdOutOfMemory => 1
  | g_pc_buffer_full, GdSuccess d => if hardwareBufferFull d then 1 else 0
  | g_pc_getdata_failed, GdError => 1
  | g_pc_dropped_hw, GdSuccess d => Z.max 0 (droppedSamples d - last_dropped c)
  | g_pc_non_user, GdSuccess d => Z.max 0 (nonUsrKernelsTotalSamples d - last_non_user c)
  | g_pc_total_samples, GdSuccess d => totalSamples d
  | g_pc_pcs, GdSuccess d => Z.of_nat (npcs_of P d)
  | (g_pc_zero_stall | g_pc_emitted_counts), _ => pair_tally (pairs_of P R a) k
  | _, _ => 0
  end.

(** The context after an answer. *)
Definition ctx_after (c : PCContext) (a : getdata_result) : PCContext :=
  MkPCContext (pc_ctx c) (pc_buf c) (seen_to droppedSamples (last_dropped c) a)
    (seen_to nonUsrKernelsTotalSamples (last_non_user c) a) (pc_enabled c).

Definition data_ok (a : getdata_result) : Prop :=
  match a with
  | GdSuccess d => is_u64 (droppedSamples d) /\ is_u64 (nonUsrKernelsTotalSamples d)
  | _ => True
  end.
Definition ctx_ok (c : PCContext) : Prop := is_u64 (last_dropped c) /\ is_u64 (last_non_user c).

Lemma drop_delta_moved k x klass s :
  k <> g_pc_records -> k <> g_pc_unattached ->
  moved s (pc_emit_dropped sem x klass (pc_count k x s)) [] (just k x) 0.
Proof using Type.
  intros Hr Hu. eapply moved_ext; [|eapply moved_then; [|apply pc_drop_moved]; by apply pc_count_moved].
  intros c. unfold plus2. lia.
Qed.

Lemma pc_take_data_moved d c s :
  ctx_ok c -> data_ok (GdSuccess d) ->
  let r := pc_take_data sem P R d c s in
  r.1 = ctx_after c (GdSuccess d) /\
  moved s r.2 (records_of (pairs_of P R (GdSuccess d))) (fun k => tally c (GdSuccess d) k - just g_pc_getdata_calls 1 k) 0.
Proof using Type.
  intros [Hc1 Hc2] [Hd1 Hd2]. unfold pc_take_data, ctx_after, seen_to. fold (npcs_of P d).
  set (s1 := if hardwareBufferFull d then _ else s).
  assert (M1 : moved s s1 [] (just g_pc_buffer_full (if hardwareBufferFull d then 1 else 0)) 0).
  { subst s1. destruct (hardwareBufferFull d); [by apply drop_delta_moved|]. eapply moved_ext; [|apply moved_refl]. by intros []. }
  destruct (if last_dropped c <? droppedSamples d then _ else _) as [c2 s2] eqn:E2.
  assert (M2 : c2 = MkPCContext (pc_ctx c) (pc_buf c) (Z.max (last_dropped c) (droppedSamples d)) (last_non_user c) (pc_enabled c) /\
    moved s1 s2 [] (just g_pc_dropped_hw (Z.max 0 (droppedSamples d - last_dropped c))) 0).
  { destruct (Z.ltb_spec (last_dropped c) (droppedSamples d)); injection E2 as <- <-.
    - rewrite u64_small by (unfold is_u64 in *; lia). rewrite !Z.max_r by lia. split; [done|by apply drop_delta_moved].
    - rewrite (Z.max_l (last_dropped c)), Z.max_l by lia. split; [by destruct c|].
      eapply moved_ext; [|apply moved_refl]. by intros []. }
  destruct M2 as [-> M2]. cbn [last_non_user pc_ctx pc_buf last_dropped pc_enabled].
  destruct (if last_non_user c <? nonUsrKernelsTotalSamples d then _ else _) as [c3 s3] eqn:E3.
  assert (M3 : c3 = MkPCContext (pc_ctx c) (pc_buf c) (Z.max (last_dropped c) (droppedSamples d))
      (Z.max (last_non_user c) (nonUsrKernelsTotalSamples d)) (pc_enabled c) /\
    moved s2 s3 [] (just g_pc_non_user (Z.max 0 (nonUsrKernelsTotalSamples d - last_non_user c))) 0).
  { destruct (Z.ltb_spec (last_non_user c) (nonUsrKernelsTotalSamples d)); injection E3 as <- <-.
    - rewrite u64_small by (unfold is_u64 in *; lia). rewrite !(Z.max_r _ (_ - _)), (Z.max_r (last_non_user c)) by lia. split; [done|by apply drop_delta_moved].
    - rewrite (Z.max_l (last_non_user c)), (Z.max_l 0 (_ - last_non_user c)) by lia. split; [done|].
      eapply moved_ext; [|apply moved_refl]. by intros []. }
  destruct M3 as [-> M3]. split; [done|]. cbn [snd].
  eapply moved_ext; [|eapply moved_then; [exact M1|eapply moved_then; [exact M2|eapply moved_then; [exact M3|
    eapply moved_then; [|eapply moved_then; [|apply (fold_moved (pc_one sem R)), pc_one_moved];
      by apply pc_count_moved]; by apply pc_count_moved]]]].
  intros k. unfold plus2, just, tally. destruct k; simpl; lia.
Qed.

(** A whole drain: the sum of its answers, and whether the bound cut it off. *)
Fixpoint tallies (c : PCContext) (l : list getdata_result) (k : pc_counter) : Z :=
  match l with [] => 0 | a :: l' => tally c a k + tallies (ctx_after c a) l' k end.
Definition capped (left : nat) (l : list getdata_result) : bool :=
  (0 <? left)%nat && (length l =? left)%nat && forallb more l.
Definition drain_tally (left : nat) (c : PCContext) (l : list getdata_result) (k : pc_counter) : Z :=
  tallies c l k + just g_pc_drain_rounds_capped (if capped left l then 1 else 0) k.

Lemma ctx_after_ok c a : ctx_ok c -> data_ok a -> ctx_ok (ctx_after c a).
Proof using Type. unfold ctx_ok, is_u64. destruct a as [| |d]; simpl; unfold is_u64; lia. Qed.

(** The call itself. *)
Lemma call_moved s :
  let s1 := pc_count g_pc_getdata_calls 1 s in
  moved s (MkPc (pc_cnt s1) (g_pcb s1) (pc_fires s1) (pc_drops s1) (S (pc_calls s1)) (pc_reads s1)) [] (just g_pc_getdata_calls 1) 1.
Proof using Type.
  destruct (pc_count_moved g_pc_getdata_calls 1 s ltac:(done) ltac:(done)) as [B C K]. split; [exact B|exact C|]. simpl. lia.
Qed.

Lemma pc_rounds_moved left c s :
  ctx_ok c -> (forall i, data_ok (getdata i)) ->
  let l := answers getdata left (pc_calls s) in
  let r := pc_rounds getdata sem P R left c s in
  r.1 = foldl ctx_after c l /\
  moved s r.2 (records_of (concat (map (pairs_of P R) l))) (drain_tally left c l) (length l).
Proof using Type.
  intros Hc Hd. revert c s Hc. induction left as [|left IH]; intros c s Hc.
  { split; [done|]. eapply moved_ext; [|apply moved_refl]. by intros []. }
  cbn [pc_rounds answers]. pose proof (call_moved s) as M0. cbv zeta in M0.
  set (s1 := MkPc _ _ _ _ _ _) in *. specialize (Hd (pc_calls s)) as Ha.
  destruct (getdata (pc_calls s)) as [| |d]; cbn [more].
  - split; [by destruct c|]. eapply moved_ext; [|exact (moved_trans _ _ _ _ _ _ _ _ _ M0 (drop_delta_moved g_pc_buffer_full 1 _ s1 ltac:(done) ltac:(done)))].
    unfold drain_tally, capped. simpl. rewrite !andb_false_r. by intros [].
  - split; [by destruct c|]. eapply moved_ext; [|exact (moved_trans _ _ _ _ _ _ _ _ _ M0 (pc_count_moved g_pc_getdata_failed 1 s1 ltac:(done) ltac:(done)))].
    unfold drain_tally, capped. simpl. rewrite !andb_false_r. by intros [].
  - destruct (pc_take_data_moved d c s1 Hc Ha) as [E1 M1]. destruct (pc_take_data sem P R d c s1) as [c2 s2]. cbn [fst snd] in E1, M1.
    pose proof (moved_trans _ _ _ _ _ _ _ _ _ M0 M1) as M2. rewrite app_nil_l in M2. cbn [Nat.add] in M2. subst c2.
    destruct (Nat.eqb_spec (remainingNumPcs d) 0) as [E0|E0]; cbn [negb].
    + split; [done|]. cbn [map concat length]. rewrite app_nil_r. eapply moved_ext; [|exact M2]. intros k.
      unfold drain_tally, capped, plus2. cbn [tallies forallb more]. rewrite (proj2 (Nat.eqb_eq _ _) E0). cbn [negb].
      rewrite !andb_false_r. unfold just. case_bool_decide; case_bool_decide; lia.
    + set (s3 := if (left =? 0)%nat then _ else s2).
      assert (M3 : moved s2 s3 [] (just g_pc_drain_rounds_capped (if (left =? 0)%nat then 1 else 0)) 0).
      { subst s3. destruct (left =? 0)%nat; [by apply pc_count_moved|]. eapply moved_ext; [|apply moved_refl]. by intros []. }
      assert (Hcalls : pc_calls s3 = S (pc_calls s)).
      { rewrite (mv_calls _ _ _ _ _ M3), (mv_calls _ _ _ _ _ M2). lia. }
      destruct (IH (ctx_after c (GdSuccess d)) s3 (ctx_after_ok c _ Hc Ha)) as [E4 M4].
      rewrite Hcalls in E4, M4. cbn [foldl map concat length]. split; [exact E4|].
      rewrite records_of_app. eapply moved_ext; [|exact (moved_trans _ _ _ _ _ _ _ _ _ M2 (moved_trans _ _ _ _ _ _ _ _ _ M3 M4))].
      intros k. unfold plus2, drain_tally, capped. cbn [tallies forallb more length]. rewrite (proj2 (Nat.eqb_neq _ _) E0). cbn [negb andb Nat.ltb Nat.leb Nat.eqb].
      set (t := answers getdata left (S (pc_calls s))). unfold just.
      destruct left as [|left']; [cbn; repeat case_bool_decide; lia|].
      cbn [Nat.eqb Nat.ltb Nat.leb andb]. repeat case_bool_decide; lia.
Qed.
End Facts.

Lemma tallies_dropped P R c l :
  tallies P R c l g_pc_dropped_hw = last_dropped (foldl ctx_after c l) - last_dropped c.
Proof.
  revert c. induction l as [|a l IH]; intros c; simpl; [lia|]. rewrite IH. destruct a; simpl; lia.
Qed.

Lemma tallies_non_user P R c l :
  tallies P R c l g_pc_non_user = last_non_user (foldl ctx_after c l) - last_non_user c.
Proof.
  revert c. induction l as [|a l IH]; intros c; simpl; [lia|]. rewrite IH. destruct a; simpl; lia.
Qed.

Lemma tallies_pairs P R c l k :
  k = g_pc_zero_stall \/ k = g_pc_emitted_counts ->
  tallies P R c l k = pair_tally (concat (map (pairs_of P R) l)) k.
Proof.
  intros Hk. revert c. induction l as [|a l IH]; intros c; simpl; [by destruct Hk as [-> | ->]|].
  rewrite IH, pair_tally_app. by destruct Hk as [-> | ->].
Qed.

Lemma tallies_calls P R c l : tallies P R c l g_pc_getdata_calls = Z.of_nat (length l).
Proof. revert c. induction l as [|a l IH]; intros c; cbn [tallies length]; [done|]. rewrite IH. simpl. lia. Qed.

Lemma tallies_capped P R c l : tallies P R c l g_pc_drain_rounds_capped = 0.
Proof. revert c. induction l as [|a l IH]; intros c; simpl; [done|]. rewrite IH. by destruct a. Qed.

Lemma samples_of_records ps : samples_of ps = foldr (fun r acc => p_count r + acc) 0 (records_of ps).
Proof.
  induction ps as [|[pc sr] ps IH]; [done|]. unfold records_of, counted_pairs, samples_of in *. simpl.
  destruct (Z.eqb_spec sr.2 0) as [E|E]; simpl; lia.
Qed.

Lemma answers_length getdata left i : (length (answers getdata left i) <= left)%nat.
Proof. revert i. induction left as [|left IH]; intros i; simpl; [lia|]. case_match; simpl; [|lia]. specialize (IH (S i)). lia. Qed.

Lemma answers_last getdata left i a :
  list.last (answers getdata left i) = Some a -> more a = false \/ length (answers getdata left i) = left.
Proof.
  revert i. induction left as [|left IH]; intros i; [done|]. simpl. destruct (more (getdata i)) eqn:E.
  - destruct (answers getdata left (S i)) as [|b l] eqn:El.
    + destruct left; [by right|done].
    + intros Hl. change (list.last (getdata i :: b :: l)) with (list.last (b :: l)) in Hl. rewrite <- El in *.
      destruct (IH _ Hl) as [?|Hlen]; [by left|]. right. rewrite El in *. simpl in *. lia.
  - intros [= <-]. by left.
Qed.

(** C30: A drain turns CUPTI's data into records exactly once.  Draining an
    enabled context makes at least one and at most 64 calls, going on only
    while the answer says that data remains; whatever the answers, and however
    the probe's semaphore changes meanwhile, the records handed to the batch are
    one for each pair of a PC and a stall reason with samples, of the PCs and
    reasons within the buffer, in order, with the pair's counts; the records
    that found the probe's semaphore up and those that found it down are counted
    exactly, each under its own counter, and so are the counts emitted, the
    pairs skipped for having none and the calls; what is added to the hardware-drop
    and non-user counters is how far the highest totals seen have moved; and
    giving up on the bound is counted. *)
Theorem pc_drain_exact getdata sem P R c s :
  pc_enabled c = true -> ctx_ok c -> (forall i, data_ok (getdata i)) ->
  let l := answers getdata kPCMaxDrainRounds (pc_calls s) in
  let ps := concat (map (pairs_of P R) l) in
  let '(c', s') := pc_drain_ctx_locked getdata sem P R c s in
  let grew k d := u64 (pc_cnt s' k) = u64 (pc_cnt s k + d) in
  (1 <= length l <= 64)%nat /\ (forall a, list.last l = Some a -> more a = false \/ length l = 64%nat) /\
  (exists ops, added ops = records_of ps /\
    (g_pcb s', pc_fires s') = batch_run 32 log_emit (g_pcb s, pc_fires s) ops /\
    grew g_pc_records (heard true ops) /\ grew g_pc_unattached (heard false ops)) /\
  grew g_pc_emitted_counts (foldr (fun r acc => p_count r + acc) 0 (records_of ps)) /\
  grew g_pc_zero_stall (Z.of_nat (length ps) - Z.of_nat (length (records_of ps))) /\
  grew g_pc_getdata_calls (Z.of_nat (length l)) /\
  grew g_pc_dropped_hw (last_dropped c' - last_dropped c) /\
  grew g_pc_non_user (last_non_user c' - last_non_user c) /\
  c' = foldl ctx_after c l /\
  grew g_pc_drain_rounds_capped (if (length l =? 64)%nat && forallb more l then 1 else 0).
Proof.
  intros He Hc Hd l ps. unfold pc_drain_ctx_locked. rewrite He. cbn [negb].
  destruct (pc_rounds_moved getdata sem P R kPCMaxDrainRounds c s Hc Hd) as [E M].
  fold l in E, M. fold ps in M. destruct (pc_rounds _ _ _ _ _ c s) as [c' s']. cbn [fst snd] in E, M.
  destruct M as [B C K]. subst c'.
  assert (G : forall k, k <> g_pc_records -> k <> g_pc_unattached -> k <> g_pc_drain_rounds_capped ->
    u64 (pc_cnt s' k) = u64 (pc_cnt s k + tallies P R c l k)).
  { intros k H1 H2 H3. rewrite C by done. unfold drain_tally, just. rewrite bool_decide_eq_false_2 by done. by rewrite Z.add_0_r. }
  split_and!; try done.
  - destruct (answers_length getdata kPCMaxDrainRounds (pc_calls s)) as [|]; subst l; simpl; lia.
  - apply (answers_length getdata kPCMaxDrainRounds).
  - apply (answers_last getdata kPCMaxDrainRounds).
  - rewrite G, tallies_pairs by auto. simpl. by rewrite <- samples_of_records.
  - rewrite G, tallies_pairs by auto. simpl. fold ps. unfold records_of. by rewrite length_map.
  - by rewrite G, tallies_calls by done.
  - by rewrite G, tallies_dropped by done.
  - by rewrite G, tallies_non_user by done.
  - rewrite C by done. unfold drain_tally. by rewrite tallies_capped.
Qed.

(** Two rounds: the second finds the buffer drained. *)
Definition demo_getdata (n : nat) : getdata_result :=
  match n with
  | O => GdSuccess (SamplingData 2 1 5 20 3 false
           [PcData 77 64 1 9 2 [(4, 10); (5, 0)]; PcData 77 80 1 9 1 [(4, 7); (5, 1)]])
  | S O => GdSuccess (SamplingData 1 0 6 4 3 true
           [PcData 78 16 2 9 1 [(4, 2); (5, 3)]; PcData 0 0 0 0 0 []])
  | _ => GdError
  end.
Definition demo_pc : pc_state := MkPc (fun _ => 0) (Batch_init (replicate 32 (pc_record (PcData 0 0 0 0 0 []) (0, 0)))) [] drop_init 0 0.

(** The semaphore goes up after the first record. *)
Definition demo_sem (n : nat) : bool := (2 <? n)%nat.
Lemma pc_drain_exact_witness :
  let r := pc_drain_ctx_locked demo_getdata demo_sem 2 2 (MkPCContext 1 (pc_setup_buffer 2 2) 2 3 true) demo_pc in
  u64 (pc_cnt r.2 g_pc_dropped_hw) = u64 (pc_cnt demo_pc g_pc_dropped_hw + (last_dropped r.1 - 2)) /\
  (exists ops : list (batch_op gpu_pc_sample_batch_v1), length (added ops) = 3%nat /\ heard true ops = 2 /\ heard false ops = 1) /\
  last_dropped r.1 = 6 /\ pc_cnt r.2 g_pc_records = 2 /\ pc_cnt r.2 g_pc_unattached = 1 /\
  pc_cnt r.2 g_pc_emitted_counts = 19 /\ pc_calls r.2 = 2%nat.
Proof.
  assert (Hd : forall i, data_ok (demo_getdata i)) by (intros [|[|]]; vm_compute; intuition discriminate).
  intros r. split; [|split; [|vm_compute; repeat split]].
  all: pose proof (pc_drain_exact demo_getdata demo_sem 2 2 (MkPCContext 1 (pc_setup_buffer 2 2) 2 3 true) demo_pc eq_refl
    ltac:(vm_compute; intuition discriminate) Hd) as H; fold r in H; rewrite (surjective_pairing r) in H.
  - exact (proj1 (proj2 (proj2 (proj2 (proj2 (proj2 (proj2 H))))))).
  - destruct (proj1 (proj2 (proj2 H))) as (ops & Ha & _ & H1 & H2). exists ops.
    assert (Hl : length (added ops) = 3%nat) by (rewrite Ha; vm_compute; reflexivity).
    split; [exact Hl|]. pose proof (heard_added ops).
    change (u64 (pc_cnt r.2 g_pc_records)) with (u64 2) in H1. change (u64 (pc_cnt r.2 g_pc_unattached)) with (u64 1) in H2.
    change (pc_cnt demo_pc g_pc_records) with 0 in H1. change (pc_cnt demo_pc g_pc_unattached) with 0 in H2.
    rewrite !u64_small in H1, H2 by (unfold heard in *; word_lia). lia.
Defined.

(** Tier A's PC records carry CUPTI's 32-bit correlation id as it is, while the
    launch and the execution of the same kernel carry a number of at least 2^32:
    no launch and no execution can have the correlation of a PC sample, so the
    join by correlation that the serialized tier exists for finds nothing. *)
Theorem pc_correlation_never_joins P R a r other cur :
  r ∈ records_of (pairs_of P R a) -> (forall p, p ∈ pairs_of P R a -> is_u32 (pd_correlationId p.1)) ->
  0 <= other < 2 ^ 32 -> 0 <= cur < 2 ^ 64 - 2 ^ 33 ->
  (correlate_launch other cur).1 <> p_correlation r /\ correlate_activity other cur <> p_correlation r.
Proof.
  intros Hr Hp Ho Hcur. unfold records_of, counted_pairs in Hr. apply list_elem_of_In, in_map_iff in Hr as ([pc sr] & <- & Hin).
  apply filter_In in Hin as [Hin _]. apply list_elem_of_In, Hp in Hin. unfold is_u32 in Hin. simpl in *.
  destruct (correlation_large other cur Ho Hcur). lia.
Qed.

Lemma pc_correlation_never_joins_witness :
  records_of (pairs_of 2 2 (demo_getdata 0)) <> [] /\
  Forall (fun r => (correlate_launch 9 5).1 <> p_correlation r) (records_of (pairs_of 2 2 (demo_getdata 0))).
Proof.
  split; [done|]. apply list.Forall_forall. intros r Hr.
  refine (proj1 (pc_correlation_never_joins 2 2 (demo_getdata 0) r 9 5 Hr _ ltac:(lia) ltac:(lia))).
  apply list.Forall_forall. simpl. repeat constructor; simpl; lia.
Defined.
