(* ===== verification/Window.v ===== *)
(** * Window: the serialized bursts and what the wire says of them

    Models the Tier A part of src/shim/nvidia/cupti_adapter.cc: opening a burst
    at a launch entry ([burst_open_at_launch]), closing it at a launch exit
    ([burst_close_at_launch], [burst_close]) or at teardown ([burst_shutdown]),
    with the device synchronisation, the starts and stops of the contexts, the
    range-end drain and the sampling windows.  A handler is a sequence of steps,
    one for each place where another thread can come in between: an access to
    the controller, the synchronisation, a section under the CUPTI guard, a
    probe.  CUPTI is a parameter as in PcSampling; [start_ok n] and [stop_ok n]
    are what the [n]-th call of cuptiPCSamplingStart and -Stop answers. *)
From S2P Require Import Prelude Tables GpuUsdt Abi Batch Double Burst Timers Adapter PcSampling.

Inductive burst_counter :=
| g_sampling_bursts | g_sampling_burst_ns | g_windows_emitted | g_burst_start_failed | g_burst_stop_failed
| g_tier_a_graph_refused | g_burst_calls_on_timer | g_burst_sync_missing | g_burst_sync_failed
| g_burst_enter_polls | g_burst_exit_polls | g_bursts_empty.
#[global] Instance burst_counter_eq_dec : EqDecision burst_counter.
Proof. solve_decision. Defined.

Record tier_a := MkTierA {
  g_burst : BurstController;
  g_pc_ctxs : list PCContext;
  (** the contexts CUPTI is sampling, by its own answers *)
  cupti_on : list Z;
  g_pc : pc_state;
  g_pc_schedule : PCDrainSchedule;
  g_pc_pcs_at_open : Z;
  g_window_seq : Z;
  windows : list (Z * gpu_sampling_window_v1);
  b_cnt : burst_counter -> Z;
  pc_start_calls : nat;
  pc_stop_calls : nat;
}.

Definition set_burst (c : BurstController) (s : tier_a) : tier_a :=
  MkTierA c (g_pc_ctxs s) (cupti_on s) (g_pc s) (g_pc_schedule s) (g_pc_pcs_at_open s) (g_window_seq s) (windows s)
    (b_cnt s) (pc_start_calls s) (pc_stop_calls s).
Definition b_count (k : burst_counter) (d : Z) (s : tier_a) : tier_a :=
  MkTierA (g_burst s) (g_pc_ctxs s) (cupti_on s) (g_pc s) (g_pc_schedule s) (g_pc_pcs_at_open s) (g_window_seq s)
    (windows s) (fun k' => if bool_decide (k' = k) then u64 (b_cnt s k' + d) else b_cnt s k')
    (pc_start_calls s) (pc_stop_calls s).

Section Window.
  Context (cfg : BurstConfig).
  Context (getdata : nat -> getdata_result) (sem : nat -> bool) (g_pc_collect_num_pcs g_num_stall_reasons : nat).
  Context (start_ok stop_ok : nat -> bool).

Definition emit_window (enabled : bool) (start_ns end_ns next_start_delta_ms : Z) (s : tier_a) : tier_a :=
  if negb enabled then s
  else
    let w := GpuSamplingWindow start_ns end_ns GPU_SAMPLING_MODE_KERNEL_SERIALIZED (replicate 3 0) next_start_delta_ms in
    b_count g_windows_emitted 1
      (MkTierA (g_burst s) (g_pc_ctxs s) (cupti_on s) (g_pc s) (g_pc_schedule s) (g_pc_pcs_at_open s)
         (u64 (g_window_seq s + 1)) (windows s ++ [(g_window_seq s, w)]) (b_cnt s) (pc_start_calls s) (pc_stop_calls s)).

(** [timer] is [g_timer_tid], 0 before the first tick. *)
Definition note_burst_thread (timer current_tid : Z) (s : tier_a) : tier_a :=
  if negb (timer =? 0) && (current_tid =? timer) then b_count g_burst_calls_on_timer 1 s else s.

(** [None] where cuCtxSynchronize could not be resolved. *)
Definition pc_sync_before_start (cu_ctx_sync : option Z) (s : tier_a) : tier_a :=
  match cu_ctx_sync with
  | None => b_count g_burst_sync_missing 1 s
  | Some r => if negb (r =? 0) then b_count g_burst_sync_failed 1 s else s
  end.

Definition start_ctx (s : tier_a) (c : PCContext) : tier_a :=
  if negb (pc_enabled c) then s
  else
    let ok := start_ok (pc_start_calls s) in
    let s := MkTierA (g_burst s) (g_pc_ctxs s) (if ok then pc_ctx c :: cupti_on s else cupti_on s) (g_pc s)
               (g_pc_schedule s) (g_pc_pcs_at_open s) (g_window_seq s) (windows s) (b_cnt s)
               (S (pc_start_calls s)) (pc_stop_calls s) in
    if ok then s else b_count g_burst_start_failed 1 s.
Definition pc_start_ctxs_locked (timer tid : Z) (s : tier_a) : tier_a :=
  foldl start_ctx (note_burst_thread timer tid s) (g_pc_ctxs s).

Definition stop_ctx (s : tier_a) (c : PCContext) : tier_a :=
  if negb (pc_enabled c) then s
  else
    let ok := stop_ok (pc_stop_calls s) in
    let s := MkTierA (g_burst s) (g_pc_ctxs s)
               (if ok then List.filter (fun x => negb (x =? pc_ctx c)) (cupti_on s) else cupti_on s) (g_pc s)
               (g_pc_schedule s) (g_pc_pcs_at_open s) (g_window_seq s) (windows s) (b_cnt s)
               (pc_start_calls s) (S (pc_stop_calls s)) in
    if ok then s else b_count g_burst_stop_failed 1 s.
Definition pc_stop_ctxs_locked (timer tid : Z) (s : tier_a) : tier_a :=
  foldl stop_ctx (note_burst_thread timer tid s) (g_pc_ctxs s).

Definition kWindowQuietNever : Z := 0xFFFFFFFF.

Definition burst_quiet_ms (now_ns : Z) (c : BurstController) : Z :=
  if refused_ c then kWindowQuietNever
  else
    let next := next_start_ns_ c in
    if next <=? now_ns then 0
    else
      let ms := u64 (next - now_ns) / 1000000 in
      if kWindowQuietNever <=? ms then kWindowQuietNever - 1 else u32 ms.

(** [g_pc_schedule->force] and [pc_drain_all], under the guard of the stop. *)
Definition range_end (now_ns : Z) (s : tier_a) : tier_a :=
  let '(cs, pc) := pc_drain_all getdata sem g_pc_collect_num_pcs g_num_stall_reasons kRangeEnd (g_pc_ctxs s) (g_pc s) in
  MkTierA (g_burst s) cs (cupti_on s) pc (force now_ns kRangeEnd (g_pc_schedule s)) (g_pc_pcs_at_open s)
    (g_window_seq s) (windows s) (b_cnt s) (pc_start_calls s) (pc_stop_calls s).

(** The steps of [burst_close] after the controller said stop. *)
Definition close_stop (timer tid now_ns : Z) (s : tier_a) : tier_a :=
  range_end now_ns (pc_stop_ctxs_locked timer tid s).
Definition close_count (now_ns start_ns pcs_at_open : Z) (s : tier_a) : tier_a :=
  let s := if pc_cnt (g_pc s) g_pc_pcs =? pcs_at_open then b_count g_bursts_empty 1 s else s in
  b_count g_sampling_burst_ns (if start_ns <? now_ns then now_ns - start_ns else 0) s.
Definition close_tell (s : tier_a) : tier_a :=
  set_burst (closed cfg (pc_cnt (g_pc s) g_pc_records) (g_burst s)) s.
Definition close_announce (enabled : bool) (now_ns start_ns : Z) (s : tier_a) : tier_a :=
  emit_window enabled start_ns now_ns (burst_quiet_ms now_ns (g_burst s)) s.

Definition burst_close (enabled : bool) (timer tid now_ns start_ns : Z) (s : tier_a) : tier_a :=
  let pcs_at_open := g_pc_pcs_at_open s in
  close_announce enabled now_ns start_ns
    (close_tell (close_count now_ns start_ns pcs_at_open (close_stop timer tid now_ns s))).

Definition graphs_seen (s : tier_a) : bool := negb (g_exec_from_graph (pc_drops (g_pc s)) =? 0).

Definition note_graph_refusal (was_refused graphs : bool) (s : tier_a) : tier_a :=
  if was_refused || negb (refused_ (g_burst s)) || negb graphs then s
  else b_count g_tier_a_graph_refused 1 s.

(** The steps of [burst_open_at_launch] after the controller said start. *)
Definition open_start (timer tid : Z) (s : tier_a) : tier_a := pc_start_ctxs_locked timer tid s.
Definition open_note (s : tier_a) : tier_a :=
  b_count g_sampling_bursts 1
    (MkTierA (g_burst s) (g_pc_ctxs s) (cupti_on s) (g_pc s) (g_pc_schedule s) (pc_cnt (g_pc s) g_pc_pcs)
       (g_window_seq s) (windows s) (b_cnt s) (pc_start_calls s) (pc_stop_calls s)).

(** [ctx_enabled] is [g_ctx_enabled != 0]. *)
Definition burst_open_at_launch (g_pc_tier_a ctx_enabled enabled : bool) (cu_ctx_sync : option Z)
    (timer tid now : Z) (s : tier_a) : tier_a :=
  if negb g_pc_tier_a then s
  else if negb ctx_enabled then s
  else
    let s := b_count g_burst_enter_polls 1 s in
    let graphs := graphs_seen s in
    let was_refused := refused_ (g_burst s) in
    let '(a, c) := poll_open now graphs (g_burst s) in
    let s := set_burst c s in
    let s := match a with
             | kStart => emit_window enabled now 0 0 (open_note (open_start timer tid (pc_sync_before_start cu_ctx_sync s)))
             | _ => s
             end in
    note_graph_refusal was_refused graphs s.

Definition burst_close_at_launch (g_pc_tier_a enabled : bool) (timer tid now : Z) (s : tier_a) : tier_a :=
  if negb g_pc_tier_a then s
  else
    let s := b_count g_burst_exit_polls 1 s in
    let graphs := graphs_seen s in
    let was_refused := refused_ (g_burst s) in
    let start_ns := burst_start_ns_ (g_burst s) in
    let '(a, c) := poll_close cfg now graphs (g_burst s) in
    let s := set_burst c s in
    let s := match a with kStop => burst_close enabled timer tid now start_ns s | _ => s end in
    note_graph_refusal was_refused graphs s.

Definition burst_shutdown (g_pc_tier_a enabled : bool) (timer tid now : Z) (s : tier_a) : tier_a :=
  if negb g_pc_tier_a then s
  else
    let start_ns := burst_start_ns_ (g_burst s) in
    let '(a, c) := shutdown cfg now (g_burst s) in
    let s := set_burst c s in
    match a with kStop => burst_close enabled timer tid now start_ns s | _ => s end.
End Window.

(** ** What a consumer makes of the windows

    By the contract in usdt_abi.h: an open record (end 0), then the closed one
    of the kept start, which says until when no burst opens ([None]: never
    again).  A record that does not fit, or an opening inside a promised quiet
    time, is [Broken]. *)
Inductive heard := Quiet (until : option Z) | Open (start : Z) | Broken.

Definition hear (h : heard) (w : gpu_sampling_window_v1) : heard :=
  match h with
  | Quiet (Some t) => if (w_end_ns w =? 0) && (t <=? w_start_ns w) then Open (w_start_ns w) else Broken
  | Open t =>
      if (w_start_ns w =? t) && (t <=? w_end_ns w) && negb (w_end_ns w =? 0) then
        Quiet (if w_next_start_delta_ms w =? kWindowQuietNever then None
               else Some (w_end_ns w + w_next_start_delta_ms w * 1000000))
      else Broken
  | _ => Broken
  end.
Definition listen (ws : list (Z * gpu_sampling_window_v1)) : heard := foldl hear (Quiet (Some 0)) (map snd ws).

Lemma listen_snoc ws x : listen (ws ++ [x]) = hear (listen ws) x.2.
Proof. unfold listen. rewrite map_app, foldl_app. done. Qed.

Definition enabled_ids (cs : list PCContext) : list Z := map pc_ctx (List.filter pc_enabled cs).
(** All of a context but the totals its drains move. *)
Definition pc_shape (c : PCContext) : Z * pc_buffer * bool := (pc_ctx c, pc_buf c, pc_enabled c).

Lemma enabled_ids_shape cs cs' : map pc_shape cs' = map pc_shape cs -> enabled_ids cs' = enabled_ids cs.
Proof.
  revert cs'. induction cs as [|c cs IH]; intros [|c' cs'] E; try done. unfold pc_shape in E. simpl in E. injection E as E1 _ E2 E3.
  unfold enabled_ids in *. simpl. rewrite E2. destruct (pc_enabled c); simpl; rewrite (IH cs') by exact E3; [by rewrite E1|done].
Qed.

(** Whatever CUPTI answers, the handlers of a launch keep the list of contexts. *)
Section Shapes.
  Context (cfg : BurstConfig) (getdata : nat -> getdata_result) (sem : nat -> bool) (P R : nat) (start_ok stop_ok : nat -> bool).

Lemma drain_ctx_shape c pc : pc_shape (pc_drain_ctx_locked getdata sem P R c pc).1 = pc_shape c.
Proof using Type.
  assert (Hr : forall n c pc, pc_shape (pc_rounds getdata sem P R n c pc).1 = pc_shape c).
  { induction n as [|n IH]; intros c' p; simpl; [done|]. destruct (getdata _) as [| |d]; simpl; [done|done|].
    match goal with |- context [pc_take_data sem P R d c' ?s] => set (q := s) end.
    assert (Ht : pc_shape (pc_take_data sem P R d c' q).1 = pc_shape c').
    { unfold pc_take_data. repeat (case_match; simplify_eq/=; try done). }
    destruct (pc_take_data sem P R d c' q) as [c2 s2]. cbn [fst] in Ht. rewrite <- Ht.
    case_match; [done|]. apply IH. }
  unfold pc_drain_ctx_locked. case_match; [done|apply Hr].
Qed.

Lemma drain_shape cs pc : map pc_shape (pc_drain_ctxs getdata sem P R cs pc).1 = map pc_shape cs.
Proof using Type.
  revert pc. induction cs as [|c cs IH]; intros pc; simpl; [done|]. pose proof (drain_ctx_shape c pc) as Hc.
  destruct (pc_drain_ctx_locked getdata sem P R c pc) as [c2 p2]. specialize (IH p2).
  destruct (pc_drain_ctxs getdata sem P R cs p2) as [cs2 p3]. simpl in *. by rewrite Hc, IH.
Qed.

Lemma fold_ctxs (f : tier_a -> PCContext -> tier_a) cs s :
  (forall s c, g_pc_ctxs (f s c) = g_pc_ctxs s) -> g_pc_ctxs (foldl f s cs) = g_pc_ctxs s.
Proof using Type. intros H. revert s. induction cs as [|c cs IH]; intros s; simpl; [done|]. by rewrite IH. Qed.

Lemma start_ctxs timer tid s : g_pc_ctxs (pc_start_ctxs_locked start_ok timer tid s) = g_pc_ctxs s.
Proof using Type.
  unfold pc_start_ctxs_locked. rewrite fold_ctxs by (intros; unfold start_ctx; by repeat case_match).
  unfold note_burst_thread. by case_match.
Qed.

Lemma stop_ctxs timer tid s : g_pc_ctxs (pc_stop_ctxs_locked stop_ok timer tid s) = g_pc_ctxs s.
Proof using Type.
  unfold pc_stop_ctxs_locked. rewrite fold_ctxs by (intros; unfold stop_ctx; by repeat case_match).
  unfold note_burst_thread. by case_match.
Qed.

Lemma close_shape e timer tid now st s :
  map pc_shape (g_pc_ctxs (burst_close cfg getdata sem P R stop_ok e timer tid now st s)) = map pc_shape (g_pc_ctxs s).
Proof using Type.
  unfold burst_close, close_announce, close_tell, close_count, close_stop, range_end, pc_drain_all.
  pose proof (stop_ctxs timer tid s) as E. set (s1 := pc_stop_ctxs_locked _ _ _ _) in *. clearbody s1.
  pose proof (drain_shape (g_pc_ctxs s1) (g_pc s1)) as D.
  destruct (pc_drain_ctxs getdata sem P R (g_pc_ctxs s1) (g_pc s1)) as [cs pc]. rewrite E in D.
  unfold emit_window. by repeat case_match.
Qed.

Lemma launch_shape a b e sy timer tid now s :
  map pc_shape (g_pc_ctxs (burst_open_at_launch start_ok a b e sy timer tid now s)) = map pc_shape (g_pc_ctxs s) /\
  map pc_shape (g_pc_ctxs (burst_close_at_launch cfg getdata sem P R stop_ok a e timer tid now s)) = map pc_shape (g_pc_ctxs s) /\
  map pc_shape (g_pc_ctxs (burst_shutdown cfg getdata sem P R stop_ok a e timer tid now s)) = map pc_shape (g_pc_ctxs s).
Proof using Type.
  assert (N : forall w g s, g_pc_ctxs (note_graph_refusal w g s) = g_pc_ctxs s)
    by (intros; unfold note_graph_refusal; by case_match).
  unfold burst_open_at_launch, burst_close_at_launch, burst_shutdown. destruct a; cbn [negb]; [|done]. split_and!.
  - destruct b; cbn [negb]; [|done]. destruct (poll_open _ _ _) as [[] c]; rewrite N; try done.
    unfold emit_window, open_note, open_start. destruct e; simpl; rewrite start_ctxs;
      unfold pc_sync_before_start; by repeat case_match.
  - destruct (poll_close _ _ _ _) as [[] c]; rewrite N; try done. by rewrite close_shape.
  - destruct (shutdown _ _ _) as [[] c]; try done. by rewrite close_shape.
Qed.

(** A controller that has refused and holds no burst stays so: nothing is started
    and no window is sent. *)
Lemma refused_still a b e sy timer tid now s :
  refused_ (g_burst s) = true -> sampling_ (g_burst s) = false ->
  let still s' := refused_ (g_burst s') = true /\ sampling_ (g_burst s') = false /\ windows s' = windows s /\ cupti_on s' = cupti_on s in
  still (burst_open_at_launch start_ok a b e sy timer tid now s) /\
  still (burst_close_at_launch cfg getdata sem P R stop_ok a e timer tid now s) /\
  still (burst_shutdown cfg getdata sem P R stop_ok a e timer tid now s).
Proof using Type.
  intros Hr Hs still. assert (G : forall g, note_graphs_locked g (g_burst s) = g_burst s).
  { intros g. unfold note_graphs_locked. rewrite Hr. by destruct g. }
  assert (N : forall w g s', still s' -> still (note_graph_refusal w g s')).
  { intros w g s' H. unfold note_graph_refusal. by case_match. }
  unfold burst_open_at_launch, burst_close_at_launch, burst_shutdown, poll_open, poll_close, shutdown.
  destruct a; cbn [negb]; [|done]. split_and!.
  - destruct b; cbn [negb]; [|done]. cbn [b_count g_burst]. rewrite G, Hs. unfold open_locked. rewrite Hr. by apply N.
  - cbn [b_count g_burst]. rewrite G, Hs. cbn [negb]. by apply N.
  - change (sampling_ (refuse (g_burst s))) with (sampling_ (g_burst s)). rewrite Hs. done.
Qed.
End Shapes.

Section Honest.
  Context (cfg : BurstConfig).
  Context (getdata : nat -> getdata_result) (sem : nat -> bool) (P R : nat).
  Context (timer : Z).

(** The calls of the adapter, one after the other, on a machine where CUPTI
    does what it is asked and a consumer listens. *)
Inductive tier_op :=
| LaunchEnter (cu_ctx_sync : option Z) (tid now : Z)
| LaunchExit (tid now : Z)
| Teardown (tid now : Z)
| GraphExecution
| TimerDrain.

Definition yes (_ : nat) : bool := true.

Definition tier_step (s : tier_a) (o : tier_op) : tier_a :=
  match o with
  | LaunchEnter sy tid now => burst_open_at_launch yes true true true sy timer tid now s
  | LaunchExit tid now => burst_close_at_launch cfg getdata sem P R yes true true timer tid now s
  | Teardown tid now => burst_shutdown cfg getdata sem P R yes true true timer tid now s
  | GraphExecution =>
      let pc := g_pc s in
      MkTierA (g_burst s) (g_pc_ctxs s) (cupti_on s)
        (MkPc (pc_cnt pc) (g_pcb pc) (pc_fires pc) (graph_step (pc_drops pc) GraphExec) (pc_calls pc) (pc_reads pc))
        (g_pc_schedule s) (g_pc_pcs_at_open s) (g_window_seq s) (windows s) (b_cnt s) (pc_start_calls s) (pc_stop_calls s)
  | TimerDrain =>
      let '(cs, pc) := pc_drain_all getdata sem P R kPeriodic (g_pc_ctxs s) (g_pc s) in
      MkTierA (g_burst s) cs (cupti_on s) pc (g_pc_schedule s) (g_pc_pcs_at_open s) (g_window_seq s) (windows s)
        (b_cnt s) (pc_start_calls s) (pc_stop_calls s)
  end.

Definition tier_time (o : tier_op) : option Z :=
  match o with LaunchEnter _ _ now | LaunchExit _ now | Teardown _ now => Some now | _ => None end.
(** The clock does not run backwards. *)
Fixpoint on_time (t : Z) (os : list tier_op) : Prop :=
  match os with
  | [] => True
  | o :: os' => match tier_time o with Some now => t <= now < 2 ^ 64 /\ on_time now os' | None => on_time t os' end
  end.
Fixpoint time_after (t : Z) (os : list tier_op) : Z :=
  match os with [] => t | o :: os' => time_after (default t (tier_time o)) os' end.

(** What the wire says is what CUPTI does: [ids] are the enabled contexts, [on]
    those of them that were started when the burst opened. *)
Record honest (ids on : list Z) (t : Z) (s : tier_a) : Prop := {
  ho_ids : enabled_ids (g_pc_ctxs s) = ids;
  ho_sub : forall x, x ∈ on -> x ∈ ids;
  ho_time : 1 <= t;
  ho_next : 0 <= next_start_ns_ (g_burst s) < 2 ^ 64;
  ho_open : sampling_ (g_burst s) = true ->
    listen (windows s) = Open (burst_start_ns_ (g_burst s)) /\ 1 <= burst_start_ns_ (g_burst s) <= t /\
    started_ (g_burst s) = true /\ (forall x, x ∈ cupti_on s <-> x ∈ on);
  ho_quiet : sampling_ (g_burst s) = false ->
    cupti_on s = [] /\
    exists u, listen (windows s) = Quiet u /\
      match u with
      | None => refused_ (g_burst s) = true
      | Some t' => t' <= t \/ (started_ (g_burst s) = true /\ t' <= next_start_ns_ (g_burst s))
      end;
}.

(** What the pieces leave alone. *)
Record kept (on : list Z) (s s' : tier_a) : Prop := {
  sm_burst : g_burst s' = g_burst s;
  sm_windows : windows s' = windows s;
  sm_shape : map pc_shape (g_pc_ctxs s') = map pc_shape (g_pc_ctxs s);
  sm_on : cupti_on s' = on;
}.

Lemma kept_trans on on' s1 s2 s3 : kept on s1 s2 -> kept on' s2 s3 -> kept on' s1 s3.
Proof using Type. intros [A B C D] [A' B' C' D']. split; congruence. Qed.

Lemma sm_ids on s s' : kept on s s' -> enabled_ids (g_pc_ctxs s') = enabled_ids (g_pc_ctxs s).
Proof using Type. intros H. apply enabled_ids_shape, H. Qed.

Lemma kept_count k d s : kept (cupti_on s) s (b_count k d s).
Proof using Type. by split. Qed.

Lemma kept_note tid s : kept (cupti_on s) s (note_burst_thread timer tid s).
Proof using Type. unfold note_burst_thread. case_match; by split. Qed.

Lemma kept_sync sy s : kept (cupti_on s) s (pc_sync_before_start sy s).
Proof using Type. unfold pc_sync_before_start. repeat case_match; by split. Qed.

Lemma start_fold cs s : kept (rev (enabled_ids cs) ++ cupti_on s) s (foldl (start_ctx yes) s cs).
Proof using Type.
  revert s. induction cs as [|c cs IH]; intros s; simpl; [by split|]. unfold start_ctx at 2. unfold enabled_ids in *.
  simpl. destruct (pc_enabled c); simpl; [|apply IH]. rewrite <- app_assoc.
  match goal with |- kept _ _ (foldl _ ?s1 cs) => refine (kept_trans (cupti_on s1) _ s s1 _ _ (IH s1)) end. by split.
Qed.

Lemma start_ctxs_kept tid s :
  kept (rev (enabled_ids (g_pc_ctxs s)) ++ cupti_on s) s (pc_start_ctxs_locked yes timer tid s).
Proof using Type.
  pose proof (kept_note tid s) as H. rewrite <- (sm_on _ _ _ H). eapply kept_trans; [exact H|]. apply start_fold.
Qed.

Lemma stop_fold cs s :
  (forall x, x ∈ cupti_on s -> x ∈ enabled_ids cs) -> kept [] s (foldl (stop_ctx yes) s cs).
Proof using Type.
  revert s. induction cs as [|c cs IH]; intros s Hon; simpl.
  { split; try done. destruct (cupti_on s) as [|x l]; [done|]. exfalso.
    by apply (not_elem_of_nil x), Hon, elem_of_cons; left. }
  unfold stop_ctx at 2. unfold enabled_ids in *. simpl in *. destruct (pc_enabled c); simpl in *; [|by apply IH].
  match goal with |- kept _ _ (foldl _ ?s1 cs) => refine (kept_trans (cupti_on s1) _ s s1 _ _ (IH s1 _)) end; [by split|].
  simpl. intros x Hx. apply list_elem_of_In, filter_In in Hx as [Hx Hne]. apply list_elem_of_In, Hon, elem_of_cons in Hx.
  destruct Hx as [->|]; [|done]. by rewrite Z.eqb_refl in Hne.
Qed.

Lemma stop_ctxs_kept tid s :
  (forall x, x ∈ cupti_on s -> x ∈ enabled_ids (g_pc_ctxs s)) ->
  kept [] s (pc_stop_ctxs_locked yes timer tid s).
Proof using Type.
  intros Hon. pose proof (kept_note tid s) as H. eapply kept_trans; [exact H|]. apply stop_fold. by rewrite (sm_on _ _ _ H).
Qed.

Lemma range_end_kept now s : kept (cupti_on s) s (range_end getdata sem P R now s).
Proof using Type.
  unfold range_end, pc_drain_all. pose proof (drain_shape getdata sem P R (g_pc_ctxs s) (g_pc s)) as H.
  destruct (pc_drain_ctxs getdata sem P R (g_pc_ctxs s) (g_pc s)) as [cs pc]. by split.
Qed.

(** A close: the contexts are off and the closed window is on the wire. *)
Lemma burst_close_result tid now start s :
  (forall x, x ∈ cupti_on s -> x ∈ enabled_ids (g_pc_ctxs s)) ->
  let s' := burst_close cfg getdata sem P R yes true timer tid now start s in
  exists n, g_burst s' = closed cfg n (g_burst s) /\ cupti_on s' = [] /\
    map pc_shape (g_pc_ctxs s') = map pc_shape (g_pc_ctxs s) /\
    listen (windows s') = hear (listen (windows s))
      (GpuSamplingWindow start now GPU_SAMPLING_MODE_KERNEL_SERIALIZED (replicate 3 0) (burst_quiet_ms now (g_burst s'))).
Proof using Type.
  intros Hon s'. subst s'. unfold burst_close, close_announce, close_tell, close_count, close_stop.
  set (s1 := range_end getdata sem P R now _).
  assert (H1 : kept [] s s1).
  { pose proof (stop_ctxs_kept tid s Hon) as H. eapply kept_trans; [exact H|]. rewrite <- (sm_on _ _ _ H). apply range_end_kept. }
  set (s2 := b_count g_sampling_burst_ns _ _).
  assert (H2 : kept [] s s2). { subst s2. destruct H1 as [A B C D]. destruct (_ =? g_pc_pcs_at_open s); split; simpl; done. }
  destruct H2 as [A B C D]. exists (pc_cnt (g_pc s2) g_pc_records).
  unfold emit_window, set_burst, b_count. cbn [negb g_burst cupti_on g_pc_ctxs windows]. rewrite A, D. split_and!; [done|done|exact C|].
  by rewrite listen_snoc, B.
Qed.

Lemma closed_rest n c :
  sampling_ (closed cfg n c) = sampling_ c /\ refused_ (closed cfg n c) = refused_ c /\ started_ (closed cfg n c) = started_ c /\
  (0 <= next_start_ns_ c < 2 ^ 64 -> 0 <= next_start_ns_ (closed cfg n c) < 2 ^ 64).
Proof using Type. unfold closed. case_match; [by split_and!|]. split_and!; try done. intros _. apply Z.mod_pos_bound. lia. Qed.

(** The promise, against the controller it was read from. *)
Lemma quiet_promise now c :
  0 <= now < 2 ^ 64 -> 0 <= next_start_ns_ c < 2 ^ 64 ->
  let q := burst_quiet_ms now c in
  (q = kWindowQuietNever <-> refused_ c = true) /\
  (refused_ c = false -> now + q * 1000000 <= Z.max now (next_start_ns_ c)).
Proof using Type.
  intros Hn Hx. unfold burst_quiet_ms, kWindowQuietNever. destruct (refused_ c); [done|]. cbv zeta.
  destruct (Z.leb_spec (next_start_ns_ c) now) as [Hle|Hgt]; [split; [split; intros; discriminate|lia]|].
  rewrite (u64_small (next_start_ns_ c - now)) by (unfold is_u64; lia).
  set (ms := (next_start_ns_ c - now) / 1000000).
  assert (Hms : 0 <= ms /\ ms * 1000000 <= next_start_ns_ c - now).
  { split; [apply Z.div_pos; lia|]. subst ms. pose proof (Z.mul_div_le (next_start_ns_ c - now) 1000000 ltac:(lia)). lia. }
  destruct (Z.leb_spec 4294967295 ms); [split; [split; [lia|discriminate]|lia]|].
  rewrite u32_small by (unfold is_u32; lia). split; [split; [lia|discriminate]|lia].
Qed.

(** From an open burst to a closed one. *)
Lemma close_honest ids on t now tid s c :
  honest ids on t s -> t <= now < 2 ^ 64 -> sampling_ (g_burst s) = true ->
  sampling_ c = false -> started_ c = true -> 0 <= next_start_ns_ c < 2 ^ 64 ->
  honest ids on now (burst_close cfg getdata sem P R yes true timer tid now (burst_start_ns_ (g_burst s)) (set_burst c s)).
Proof using Type.
  intros [Hid Hsub Ht Hn Ho _] Hnow Hs Hc Hst Hnx. destruct (Ho Hs) as (HL & Hb & _ & Hon).
  destruct (burst_close_result tid now (burst_start_ns_ (g_burst s)) (set_burst c s)) as (n & E1 & E2 & E3 & E4).
  { intros x. simpl. rewrite Hid, Hon. apply Hsub. }
  set (s' := burst_close _ _ _ _ _ _ _ _ _ _ _ _) in *. clearbody s'. simpl in E1, E3, E4.
  destruct (closed_rest n c) as (R1 & R2 & R3 & R4). rewrite <- E1 in R1, R2, R3, R4. specialize (R4 Hnx).
  destruct (quiet_promise now (g_burst s') ltac:(lia) R4) as [Q1 Q2].
  split; [by rewrite (enabled_ids_shape _ _ E3)|done|lia|done|congruence|]. intros _. split; [done|]. rewrite E4, HL. simpl.
  rewrite Z.eqb_refl, (proj2 (Z.leb_le _ _)), (proj2 (Z.eqb_neq now 0)) by lia. cbn [andb negb].
  destruct (Z.eqb_spec (burst_quiet_ms now (g_burst s')) kWindowQuietNever) as [Eq|Eq]; [exists None; split; [done|by apply Q1]|].
  eexists; split; [done|]. assert (Hr : refused_ (g_burst s') = false) by (destruct (refused_ (g_burst s')); [by destruct Eq; apply Q1|done]).
  specialize (Q2 Hr). rewrite R3, Hst. lia.
Qed.

Lemma honest_count ids on t k d s : honest ids on t s -> honest ids on t (b_count k d s).
Proof using Type. intros []. by split. Qed.

Lemma honest_refusal ids on t w g s : honest ids on t s -> honest ids on t (note_graph_refusal w g s).
Proof using Type. intros H. unfold note_graph_refusal. case_match; [done|by apply honest_count]. Qed.

(** A controller that only refuses, or whose clock has moved on. *)
Lemma honest_later ids on t now s c :
  honest ids on t s -> t <= now -> sampling_ c = sampling_ (g_burst s) -> started_ c = started_ (g_burst s) ->
  burst_start_ns_ c = burst_start_ns_ (g_burst s) -> next_start_ns_ c = next_start_ns_ (g_burst s) ->
  (refused_ (g_burst s) = true -> refused_ c = true) ->
  honest ids on now (set_burst c s).
Proof using Type.
  intros [Hid Hsub Ht Hn Ho Hq] Hnow E1 E2 E3 E4 E5. split; simpl; [done|done|lia|by rewrite E4| |].
  - rewrite E1, E2, E3. intros Hs. destruct (Ho Hs) as (? & ? & ? & ?). split_and!; done || lia.
  - rewrite E1, E2, E4. intros Hs. destruct (Hq Hs) as (? & u & Hu & Hm). split; [done|]. exists u. split; [done|].
    destruct u as [t'|]; [destruct Hm as [?|?]; [left; lia|by right]|by apply E5].
Qed.

Lemma honest_mono ids on t now s : honest ids on t s -> t <= now -> honest ids on now s.
Proof using Type.
  intros H Hnow. assert (E : s = set_burst (g_burst s) s) by (by destruct s). rewrite E. by apply (honest_later ids on t).
Qed.

Lemma note_graphs_honest ids on t now g s :
  honest ids on t s -> t <= now -> honest ids on now (set_burst (note_graphs_locked g (g_burst s)) s).
Proof using Type.
  intros H Hnow. apply (honest_later ids on t); try done; unfold note_graphs_locked; by case_match.
Qed.

Lemma set_burst_twice c c' s : set_burst c' (set_burst c s) = set_burst c' s.
Proof using Type. done. Qed.

(** The start of a burst. *)
Lemma open_honest ids on t sy tid now s c :
  honest ids on t s -> t <= now < 2 ^ 64 -> open_locked now (g_burst s) = (kStart, c) -> sampling_ (g_burst s) = false ->
  honest ids ids now (emit_window true now 0 0
    (open_note (open_start yes timer tid (pc_sync_before_start sy (set_burst c s))))).
Proof using Type.
  intros [Hid Hsub Ht Hn _ Hq] Hnow Ho Hs. unfold open_locked in Ho. destruct (refused_ (g_burst s)) eqn:Er; [done|].
  destruct (started_ (g_burst s) && _) eqn:Est; [done|]. injection Ho as <-. destruct (Hq Hs) as (Hon & u & Hu & Hm).
  set (c := MkBurst _ _ _ _ _ _ _ _ _ _ _ _ _ _ _ _).
  pose proof (kept_sync sy (set_burst c s)) as H1. pose proof (start_ctxs_kept tid (pc_sync_before_start sy (set_burst c s))) as H2.
  pose proof (kept_trans _ _ _ _ _ H1 H2) as H3. rewrite (sm_ids _ _ _ H1), (sm_on _ _ _ H1) in H3.
  unfold open_start. set (s1 := pc_start_ctxs_locked _ _ _ _) in *. clearbody s1. destruct H3 as [A B C D]. simpl in *.
  unfold emit_window, open_note, b_count. cbn [negb]. split; simpl; rewrite ?A; [by rewrite (enabled_ids_shape _ _ C)|done|lia|done| |done].
  intros _. change (burst_start_ns_ c) with now. split_and!; [|lia|lia|done|].
  - rewrite listen_snoc, B, Hu. simpl. destruct u as [t'|]; [|congruence].
    assert (Ht' : t' <= now).
    { destruct Hm as [?|[Hst Hle]]; [lia|]. rewrite Hst in Est. simpl in Est. apply Z.ltb_ge in Est. lia. }
    by rewrite (proj2 (Z.leb_le _ _)).
  - intros x. rewrite D, Hon, Hid, app_nil_r, !list_elem_of_In. symmetry. apply in_rev.
Qed.

Lemma enter_honest ids on t ctx_enabled sy tid now s :
  honest ids on t s -> t <= now < 2 ^ 64 ->
  exists on', (on' = on \/ on' = ids) /\ honest ids on' now (burst_open_at_launch yes true ctx_enabled true sy timer tid now s).
Proof using Type.
  intros H Hnow. unfold burst_open_at_launch. cbn [negb].
  destruct ctx_enabled; cbn [negb]; [|exists on; split; [by left|by apply (honest_mono _ _ t); [|lia]]]. apply (honest_count _ _ _ g_burst_enter_polls 1) in H.
  set (s0 := b_count _ _ s) in *. clearbody s0. unfold poll_open.
  pose proof (note_graphs_honest ids on t now (graphs_seen s0) s0 H ltac:(lia)) as Hl.
  set (c0 := note_graphs_locked _ _) in *. clearbody c0.
  destruct (sampling_ c0) eqn:Es; [exists on; split; [by left|by apply honest_refusal]|].
  destruct (open_locked now c0) as [[] c1] eqn:Eo; [| |by destruct (open_action now c0); rewrite Eo].
  - exists on. split; [by left|]. apply honest_refusal. assert (c1 = c0) as -> by (unfold open_locked in Eo; repeat case_match; congruence). done.
  - exists ids. split; [by right|]. apply honest_refusal.
    change (set_burst c1 s0) with (set_burst c1 (set_burst c0 s0)). by apply (open_honest ids on now); [|lia|..].
Qed.

Lemma stop_next now why c : 0 <= next_start_ns_ (stop_locked cfg now why c).2 < 2 ^ 64.
Proof using Type. simpl. apply Z.mod_pos_bound. lia. Qed.

Lemma exit_honest ids on t tid now s :
  honest ids on t s -> t <= now < 2 ^ 64 ->
  honest ids on now (burst_close_at_launch cfg getdata sem P R yes true true timer tid now s).
Proof using Type.
  intros H Hnow. unfold burst_close_at_launch. cbn [negb]. apply (honest_count _ _ _ g_burst_exit_polls 1) in H.
  set (s0 := b_count _ _ s) in *. clearbody s0. unfold poll_close.
  pose proof (note_graphs_honest ids on t now (graphs_seen s0) s0 H ltac:(lia)) as Hl.
  assert (Eb : burst_start_ns_ (note_graphs_locked (graphs_seen s0) (g_burst s0)) = burst_start_ns_ (g_burst s0))
    by (unfold note_graphs_locked; by case_match).
  set (c0 := note_graphs_locked _ _) in *. clearbody c0.
  destruct (sampling_ c0) eqn:Es; cbn [negb]; [|by apply honest_refusal].
  destruct (ho_open _ _ _ _ Hl Es) as (_ & _ & Hst & _).
  assert (Hc : close_locked cfg now c0 = (kNone, c0) \/ exists why, close_locked cfg now c0 = stop_locked cfg now why c0)
    by (unfold close_locked; repeat case_match; eauto).
  destruct Hc as [->|[why ->]]; [by apply honest_refusal|]. pose proof (stop_next now why c0) as Hx.
  apply honest_refusal. cbn [stop_locked]. rewrite <- Eb.
  change (set_burst ?c s0) with (set_burst c (set_burst c0 s0)). by apply (close_honest ids on now); [|lia|..].
Qed.

Lemma teardown_honest ids on t tid now s :
  honest ids on t s -> t <= now < 2 ^ 64 ->
  honest ids on now (burst_shutdown cfg getdata sem P R yes true true timer tid now s).
Proof using Type.
  intros H Hnow. unfold burst_shutdown. cbn [negb]. unfold shutdown.
  assert (Hl : honest ids on now (set_burst (refuse (g_burst s)) s)) by (by apply (honest_later ids on t); [|lia|..]).
  assert (Eb : burst_start_ns_ (refuse (g_burst s)) = burst_start_ns_ (g_burst s)) by done.
  set (c0 := refuse _) in *. clearbody c0. destruct (sampling_ c0) eqn:Es; cbn [negb]; [|done].
  destruct (ho_open _ _ _ _ Hl Es) as (_ & _ & Hst & _). pose proof (stop_next now kShutdown c0) as Hx.
  cbn [stop_locked]. rewrite <- Eb. change (set_burst ?c s) with (set_burst c (set_burst c0 s)). by apply (close_honest ids on now); [|lia|..].
Qed.

(** A step that changes neither the controller, the windows, nor who is enabled. *)
Lemma honest_kept ids on t s s' : honest ids on t s -> kept (cupti_on s) s s' -> honest ids on t s'.
Proof using Type.
  intros [Hid Hsub Ht Hn Ho Hq] K. pose proof (sm_ids _ _ _ K) as E. destruct K as [A B _ D].
  split; rewrite ?A, ?B, ?D, ?E; done.
Qed.

Lemma tier_step_honest ids t s o :
  honest ids ids t s -> (match tier_time o with Some now => t <= now < 2 ^ 64 | None => True end) ->
  honest ids ids (default t (tier_time o)) (tier_step s o).
Proof using Type.
  intros H Ht. destruct o as [sy tid now|tid now|tid now| |]; simpl tier_time in *; simpl default.
  - by destruct (enter_honest ids ids t true sy tid now s H Ht) as (on & [-> | ->] & ?).
  - by apply (exit_honest ids ids t).
  - by apply (teardown_honest ids ids t).
  - apply (honest_kept _ _ _ s); [done|by split].
  - apply (honest_kept _ _ _ s); [done|]. simpl. unfold pc_drain_all. pose proof (drain_shape getdata sem P R (g_pc_ctxs s) (g_pc s)) as He.
    destruct (pc_drain_ctxs getdata sem P R (g_pc_ctxs s) (g_pc s)) as [cs pc]. by split.
Qed.

Lemma tier_run_honest ids os t s :
  honest ids ids t s -> on_time t os -> honest ids ids (time_after t os) (foldl tier_step s os).
Proof using Type.
  revert t s. induction os as [|o os IH]; intros t s H Ht; simpl; [done|]. simpl in Ht.
  pose proof (tier_step_honest ids t s o H) as H'. destruct (tier_time o) as [now|]; simpl in *;
    [destruct Ht; apply IH; [by apply H'|done]|by apply IH; [apply H'|]].
Qed.
End Honest.

Definition tier_init (cfg : BurstConfig) (cs : list PCContext) (pc : pc_state) : tier_a :=
  MkTierA (Burst_init cfg) cs [] pc (PCDrain_init 100000000) 0 0 [] (fun _ => 0) 0 0.

(** The wire tells which executions were serialized.  Let launches enter and
    exit, the timer drain, graph executions appear and the process tear down, one
    call after the other, with a clock that does not run backwards, CUPTI doing
    what it is asked and a consumer listening.  Read by the contract of
    gpu_sampling_window_v1, the windows always fit together: each opening is
    followed by a closing record of the kept start, no burst opens before the
    time a closing record promised, and none at all after one that says never;
    and the last record is an opening exactly while the controller has a burst
    open, when CUPTI is sampling every enabled context, while otherwise it is
    sampling none. *)
Theorem burst_windows_honest cfg getdata sem P R timer cs pc os :
  on_time 1 os ->
  let s := foldl (tier_step cfg getdata sem P R timer) (tier_init cfg cs pc) os in
  match listen (windows s) with
  | Open t => sampling_ (g_burst s) = true /\ t = burst_start_ns_ (g_burst s) /\
              forall x, x ∈ cupti_on s <-> x ∈ enabled_ids cs
  | Quiet _ => sampling_ (g_burst s) = false /\ cupti_on s = []
  | Broken => False
  end.
Proof.
  intros Ht s. assert (H0 : honest (enabled_ids cs) (enabled_ids cs) 1 (tier_init cfg cs pc)).
  { split; simpl; [done|done|lia|lia|done|]. intros _. split; [done|]. exists (Some 0). split; [done|]. left. lia. }
  pose proof (tier_run_honest cfg getdata sem P R timer _ os 1 _ H0 Ht) as [_ _ _ _ Ho Hq]. fold s in Ho, Hq.
  destruct (sampling_ (g_burst s)).
  - destruct (Ho eq_refl) as (-> & _ & _ & Hon). done.
  - destruct (Hq eq_refl) as (Hon & u & -> & _). done.
Qed.

Definition demo_tier : list tier_op :=
  [LaunchEnter (Some 0) 11 1000; LaunchExit 11 2000; TimerDrain; LaunchEnter (Some 0) 11 30000000;
   LaunchExit 11 60001000; LaunchEnter (Some 0) 11 70000000; LaunchEnter (Some 0) 11 5000000000; LaunchExit 11 5000001000;
   GraphExecution; LaunchExit 11 5000002000; LaunchEnter None 11 9000000000].

Lemma burst_windows_honest_witness :
  on_time 1 demo_tier /\
  let s := foldl (tier_step default_burst (fun _ => GdError) (fun _ => true) 2 2 5)
             (tier_init default_burst [MkPCContext 7 (pc_setup_buffer 2 2) 0 0 true] demo_pc) demo_tier in
  length (windows s) = 4%nat /\ listen (windows s) = Quiet None /\ sampling_ (g_burst s) = false /\ cupti_on s = [].
Proof.
  assert (Ht : on_time 1 demo_tier) by (cbn; lia). split; [exact Ht|].
  pose proof (burst_windows_honest default_burst (fun _ => GdError) (fun _ => true) 2 2 5 [MkPCContext 7 (pc_setup_buffer 2 2) 0 0 true] demo_pc demo_tier Ht) as H.
  intros s. cbv zeta in H. fold s in H.
  assert (E : listen (windows s) = Quiet None) by (vm_compute; reflexivity). rewrite E in H.
  split; [vm_compute; reflexivity|]. split; [exact E|exact H].
Defined.

(** Two threads.  The first enters a launch and is told to start; while it waits
    for the device to go idle, longer than a burst, the second leaves a launch
    and is told to stop: it stops the contexts, which are not started, and
    announces the window closed, with a quiet time; then the first starts them.
    CUPTI samples, and serializes, from then on, while the controller holds no
    burst open and nothing will stop it before the end of the next one. *)
Theorem late_start_unannounced :
  let s0 := tier_init default_burst [MkPCContext 7 (pc_setup_buffer 2 2) 0 0 true] demo_pc in
  let told := poll_open 1000 (graphs_seen s0) (g_burst s0) in
  let s1 := pc_sync_before_start (Some 0) (set_burst told.2 s0) in
  let s2 := burst_close_at_launch default_burst (fun _ => GdError) (fun _ => true) 2 2 (fun _ => true) true true 5 12 60001000 s1 in
  let s3 := emit_window true 1000 0 0 (open_note (open_start (fun _ => true) 5 11 s2)) in
  told.1 = kStart /\
  map (fun x => (w_start_ns x.2, w_end_ns x.2, w_next_start_delta_ms x.2)) (windows s3) = [(1000, 60001000, 1140); (1000, 0, 0)] /\
  sampling_ (g_burst s3) = false /\ cupti_on s3 = [7] /\
  cupti_on (burst_close_at_launch default_burst (fun _ => GdError) (fun _ => true) 2 2 (fun _ => true) true true 5 12 500000000 s3) = [7].
Proof. vm_compute. done. Qed.
