(* ===== verification/Contexts.v ===== *)
(** * Contexts: PC sampling over the life of the contexts

    Models, of src/shim/nvidia/cupti_adapter.cc, what turns PC sampling on and off
    for a CUDA context and what it announces: the query of the stall reasons
    ([pc_query_stall_reasons]), [pc_enable_ctx], [pc_disable_ctx], the resource
    callbacks ([on_resource]), the configuration record ([pc_emit_config_once])
    and finalization ([on_finalize]), composed with the drain of PcSampling, the
    bursts of Window and the log of Replay.

    CUPTI is a parameter: a record of functions that give what the [n]-th of
    these calls answers.  The calls made are kept in a log, so that a theorem can
    speak of what CUPTI was asked, and in which order. *)
From S2P Require Import Prelude Tables GpuUsdt Abi Batch Double Burst Timers Replay Adapter PcSampling Window.

(** The attributes of cuptiPCSamplingSetConfigurationAttribute; [serialized]
    tells KERNEL_SERIALIZED from CONTINUOUS. *)
Inductive pc_attr :=
| COLLECTION_MODE (serialized : bool)
| ENABLE_START_STOP_CONTROL (on : Z)
| STALL_REASON (indices : list Z)
| OUTPUT_DATA_FORMAT_PARSED
| SAMPLING_DATA_BUFFER (buf : pc_buffer)
| SAMPLING_PERIOD (period : Z)
| SCRATCH_BUFFER_SIZE (bytes : Z)
| HARDWARE_BUFFER_SIZE (bytes : Z)
| WORKER_THREAD_PERIODIC_SLEEP_SPAN (ms : Z).

(** What CUPTI is asked about a context.  [CallDrained] stands for the [pulls]
    calls of cuptiPCSamplingGetData that precede a disable. *)
Inductive cupti_call :=
| CallEnable (ctx : Z) (ok : bool)
| CallNumStallReasons (ctx : Z)
| CallStallReasons (ctx : Z)
| CallConfigure (ctx : Z) (attrs : list pc_attr) (accepted : bool)
| CallReadPeriod (ctx : Z)
| CallDrained (ctx : Z) (pulls : nat)
| CallDisable (ctx : Z) (ok : bool).

(** The answers, by the number of the call.  [c_stall_reasons] gives the entries
    CUPTI wrote, an index and a name each, with no name for a null pointer;
    [c_configure] is [None] when the call fails and otherwise the attributes'
    statuses, of which those CUPTI does not write read as success. *)
Record cupti_pc := CuptiPc {
  c_enable : nat -> bool;
  c_num_stall_reasons : nat -> option nat;
  c_stall_reasons : nat -> option (list (Z * option (list Z)));
  c_configure : nat -> option (list bool);
  c_read_period : nat -> option Z;
  c_disable : nat -> bool;
}.

Inductive ctx_counter :=
| g_ctx_seen | g_ctx_enabled | g_ctx_enable_failed | g_ctx_destroyed | g_ctx_disable_failed
| g_module_unload_drains | g_finalize_seen | g_finalize_contended | g_config_emitted | g_config_no_device.
#[global] Instance ctx_counter_eq_dec : EqDecision ctx_counter.
Proof. solve_decision. Defined.

(** The device's stall-reason table. *)
Record stall_table := StallTable { g_stall_queried : bool; g_stall_indices : list Z; g_num_stall_reasons : nat }.

(** The probes of the stall map and of the configuration; [w_reads] counts the
    readings of their semaphores. *)
Record pc_wire := PcWire {
  w_reads : nat;
  g_stall_seq : Z; stalls_sent : list (Z * gpu_stall_reason_map_v1);
  g_config_seq : Z; configs_sent : list (Z * gpu_config_v1);
}.

Record session := MkSession {
  tier : tier_a;
  stalls : stall_table;
  g_pc_period : Z;
  g_replay : ReplayLog pc_wire;
  pc_out : pc_wire;
  c_cnt : ctx_counter -> Z;
  cupti_log : list cupti_call;
  finalize_done : bool;
}.

Definition set_tier (t : tier_a) (s : session) : session :=
  MkSession t (stalls s) (g_pc_period s) (g_replay s) (pc_out s) (c_cnt s) (cupti_log s) (finalize_done s).
Definition set_stalls (st : stall_table) (s : session) : session :=
  MkSession (tier s) st (g_pc_period s) (g_replay s) (pc_out s) (c_cnt s) (cupti_log s) (finalize_done s).
Definition set_period (p : Z) (s : session) : session :=
  MkSession (tier s) (stalls s) p (g_replay s) (pc_out s) (c_cnt s) (cupti_log s) (finalize_done s).
Definition set_replay (r : ReplayLog pc_wire) (w : pc_wire) (s : session) : session :=
  MkSession (tier s) (stalls s) (g_pc_period s) r w (c_cnt s) (cupti_log s) (finalize_done s).
Definition set_done (s : session) : session :=
  MkSession (tier s) (stalls s) (g_pc_period s) (g_replay s) (pc_out s) (c_cnt s) (cupti_log s) true.
Definition c_count (c : ctx_counter) (s : session) : session :=
  MkSession (tier s) (stalls s) (g_pc_period s) (g_replay s) (pc_out s)
    (fun c' => if bool_decide (c' = c) then u64 (c_cnt s c' + 1) else c_cnt s c') (cupti_log s) (finalize_done s).
Definition called (x : cupti_call) (s : session) : session :=
  MkSession (tier s) (stalls s) (g_pc_period s) (g_replay s) (pc_out s) (c_cnt s) (cupti_log s ++ [x]) (finalize_done s).
Definition ncalls (s : session) : nat := length (cupti_log s).

(** The parts of the Tier A state that the context handlers write. *)
Definition set_contexts (cs : list PCContext) (on : list Z) (pc : pc_state) (sch : PCDrainSchedule) (t : tier_a) : tier_a :=
  MkTierA (g_burst t) cs on pc sch (g_pc_pcs_at_open t) (g_window_seq t) (windows t) (b_cnt t)
    (pc_start_calls t) (pc_stop_calls t).
Definition set_ctxs (cs : list PCContext) (s : session) : session :=
  set_tier (set_contexts cs (cupti_on (tier s)) (g_pc (tier s)) (g_pc_schedule (tier s)) (tier s)) s.
Definition set_pc (pc : pc_state) (s : session) : session :=
  set_tier (set_contexts (g_pc_ctxs (tier s)) (cupti_on (tier s)) pc (g_pc_schedule (tier s)) (tier s)) s.
Definition pc_force (now : Z) (why : PCDrainReason) (s : session) : session :=
  set_tier (set_contexts (g_pc_ctxs (tier s)) (cupti_on (tier s)) (g_pc (tier s))
              (force now why (g_pc_schedule (tier s))) (tier s)) s.

(** The settings read at injection. *)
Record pc_settings := PcSettings {
  g_pc_enabled : bool; g_pc_tier_a : bool;
  g_pc_collect_num_pcs : nat; g_pc_scratch_bytes : Z; g_pc_hw_buffer_bytes : Z; g_pc_worker_sleep_ms : Z;
}.
Definition GPU_VENDOR_NVIDIA : Z := 1.
Definition kPCPeriodMin : Z := 5.
Definition kPCPeriodMax : Z := 31.
(** CUPTI_STALL_REASON_STRING_SIZE of cupti_pcsampling.h *)
Definition stall_string_size : nat := 128.

(** [strnlen] *)
Fixpoint strnlen (s : list Z) (max : nat) : nat :=
  match max, s with
  | S max', c :: s' => if c =? 0 then 0 else S (strnlen s' max')
  | _, _ => 0
  end.

(** The wire record of a stall reason. *)
Definition stall_record (e : Z * option (list Z)) : gpu_stall_reason_map_v1 :=
  let nm := default [] e.2 in
  let n := strnlen nm stall_string_size in
  let (n, truncated) := if (GPU_STALL_NAME_MAX <? n)%nat then (GPU_STALL_NAME_MAX, 1) else (n, 0) in
  GpuStallReason e.1 (Z.of_nat n) truncated 0 (take n nm ++ replicate (GPU_STALL_NAME_MAX - n) 0).

(** The arrays after the call: [num] entries, zero where CUPTI wrote none. *)
Definition stall_rows (num : nat) (written : list (Z * option (list Z))) : list (Z * option (list Z)) :=
  map (fun i => nth i written (0, Some [])) (seq 0 num).

Section Session.
  Context (cfg : BurstConfig) (g : pc_settings) (cu : cupti_pc).
  Context (getdata : nat -> getdata_result) (sem wsem : nat -> bool) (start_ok stop_ok : nat -> bool).

(** The probe functions; [if (gpu_..._enabled()) gpu_..._emit(&r, 1, seq++)]. *)
Definition stall_emit (r : gpu_stall_reason_map_v1) (w : pc_wire) : pc_wire :=
  if wsem (w_reads w)
  then PcWire (S (w_reads w)) (u64 (g_stall_seq w + 1)) (stalls_sent w ++ [(g_stall_seq w, r)]) (g_config_seq w) (configs_sent w)
  else PcWire (S (w_reads w)) (g_stall_seq w) (stalls_sent w) (g_config_seq w) (configs_sent w).
Definition config_emit (r : gpu_config_v1) (w : pc_wire) : pc_wire :=
  if wsem (w_reads w)
  then PcWire (S (w_reads w)) (g_stall_seq w) (stalls_sent w) (u64 (g_config_seq w + 1)) (configs_sent w ++ [(g_config_seq w, r)])
  else PcWire (S (w_reads w)) (g_stall_seq w) (stalls_sent w) (g_config_seq w) (configs_sent w).

(** Recorded first, emitted second. *)
Definition tell_stall (s : session) (e : Z * option (list Z)) : session :=
  let r := stall_record e in
  set_replay (record_stall_reason r (g_replay s)).2 (stall_emit r (pc_out s)) s.

Definition pc_query_stall_reasons (ctx : Z) (s : session) : bool * session :=
  if g_stall_queried (stalls s) then ((0 <? g_num_stall_reasons (stalls s))%nat, s)
  else
    let s := set_stalls (StallTable true (g_stall_indices (stalls s)) (g_num_stall_reasons (stalls s))) s in
    let num := c_num_stall_reasons cu (ncalls s) in
    let s := called (CallNumStallReasons ctx) s in
    match num with
    | None | Some O => (false, s)
    | Some num =>
        let written := c_stall_reasons cu (ncalls s) in
        let s := called (CallStallReasons ctx) s in
        match written with
        | None => (false, s)
        | Some written =>
            let rows := stall_rows num written in
            (true, foldl tell_stall (set_stalls (StallTable true (map fst rows) num) s) rows)
        end
    end.

(** Disabling also ends a range that was started. *)
Definition pc_disable_ctx (c : PCContext) (s : session) : PCContext * session :=
  if negb (pc_enabled c) then (c, s)
  else
    let ok := c_disable cu (ncalls s) in
    let s := called (CallDisable (pc_ctx c) ok) s in
    let t := tier s in
    let s := if ok
             then set_tier (set_contexts (g_pc_ctxs t) (List.filter (fun x => negb (x =? pc_ctx c)) (cupti_on t))
                              (g_pc t) (g_pc_schedule t) t) s
             else c_count g_ctx_disable_failed s in
    (MkPCContext (pc_ctx c) (pc_buf c) (last_dropped c) (last_non_user c) false, s).

(** [info], up to [n]. *)
Definition pc_attributes (st : stall_table) (period : Z) (buf : pc_buffer) : list pc_attr :=
  [COLLECTION_MODE (g_pc_tier_a g)]
  ++ (if g_pc_tier_a g then [ENABLE_START_STOP_CONTROL 1] else [])
  ++ [STALL_REASON (g_stall_indices st); OUTPUT_DATA_FORMAT_PARSED; SAMPLING_DATA_BUFFER buf]
  ++ (if period =? 0 then [] else [SAMPLING_PERIOD period])
  ++ (if g_pc_scratch_bytes g =? 0 then [] else [SCRATCH_BUFFER_SIZE (g_pc_scratch_bytes g)])
  ++ (if g_pc_hw_buffer_bytes g =? 0 then [] else [HARDWARE_BUFFER_SIZE (g_pc_hw_buffer_bytes g)])
  ++ (if g_pc_worker_sleep_ms g =? 0 then [] else [WORKER_THREAD_PERIODIC_SLEEP_SPAN (g_pc_worker_sleep_ms g)]).

(** The loop over the statuses of the first [n] attributes. *)
Definition all_accepted (n : nat) (statuses : list bool) : bool := forallb (fun i => nth i statuses true) (seq 0 n).

Definition pc_enable_ctx (ctx : Z) (s : session) : session :=
  if g_pc_tier_a g && graphs_seen (tier s) then
    c_count g_ctx_enable_failed (set_tier (b_count g_tier_a_graph_refused 1 (tier s)) s)
  else
    let ok := c_enable cu (ncalls s) in
    let s := called (CallEnable ctx ok) s in
    if negb ok then c_count g_ctx_enable_failed s
    else
      let unset := MkPCContext ctx (PcBuffer [] 0 0) 0 0 true in
      let '(have, s) := pc_query_stall_reasons ctx s in
      if negb have then c_count g_ctx_enable_failed (pc_disable_ctx unset s).2
      else
        let c := MkPCContext ctx (pc_setup_buffer (g_pc_collect_num_pcs g) (g_num_stall_reasons (stalls s))) 0 0 true in
        let info := pc_attributes (stalls s) (g_pc_period s) (pc_buf c) in
        let answer := c_configure cu (ncalls s) in
        let accepted := match answer with Some st => all_accepted (length info) st | None => false end in
        let s := called (CallConfigure ctx info accepted) s in
        if negb accepted then c_count g_ctx_enable_failed (pc_disable_ctx c s).2
        else
          let s := if negb (g_pc_period s =? 0) then s
                   else
                     let answer := c_read_period cu (ncalls s) in
                     let s := called (CallReadPeriod ctx) s in
                     match answer with Some p => set_period p s | None => s end in
          c_count g_ctx_enabled (set_ctxs (g_pc_ctxs (tier s) ++ [c]) s).

(** [pc_drain_ctx_locked] on the way to a disable. *)
Definition drain_before (c : PCContext) (s : session) : PCContext * session :=
  let '(c', pc) := pc_drain_ctx_locked getdata sem (g_pc_collect_num_pcs g) (g_num_stall_reasons (stalls s)) c (g_pc (tier s)) in
  (c', called (CallDrained (pc_ctx c) (pc_calls pc - pc_calls (g_pc (tier s)))) (set_pc pc s)).

Definition pcb_flush (s : session) : session := set_pc (pc_flush sem (g_pc (tier s))) s.

Definition drain_all (why : PCDrainReason) (s : session) : session :=
  let '(cs, pc) := pc_drain_all getdata sem (g_pc_collect_num_pcs g) (g_num_stall_reasons (stalls s)) why
                     (g_pc_ctxs (tier s)) (g_pc (tier s)) in
  set_ctxs cs (set_pc pc s).

Inductive resource_cbid := CONTEXT_CREATED | CONTEXT_DESTROY_STARTING | MODULE_UNLOAD_STARTING | OTHER_RESOURCE.

(** [rd] is the context of the resource data, [None] for a null pointer. *)
Definition on_resource (cbid : resource_cbid) (rd : option Z) (now : Z) (s : session) : session :=
  match g_pc_enabled g, rd with
  | true, Some ctx =>
      match cbid with
      | CONTEXT_CREATED => pc_enable_ctx ctx (c_count g_ctx_seen s)
      | CONTEXT_DESTROY_STARTING =>
          let s := c_count g_ctx_destroyed s in
          let s := match list_find (fun c => pc_ctx c = ctx) (g_pc_ctxs (tier s)) with
                   | Some (i, c) =>
                       let '(c, s) := drain_before c s in
                       let '(_, s) := pc_disable_ctx c s in
                       set_ctxs (delete i (g_pc_ctxs (tier s))) s
                   | None => s
                   end in
          pc_force now kTeardown (pcb_flush s)
      | MODULE_UNLOAD_STARTING =>
          drain_all kModuleUnload (pc_force now kModuleUnload (c_count g_module_unload_drains s))
      | OTHER_RESOURCE => s
      end
  | _, _ => s
  end.

(** [sm_count] and [clock_hz] are what the two atomics hold. *)
Definition pc_emit_config_once (sm_count clock_hz : Z) (s : session) : session :=
  if negb (c_cnt s g_config_emitted =? 0) then s
  else
    let p := g_pc_period s in
    let factor := if (kPCPeriodMin <=? p) && (p <=? kPCPeriodMax) then u32 (Z.shiftl 1 p) else 0 in
    let r := GpuConfig clock_hz factor sm_count GPU_VENDOR_NVIDIA (replicate 7 0) in
    let s := if sm_count =? 0 then c_count g_config_no_device s else s in
    let s := set_replay (record_config r (g_replay s)) (config_emit r (pc_out s)) s in
    c_count g_config_emitted s.

Fixpoint finalize_ctxs (cs : list PCContext) (s : session) : list PCContext * session :=
  match cs with
  | [] => ([], s)
  | c :: cs' =>
      let '(c, s) := drain_before c s in
      let '(c, s) := pc_disable_ctx c s in
      let '(cs', s) := finalize_ctxs cs' s in
      (c :: cs', s)
  end.

(** [guard_free] is whether [TryCallScope] got the guard. *)
Definition on_finalize (guard_free : bool) (now : Z) (s : session) : session :=
  if finalize_done s then s
  else
    let s := c_count g_finalize_seen (set_done s) in
    if negb (g_pc_enabled g) then s
    else
      let s := if g_pc_tier_a g then set_tier (set_burst (shutdown cfg now (g_burst (tier s))).2 (tier s)) s else s in
      if negb guard_free then c_count g_finalize_contended s
      else
        let '(cs, s) := finalize_ctxs (g_pc_ctxs (tier s)) s in
        pcb_flush (set_ctxs cs s).

(** The end of [on_tick], from the gate on [g_pc_enabled]. *)
Definition pc_tick (sm_count clock_hz now : Z) (s : session) : session :=
  if negb (g_pc_enabled g) then s
  else
    let s := if negb (c_cnt s g_ctx_enabled =? 0) then pc_emit_config_once sm_count clock_hz s else s in
    let '(due_now, sch) := due now (g_pc_schedule (tier s)) in
    let s := set_tier (set_contexts (g_pc_ctxs (tier s)) (cupti_on (tier s)) (g_pc (tier s)) sch (tier s)) s in
    let s := if due_now then drain_all kPeriodic s else s in
    pcb_flush s.

(** What [on_tick] does for PC sampling: the replay to a consumer that came, then
    the above.  [attached] is [consumer_attached()]. *)
Definition session_tick (attached : bool) (sm_count clock_hz now : Z) (s : session) : session :=
  let '(r, w) := replay_if_newly_attached attached (g_replay s) (pc_out s) in
  pc_tick sm_count clock_hz now (set_replay r w s).
End Session.

(** ** Histories

    The adapter's calls one after the other: each holds the CUPTI guard while it
    looks at the contexts.  [sees] is whether a consumer is listening to the
    window probe at that call. *)
Inductive session_op :=
| Resource (cbid : resource_cbid) (rd : option Z) (now : Z)
| Entered (sees : bool) (cu_ctx_sync : option Z) (tid now : Z)
| Exited (sees : bool) (tid now : Z)
| Ticked (attached : bool) (sm_count clock_hz now : Z)
| GraphSeen
| FatalError (guard_free : bool) (now : Z)
| AtExit (sees guard_free : bool) (tid now : Z).

Section Run.
  Context (cfg : BurstConfig) (g : pc_settings) (cu : cupti_pc).
  Context (getdata : nat -> getdata_result) (sem wsem : nat -> bool) (start_ok stop_ok : nat -> bool) (timer : Z).

Definition session_step (s : session) (o : session_op) : session :=
  let t := tier s in
  let P := g_pc_collect_num_pcs g in
  let R := g_num_stall_reasons (stalls s) in
  match o with
  | Resource cbid rd now => on_resource g cu getdata sem wsem cbid rd now s
  | Entered sees sy tid now =>
      set_tier (burst_open_at_launch start_ok (g_pc_tier_a g) (negb (c_cnt s g_ctx_enabled =? 0)) sees sy timer tid now t) s
  | Exited sees tid now =>
      set_tier (burst_close_at_launch cfg getdata sem P R stop_ok (g_pc_tier_a g) sees timer tid now t) s
  | Ticked attached sm_count clock_hz now => session_tick g getdata sem wsem attached sm_count clock_hz now s
  | GraphSeen =>
      let pc := g_pc t in
      set_pc (MkPc (pc_cnt pc) (g_pcb pc) (pc_fires pc) (graph_step (pc_drops pc) GraphExec) (pc_calls pc) (pc_reads pc)) s
  | FatalError guard_free now => on_finalize cfg g cu getdata sem guard_free now s
  | AtExit sees guard_free tid now =>
      on_finalize cfg g cu getdata sem guard_free now
        (set_tier (burst_shutdown cfg getdata sem P R stop_ok (g_pc_tier_a g) sees timer tid now t) s)
  end.
Definition session_run (s : session) (os : list session_op) : session := foldl session_step s os.

(** *** What CUPTI is left with, by its own answers *)

Fixpoint remove_one (x : Z) (l : list Z) : list Z :=
  match l with [] => [] | y :: l' => if y =? x then l' else y :: remove_one x l' end.

(** The contexts that are enabled after the calls of a log. *)
Definition sampled_step (l : list Z) (x : cupti_call) : list Z :=
  match x with
  | CallEnable ctx true => ctx :: l
  | CallDisable ctx true => remove_one ctx l
  | _ => l
  end.
Definition sampled_by (log : list cupti_call) : list Z := foldl sampled_step [] log.

(** What may come right before a context is disabled: its data was pulled, or it
    is the context just enabled, and a step of setting it up did not succeed. *)
Definition before_disable (ctx : Z) (x : cupti_call) : Prop :=
  match x with
  | CallDrained c n => c = ctx /\ (1 <= n)%nat
  | CallConfigure c _ ok => c = ctx /\ ok = false
  | CallEnable c ok => c = ctx /\ ok = true
  | CallNumStallReasons c | CallStallReasons c => c = ctx
  | CallReadPeriod _ | CallDisable _ _ => False
  end.
Definition disables_drained (log : list cupti_call) : Prop :=
  forall i ctx ok, log !! i = Some (CallDisable ctx ok) ->
  exists j x, i = S j /\ log !! j = Some x /\ before_disable ctx x.

(** A tracked context: its buffer is wired for the table in force, and CUPTI
    accepted all of its configuration. *)
Definition ctx_ready (s : session) (c : PCContext) : Prop :=
  (0 < g_num_stall_reasons (stalls s))%nat /\
  pc_buf c = pc_setup_buffer (g_pc_collect_num_pcs g) (g_num_stall_reasons (stalls s)) /\
  exists period, CallConfigure (pc_ctx c) (pc_attributes g (stalls s) period (pc_buf c)) true ∈ cupti_log s.

(** [ids] are the contexts the adapter holds to be enabled; [owed] contexts are
    seen but neither counted enabled nor failed yet. *)
Record tracked_ok (ids : list Z) (owed : Z) (s : session) : Prop := {
  to_seen : c_cnt s g_ctx_seen = u64 (c_cnt s g_ctx_enabled + c_cnt s g_ctx_enable_failed + owed);
  to_on : exists leaked, sampled_by (cupti_log s) ≡ₚ ids ++ leaked /\
            c_cnt s g_ctx_disable_failed = u64 (Z.of_nat (length leaked));
  to_drained : disables_drained (cupti_log s);
  to_stalls : (0 < g_num_stall_reasons (stalls s))%nat ->
    g_stall_queried (stalls s) = true /\ length (g_stall_indices (stalls s)) = g_num_stall_reasons (stalls s);
  to_ready : Forall (ctx_ready s) (g_pc_ctxs (tier s));
}.

Lemma remove_one_perm x l : x ∈ l -> x :: remove_one x l ≡ₚ l.
Proof using Type.
  induction l as [|y l IH]; [by intros ?%not_elem_of_nil|]. intros Hx. simpl. destruct (Z.eqb_spec y x) as [->|Hne]; [done|].
  apply elem_of_cons in Hx as [->|Hx]; [done|]. rewrite <- (IH Hx) at 2. apply perm_swap.
Qed.

Lemma remove_one_app x l ids leaked : l ≡ₚ (x :: ids) ++ leaked -> remove_one x l ≡ₚ ids ++ leaked.
Proof using Type.
  intros H. assert (Hx : x ∈ l) by (rewrite H; by left). apply (Permutation_cons_inv (a := x)). by rewrite remove_one_perm.
Qed.

Lemma sampled_snoc log x : sampled_by (log ++ [x]) = sampled_step (sampled_by log) x.
Proof using Type. unfold sampled_by. by rewrite foldl_app. Qed.

Lemma drained_snoc log x :
  disables_drained log ->
  (forall ctx ok, x = CallDisable ctx ok -> exists y, list.last log = Some y /\ before_disable ctx y) ->
  disables_drained (log ++ [x]).
Proof using Type.
  intros H Hx i ctx ok E. destruct (decide (i < length log)%nat) as [Hi|Hi].
  - rewrite lookup_app_l in E by done. destruct (H i ctx ok E) as (j & y & -> & Ej & Hb). exists j, y.
    by rewrite lookup_app_l by lia.
  - rewrite lookup_app_r in E by lia. apply list_lookup_singleton_Some in E as [Ei Ex].
    destruct (Hx ctx ok ltac:(congruence)) as (y & Hl & Hb). rewrite list.last_lookup in Hl.
    assert (Hlen : (pred (length log) < length log)%nat) by (by apply lookup_lt_Some in Hl).
    exists (pred (length log)), y. rewrite lookup_app_l by done. split_and!; [lia|done|done].
Qed.

Lemma cnt_same c s : c_cnt (c_count c s) c = u64 (c_cnt s c + 1).
Proof using Type. simpl. by rewrite bool_decide_eq_true_2. Qed.
Lemma cnt_other c c' s : c' <> c -> c_cnt (c_count c s) c' = c_cnt s c'.
Proof using Type. intros H. simpl. by rewrite bool_decide_eq_false_2. Qed.

(** What [tracked_ok] looks at besides the counters. *)
Definition same_view (s s' : session) : Prop :=
  cupti_log s' = cupti_log s /\ stalls s' = stalls s /\ map pc_shape (g_pc_ctxs (tier s')) = map pc_shape (g_pc_ctxs (tier s)).

(** Where a context lives: what readiness depends on. *)
Definition pc_place (c : PCContext) : Z * pc_buffer := (pc_ctx c, pc_buf c).

Lemma places_of_shapes cs cs' : map pc_shape cs' = map pc_shape cs -> map pc_place cs' = map pc_place cs.
Proof using Type.
  intros E. assert (M : forall l, map pc_place l = map fst (map pc_shape l)) by (intros l; by rewrite map_map). by rewrite !M, E.
Qed.

Lemma ready_place s cs cs' : map pc_place cs' = map pc_place cs -> Forall (ctx_ready s) cs -> Forall (ctx_ready s) cs'.
Proof using Type.
  intros E H. revert cs' E. induction H as [|c cs Hc H IH]; intros [|c' cs'] E; try done.
  cbn [map] in E. unfold pc_place at 1 3 in E. injection E as E1 E2 E3. constructor; [|by apply IH].
  unfold ctx_ready in *. by rewrite E1, E2.
Qed.

Lemma ready_mono s s' c :
  stalls s' = stalls s -> (forall x, x ∈ cupti_log s -> x ∈ cupti_log s') -> ctx_ready s c -> ctx_ready s' c.
Proof using Type. intros E H (A & B & p & F). unfold ctx_ready. rewrite E. eauto 10. Qed.

Lemma in_called x s y : y ∈ cupti_log s -> y ∈ cupti_log (called x s).
Proof using Type. intros H. apply elem_of_app. by left. Qed.

Lemma tracked_view ids owed s s' :
  same_view s s' -> (forall c, c_cnt s' c = c_cnt s c) -> tracked_ok ids owed s -> tracked_ok ids owed s'.
Proof using Type.
  intros (E1 & E2 & E3) Hc [A B C T D]. split; rewrite ?Hc, ?E1, ?E2; try done.
  eapply ready_place; [apply places_of_shapes, E3|]. eapply list.Forall_impl; [exact D|]. intros c.
  apply ready_mono; [done|]. by rewrite E1.
Qed.

(** A counter [tracked_ok] says nothing of. *)
Lemma tracked_cnt ids owed c s :
  c <> g_ctx_seen -> c <> g_ctx_enabled -> c <> g_ctx_enable_failed -> c <> g_ctx_disable_failed ->
  tracked_ok ids owed s -> tracked_ok ids owed (c_count c s).
Proof using Type. intros H1 H2 H3 H4 [A B C T D]. split; rewrite ?cnt_other by congruence; try done. Qed.

Lemma tracked_failed ids owed s : tracked_ok ids (owed + 1) s -> tracked_ok ids owed (c_count g_ctx_enable_failed s).
Proof using Type.
  intros [A B C T D]. split; rewrite ?(cnt_other _ g_ctx_disable_failed), ?(cnt_other _ g_ctx_enabled), ?(cnt_other _ g_ctx_seen), ?cnt_same by done; try done.
  rewrite A. transitivity (u64 (u64 (c_cnt s g_ctx_enable_failed + 1) + (c_cnt s g_ctx_enabled + owed)));
    [rewrite u64_add|]; f_equal; lia.
Qed.

(** A call that neither enables nor disables. *)
Lemma tracked_called ids owed x s :
  (forall l, sampled_step l x = l) -> (forall ctx ok, x <> CallDisable ctx ok) -> tracked_ok ids owed s -> tracked_ok ids owed (called x s).
Proof using Type.
  intros Hx Hd [A B C T D]. split; simpl; try done.
  - by rewrite sampled_snoc, Hx.
  - apply drained_snoc; [done|]. intros ctx ok E. by destruct (Hd ctx ok).
  - eapply list.Forall_impl; [exact D|]. intros c. apply ready_mono; [done|]. apply in_called.
Qed.

Lemma tracked_enable ids owed ctx (ok : bool) s :
  tracked_ok ids owed s -> tracked_ok (if ok then ctx :: ids else ids) owed (called (CallEnable ctx ok) s).
Proof using Type.
  intros [A (leaked & B1 & B2) C T D]. destruct ok; [|by apply tracked_called; [| |split; eauto]]. split; simpl; [done| | |done|].
  - exists leaked. rewrite sampled_snoc. split; [by apply Permutation_skip|done].
  - by apply drained_snoc.
  - eapply list.Forall_impl; [exact D|]. intros c. apply ready_mono; [done|]. apply in_called.
Qed.

Lemma tracked_disable ids owed c s y :
  pc_enabled c = true -> tracked_ok (pc_ctx c :: ids) owed s -> list.last (cupti_log s) = Some y -> before_disable (pc_ctx c) y ->
  let r := pc_disable_ctx cu c s in
  tracked_ok ids owed r.2 /\ g_pc_ctxs (tier r.2) = g_pc_ctxs (tier s) /\ pc_enabled r.1 = false.
Proof using Type.
  intros He [A (leaked & B1 & B2) C T D] Hl Hb. unfold pc_disable_ctx. rewrite He. cbn [negb].
  assert (C' : forall ok, disables_drained (cupti_log s ++ [CallDisable (pc_ctx c) ok])).
  { intros ok. apply drained_snoc; [done|]. intros ctx ok' [= <- <-]. eauto. }
  assert (D' : forall ok, Forall (ctx_ready (called (CallDisable (pc_ctx c) ok) s)) (g_pc_ctxs (tier s))).
  { intros ok. eapply list.Forall_impl; [exact D|]. intros c'. apply ready_mono; [done|]. apply in_called. }
  destruct (c_disable cu (ncalls s)); cbn [fst snd]; (split; [|split; done]); split; try done; try apply C'; try apply D'.
  - exists leaked. split; [|done]. simpl. rewrite sampled_snoc. by apply remove_one_app.
  - exists (pc_ctx c :: leaked). rewrite cnt_same. cbn [called cupti_log c_count c_cnt]. split.
    + rewrite sampled_snoc. cbn [sampled_step]. rewrite B1. simpl. by rewrite Permutation_middle.
    + rewrite B2. simpl length. rewrite Nat2Z.inj_succ. unfold u64. by rewrite Zplus_mod_idemp_l.
Qed.

Lemma tell_stalls rows s :
  let s' := foldl (tell_stall wsem) s rows in
  tier s' = tier s /\ stalls s' = stalls s /\ g_pc_period s' = g_pc_period s /\ c_cnt s' = c_cnt s /\
  cupti_log s' = cupti_log s /\ finalize_done s' = finalize_done s.
Proof using Type. revert s. induction rows as [|r rows IH]; intros s; simpl; [done|]. apply (IH (tell_stall wsem s r)). Qed.

Lemma query_tracked ctx ids owed s :
  tracked_ok ids owed s -> list.last (cupti_log s) = Some (CallEnable ctx true) ->
  let '(have, s') := pc_query_stall_reasons cu wsem ctx s in
  tracked_ok ids owed s' /\ tier s' = tier s /\ (have = true -> (0 < g_num_stall_reasons (stalls s'))%nat) /\
  exists y, list.last (cupti_log s') = Some y /\ before_disable ctx y.
Proof using Type.
  intros H Hl. unfold pc_query_stall_reasons. destruct (g_stall_queried (stalls s)) eqn:Eq.
  { split_and!; [done|done|by intros ?%Nat.ltb_lt|]. exists (CallEnable ctx true). by simpl. }
  assert (Hn : g_num_stall_reasons (stalls s) = 0%nat).
  { destruct (Nat.eq_0_gt_0_cases (g_num_stall_reasons (stalls s))) as [|Hp]; [done|].
    destruct (to_stalls _ _ _ H Hp). congruence. }
  assert (Hno : g_pc_ctxs (tier s) = []).
  { pose proof (to_ready _ _ _ H) as D. destruct D as [|c cs [D _] _]; [done|lia]. }
  assert (K : forall st, ((0 < g_num_stall_reasons st)%nat -> g_stall_queried st = true /\ length (g_stall_indices st) = g_num_stall_reasons st) ->
    tracked_ok ids owed (set_stalls st s)).
  { intros st Hst. destruct H as [A B C T D]. split; try done. cbn [set_stalls tier]. by rewrite Hno. }
  set (s1 := set_stalls _ s). assert (H1 : tracked_ok ids owed s1) by (apply K; simpl; lia).
  assert (H2 : tracked_ok ids owed (called (CallNumStallReasons ctx) s1)) by (by apply tracked_called).
  assert (F1 : exists y, list.last (cupti_log (called (CallNumStallReasons ctx) s1)) = Some y /\ before_disable ctx y).
  { simpl. rewrite last_snoc. by eexists. }
  destruct (c_num_stall_reasons cu (ncalls s1)) as [[|n]|]; [by split_and!| |by split_and!].
  set (s2 := called (CallStallReasons ctx) (called (CallNumStallReasons ctx) s1)).
  assert (F2 : exists y, list.last (cupti_log s2) = Some y /\ before_disable ctx y).
  { simpl. rewrite last_snoc. by eexists. }
  assert (H3 : tracked_ok ids owed s2) by (by apply tracked_called).
  destruct (c_stall_reasons cu _) as [written|]; [|by split_and!].
  set (rows := stall_rows (S n) written). set (s3 := set_stalls _ s2).
  assert (H4 : tracked_ok ids owed s3).
  { destruct H3 as [A B C T D]. split; try done; [|cbn [set_stalls tier]; subst s2; simpl; by rewrite Hno].
    intros _. split; [done|]. simpl. unfold rows, stall_rows. by rewrite !length_map, length_seq. }
  destruct (tell_stalls rows s3) as (E1 & E2 & E3 & E4 & E5 & E6). split_and!.
  - eapply tracked_view; [|by rewrite E4|exact H4]. split_and!; [done|done|by rewrite E1].
  - by rewrite E1.
  - rewrite E2. simpl. lia.
  - by rewrite E5.
Qed.

Lemma shape_enabled c cs : enabled_ids (cs ++ [c]) = enabled_ids cs ++ (if pc_enabled c then [pc_ctx c] else []).
Proof using Type.
  unfold enabled_ids. rewrite List.filter_app, map_app. f_equal. simpl. by destruct (pc_enabled c).
Qed.

Definition settled (s : session) : Prop := tracked_ok (enabled_ids (g_pc_ctxs (tier s))) 0 s.

(** The context is tracked: it is enabled, wired and configured. *)
Lemma tracked_add ctx ids s c :
  tracked_ok (ctx :: ids) 1 s -> ids = enabled_ids (g_pc_ctxs (tier s)) -> pc_ctx c = ctx -> pc_enabled c = true -> ctx_ready s c ->
  settled (c_count g_ctx_enabled (set_ctxs (g_pc_ctxs (tier s) ++ [c]) s)).
Proof using Type.
  intros [A (leaked & B1 & B2) C T D] -> E1 E2 Hr. unfold settled. cbn [c_count set_ctxs set_tier set_contexts tier g_pc_ctxs].
  rewrite shape_enabled, E2, E1. split.
  - rewrite !cnt_other by done. rewrite cnt_same. simpl. rewrite A.
    transitivity (u64 (u64 (c_cnt s g_ctx_enabled + 1) + c_cnt s g_ctx_enable_failed)); [rewrite u64_add|]; f_equal; lia.
  - exists leaked. rewrite cnt_other by done. split; [|done]. simpl. rewrite B1. simpl. rewrite <- app_assoc. simpl. apply Permutation_middle.
  - done.
  - done.
  - apply Forall_app_2; [done|by constructor].
Qed.

Lemma enable_settled ctx s :
  tracked_ok (enabled_ids (g_pc_ctxs (tier s))) 1 s -> settled (pc_enable_ctx g cu wsem ctx s).
Proof using Type.
  intros H. unfold pc_enable_ctx. case_match.
  { apply (tracked_failed _ 0), (tracked_view _ _ s); [by split_and!|done|exact H]. }
  set (ids := enabled_ids _) in *. pose proof (tracked_enable ids 1 ctx (c_enable cu (ncalls s)) s H) as H1.
  destruct (c_enable cu (ncalls s)); cbn [negb]; [|by apply (tracked_failed _ 0)].
  set (s1 := called (CallEnable ctx true) s) in *.
  pose proof (query_tracked ctx _ _ s1 H1) as Q. destruct (pc_query_stall_reasons cu wsem ctx s1) as [have s2].
  destruct Q as (H2 & T2 & Hn & y & Hl & Hb); [simpl; by rewrite last_snoc|].
  assert (Fail : forall c, pc_ctx c = ctx -> pc_enabled c = true -> forall s3 y, tracked_ok (ctx :: ids) 1 s3 -> tier s3 = tier s2 ->
    list.last (cupti_log s3) = Some y -> before_disable ctx y -> settled (c_count g_ctx_enable_failed (pc_disable_ctx cu c s3).2)).
  { intros c Ec Ee s3 z H3 T3 Hl3 Hb3. subst ctx.
    destruct (tracked_disable ids 1 c s3 z Ee H3 Hl3 Hb3) as (H4 & E4 & _). unfold settled. apply (tracked_failed _ 0).
    cbn [c_count tier]. rewrite E4, T3, T2. exact H4. }
  destruct have; cbn [negb]; [|by apply (Fail (MkPCContext ctx (PcBuffer [] 0 0) 0 0 true) eq_refl eq_refl s2 y)]. specialize (Hn eq_refl).
  set (c := MkPCContext ctx _ 0 0 true). set (info := pc_attributes g _ _ _). 
  set (ok := match c_configure cu (ncalls s2) with Some st => all_accepted (length info) st | None => false end).
  set (s3 := called (CallConfigure ctx info ok) s2).
  assert (H3 : tracked_ok (ctx :: ids) 1 s3) by (by apply tracked_called).
  assert (R : ok = true -> ctx_ready s3 c).
  { intros Eok. split; [done|]. split; [done|]. exists (g_pc_period s2). simpl. rewrite Eok. apply elem_of_app. right. by left. }
  clearbody ok. destruct ok; cbn [negb].
  2:{ apply (Fail c eq_refl eq_refl s3 (CallConfigure ctx info false)); try done. simpl. by rewrite last_snoc. }
  specialize (R eq_refl).
  set (s4 := if negb _ then s3 else _).
  assert (H4 : tracked_ok (ctx :: ids) 1 s4 /\ tier s4 = tier s2 /\ ctx_ready s4 c).
  { subst s4. destruct (negb _); [done|].
    assert (H5 : tracked_ok (ctx :: ids) 1 (called (CallReadPeriod ctx) s3)) by (by apply tracked_called).
    assert (R5 : ctx_ready (called (CallReadPeriod ctx) s3) c) by (revert R; by apply ready_mono, in_called).
    destruct (c_read_period cu (ncalls s3)); [|done]. split_and!; [|done|exact R5].
    apply (tracked_view _ _ (called (CallReadPeriod ctx) s3)); [by split_and!|done|exact H5]. }
  destruct H4 as (H4 & T4 & R4). apply (tracked_add ctx ids); try done. by rewrite T4, T2.
Qed.

Lemma tracked_perm ids ids' owed s : ids ≡ₚ ids' -> tracked_ok ids owed s -> tracked_ok ids' owed s.
Proof using Type. intros E [A (leaked & B1 & B2) C T D]. split; try done. exists leaked. by rewrite <- E. Qed.

Lemma take_data_calls P R d c s : pc_calls (pc_take_data sem P R d c s).2 = pc_calls s.
Proof using Type.
  assert (F : forall s pc, pc_calls (pc_one sem R s pc) = pc_calls s).
  { intros s0 pc. unfold pc_one. generalize (take (Nat.min (pd_stallReasonCount pc) R) (pd_stallReason pc)). intros l.
    revert s0. induction l as [|sr l IHl]; intros s0; [done|]. cbn [foldl]. rewrite IHl. unfold pc_pair, pc_add. by repeat case_match. }
  assert (G : forall l s, pc_calls (foldl (pc_one sem R) s l) = pc_calls s).
  { induction l as [|pc l IHl]; intros s0; [done|]. cbn [foldl]. by rewrite IHl, F. }
  unfold pc_take_data. repeat case_match; simplify_eq/=; rewrite G; done.
Qed.

(** A drain of an enabled context asks at least once. *)
Lemma rounds_calls P R n c s : (pc_calls s + Nat.min 1 n <= pc_calls (pc_rounds getdata sem P R n c s).2)%nat.
Proof using Type.
  revert c s. induction n as [|n IH]; intros c s; cbn [pc_rounds]; [simpl; lia|].
  destruct (getdata (pc_calls s)) as [| |d]; [simpl; lia|simpl; lia|].
  match goal with |- context [pc_take_data sem P R d c ?q] => set (s1 := q) end.
  pose proof (take_data_calls P R d c s1) as E. change (pc_calls s1) with (S (pc_calls s)) in E.
  destruct (pc_take_data sem P R d c s1) as [c2 s2]. cbn [snd] in E. case_match; cbn [snd]; [lia|].
  match goal with |- context [pc_rounds getdata sem P R n c2 ?q] => specialize (IH c2 q); assert (E2 : pc_calls q = pc_calls s2) by (by case_match) end.
  rewrite E2 in IH. lia.
Qed.

Lemma drain_before_tracked ids owed c s :
  tracked_ok ids owed s ->
  let r := drain_before g getdata sem c s in
  tracked_ok ids owed r.2 /\ pc_shape r.1 = pc_shape c /\ g_pc_ctxs (tier r.2) = g_pc_ctxs (tier s) /\
  exists n, list.last (cupti_log r.2) = Some (CallDrained (pc_ctx c) n) /\ (pc_enabled c = true -> (1 <= n)%nat).
Proof using Type.
  intros H. unfold drain_before. set (P := g_pc_collect_num_pcs g). set (R := g_num_stall_reasons (stalls s)).
  pose proof (drain_ctx_shape getdata sem P R c (g_pc (tier s))) as Hs.
  assert (Hn : pc_enabled c = true ->
    (1 <= pc_calls (pc_drain_ctx_locked getdata sem P R c (g_pc (tier s))).2 - pc_calls (g_pc (tier s)))%nat).
  { intros He. unfold pc_drain_ctx_locked. rewrite He. cbn [negb].
    pose proof (rounds_calls P R kPCMaxDrainRounds c (g_pc (tier s))) as Hr. unfold kPCMaxDrainRounds in *. simpl Nat.min in Hr. lia. }
  destruct (pc_drain_ctx_locked getdata sem P R c (g_pc (tier s))) as [c' pc]. cbn [fst snd] in *. split_and!.
  - apply tracked_called; [done|done|]. apply (tracked_view _ _ s); [by split_and!|done|exact H].
  - done.
  - done.
  - eexists. split; [simpl; by rewrite last_snoc|done].
Qed.

(** Pulling the data of a context and disabling it. *)
Lemma retire_tracked ids owed c s :
  tracked_ok ((if pc_enabled c then [pc_ctx c] else []) ++ ids) owed s ->
  let r := pc_disable_ctx cu (drain_before g getdata sem c s).1 (drain_before g getdata sem c s).2 in
  tracked_ok ids owed r.2 /\ pc_place r.1 = pc_place c /\ pc_enabled r.1 = false /\ g_pc_ctxs (tier r.2) = g_pc_ctxs (tier s).
Proof using Type.
  intros H. destruct (drain_before_tracked _ _ c s H) as (H1 & Hs & Hc & n & Hl & Hn).
  destruct (drain_before g getdata sem c s) as [c1 s1]. cbn [fst snd] in *. unfold pc_shape in Hs. injection Hs as E1 E2 E3.
  assert (Hp : pc_place (pc_disable_ctx cu c1 s1).1 = pc_place c).
  { unfold pc_place. rewrite <- E1, <- E2. unfold pc_disable_ctx. by destruct (negb (pc_enabled c1)). }
  destruct (pc_enabled c) eqn:Ee.
  - rewrite <- E1 in H1, Hl. destruct (tracked_disable ids owed c1 s1 _ E3 H1 Hl) as (H2 & E4 & E5); [by simpl; auto|].
    split_and!; [done|done|done|congruence].
  - unfold pc_disable_ctx in *. rewrite E3 in *. cbn [negb fst snd] in *. by split_and!.
Qed.

Lemma finalize_tracked cs ids owed s :
  tracked_ok (enabled_ids cs ++ ids) owed s ->
  let r := finalize_ctxs g cu getdata sem cs s in
  tracked_ok ids owed r.2 /\ map pc_place r.1 = map pc_place cs /\ enabled_ids r.1 = [] /\ g_pc_ctxs (tier r.2) = g_pc_ctxs (tier s).
Proof using Type.
  revert s. induction cs as [|c cs IH]; intros s H; cbn [finalize_ctxs]; [done|].
  assert (H' : tracked_ok ((if pc_enabled c then [pc_ctx c] else []) ++ (enabled_ids cs ++ ids)) owed s).
  { revert H. unfold enabled_ids. simpl. by destruct (pc_enabled c). }
  destruct (retire_tracked _ _ c s H') as (H1 & Hp & He & Hc).
  destruct (drain_before g getdata sem c s) as [c1 s1]. cbn [fst snd] in *.
  destruct (pc_disable_ctx cu c1 s1) as [c2 s2]. cbn [fst snd] in *. specialize (IH s2 H1).
  destruct (finalize_ctxs g cu getdata sem cs s2) as [cs' s3]. cbn [fst snd] in *. destruct IH as (H2 & Hps & Hes & Hcs).
  split_and!; [done|simpl; congruence|unfold enabled_ids in *; simpl; by rewrite He|congruence].
Qed.

Lemma tracked_set_ctxs ids owed cs s :
  tracked_ok ids owed s -> Forall (ctx_ready s) cs -> tracked_ok ids owed (set_ctxs cs s).
Proof using Type. intros [A B C T D] H. by split. Qed.

Lemma enabled_delete i cs c :
  cs !! i = Some c -> enabled_ids cs ≡ₚ (if pc_enabled c then [pc_ctx c] else []) ++ enabled_ids (delete i cs).
Proof using Type.
  revert i. induction cs as [|c' cs IH]; intros [|i] E; try done; simpl in *.
  - injection E as ->. unfold enabled_ids. simpl. by destruct (pc_enabled c).
  - specialize (IH i E). unfold enabled_ids in *. simpl. destruct (pc_enabled c'); simpl; rewrite IH; [|done].
    destruct (pc_enabled c); simpl; [apply perm_swap|done].
Qed.

Lemma settled_same s s' : same_view s s' -> (forall c, c_cnt s' c = c_cnt s c) -> settled s -> settled s'.
Proof using Type.
  intros V Hc H. unfold settled. rewrite (enabled_ids_shape (g_pc_ctxs (tier s))) by apply V. by apply (tracked_view _ _ s).
Qed.

Lemma settled_cnt c s :
  c <> g_ctx_seen -> c <> g_ctx_enabled -> c <> g_ctx_enable_failed -> c <> g_ctx_disable_failed -> settled s -> settled (c_count c s).
Proof using Type. intros. by apply tracked_cnt. Qed.

Lemma drain_all_view why s :
  let s' := drain_all g getdata sem why s in same_view s s' /\ (forall c, c_cnt s' c = c_cnt s c).
Proof using Type.
  unfold drain_all, pc_drain_all. pose proof (drain_shape getdata sem (g_pc_collect_num_pcs g) (g_num_stall_reasons (stalls s))
    (g_pc_ctxs (tier s)) (g_pc (tier s))) as D. destruct (pc_drain_ctxs _ _ _ _ _ _) as [cs pc]. by split_and!.
Qed.

Lemma destroy_settled ctx now s : settled s -> settled (on_resource g cu getdata sem wsem CONTEXT_DESTROY_STARTING (Some ctx) now s).
Proof using Type.
  intros H. unfold on_resource. destruct (g_pc_enabled g); [|done].
  assert (Post : forall s, settled s -> settled (pc_force now kTeardown (pcb_flush sem s)))
    by (intros s0; apply settled_same; [by split_and!|done]). apply Post. clear Post.
  assert (H1 : settled (c_count g_ctx_destroyed s)) by (by apply tracked_cnt).
  set (s1 := c_count g_ctx_destroyed s) in *. clearbody s1. clear H.
  destruct (list_find _ _) as [[i c]|] eqn:Ef; [|done]. apply list_find_Some in Ef as (Ei & _ & _).
  assert (H2 : tracked_ok ((if pc_enabled c then [pc_ctx c] else []) ++ enabled_ids (delete i (g_pc_ctxs (tier s1)))) 0 s1).
  { eapply tracked_perm; [by apply enabled_delete|exact H1]. }
  destruct (retire_tracked _ _ c s1 H2) as (H3 & _ & _ & Hc). destruct (drain_before g getdata sem c s1) as [c1 s2]. cbn [fst snd] in *.
  destruct (pc_disable_ctx cu c1 s2) as [c2 s3]. cbn [fst snd] in *. rewrite Hc. unfold settled.
  apply tracked_set_ctxs; [exact H3|]. pose proof (to_ready _ _ _ H3) as D. rewrite Hc in D.
  by apply Forall_delete.
Qed.

Lemma finalize_settled gf now s : settled s -> settled (on_finalize cfg g cu getdata sem gf now s).
Proof using Type.
  intros H. unfold on_finalize. destruct (finalize_done s); [done|].
  assert (H1 : settled (c_count g_finalize_seen (set_done s))).
  { apply tracked_cnt; try done. apply (tracked_view _ _ s); [by split_and!|done|exact H]. }
  set (s1 := c_count g_finalize_seen (set_done s)) in *. clearbody s1. clear H.
  destruct (g_pc_enabled g); cbn [negb]; [|done].
  set (s2 := if g_pc_tier_a g then _ else s1).
  assert (H2 : settled s2). { subst s2. destruct (g_pc_tier_a g); [|done]. by apply (settled_same s1); [split_and!|..]. }
  clearbody s2. destruct gf; cbn [negb]; [|by apply tracked_cnt].
  unfold settled in H2. rewrite <- (app_nil_r (enabled_ids _)) in H2.
  destruct (finalize_tracked _ _ _ s2 H2) as (H3 & Hp & He & Hc).
  destruct (finalize_ctxs g cu getdata sem (g_pc_ctxs (tier s2)) s2) as [cs s3]. cbn [fst snd] in *.
  apply (settled_same (set_ctxs cs s3)); [by split_and!|done|]. unfold settled. cbn [set_ctxs set_tier set_contexts tier g_pc_ctxs].
  rewrite He. apply tracked_set_ctxs; [exact H3|]. eapply ready_place; [exact Hp|]. rewrite <- Hc. apply H3.
Qed.

Lemma config_settled sm clk s : settled s -> settled (pc_emit_config_once wsem sm clk s).
Proof using Type.
  intros H. unfold pc_emit_config_once. destruct (negb _); [done|].
  set (s1 := if sm =? 0 then _ else s). assert (H1 : settled s1) by (subst s1; destruct (sm =? 0); [by apply tracked_cnt|done]).
  clearbody s1. apply settled_cnt; try done. by apply (settled_same s1); [split_and!|..].
Qed.

Lemma tick_settled sm clk now s : settled s -> settled (pc_tick g getdata sem wsem sm clk now s).
Proof using Type.
  intros H. unfold pc_tick. destruct (g_pc_enabled g); cbn [negb]; [|done].
  set (s1 := if negb (c_cnt s g_ctx_enabled =? 0) then _ else s).
  assert (H1 : settled s1).
  { subst s1. case_match; [by apply config_settled|done]. }
  clearbody s1. destruct (due now _) as [d sch]. apply (settled_same (if d then drain_all g getdata sem kPeriodic
    (set_tier (set_contexts (g_pc_ctxs (tier s1)) (cupti_on (tier s1)) (g_pc (tier s1)) sch (tier s1)) s1)
    else (set_tier (set_contexts (g_pc_ctxs (tier s1)) (cupti_on (tier s1)) (g_pc (tier s1)) sch (tier s1)) s1))); [by split_and!|done|].
  set (s2 := set_tier _ s1). assert (H2 : settled s2) by (by apply (settled_same s1); [split_and!|..]).
  destruct d; [|done]. destruct (drain_all_view kPeriodic s2) as [V C]. by apply (settled_same s2).
Qed.

Lemma session_step_settled s o : settled s -> settled (session_step s o).
Proof using Type.
  intros H. pose proof (fun b e sy tid now => launch_shape cfg getdata sem (g_pc_collect_num_pcs g) (g_num_stall_reasons (stalls s))
    start_ok stop_ok (g_pc_tier_a g) b e sy timer tid now (tier s)) as L.
  destruct o as [cbid rd now|sees sy tid now|sees tid now|att sm clk now| |gf now|sees gf tid now]; cbn [session_step].
  - destruct cbid, rd as [ctx|]; try by (unfold on_resource; destruct (g_pc_enabled g)).
    + unfold on_resource. destruct (g_pc_enabled g); [|done]. apply enable_settled.
      destruct H as [A B C T D]. split; try done.
      rewrite cnt_same, (cnt_other _ g_ctx_enabled), (cnt_other _ g_ctx_enable_failed), A, u64_add by done. f_equal. lia.
    + by apply destroy_settled.
    + unfold on_resource. destruct (g_pc_enabled g); [|done].
      assert (H1 : settled (pc_force now kModuleUnload (c_count g_module_unload_drains s))).
      { apply (settled_same (c_count g_module_unload_drains s)); [by split_and!|done|by apply settled_cnt]. }
      destruct (drain_all_view kModuleUnload (pc_force now kModuleUnload (c_count g_module_unload_drains s))) as [V C].
      exact (settled_same _ _ V C H1).
  - apply (settled_same s); [split_and!; try done|done|done]. apply L.
  - apply (settled_same s); [split_and!; try done|done|done]. apply (L true sees None).
  - unfold session_tick. destruct (replay_if_newly_attached _ _ _) as [r w]. by apply tick_settled, (settled_same s); [split_and!|..].
  - by apply (settled_same s); [split_and!|..].
  - by apply finalize_settled.
  - apply finalize_settled, (settled_same s); [split_and!; try done|done|done]. apply (L true sees None).
Qed.

Lemma session_run_settled os s : settled s -> settled (session_run s os).
Proof using Type. revert s. induction os as [|o os IH]; intros s H; [done|]. by apply IH, session_step_settled. Qed.
End Run.

(** After InitializeInjection: the two replay callbacks of PC sampling are
    registered when it is on. *)
Definition session_init (cfg : BurstConfig) (g : pc_settings) (wsem : nat -> bool) (period drain_ns : Z) (pc : pc_state) : session :=
  MkSession (MkTierA (Burst_init cfg) [] [] pc (PCDrain_init drain_ns) 0 0 [] (fun _ => 0) 0 0) (StallTable false [] 0) period
    (if g_pc_enabled g then on_replay_config (config_emit wsem) (on_replay_stall (stall_emit wsem) ReplayLog_init) else ReplayLog_init)
    (PcWire 0 0 [] 0 []) (fun _ => 0) [] false.

Lemma session_init_settled g cfg wsem period drain_ns pc : settled g (session_init cfg g wsem period drain_ns pc).
Proof. split; try done; simpl; [by exists []|lia]. Qed.

(** The buffer of a context: for each of the [P] entries a row of [R] stall
    reasons, inside the array and apart from every other row. *)
Definition buffer_sound (P R : nat) (b : pc_buffer) : Prop :=
  length (buf_pcs b) = P /\ buf_collectNumPcs b = P /\
  (forall i base, buf_pcs b !! i = Some base -> (base + R <= buf_stalls b)%nat) /\
  (forall i i' base base' j j', buf_pcs b !! i = Some base -> buf_pcs b !! i' = Some base' ->
     (j < R)%nat -> (j' < R)%nat -> (base + j = base' + j')%nat -> i = i' /\ j = j').

Lemma setup_buffer_sound P R : buffer_sound P R (pc_setup_buffer P R).
Proof.
  assert (L : forall i base, buf_pcs (pc_setup_buffer P R) !! i = Some base -> base = (i * R)%nat /\ (i < P)%nat).
  { intros i base E. unfold pc_setup_buffer in E. cbn [buf_pcs] in E. apply list_lookup_fmap_Some in E as (k & -> & Ek).
    apply lookup_seq in Ek as [-> Hk]. lia. }
  split_and!; [simpl; by rewrite length_map, length_seq|done| |].
  - intros i base E. apply L in E as [-> Hi]. simpl. nia.
  - intros i i' base base' j j' E E' Hj Hj' Eq. apply L in E as [-> _]. apply L in E' as [-> _].
    by apply (Nat.div_mod_unique R); [..|rewrite !(Nat.mul_comm R)].
Qed.

(** CUPTI accepted, for this context, the collection mode of the tier, the
    start/stop control exactly in Tier A, all stall reasons, and the context's
    own buffer; the array of ten attributes was long enough. *)
Definition configured (g : pc_settings) (st : stall_table) (log : list cupti_call) (c : PCContext) : Prop :=
  exists attrs, CallConfigure (pc_ctx c) attrs true ∈ log /\ (length attrs <= 10)%nat /\
    (forall b, COLLECTION_MODE b ∈ attrs <-> b = g_pc_tier_a g) /\
    (forall v, ENABLE_START_STOP_CONTROL v ∈ attrs <-> g_pc_tier_a g = true /\ v = 1) /\
    STALL_REASON (g_stall_indices st) ∈ attrs /\ SAMPLING_DATA_BUFFER (pc_buf c) ∈ attrs.

Lemma attributes_configured g st period buf :
  let attrs := pc_attributes g st period buf in
  (length attrs <= 10)%nat /\ (forall b, COLLECTION_MODE b ∈ attrs <-> b = g_pc_tier_a g) /\
  (forall v, ENABLE_START_STOP_CONTROL v ∈ attrs <-> g_pc_tier_a g = true /\ v = 1) /\
  STALL_REASON (g_stall_indices st) ∈ attrs /\ SAMPLING_DATA_BUFFER buf ∈ attrs.
Proof.
  unfold pc_attributes. destruct (g_pc_tier_a g), (period =? 0), (g_pc_scratch_bytes g =? 0), (g_pc_hw_buffer_bytes g =? 0),
    (g_pc_worker_sleep_ms g =? 0); simpl; split_and!; try lia; intros; rewrite ?elem_of_cons, ?elem_of_nil; naive_solver.
Qed.

(** C10: PC sampling is on for exactly the contexts the adapter tracks.  Let
    contexts be created and destroyed, modules be unloaded, launches enter and
    leave, the timer tick, graphs be seen, CUPTI fail and the process exit, in any
    order, with any answers of CUPTI.  Then every context seen is counted enabled
    or failed; by CUPTI's own answers the contexts enabled are the adapter's
    enabled ones and one for each failed disable that was counted: no failure in
    setting a context up leaves it half enabled; whenever a context is disabled
    its data were pulled just before, or it never finished setting up; and each
    tracked context has a buffer whose rows lie apart and inside it, for as many
    stall reasons as the drain reads, and was configured in full, with the
    collection mode of the selected tier. *)
Theorem contexts_sampled_exactly cfg g cu getdata sem wsem start_ok stop_ok timer period drain_ns pc os :
  let s := session_run cfg g cu getdata sem wsem start_ok stop_ok timer (session_init cfg g wsem period drain_ns pc) os in
  c_cnt s g_ctx_seen = u64 (c_cnt s g_ctx_enabled + c_cnt s g_ctx_enable_failed) /\
  (exists leaked, sampled_by (cupti_log s) ≡ₚ enabled_ids (g_pc_ctxs (tier s)) ++ leaked /\
     c_cnt s g_ctx_disable_failed = u64 (Z.of_nat (length leaked))) /\
  disables_drained (cupti_log s) /\
  Forall (fun c => (0 < g_num_stall_reasons (stalls s))%nat /\
    length (g_stall_indices (stalls s)) = g_num_stall_reasons (stalls s) /\
    buffer_sound (g_pc_collect_num_pcs g) (g_num_stall_reasons (stalls s)) (pc_buf c) /\
    configured g (stalls s) (cupti_log s) c) (g_pc_ctxs (tier s)).
Proof.
  intros s. assert (H : settled g s) by apply session_run_settled, session_init_settled.
  destruct H as [A B C T D]. rewrite Z.add_0_r in A. split_and!; try done.
  eapply list.Forall_impl; [exact D|]. intros c (Hn & Hb & p & Hp). destruct (T Hn) as [_ Hl]. split_and!; try done.
  - rewrite Hb. apply setup_buffer_sound.
  - exists (pc_attributes g (stalls s) p (pc_buf c)). split; [done|]. apply attributes_configured.
Qed.
