(* ===== verification/Disclosure.v ===== *)
(** * Disclosure: what the wire says of PC sampling

    Three consequences of the life of a context as Contexts models it: the
    sampling windows stay true while contexts come and go, the names of the stall
    reasons reach a consumer that comes late, and what finalization leaves. *)
From S2P Require Import Prelude Tables GpuUsdt Abi Batch Double Burst Timers Replay Adapter PcSampling Window Contexts.

(** ** The windows, while contexts come and go *)

(** What the handlers of contexts leave alone. *)
Record quietly (s s' : session) : Prop := {
  qu_burst : g_burst (tier s') = g_burst (tier s);
  qu_windows : windows (tier s') = windows (tier s);
  qu_done : finalize_done s' = finalize_done s;
  qu_on : forall x, x ∈ cupti_on (tier s') -> x ∈ cupti_on (tier s);
}.

#[global] Instance quietly_preorder : PreOrder quietly.
Proof.
  split; [by split|]. intros s1 s2 s3 [A B C D] [A' B' C' D']. split; [congruence|congruence|congruence|auto].
Qed.

Section Truth.
  Context (cfg : BurstConfig) (g : pc_settings) (cu : cupti_pc).
  Context (getdata : nat -> getdata_result) (sem wsem : nat -> bool) (timer : Z).
  Context (HA : g_pc_tier_a g = true) (HE : g_pc_enabled g = true) (Hdis : forall n, c_disable cu n = true).

Definition enabled_of (s : session) : list Z := enabled_ids (g_pc_ctxs (tier s)).

Lemma disable_quietly c s :
  quietly s (pc_disable_ctx cu c s).2 /\ g_pc_ctxs (tier (pc_disable_ctx cu c s).2) = g_pc_ctxs (tier s) /\
  (pc_enabled c = true -> pc_ctx c ∉ cupti_on (tier (pc_disable_ctx cu c s).2)).
Proof using Hdis.
  unfold pc_disable_ctx. destruct (pc_enabled c) eqn:He; cbn [negb]; [|by split_and!]. rewrite Hdis. simpl. split_and!; [|done|].
  - split; simpl; try done. intros x Hx. by apply list_elem_of_In, filter_In in Hx as [Hx%list_elem_of_In _].
  - intros _ Hx. apply list_elem_of_In, filter_In in Hx as [_ Hx]. by rewrite Z.eqb_refl in Hx.
Qed.

Lemma query_quietly ctx s :
  let r := (pc_query_stall_reasons cu wsem ctx s).2 in quietly s r /\ g_pc_ctxs (tier r) = g_pc_ctxs (tier s).
Proof using Type.
  unfold pc_query_stall_reasons. destruct (g_stall_queried (stalls s)); [done|]. case_match; [|by split].
  case_match; [by split|]. case_match; [|by split]. simpl.
  match goal with |- context [foldl (tell_stall wsem) ?s0 ?rows] => destruct (tell_stalls wsem rows s0) as (E1 & _ & _ & _ & _ & E6) end.
  split; [|by rewrite E1]. split; rewrite ?E1, ?E6; done.
Qed.

Lemma enable_quietly ctx s :
  let s' := pc_enable_ctx g cu wsem ctx s in quietly s s' /\ forall x, x ∈ enabled_of s -> x ∈ enabled_of s'.
Proof using Hdis.
  unfold pc_enable_ctx, enabled_of. destruct (_ && _); [by split|]. destruct (c_enable cu (ncalls s)); cbn [negb]; [|by split].
  set (s1 := called _ s). destruct (query_quietly ctx s1) as [Q2 C2].
  destruct (pc_query_stall_reasons cu wsem ctx s1) as [have s2]. cbn [snd] in *.
  assert (Q : quietly s s2) by (etransitivity; [|exact Q2]; by split). change (tier s1) with (tier s) in C2. clear Q2.
  assert (F : forall c s3, quietly s s3 -> g_pc_ctxs (tier s3) = g_pc_ctxs (tier s) ->
    let s' := c_count g_ctx_enable_failed (pc_disable_ctx cu c s3).2 in
    quietly s s' /\ forall x, x ∈ enabled_ids (g_pc_ctxs (tier s)) -> x ∈ enabled_ids (g_pc_ctxs (tier s'))).
  { intros c s3 Q3 C3. destruct (disable_quietly c s3) as (Q4 & C4 & _). split; [etransitivity; [exact Q3|]; etransitivity; [exact Q4|by split]|].
    simpl. by rewrite C4, C3. }
  destruct have; cbn [negb]; [|by apply F]. set (c := MkPCContext _ _ _ _ _). set (s3 := called _ s2).
  assert (Q3 : quietly s s3) by (destruct Q; by split).
  destruct (match c_configure cu (ncalls s2) with Some st => _ | None => _ end); cbn [negb]; [|by apply F].
  set (s4 := if negb _ then s3 else _).
  assert (E4 : tier s4 = tier s2 /\ finalize_done s4 = finalize_done s2) by (subst s4; by repeat case_match).
  destruct E4 as [E4 D4]. split.
  - destruct Q as [A B C D]. by split; simpl; rewrite ?E4, ?D4.
  - simpl. rewrite E4, C2, shape_enabled. intros x Hx. apply elem_of_app. by left.
Qed.

Lemma drain_before_quietly c s :
  let r := drain_before g getdata sem c s in
  quietly s r.2 /\ g_pc_ctxs (tier r.2) = g_pc_ctxs (tier s) /\ pc_shape r.1 = pc_shape c.
Proof using Type.
  unfold drain_before. pose proof (drain_ctx_shape getdata sem (g_pc_collect_num_pcs g) (g_num_stall_reasons (stalls s)) c (g_pc (tier s))) as D.
  destruct (pc_drain_ctx_locked _ _ _ _ _ _) as [c' pc]. by split_and!.
Qed.

Lemma finalize_quietly cs s :
  let r := finalize_ctxs g cu getdata sem cs s in quietly s r.2.
Proof using Hdis.
  revert s. induction cs as [|c cs IH]; intros s; cbn [finalize_ctxs]; [done|].
  destruct (drain_before_quietly c s) as (Q1 & _). destruct (drain_before g getdata sem c s) as [c1 s1].
  destruct (disable_quietly c1 s1) as (Q2 & _). destruct (pc_disable_ctx cu c1 s1) as [c2 s2]. cbn [snd] in *. specialize (IH s2).
  destruct (finalize_ctxs g cu getdata sem cs s2) as [cs' s3]. cbn [snd] in *.
  etransitivity; [exact Q1|]. by etransitivity; [exact Q2|].
Qed.

Lemma honest_ctxs ids on t s s' :
  honest ids on t s -> g_burst s' = g_burst s -> windows s' = windows s -> (forall x, x ∈ cupti_on s' -> x ∈ cupti_on s) ->
  (forall x, x ∈ cupti_on s' -> x ∈ enabled_ids (g_pc_ctxs s')) -> honest (enabled_ids (g_pc_ctxs s')) (cupti_on s') t s'.
Proof using Type.
  intros [Hid Hsub Ht Hn Ho Hq] E1 E2 Hon Hen. split; rewrite ?E1, ?E2; try done.
  - intros Hs. destruct (Ho Hs) as (A & B & C & _). split_and!; try done; lia.
  - intros Hs. destruct (Hq Hs) as (A & B). split; [|done]. rewrite A in Hon.
    destruct (cupti_on s') as [|x l]; [done|]. destruct (not_elem_of_nil x). apply Hon. by left.
Qed.

(** The wire is truthful at [t]: what it says is what CUPTI does, or finalization
    left the last window open. *)
Definition truthful (t : Z) (s : session) : Prop :=
  (exists ids on, honest ids on t (tier s)) \/
  (finalize_done s = true /\ refused_ (g_burst (tier s)) = true /\ sampling_ (g_burst (tier s)) = false /\
   exists t0, listen (windows (tier s)) = Open t0).

Lemma truthful_mono t now s : truthful t s -> t <= now -> truthful now s.
Proof using Type. intros [(ids & on & H)|H] Hn; [left; exists ids, on; by apply (honest_mono _ _ t)|by right]. Qed.

(** A handler of contexts. *)
Lemma truthful_quietly t s s' :
  truthful t s -> quietly s s' ->
  (forall x, x ∈ cupti_on (tier s') -> x ∈ enabled_of s -> x ∈ enabled_of s') -> truthful t s'.
Proof using Type.
  intros [(ids & on & H)|H] [A B C D] He.
  - left. eexists _, _. apply (honest_ctxs ids on t (tier s)); try done. intros x Hx. apply (He x Hx).
    unfold enabled_of. rewrite (ho_ids _ _ _ _ H). destruct (sampling_ (g_burst (tier s))) eqn:Es.
    + apply (ho_sub _ _ _ _ H), (ho_open _ _ _ _ H Es). by apply D.
    + apply D in Hx. rewrite (proj1 (ho_quiet _ _ _ _ H Es)) in Hx. by apply not_elem_of_nil in Hx.
  - right. by rewrite A, B, C.
Qed.

Lemma destroy_truthful t ctx now s :
  truthful t s -> truthful t (on_resource g cu getdata sem wsem CONTEXT_DESTROY_STARTING (Some ctx) now s).
Proof using HE Hdis.
  intros H. unfold on_resource. rewrite HE. set (s1 := c_count g_ctx_destroyed s).
  assert (H1 : truthful t s1) by (by apply (truthful_quietly t s)).
  set (s2 := match list_find _ _ with Some _ => _ | None => _ end).
  enough (H2 : truthful t s2) by (by apply (truthful_quietly t s2)). subst s2.
  destruct (list_find _ _) as [[i c]|] eqn:Ef; [|done]. apply list_find_Some in Ef as (Ei & Ec & _).
  destruct (drain_before_quietly c s1) as (Q1 & C1 & S1). destruct (drain_before g getdata sem c s1) as [c1 s2]. cbn [fst snd] in *.
  unfold pc_shape in S1. injection S1 as E1 _ E3.
  destruct (disable_quietly c1 s2) as (Q2 & C2 & N2). destruct (pc_disable_ctx cu c1 s2) as [c2 s3]. cbn [fst snd] in *.
  assert (Q3 : quietly s1 s3) by (by etransitivity).
  apply (truthful_quietly t s1); [done|destruct Q3; by split|]. unfold enabled_of. cbn [set_ctxs set_tier set_contexts tier cupti_on g_pc_ctxs].
  rewrite C2, C1. intros x Hx. rewrite (enabled_delete i _ c Ei), elem_of_app. intros [Hin|?]; [|done].
  rewrite E3 in N2. destruct (pc_enabled c); [|by apply not_elem_of_nil in Hin]. apply list_elem_of_singleton in Hin as ->.
  by destruct (N2 eq_refl); rewrite E1.
Qed.

(** Without a burst open, whatever happens to the contexts. *)
Lemma truthful_idle t s s' : truthful t s -> sampling_ (g_burst (tier s)) = false -> quietly s s' -> truthful t s'.
Proof using Type.
  intros H Hs Q. destruct H as [(ids & on & H)|H].
  - apply (truthful_quietly t s); [left; eauto|done|]. intros x Hx. apply (qu_on _ _ Q) in Hx.
    rewrite (proj1 (ho_quiet _ _ _ _ H Hs)) in Hx. by apply not_elem_of_nil in Hx.
  - right. destruct Q as [A B C D]. by rewrite A, B, C.
Qed.

Lemma finalize_truthful t now gf s :
  truthful t s -> t <= now < 2 ^ 64 -> truthful now (on_finalize cfg g cu getdata sem gf now s).
Proof using HA HE Hdis.
  intros H Hnow. unfold on_finalize. destruct (finalize_done s); [by apply (truthful_mono t); [|lia]|]. rewrite HE, HA. cbn [negb].
  set (s1 := set_tier _ _).
  assert (H1 : truthful now s1 /\ sampling_ (g_burst (tier s1)) = false).
  { destruct H as [(ids & on & H)|(_ & H1 & H2 & H3)]; subst s1; unfold shutdown;
      change (sampling_ (refuse ?c)) with (sampling_ c); cbn [c_count set_done tier].
    - destruct (sampling_ (g_burst (tier s))) eqn:Es; cbn [negb snd].
      + split; [|done]. right. destruct (ho_open _ _ _ _ H Es) as (HL & _). simpl. split_and!; try done. by eexists.
      + split; [|done]. left. exists ids, on. simpl. by apply (honest_later _ _ t); [|lia|..].
    - rewrite H2. cbn [negb snd]. split; [|done]. right. simpl. by split_and!. }
  destruct H1 as [H1 Hs]. clearbody s1. destruct gf; cbn [negb]; [|by apply (truthful_idle now s1)].
  pose proof (finalize_quietly (g_pc_ctxs (tier s1)) s1) as Q.
  destruct (finalize_ctxs g cu getdata sem (g_pc_ctxs (tier s1)) s1) as [cs s2]. cbn [snd] in Q.
  apply (truthful_idle now s1); [done|done|]. destruct Q. by split.
Qed.

Definition session_time (o : session_op) : option Z :=
  match o with
  | Entered _ _ _ now | Exited _ _ now | FatalError _ now | AtExit _ _ _ now => Some now
  | _ => None
  end.
Definition listening (o : session_op) : bool :=
  match o with Entered sees _ _ _ | Exited sees _ _ | AtExit sees _ _ _ => sees | _ => true end.
(** The clock does not run backwards, and a consumer listens to the windows. *)
Fixpoint heard_on_time (t : Z) (os : list session_op) : Prop :=
  match os with
  | [] => True
  | o :: os' => listening o = true /\
      match session_time o with Some now => t <= now < 2 ^ 64 /\ heard_on_time now os' | None => heard_on_time t os' end
  end.

Lemma launch_truthful t now s tr :
  truthful t s -> t <= now ->
  (forall ids on, honest ids on t (tier s) -> exists ids on, honest ids on now tr) ->
  (refused_ (g_burst (tier s)) = true -> sampling_ (g_burst (tier s)) = false ->
   refused_ (g_burst tr) = true /\ sampling_ (g_burst tr) = false /\ windows tr = windows (tier s) /\ cupti_on tr = cupti_on (tier s)) ->
  truthful now (set_tier tr s).
Proof using Type.
  intros [(ids & on & H)|(H1 & H2 & H3 & t0 & H4)] Hn Hh Hr; [left; by eapply Hh|right].
  destruct (Hr H2 H3) as (R1 & R2 & R3 & _). simpl. rewrite R3. split_and!; try done. by exists t0.
Qed.

Lemma session_step_truthful t s o :
  truthful t s -> listening o = true -> (match session_time o with Some now => t <= now < 2 ^ 64 | None => True end) ->
  truthful (default t (session_time o)) (session_step cfg g cu getdata sem wsem yes yes timer s o).
Proof using HA HE Hdis.
  set (P := g_pc_collect_num_pcs g). set (R := g_num_stall_reasons (stalls s)). intros H Hl Ht.
  pose proof (fun sees sy tid now => refused_still cfg getdata sem P R yes yes true (negb (c_cnt s g_ctx_enabled =? 0)) sees sy timer tid now (tier s)) as St.
  destruct o as [cbid rd now|sees sy tid now|sees tid now|att sm clk now| |gf now|sees gf tid now];
    simpl in Hl, Ht; try subst sees; cbn [session_time default session_step]; rewrite ?HA; fold P R; try change (id now) with now.
  - destruct cbid, rd as [ctx|]; try by (unfold on_resource; rewrite HE).
    + unfold on_resource. rewrite HE. destruct (enable_quietly ctx (c_count g_ctx_seen s)) as [Q E].
      apply (truthful_quietly t (c_count g_ctx_seen s)); [by apply (truthful_quietly t s)|done|auto].
    + by apply destroy_truthful.
    + unfold on_resource. rewrite HE. destruct (drain_all_view g getdata sem kModuleUnload (pc_force now kModuleUnload (c_count g_module_unload_drains s))) as [(_ & _ & V) _].
      apply enabled_ids_shape in V.
      apply (truthful_quietly t s); [done| |unfold enabled_of; rewrite V; done].
      unfold drain_all. destruct (pc_drain_all _ _ _ _ _ _ _) as [cs pc]. by split.
  - apply (launch_truthful t); [done|lia| |].
    + intros ids on Ho. destruct (enter_honest timer ids on t (negb (c_cnt s g_ctx_enabled =? 0)) sy tid now (tier s) Ho Ht) as (on' & _ & Ho'). eauto.
    + intros R1 R2. by destruct (St true sy tid now R1 R2) as (? & _).
  - apply (launch_truthful t); [done|lia| |].
    + intros ids on Ho. eexists _, _. by apply (exit_honest _ _ _ _ _ _ ids on t).
    + intros R1 R2. by destruct (St true None tid now R1 R2) as (_ & ? & _).
  - unfold session_tick. destruct (replay_if_newly_attached _ _ _) as [r w].
    set (s1 := set_replay r w s). assert (H1 : truthful t s1) by (by apply (truthful_quietly t s)). clearbody s1.
    unfold pc_tick. rewrite HE. cbn [negb]. set (s2 := if negb (c_cnt s1 g_ctx_enabled =? 0) then _ else s1).
    assert (H2 : truthful t s2).
    { subst s2. case_match; [|done]. apply (truthful_quietly t s1); [done| |]; unfold pc_emit_config_once; by repeat case_match. }
    clearbody s2. destruct (due now _) as [d sch].
    set (s3 := set_tier _ s2). assert (H3 : truthful t s3) by (by apply (truthful_quietly t s2)). clearbody s3.
    apply (truthful_quietly t (if d then drain_all g getdata sem kPeriodic s3 else s3)); [|done|done].
    destruct d; [|done]. destruct (drain_all_view g getdata sem kPeriodic s3) as [(_ & _ & V) _]. apply enabled_ids_shape in V.
    apply (truthful_quietly t s3); [done| |unfold enabled_of; rewrite V; done].
    unfold drain_all. destruct (pc_drain_all _ _ _ _ _ _ _) as [cs pc]. by split.
  - by apply (truthful_quietly t s).
  - by apply (finalize_truthful t).
  - apply (finalize_truthful now); [|lia]. apply (launch_truthful t); [done|lia| |].
    + intros ids on Ho. eexists _, _. by apply (teardown_honest _ _ _ _ _ _ ids on t).
    + intros R1 R2. by destruct (St true None tid now R1 R2) as (_ & _ & ?).
Qed.
End Truth.

(** C11: In Tier A the wire discloses every serialized execution, while contexts
    come and go.  Let contexts be created and destroyed, launches enter and leave,
    the timer tick, graphs be seen, CUPTI report a fatal error and the process
    exit, one call after the other, with a clock that does not run backwards, a
    consumer that listens, and CUPTI starting, stopping and disabling what it is
    asked to.  The windows always fit together, as the consumer reads them; while
    the last one is closed CUPTI is sampling, and so serializing, nothing at all,
    whatever contexts have appeared since; and an open one means that a burst is
    open, for contexts that are enabled, or that finalization left it open.  (The
    calls do not overlap: [late_start_unannounced] is a start that does.) *)
Theorem windows_cover_contexts cfg g cu getdata sem wsem timer period drain_ns pc os :
  g_pc_tier_a g = true -> g_pc_enabled g = true -> (forall n, c_disable cu n = true) -> heard_on_time 1 os ->
  let s := session_run cfg g cu getdata sem wsem yes yes timer (session_init cfg g wsem period drain_ns pc) os in
  match listen (windows (tier s)) with
  | Open t => (sampling_ (g_burst (tier s)) = true /\ t = burst_start_ns_ (g_burst (tier s)) /\
               forall x, x ∈ cupti_on (tier s) -> x ∈ enabled_of s) \/ finalize_done s = true
  | Quiet _ => sampling_ (g_burst (tier s)) = false /\ cupti_on (tier s) = []
  | Broken => False
  end.
Proof.
  intros HA HE Hd. assert (Run : forall os t s, truthful t s -> heard_on_time t os ->
    exists t', truthful t' (session_run cfg g cu getdata sem wsem yes yes timer s os)).
  { clear os. induction os as [|o os IH]; intros t s H Ht; [by exists t|]. destruct Ht as [Hl Ht].
    cbn [session_run foldl]. apply (IH (default t (session_time o))).
    - apply session_step_truthful; try done. by destruct (session_time o); [destruct Ht|].
    - by destruct (session_time o); [destruct Ht|]. }
  intros Ht s. destruct (Run os 1 (session_init cfg g wsem period drain_ns pc)) as (t' & H); [|exact Ht|].
  { left. exists [], []. split; simpl; [done|done|lia|lia|done|]. intros _. split; [done|]. exists (Some 0). split; [done|]. left. lia. }
  fold s in H. clearbody s. destruct H as [(ids & on & H)|(Hf & _ & _ & t0 & ->)]; [|by right].
  destruct (sampling_ (g_burst (tier s))) eqn:Es.
  - destruct (ho_open _ _ _ _ H Es) as (-> & _ & _ & Hon). left. split_and!; try done. intros x Hx. unfold enabled_of.
    rewrite (ho_ids _ _ _ _ H). apply (ho_sub _ _ _ _ H). by apply Hon.
  - by destruct (ho_quiet _ _ _ _ H Es) as (Hon & u & -> & _).
Qed.

(** A device with two stall reasons; the third context's collection mode is
    refused. *)
Definition demo_cupti : cupti_pc :=
  CuptiPc (fun _ => true) (fun _ => Some 2%nat) (fun _ => Some [(4, Some [119; 97; 105; 116; 0; 9]); (7, None)])
    (fun n => Some (if (n =? 8)%nat then [false] else [])) (fun _ => Some 12) (fun _ => true).
Definition demo_settings : pc_settings := PcSettings true true 3 0 0 10.
Definition demo_session_ops : list session_op :=
  [Resource CONTEXT_CREATED (Some 100) 5; Entered true (Some 0) 11 1000; Resource CONTEXT_CREATED (Some 200) 6; Ticked true 82 5000 1500;
   Resource CONTEXT_CREATED (Some 300) 7; Exited true 11 2000; Resource CONTEXT_DESTROY_STARTING (Some 100) 2500;
   Entered true (Some 0) 11 30000000; Exited true 11 60001000; FatalError true 60002000; Resource CONTEXT_CREATED (Some 400) 9;
   AtExit true true 11 60003000].
Definition demo_session (n : nat) : session :=
  session_run default_burst demo_settings demo_cupti (fun _ => GdError) (fun _ => true) (fun _ => true) yes yes 5
    (session_init default_burst demo_settings (fun _ => true) 0 100000000 demo_pc) (take n demo_session_ops).

Lemma windows_cover_contexts_witness :
  heard_on_time 1 (take 8 demo_session_ops) /\
  let s := demo_session 8 in
  map pc_ctx (g_pc_ctxs (tier s)) = [200] /\ sampled_by (cupti_log s) = [200] /\ c_cnt s g_ctx_enable_failed = 1 /\
  listen (windows (tier s)) = Open 1000 /\ (sampling_ (g_burst (tier s)) = true \/ finalize_done s = true).
Proof.
  assert (Ht : heard_on_time 1 (take 8 demo_session_ops)) by (cbn; repeat (split; [reflexivity|]); lia).
  split; [exact Ht|]. intros s.
  pose proof (windows_cover_contexts default_burst demo_settings demo_cupti (fun _ => GdError) (fun _ => true) (fun _ => true) 5 0 100000000
    demo_pc (take 8 demo_session_ops) eq_refl eq_refl (fun _ => eq_refl) Ht) as H. cbv zeta in H. fold (demo_session 8) in H. fold s in H.
  assert (E : listen (windows (tier s)) = Open 1000) by (vm_compute; reflexivity). rewrite E in H.
  split_and!; try (vm_compute; reflexivity). destruct H as [[H _]|H]; [left|right]; exact H.
Defined.

(** Finalization runs once, whether or not it could do its work.  When the
    fatal-error callback finds the CUPTI guard taken it skips the teardown and
    only counts; the exit handler then returns at once, and the context stays
    enabled.  And a context created after a finalization that did its work is
    enabled again, with nothing left to disable it. *)
Theorem finalize_leaves_enabled :
  let run := session_run default_burst demo_settings demo_cupti (fun _ => GdError) (fun _ => true) (fun _ => true) yes yes 5
               (session_init default_burst demo_settings (fun _ => true) 0 100000000 demo_pc) in
  let created := Resource CONTEXT_CREATED (Some 100) 5 in
  let skipped := run [created; FatalError false 1000; AtExit true true 11 2000] in
  let late := run [FatalError true 1000; created; AtExit true true 11 2000] in
  sampled_by (cupti_log skipped) = [100] /\ c_cnt skipped g_finalize_contended = 1 /\ c_cnt skipped g_ctx_disable_failed = 0 /\
  sampled_by (cupti_log late) = [100] /\ c_cnt late g_finalize_contended = 0 /\ c_cnt late g_ctx_disable_failed = 0.
Proof. vm_compute. done. Qed.

(** ** The stall reasons' names *)

(** The rows of the table in force, as CUPTI gave them. *)
Definition table_logged (s : session) : Prop :=
  exists rows, g_stall_indices (stalls s) = map fst rows /\ g_num_stall_reasons (stalls s) = length rows /\
    stalls_ (g_replay s) = first_by r_index (map stall_record rows).

Section Told.
  Context (cfg : BurstConfig) (g : pc_settings) (cu : cupti_pc).
  Context (getdata : nat -> getdata_result) (sem wsem : nat -> bool) (start_ok stop_ok : nat -> bool) (timer : Z).

(** What CUPTI answered, and what the log makes of it. *)
Definition table_told (s : session) : Prop :=
  exists rows, g_stall_indices (stalls s) = map fst rows /\ g_num_stall_reasons (stalls s) = length rows /\
    stalls_ (g_replay s) = first_by r_index (map stall_record rows) /\
    (rows = [] \/ exists n written, c_stall_reasons cu n = Some written /\ rows = stall_rows (length rows) written).

(** From the [k]-th reading of the semaphores on, all that is recorded was sent. *)
Definition caught_up (k : nat) (s : session) : Prop :=
  (k <= w_reads (pc_out s))%nat /\
  (forall r, r ∈ stalls_ (g_replay s) -> r ∈ map snd (stalls_sent (pc_out s))) /\
  (have_config_ (g_replay s) = true -> config_ (g_replay s) ∈ map snd (configs_sent (pc_out s))).

Record told (late : option nat) (s : session) : Prop := {
  td_table : table_told s;
  td_fresh : g_stall_queried (stalls s) = false -> g_num_stall_reasons (stalls s) = 0%nat;
  td_fns : stall_fn_ (g_replay s) = Some (stall_emit wsem) /\ config_fn_ (g_replay s) = Some (config_emit wsem) /\
    module_fn_ (g_replay s) = None;
  td_late : match late with Some k => caught_up k s | None => True end;
}.

Definition same_told (s s' : session) : Prop := stalls s' = stalls s /\ g_replay s' = g_replay s /\ pc_out s' = pc_out s.

Lemma told_same late s s' : same_told s s' -> told late s -> told late s'.
Proof using Type.
  intros (E1 & E2 & E3) [A B C D]. split; unfold table_told, caught_up in *; by rewrite ?E1, ?E2, ?E3.
Qed.

Lemma disable_told c s : same_told s (pc_disable_ctx cu c s).2.
Proof using Type. unfold pc_disable_ctx. destruct (negb _); [done|]. by destruct (c_disable cu (ncalls s)). Qed.

Lemma drain_before_told c s : same_told s (drain_before g getdata sem c s).2.
Proof using Type. unfold drain_before. by destruct (pc_drain_ctx_locked _ _ _ _ _ _). Qed.

Lemma same_told_trans s1 s2 s3 : same_told s1 s2 -> same_told s2 s3 -> same_told s1 s3.
Proof using Type. unfold same_told. intuition congruence. Qed.

Lemma finalize_ctxs_told cs s : same_told s (finalize_ctxs g cu getdata sem cs s).2.
Proof using Type.
  revert s. induction cs as [|c cs IH]; intros s; cbn [finalize_ctxs]; [done|]. pose proof (drain_before_told c s) as Q1.
  destruct (drain_before g getdata sem c s) as [c1 s1]. pose proof (disable_told c1 s1) as Q2.
  destruct (pc_disable_ctx cu c1 s1) as [c2 s2]. specialize (IH s2). destruct (finalize_ctxs g cu getdata sem cs s2) as [cs' s3].
  cbn [snd] in *. eapply same_told_trans; [exact Q1|]. by eapply same_told_trans.
Qed.

Lemma on_finalize_told gf now s : same_told s (on_finalize cfg g cu getdata sem gf now s).
Proof using Type.
  unfold on_finalize. destruct (finalize_done s); [done|]. destruct (negb (g_pc_enabled g)); [done|].
  set (s1 := if g_pc_tier_a g then _ else _). assert (Q : same_told s s1) by (subst s1; by destruct (g_pc_tier_a g)).
  destruct (negb gf); [exact Q|]. pose proof (finalize_ctxs_told (g_pc_ctxs (tier s1)) s1) as Q2.
  destruct (finalize_ctxs g cu getdata sem (g_pc_ctxs (tier s1)) s1) as [cs s2]. exact (same_told_trans _ _ _ Q Q2).
Qed.

Lemma record_stall_first xs r (l : ReplayLog pc_wire) :
  stalls_ l = first_by r_index xs -> stalls_ (record_stall_reason r l).2 = first_by r_index (xs ++ [r]).
Proof using Type.
  intros E. unfold record_stall_reason. rewrite stall_known, E, first_by_snoc. case_bool_decide as H; rewrite first_by_keys in H.
  - by rewrite decide_True.
  - rewrite decide_False by done. done.
Qed.

Lemma record_stall_in r (l : ReplayLog pc_wire) x : x ∈ stalls_ (record_stall_reason r l).2 -> x ∈ stalls_ l \/ x = r.
Proof using Type. unfold record_stall_reason. case_match; [by left|]. simpl. intros [?|?%list_elem_of_singleton]%elem_of_app; auto. Qed.

(** Sending, with the semaphore up. *)
Lemma stall_emit_up k r w :
  (forall n, (k <= n)%nat -> wsem n = true) -> (k <= w_reads w)%nat ->
  stalls_sent (stall_emit wsem r w) = stalls_sent w ++ [(g_stall_seq w, r)] /\ configs_sent (stall_emit wsem r w) = configs_sent w /\
  w_reads (stall_emit wsem r w) = S (w_reads w).
Proof using Type. intros Hs Hk. unfold stall_emit. by rewrite Hs. Qed.
Lemma config_emit_up k r w :
  (forall n, (k <= n)%nat -> wsem n = true) -> (k <= w_reads w)%nat ->
  configs_sent (config_emit wsem r w) = configs_sent w ++ [(g_config_seq w, r)] /\ stalls_sent (config_emit wsem r w) = stalls_sent w /\
  w_reads (config_emit wsem r w) = S (w_reads w).
Proof using Type. intros Hs Hk. unfold config_emit. by rewrite Hs. Qed.

Lemma tell_stall_caught k s e :
  (forall n, (k <= n)%nat -> wsem n = true) -> caught_up k s -> caught_up k (tell_stall wsem s e).
Proof using Type.
  intros Hs (A & B & C). unfold tell_stall, caught_up. cbn [set_replay g_replay pc_out].
  destruct (stall_emit_up k (stall_record e) (pc_out s) Hs A) as (E1 & E2 & E3). rewrite E1, E2, E3, map_app. split_and!; [lia| |].
  - intros r [Hr| ->]%record_stall_in; apply elem_of_app; [left; auto|right; by left].
  - unfold record_stall_reason. by case_match.
Qed.

Lemma tell_stalls_told rows xs k s :
  stalls_ (g_replay s) = first_by r_index xs ->
  let s' := foldl (tell_stall wsem) s rows in
  stalls_ (g_replay s') = first_by r_index (xs ++ map stall_record rows) /\
  stall_fn_ (g_replay s') = stall_fn_ (g_replay s) /\ config_fn_ (g_replay s') = config_fn_ (g_replay s) /\
  module_fn_ (g_replay s') = module_fn_ (g_replay s) /\
  ((forall n, (k <= n)%nat -> wsem n = true) -> caught_up k s -> caught_up k s').
Proof using Type.
  revert xs s. induction rows as [|e rows IH]; intros xs s E; [by rewrite app_nil_r|]. cbn [foldl map].
  destruct (IH (xs ++ [stall_record e]) (tell_stall wsem s e)) as (A & B & C & M & D); [by apply record_stall_first|].
  rewrite A, B, C, M, <- app_assoc. split_and!; [done|unfold tell_stall, record_stall_reason; simpl; by case_match..|].
  intros Hs Hc. by apply D, tell_stall_caught.
Qed.

Lemma query_told late ctx s :
  (forall k n, late = Some k -> (k <= n)%nat -> wsem n = true) -> told late s -> told late (pc_query_stall_reasons cu wsem ctx s).2.
Proof using Type.
  intros Hs H. unfold pc_query_stall_reasons. destruct (g_stall_queried (stalls s)) eqn:Eq; [done|].
  pose proof (td_fresh _ _ H Eq) as Hn. destruct (td_table _ _ H) as (rows0 & T1 & T2 & T3 & _). rewrite Hn in T2.
  destruct rows0; [|done].
  assert (H1 : told late (set_stalls (StallTable true (g_stall_indices (stalls s)) (g_num_stall_reasons (stalls s))) s))
    by (destruct H; by split).
  set (s1 := set_stalls _ s) in *.
  destruct (c_num_stall_reasons cu (ncalls s1)) as [[|n]|]; [by apply (told_same late s1)| |by apply (told_same late s1)].
  set (s2 := called (CallNumStallReasons ctx) s1).
  destruct (c_stall_reasons cu (ncalls s2)) as [written|] eqn:Ew; [|by apply (told_same late s1)].
  cbn [snd]. set (rows := stall_rows (S n) written). set (s3 := set_stalls _ _).
  assert (Lr : length rows = S n) by (unfold rows, stall_rows; by rewrite length_map, length_seq).
  destruct (tell_stalls_told rows [] (default 0%nat late) s3) as (A & B & C & M & D); [done|].
  destruct (tell_stalls wsem rows s3) as (_ & E2 & _). split.
  - exists rows. rewrite E2, A. split_and!; [done|by rewrite Lr|done|]. right. rewrite Lr. by eexists _, _.
  - by rewrite E2.
  - rewrite B, C, M. apply H.
  - destruct late as [k|]; [|done]. apply D; [intros; by eapply Hs|]. apply H.
Qed.

Lemma enable_told late ctx s :
  (forall k n, late = Some k -> (k <= n)%nat -> wsem n = true) -> told late s -> told late (pc_enable_ctx g cu wsem ctx s).
Proof using Type.
  intros Hs H. unfold pc_enable_ctx. destruct (_ && _); [by apply (told_same late s)|].
  destruct (c_enable cu (ncalls s)); cbn [negb]; [|by apply (told_same late s)].
  pose proof (query_told late ctx (called (CallEnable ctx true) s) Hs ltac:(by apply (told_same late s))) as H2.
  destruct (pc_query_stall_reasons cu wsem ctx _) as [have s2]. cbn [snd] in H2.
  assert (F : forall c s3, same_told s2 s3 -> told late (c_count g_ctx_enable_failed (pc_disable_ctx cu c s3).2)).
  { intros c s3 Q. apply (told_same late s2); [|done]. exact (same_told_trans _ _ _ Q (disable_told c s3)). }
  destruct have; cbn [negb]; [|by apply F].
  destruct (match c_configure cu (ncalls s2) with Some st => _ | None => _ end); cbn [negb]; [|by apply F].
  apply (told_same late s2); [|done]. by repeat case_match.
Qed.

(** The replay leaves nothing out. *)
Lemma replay_catches k l w :
  (forall n, (k <= n)%nat -> wsem n = true) -> (k <= w_reads w)%nat ->
  stall_fn_ l = Some (stall_emit wsem) -> config_fn_ l = Some (config_emit wsem) -> module_fn_ l = None ->
  was_attached_ l = false ->
  let w' := (replay_if_newly_attached true l w).2 in
  (k <= w_reads w')%nat /\ (forall r, r ∈ stalls_ l -> r ∈ map snd (stalls_sent w')) /\
  (have_config_ l = true -> config_ l ∈ map snd (configs_sent w')).
Proof using Type.
  intros Hs Hk E1 E2 E3 E4. unfold replay_if_newly_attached. rewrite E1, E2, E3, E4. cbn [andb negb snd call_each].
  set (w1 := if have_config_ l then _ else w).
  assert (W1 : (k <= w_reads w1)%nat /\ (have_config_ l = true -> config_ l ∈ map snd (configs_sent w1))).
  { subst w1. destruct (have_config_ l); [|done]. cbn [foldl]. destruct (config_emit_up k (config_ l) w Hs Hk) as (F1 & _ & F3).
    rewrite F1, F3, map_app. split; [lia|]. intros _. apply elem_of_app. right. by left. }
  clearbody w1. destruct W1 as [W1 W2].
  assert (G : forall xs w1, (k <= w_reads w1)%nat -> let w' := foldl (fun w x => stall_emit wsem x w) w1 xs in
    (k <= w_reads w')%nat /\ configs_sent w' = configs_sent w1 /\ map snd (stalls_sent w') = map snd (stalls_sent w1) ++ xs).
  { clear -Hs. induction xs as [|x xs IH]; intros w1 Hk; [by rewrite app_nil_r|]. cbn [foldl].
    destruct (stall_emit_up k x w1 Hs Hk) as (F1 & F2 & F3). destruct (IH (stall_emit wsem x w1) ltac:(lia)) as (A & B & C).
    split_and!; [done|by rewrite B|]. rewrite C, F1, map_app, <- app_assoc. done. }
  destruct (G (stalls_ l) w1 W1) as (A & B & C). rewrite B, C. split_and!; [done| |done]. intros r Hr. apply elem_of_app. by right.
Qed.

(** A replay only adds. *)
Lemma replay_keeps attached l w :
  stall_fn_ l = Some (stall_emit wsem) -> config_fn_ l = Some (config_emit wsem) -> module_fn_ l = None ->
  let w' := (replay_if_newly_attached attached l w).2 in
  (w_reads w <= w_reads w')%nat /\ map snd (stalls_sent w) `prefix_of` map snd (stalls_sent w') /\
  map snd (configs_sent w) `prefix_of` map snd (configs_sent w').
Proof using Type.
  intros E1 E2 E3. unfold replay_if_newly_attached. rewrite E1, E2, E3. cbn [snd call_each].
  assert (P1 : forall r w, (w_reads w <= w_reads (config_emit wsem r w))%nat /\
    map snd (stalls_sent w) `prefix_of` map snd (stalls_sent (config_emit wsem r w)) /\
    map snd (configs_sent w) `prefix_of` map snd (configs_sent (config_emit wsem r w))).
  { intros r w0. unfold config_emit. case_match; simpl; rewrite ?map_app; split_and!; try done; try lia. by apply prefix_app_r. }
  assert (P2 : forall r w, (w_reads w <= w_reads (stall_emit wsem r w))%nat /\
    map snd (stalls_sent w) `prefix_of` map snd (stalls_sent (stall_emit wsem r w)) /\
    map snd (configs_sent w) `prefix_of` map snd (configs_sent (stall_emit wsem r w))).
  { intros r w0. unfold stall_emit. case_match; simpl; rewrite ?map_app; split_and!; try done; try lia. by apply prefix_app_r. }
  assert (P3 : forall xs w, (w_reads w <= w_reads (foldl (fun w x => stall_emit wsem x w) w xs))%nat /\
    map snd (stalls_sent w) `prefix_of` map snd (stalls_sent (foldl (fun w x => stall_emit wsem x w) w xs)) /\
    map snd (configs_sent w) `prefix_of` map snd (configs_sent (foldl (fun w x => stall_emit wsem x w) w xs))).
  { induction xs as [|x xs IH]; intros w0; [done|]. cbn [foldl]. destruct (P2 x w0) as (A & B & C).
    destruct (IH (stall_emit wsem x w0)) as (A' & B' & C'). split_and!; [lia|by etransitivity|by etransitivity]. }
  destruct (attached && _); [|done]. set (w1 := if have_config_ l then _ else w).
  assert (W1 : (w_reads w <= w_reads w1)%nat /\ map snd (stalls_sent w) `prefix_of` map snd (stalls_sent w1) /\
    map snd (configs_sent w) `prefix_of` map snd (configs_sent w1)).
  { subst w1. destruct (have_config_ l); [apply P1|done]. }
  destruct W1 as (A & B & C), (P3 (stalls_ l) w1) as (A' & B' & C'). split_and!; [lia|by etransitivity|by etransitivity].
Qed.

Lemma replay_told late attached s :
  told late s -> let r := replay_if_newly_attached attached (g_replay s) (pc_out s) in told late (set_replay r.1 r.2 s).
Proof using Type.
  intros [A B C D]. destruct C as (C1 & C2 & C3). pose proof (replay_keeps attached (g_replay s) (pc_out s) C1 C2 C3) as (K1 & K2 & K3).
  unfold replay_if_newly_attached in *. cbn [fst snd] in *. split; try done.
  destruct late as [k|]; [|done]. destruct D as (D1 & D2 & D3). unfold caught_up. cbn [set_replay g_replay pc_out stalls_ have_config_ config_].
  split_and!; [lia| |]; intros; eapply elem_of_prefix; [by apply D2|done|by apply D3|done].
Qed.

Lemma config_told late sm clk s :
  (forall k n, late = Some k -> (k <= n)%nat -> wsem n = true) -> told late s -> told late (pc_emit_config_once wsem sm clk s).
Proof using Type.
  intros Hs H. unfold pc_emit_config_once. destruct (negb _); [done|]. set (r := GpuConfig _ _ _ _ _).
  set (s1 := if sm =? 0 then _ else s). assert (H1 : told late s1) by (subst s1; destruct (sm =? 0); [by apply (told_same late s)|done]).
  clearbody s1. destruct H1 as [A B C D]. split; try done. destruct late as [k|]; [|done]. destruct D as (D1 & D2 & D3).
  unfold caught_up. cbn [c_count set_replay g_replay pc_out record_config stalls_ have_config_ config_].
  destruct (config_emit_up k r (pc_out s1) (fun n => Hs k n eq_refl) D1) as (F1 & F2 & F3). rewrite F1, F2, F3, map_app.
  split_and!; [lia|done|]. intros _. apply elem_of_app. right. by left.
Qed.

Lemma drain_all_told why s : same_told s (drain_all g getdata sem why s).
Proof using Type. unfold drain_all. by destruct (pc_drain_all _ _ _ _ _ _ _). Qed.

Lemma pc_tick_told late sm clk now s :
  (forall k n, late = Some k -> (k <= n)%nat -> wsem n = true) -> told late s -> told late (pc_tick g getdata sem wsem sm clk now s).
Proof using Type.
  intros Hs H. unfold pc_tick. destruct (negb (g_pc_enabled g)); [done|].
  set (s1 := if negb (c_cnt s g_ctx_enabled =? 0) then _ else s).
  assert (H1 : told late s1) by (subst s1; destruct (negb _); [by apply config_told|done]). clearbody s1.
  destruct (due now _) as [d sch]. apply (told_same late s1); [|done]. destruct d; [|done].
  exact (drain_all_told kPeriodic (set_tier (set_contexts (g_pc_ctxs (tier s1)) (cupti_on (tier s1)) (g_pc (tier s1)) sch (tier s1)) s1)).
Qed.

Lemma session_step_told late s o :
  (forall k n, late = Some k -> (k <= n)%nat -> wsem n = true) -> told late s ->
  told late (session_step cfg g cu getdata sem wsem start_ok stop_ok timer s o).
Proof using Type.
  intros Hs H. destruct o as [cbid rd now|sees sy tid now|sees tid now|att sm clk now| |gf now|sees gf tid now]; cbn [session_step];
    try by apply (told_same late s).
  - unfold on_resource. destruct (g_pc_enabled g), rd as [ctx|]; try done. destruct cbid; [| | |done].
    + apply enable_told; [done|]. by apply (told_same late s).
    + destruct (list_find _ _) as [[i c]|]; [|by apply (told_same late s)].
      pose proof (drain_before_told c (c_count g_ctx_destroyed s)) as Q1. destruct (drain_before g getdata sem c _) as [c1 s1].
      pose proof (disable_told c1 s1) as Q2. destruct (pc_disable_ctx cu c1 s1) as [c2 s2]. cbn [snd] in *.
      apply (told_same late s); [|done]. exact (same_told_trans _ _ _ Q1 Q2).
    + apply (told_same late s); [|done]. exact (drain_all_told kModuleUnload (pc_force now kModuleUnload (c_count g_module_unload_drains s))).
  - unfold session_tick. pose proof (replay_told late att s H) as H1. destruct (replay_if_newly_attached att _ _) as [r w]. cbn [fst snd] in H1.
    by apply pc_tick_told.
  - apply (told_same late s); [|done]. apply on_finalize_told.
  - apply (told_same late s); [|done].
    exact (on_finalize_told gf now (set_tier (burst_shutdown cfg getdata sem (g_pc_collect_num_pcs g) (g_num_stall_reasons (stalls s))
      stop_ok (g_pc_tier_a g) sees timer tid now (tier s)) s)).
Qed.

Lemma session_run_told late os s :
  (forall k n, late = Some k -> (k <= n)%nat -> wsem n = true) -> told late s ->
  told late (session_run cfg g cu getdata sem wsem start_ok stop_ok timer s os).
Proof using Type. intros Hs. revert s. induction os as [|o os IH]; intros s H; [done|]. by apply IH, session_step_told. Qed.

(** The tick that finds a consumer. *)
Lemma attach_told s :
  told None s -> was_attached_ (g_replay s) = false -> (forall n, (w_reads (pc_out s) <= n)%nat -> wsem n = true) ->
  let r := replay_if_newly_attached true (g_replay s) (pc_out s) in told (Some (w_reads (pc_out s))) (set_replay r.1 r.2 s).
Proof using Type.
  intros [A B C _] Hw Hs. pose proof C as (C1 & C2 & C3).
  pose proof (replay_catches (w_reads (pc_out s)) (g_replay s) (pc_out s) Hs (le_n _) C1 C2 C3 Hw) as K.
  unfold replay_if_newly_attached in *. cbn [fst snd] in *. by split.
Qed.
End Told.

(** The bytes of a C string: those before its first zero. *)
Fixpoint c_text (s : list Z) : list Z :=
  match s with [] => [] | c :: s' => if c =? 0 then [] else c :: c_text s' end.

(** A record says what a row of CUPTI's table says: its index and, of its name,
    the text, to at most the 128 bytes CUPTI's string buffers and the record's
    field hold, zero-padded. *)
Record says (row : Z * option (list Z)) (r : gpu_stall_reason_map_v1) : Prop := {
  says_index : r_index r = row.1;
  says_len : r_name_len r = Z.of_nat (length (take 128 (c_text (default [] row.2))));
  says_whole : r_truncated r = 0;
  says_name : r_name r = take 128 (c_text (default [] row.2)) ++
                replicate (128 - length (take 128 (c_text (default [] row.2)))) 0;
}.

Lemma strnlen_text nm k : take (strnlen nm k) nm = take k (c_text nm) /\ strnlen nm k = length (take k (c_text nm)).
Proof.
  revert k. induction nm as [|c nm IH]; intros [|k]; simpl; try done. destruct (c =? 0); [done|]. simpl.
  destruct (IH k) as [-> ->]. done.
Qed.

Lemma stall_record_says row : says row (stall_record row).
Proof.
  destruct (strnlen_text (default [] row.2) stall_string_size) as [E1 E2]. unfold stall_record.
  assert (Hle : (strnlen (default [] row.2) stall_string_size <= GPU_STALL_NAME_MAX)%nat).
  { rewrite E2, length_take. unfold stall_string_size, GPU_STALL_NAME_MAX. lia. }
  rewrite (proj2 (Nat.ltb_ge _ _) Hle). rewrite E1. split; simpl; [done|by rewrite E2|done|by rewrite E2].
Qed.

(** The consumer was sent what CUPTI's table says of this index. *)
Definition name_heard (cu : cupti_pc) (s : session) (i : Z) : Prop :=
  exists row n written r, c_stall_reasons cu n = Some written /\ row ∈ stall_rows (g_num_stall_reasons (stalls s)) written /\
    row.1 = i /\ says row r /\ r ∈ map snd (stalls_sent (pc_out s)).

(** C37: A consumer that comes late learns what the stall indices mean.  With PC
    sampling on and whatever happened before, let a tick be the first to find a
    consumer, and let the stall-map and configuration probes be heard from that
    tick on.  Then at any later time, for every stall index of the table
    in force (those are the indices PC samples carry) the consumer was sent a
    record with this index whose name is the text of a row that CUPTI gave for
    this index, cut at its first zero byte and at 128 bytes, with its length; and
    if there is a configuration record it was sent that. *)
Theorem stall_names_reach_late_consumer cfg g cu getdata sem wsem start_ok stop_ok timer period drain_ns pc os sm clk now os' :
  let run := session_run cfg g cu getdata sem wsem start_ok stop_ok timer in
  let s1 := run (session_init cfg g wsem period drain_ns pc) os in
  g_pc_enabled g = true ->
  was_attached_ (g_replay s1) = false -> (forall n, (w_reads (pc_out s1) <= n)%nat -> wsem n = true) ->
  let s := run s1 (Ticked true sm clk now :: os') in
  (forall i, i ∈ g_stall_indices (stalls s) -> name_heard cu s i) /\
  (have_config_ (g_replay s) = true -> config_ (g_replay s) ∈ map snd (configs_sent (pc_out s))).
Proof.
  intros run s1 Hon Hw Hs s. assert (H1 : told cu wsem None s1).
  { apply session_run_told; [done|]. unfold session_init. rewrite Hon. split; try done. exists []. by split_and!; try left. }
  assert (Hk : forall k n, Some (w_reads (pc_out s1)) = Some k -> (k <= n)%nat -> wsem n = true) by (intros k n [= <-]; auto).
  pose proof (attach_told cu wsem s1 H1 Hw Hs) as H2.
  assert (H : told cu wsem (Some (w_reads (pc_out s1))) s).
  { subst s run. cbn [session_run foldl session_step]. apply session_run_told; [done|]. unfold session_tick.
    destruct (replay_if_newly_attached true _ _) as [r w]. by apply pc_tick_told. }
  clearbody s. destruct H as [(rows & T1 & T2 & T3 & T4) _ _ (_ & L1 & L2)]. split; [|done]. intros i Hi.
  destruct T4 as [->|(n & written & Hw' & Er)]; [rewrite T1 in Hi; by apply not_elem_of_nil in Hi|].
  rewrite T1 in Hi. assert (Hf : i ∈ r_index <$> first_by r_index (map stall_record rows)).
  { apply first_by_keys. apply list_elem_of_fmap in Hi as (row & -> & Hr). apply list_elem_of_fmap. exists (stall_record row).
    split; [unfold stall_record; by repeat case_match|]. apply list_elem_of_fmap. by exists row. }
  apply list_elem_of_fmap in Hf as (r & -> & Hr). pose proof Hr as Hr'. rewrite <- T3 in Hr'. apply L1 in Hr'.
  assert (Hin : r ∈ map stall_record rows) by (by apply first_by_elem in Hr).
  apply list_elem_of_fmap in Hin as ([i name] & -> & Hrow). exists (i, name), n, written, (stall_record (i, name)).
  assert (Ei : r_index (stall_record (i, name)) = i) by (unfold stall_record; by repeat case_match).
  rewrite Ei. split_and!; [done|by rewrite T2, <- Er|done|apply stall_record_says|done].
Qed.

Lemma stall_names_reach_late_consumer_witness :
  let up n := (2 <=? n)%nat in
  let run := session_run default_burst demo_settings demo_cupti (fun _ => GdError) (fun _ => true) up yes yes 5 in
  let s1 := run (session_init default_burst demo_settings up 0 100000000 demo_pc) (take 1 demo_session_ops) in
  stalls_sent (pc_out s1) = [] /\
  let s := run s1 [Ticked true 82 5000 1500] in
  map r_index (map snd (stalls_sent (pc_out s))) = [4; 7] /\
  exists r, r ∈ map snd (stalls_sent (pc_out s)) /\ r_index r = 4 /\ r_name_len r = 4 /\
    take 6 (r_name r) = [119; 97; 105; 116; 0; 0].
Proof.
  intros up run s1. split; [vm_compute; reflexivity|]. intros s. split; [vm_compute; reflexivity|].
  destruct (proj1 (stall_names_reach_late_consumer default_burst demo_settings demo_cupti (fun _ => GdError) (fun _ => true) up yes yes 5
    0 100000000 demo_pc (take 1 demo_session_ops) 82 5000 1500 [] eq_refl ltac:(vm_compute; reflexivity)
    ltac:(intros n Hn; apply Nat.leb_le; vm_compute in Hn; lia)) 4 ltac:(vm_compute; left))
    as (row & n & written & r & [= <-] & Hrow & Ei & [S1 S2 _ S4] & H).
  assert (row = (4, Some [119; 97; 105; 116; 0; 9])) as ->.
  { vm_compute in Hrow. apply elem_of_cons in Hrow as [->|Hrow]; [done|].
    apply elem_of_cons in Hrow as [->|Hrow]; [discriminate Ei|by apply elem_of_nil in Hrow]. }
  exists r. split; [exact H|]. split; [exact S1|]. split; [exact S2|]. rewrite S4. vm_compute. reflexivity.
Defined.
