(* ===== verification/Accounts.v ===== *)
(** * Accounts: what the counters of the serialized bursts must say

    The exit report of src/shim/nvidia/cupti_adapter.cc states of its burst
    counters that the windows are two for each burst, one less when the process
    died in one.  This file proves it over the histories of Contexts. *)
From S2P Require Import Prelude Abi Batch Double Burst Timers Replay Adapter PcSampling Window Contexts Disclosure.

(** ** What only the launch path and the shutdown move *)

Definition book (t : tier_a) : Z * Z := (b_cnt t g_sampling_bursts, b_cnt t g_windows_emitted).
Definition same_bursts (s s' : session) : Prop :=
  g_burst (tier s') = g_burst (tier s) /\ book (tier s') = book (tier s) /\ finalize_done s' = finalize_done s.
#[global] Instance same_bursts_preorder : PreOrder same_bursts.
Proof. unfold same_bursts. split; [done|]. intros s1 s2 s3. intuition congruence. Qed.

Section frame.
  Context (cfg : BurstConfig) (g : pc_settings) (cu : cupti_pc).
  Context (getdata : nat -> getdata_result) (sem wsem : nat -> bool).

Lemma disable_bursts c s : same_bursts s (pc_disable_ctx cu c s).2.
Proof using Type. unfold pc_disable_ctx. destruct (negb _); [done|]. by destruct (c_disable cu (ncalls s)). Qed.
Lemma drain_before_bursts c s : same_bursts s (drain_before g getdata sem c s).2.
Proof using Type. unfold drain_before. by destruct (pc_drain_ctx_locked _ _ _ _ _ _). Qed.
Lemma drain_all_bursts why s : same_bursts s (drain_all g getdata sem why s).
Proof using Type. unfold drain_all. by destruct (pc_drain_all _ _ _ _ _ _ _). Qed.

Lemma query_bursts ctx s : same_bursts s (pc_query_stall_reasons cu wsem ctx s).2.
Proof using Type.
  unfold pc_query_stall_reasons. destruct (g_stall_queried (stalls s)); [done|]. case_match; [|done]. case_match; [done|]. case_match; [|done].
  simpl. match goal with |- context [foldl (tell_stall wsem) ?s0 ?rows] => destruct (tell_stalls wsem rows s0) as (E1 & _ & _ & _ & _ & E6) end.
  unfold same_bursts. rewrite E1, E6. done.
Qed.

Lemma enable_bursts ctx s : same_bursts s (pc_enable_ctx g cu wsem ctx s).
Proof using Type.
  unfold pc_enable_ctx. destruct (_ && _); [by split_and!|]. destruct (c_enable cu (ncalls s)); cbn [negb]; [|done].
  set (s1 := called _ s). pose proof (query_bursts ctx s1) as Q. destruct (pc_query_stall_reasons cu wsem ctx s1) as [have s2]. cbn [snd] in Q.
  change (same_bursts s s2) in Q.
  destruct have; cbn [negb]; [|etransitivity; [exact Q|apply (disable_bursts _ s2)]].
  destruct (match c_configure cu (ncalls s2) with Some st => _ | None => _ end); cbn [negb];
    [|match goal with |- context [pc_disable_ctx cu ?c ?s3] => etransitivity; [exact Q|exact (disable_bursts c s3)] end].
  etransitivity; [exact Q|]. by repeat case_match.
Qed.

Lemma finalize_ctxs_bursts cs s : same_bursts s (finalize_ctxs g cu getdata sem cs s).2.
Proof using Type.
  revert s. induction cs as [|c cs IH]; intros s; cbn [finalize_ctxs]; [done|]. pose proof (drain_before_bursts c s) as Q1.
  destruct (drain_before g getdata sem c s) as [c1 s1]. pose proof (disable_bursts c1 s1) as Q2.
  destruct (pc_disable_ctx cu c1 s1) as [c2 s2]. specialize (IH s2). destruct (finalize_ctxs g cu getdata sem cs s2) as [cs' s3].
  cbn [snd] in *. etransitivity; [exact Q1|]. by etransitivity.
Qed.

Lemma resource_bursts cbid rd now s : same_bursts s (on_resource g cu getdata sem wsem cbid rd now s).
Proof using Type.
  unfold on_resource. destruct (g_pc_enabled g), rd as [ctx|]; try done. destruct cbid; [| | |done].
  - apply (enable_bursts ctx (c_count g_ctx_seen s)).
  - destruct (list_find _ _) as [[i c]|]; [|done].
    pose proof (drain_before_bursts c (c_count g_ctx_destroyed s)) as Q1. destruct (drain_before g getdata sem c _) as [c1 s1].
    pose proof (disable_bursts c1 s1) as Q2. destruct (pc_disable_ctx cu c1 s1) as [c2 s2]. cbn [snd] in *. exact (transitivity Q1 Q2).
  - exact (drain_all_bursts kModuleUnload (pc_force now kModuleUnload (c_count g_module_unload_drains s))).
Qed.

Lemma tick_bursts attached sm clk now s : same_bursts s (session_tick g getdata sem wsem attached sm clk now s).
Proof using Type.
  unfold session_tick. destruct (replay_if_newly_attached _ _ _) as [r w]. unfold pc_tick. destruct (negb _); [done|].
  set (s0 := set_replay r w s). assert (Q0 : same_bursts s s0) by done. clearbody s0.
  set (s1 := if negb (c_cnt s0 g_ctx_enabled =? 0) then _ else s0).
  assert (Q1 : same_bursts s0 s1) by (subst s1; unfold pc_emit_config_once; by repeat case_match). clearbody s1.
  destruct (due now _) as [d sch]. etransitivity; [exact Q0|]. etransitivity; [exact Q1|]. destruct d; [|done].
  exact (drain_all_bursts kPeriodic (set_tier (set_contexts (g_pc_ctxs (tier s1)) (cupti_on (tier s1)) (g_pc (tier s1)) sch (tier s1)) s1)).
Qed.
End frame.

(** ** The launch path *)

(** With [n] bursts begun, [o] of the windows without an end. *)
Record tally (n o : Z) (t : tier_a) : Prop := {
  ta_book : book t = (u64 n, u64 (2 * n - o));
  ta_open : o = 0 \/ o = 1;
  ta_sampling : sampling_ (g_burst t) = true -> o = 1;
  ta_over : o = 1 -> sampling_ (g_burst t) = false -> refused_ (g_burst t) = true;
}.

(** The steps that start and stop the contexts count elsewhere. *)
Definition unbooked (t t' : tier_a) : Prop := book t' = book t /\ g_burst t' = g_burst t.
#[global] Instance unbooked_preorder : PreOrder unbooked.
Proof. unfold unbooked. split; [done|]. intros t1 t2 t3. intuition congruence. Qed.

Section path.
  Context (cfg : BurstConfig) (getdata : nat -> getdata_result) (sem start_ok stop_ok : nat -> bool) (P R : nat) (timer : Z).

Lemma foldl_kept (f : tier_a -> PCContext -> tier_a) cs t : (forall t c, unbooked t (f t c)) -> unbooked t (foldl f t cs).
Proof using Type. intros Hf. revert t. induction cs as [|c cs IH]; intros t; [done|]. simpl. etransitivity; [apply (Hf t c)|apply IH]. Qed.
Lemma thread_kept tid t : unbooked t (note_burst_thread timer tid t).
Proof using Type. unfold note_burst_thread. by destruct (_ && _). Qed.
Lemma start_kept tid t : unbooked t (pc_start_ctxs_locked start_ok timer tid t).
Proof using Type.
  etransitivity; [apply (thread_kept tid)|]. apply foldl_kept. intros t' c. unfold start_ctx. destruct (negb _); [done|]. by destruct (start_ok _).
Qed.
Lemma stop_kept tid t : unbooked t (pc_stop_ctxs_locked stop_ok timer tid t).
Proof using Type.
  etransitivity; [apply (thread_kept tid)|]. apply foldl_kept. intros t' c. unfold stop_ctx. destruct (negb _); [done|]. by destruct (stop_ok _).
Qed.

Lemma tally_kept n o t t' : tally n o t -> unbooked t t' -> tally n o t'.
Proof using Type. intros [A B C D] [E1 E2]. split; rewrite ?E1, ?E2; done. Qed.

(** The end of a burst that the controller has just stopped. *)
Lemma close_tally n t c tid now start_ns :
  tally n 1 t -> sampling_ c = false -> tally n 0 (burst_close cfg getdata sem P R stop_ok true timer tid now start_ns (set_burst c t)).
Proof using Type.
  intros [A _ _ _] Hc. unfold burst_close, close_announce. set (t1 := close_stop _ _ _ _ _ _ _ _ _).
  assert (K : book t1 = book t /\ sampling_ (g_burst t1) = false).
  { destruct (stop_kept tid (set_burst c t)) as [E1 E2]. subst t1. unfold close_stop, range_end.
    destruct (pc_drain_all _ _ _ _ _ _ _) as [cs pc]. simpl. rewrite E2. by split. }
  clearbody t1. destruct K as [K1 K2].
  set (t2 := close_count _ _ _ t1). assert (K3 : unbooked t1 t2) by (subst t2; unfold close_count; by destruct (_ =? _)). clearbody t2. destruct K3 as [K3 K4].
  unfold book in *. injection A as A1 A2. injection K1 as B1 B2. injection K3 as C1 C2. split; simpl.
  - unfold book. simpl. rewrite C1, C2, B1, B2, A1, A2, u64_add. do 2 f_equal. lia.
  - by left.
  - rewrite (proj1 (closed_rest cfg _ _)), K4, K2. done.
  - done.
Qed.

Lemma graphs_keep b c : sampling_ (note_graphs_locked b c) = sampling_ c /\ (refused_ c = true -> refused_ (note_graphs_locked b c) = true).
Proof using Type. unfold note_graphs_locked. by destruct (b && negb (refused_ c)) eqn:E. Qed.

Lemma refusal_unbooked was graphs t : unbooked t (note_graph_refusal was graphs t).
Proof using Type. unfold note_graph_refusal. by destruct (_ || _ || _). Qed.

(** A controller that was only asked. *)
Lemma asked_tally n o t c :
  tally n o t -> sampling_ c = sampling_ (g_burst t) -> (refused_ (g_burst t) = true -> refused_ c = true) -> tally n o (set_burst c t).
Proof using Type. intros [A B C D] Hs Hr. split; simpl; rewrite ?Hs; auto. Qed.

(** The books after a poll: a window is left without an end only if it was before. *)
Definition books (o : Z) (t t' : tier_a) : Prop :=
  exists n' o', tally n' o' t' /\ (o' = 1 -> sampling_ (g_burst t') = true \/ (o = 1 /\ sampling_ (g_burst t) = false)).

Lemma asked_books n o t c was graphs :
  tally n o t -> sampling_ c = sampling_ (g_burst t) -> (refused_ (g_burst t) = true -> refused_ c = true) ->
  books o t (note_graph_refusal was graphs (set_burst c t)).
Proof using Type.
  intros H Hs Hr. exists n, o. pose proof (refusal_unbooked was graphs (set_burst c t)) as K. split; [by apply (tally_kept _ _ (set_burst c t)); [apply asked_tally|]|].
  intros ->. rewrite (proj2 K). simpl. rewrite Hs. destruct (sampling_ (g_burst t)); auto.
Qed.

Lemma open_tally n o t ctx sy tid now :
  tally n o t -> books o t (burst_open_at_launch start_ok true ctx true sy timer tid now t).
Proof using Type.
  intros H. unfold burst_open_at_launch. cbn [negb].
  destruct ctx; cbn [negb]; [|exists n, o; split; [done|]; intros ->; destruct (sampling_ (g_burst t)); auto].
  set (t1 := b_count g_burst_enter_polls 1 t). assert (H1 : tally n o t1) by (by apply (tally_kept _ _ t)). change (books o t) with (books o t1).
  clearbody t1. clear H.
  unfold poll_open. destruct (graphs_keep (graphs_seen t1) (g_burst t1)) as [G1 G2]. set (c := note_graphs_locked _ _) in *. clearbody c.
  assert (Hask : books o t1 (note_graph_refusal (refused_ (g_burst t1)) (graphs_seen t1) (set_burst c t1))) by (by apply (asked_books n)).
  destruct (sampling_ c) eqn:Es; [exact Hask|]. unfold open_locked. destruct (refused_ c) eqn:Er; [exact Hask|].
  destruct (_ && _); [exact Hask|]. clear Hask. exists (n + 1), 1. rewrite (proj2 (refusal_unbooked _ _ _)). set (c' := MkBurst true _ _ _ _ _ _ _ _ _ _ _ _ _ _ _).
  assert (Ho : o = 0).
  { destruct (ta_open _ _ _ H1) as [->|E]; [done|]. pose proof (G2 (ta_over _ _ _ H1 E ltac:(congruence))). congruence. }
  subst o. enough (H2 : tally (n + 1) 1 (emit_window true now 0 0 (open_note (open_start start_ok timer tid (pc_sync_before_start sy (set_burst c' t1))))) /\
    sampling_ (g_burst (emit_window true now 0 0 (open_note (open_start start_ok timer tid (pc_sync_before_start sy (set_burst c' t1)))))) = true).
  { split; [|intros _; left; apply H2]. eapply tally_kept; [apply H2|apply refusal_unbooked]. }
  set (t2 := pc_sync_before_start sy _). assert (K1 : unbooked (set_burst c' t1) t2) by (subst t2; unfold pc_sync_before_start; by repeat case_match).
  clearbody t2. pose proof (transitivity K1 (start_kept tid t2)) as [K2 K3]. unfold open_start. set (t3 := pc_start_ctxs_locked _ _ _ _) in *. clearbody t3.
  pose proof (ta_book _ _ _ H1) as B. unfold book in *. injection B as B1 B2. simpl in K2. injection K2 as C1 C2.
  split; [|simpl; by rewrite K3]. split; simpl.
  - unfold book. simpl. rewrite C1, C2, B1, B2, !u64_add. do 2 f_equal. lia.
  - by right.
  - done.
  - intros _. rewrite K3. done.
Qed.

Lemma exit_tally n o t tid now :
  tally n o t -> books o t (burst_close_at_launch cfg getdata sem P R stop_ok true true timer tid now t).
Proof using Type.
  intros H. unfold burst_close_at_launch. cbn [negb].
  set (t1 := b_count g_burst_exit_polls 1 t). assert (H1 : tally n o t1) by (by apply (tally_kept _ _ t)). change (books o t) with (books o t1).
  clearbody t1. clear H.
  unfold poll_close. destruct (graphs_keep (graphs_seen t1) (g_burst t1)) as [G1 G2]. set (c := note_graphs_locked _ _) in *. clearbody c.
  assert (Hask : books o t1 (note_graph_refusal (refused_ (g_burst t1)) (graphs_seen t1) (set_burst c t1))) by (by apply (asked_books n)).
  destruct (sampling_ c) eqn:Es; cbn [negb]; [|exact Hask]. rewrite (ta_sampling _ _ _ H1 ltac:(congruence)) in H1.
  assert (Hclose : forall c', sampling_ c' = false -> books o t1 (note_graph_refusal (refused_ (g_burst t1)) (graphs_seen t1)
    (burst_close cfg getdata sem P R stop_ok true timer tid now (burst_start_ns_ (g_burst t1)) (set_burst c' t1)))).
  { intros c' Hc'. exists n, 0. split; [|done]. eapply tally_kept; [by apply close_tally|apply refusal_unbooked]. }
  unfold close_locked. destruct (refused_ c); [by apply Hclose|]. destruct (_ <? _); [exact Hask|by apply Hclose].
Qed.

(** The shutdown ends the burst there is, and no other will begin. *)
Lemma shutdown_tally n o t tid now :
  tally n o t -> let t' := burst_shutdown cfg getdata sem P R stop_ok true true timer tid now t in
  tally n (if sampling_ (g_burst t) then 0 else o) t' /\ sampling_ (g_burst t') = false.
Proof using Type.
  intros H. unfold burst_shutdown, shutdown. cbn [negb]. change (sampling_ (refuse (g_burst t))) with (sampling_ (g_burst t)).
  destruct (sampling_ (g_burst t)) eqn:Es; cbn [negb].
  - rewrite (ta_sampling _ _ _ H Es) in H. set (r := stop_locked _ _ _ _). assert (Er : r = (kStop, r.2)) by done. rewrite Er.
    assert (Hc := close_tally n t r.2 tid now (burst_start_ns_ (g_burst t)) H eq_refl). split; [exact Hc|].
    destruct (sampling_ (g_burst (burst_close _ _ _ _ _ _ _ _ _ _ _ _))) eqn:E; [|done]. by apply (ta_sampling _ _ _ Hc) in E.
  - split; [apply asked_tally; [done|done|done]|done].
Qed.
End path.

(** ** The histories *)

Section histories.
  Context (cfg : BurstConfig) (g : pc_settings) (cu : cupti_pc).
  Context (getdata : nat -> getdata_result) (sem wsem start_ok stop_ok : nat -> bool) (timer : Z).
  Context (HA : g_pc_tier_a g = true) (HE : g_pc_enabled g = true).

(** The window probe has a listener whenever it is asked. *)
Definition window_heard (o : session_op) : bool :=
  match o with Entered sees _ _ _ | Exited sees _ _ | AtExit sees _ _ _ => sees | _ => true end.

(** A window without an end: a burst goes on, or finalization ended it. *)
Definition accounts (s : session) : Prop :=
  exists n o, tally n o (tier s) /\ (o = 1 -> sampling_ (g_burst (tier s)) = true \/ finalize_done s = true).

Lemma accounts_same s s' : accounts s -> same_bursts s s' -> accounts s'.
Proof using Type.
  intros (n & o & H & Ho) (E1 & E2 & E3). exists n, o. split; [by apply (tally_kept n o (tier s))|]. by rewrite E1, E3.
Qed.

Lemma finalize_tally n o gf now s : tally n o (tier s) ->
  let s' := on_finalize cfg g cu getdata sem gf now s in tally n o (tier s') /\ finalize_done s' = true.
Proof using HA HE.
  intros H. unfold on_finalize. destruct (finalize_done s) eqn:Ed; [done|]. rewrite HE, HA. cbn [negb].
  set (s1 := set_tier _ _). assert (H1 : tally n o (tier s1) /\ finalize_done s1 = true).
  { split; [|done]. subst s1. cbn [set_tier tier]. destruct H as [A B C D]. unfold shutdown. simpl.
    change (sampling_ (refuse (g_burst (tier s)))) with (sampling_ (g_burst (tier s))).
    destruct (sampling_ (g_burst (tier s))) eqn:Es; cbn [negb snd]; split; simpl; try done; rewrite ?Es; auto. }
  clearbody s1. destruct (negb gf); [exact H1|]. destruct (finalize_ctxs_bursts g cu getdata sem (g_pc_ctxs (tier s1)) s1) as (E1 & E2 & E3).
  destruct (finalize_ctxs _ _ _ _ _ s1) as [cs s2]. cbn [snd] in *. destruct H1 as [H1 D1]. split; [|by simpl; rewrite E3].
  by apply (tally_kept n o (tier s1)).
Qed.

Lemma step_accounts s o : window_heard o = true -> accounts s ->
  accounts (session_step cfg g cu getdata sem wsem start_ok stop_ok timer s o).
Proof using HA HE.
  intros Ho H. destruct o as [cbid rd now|sees sy tid now|sees tid now|att sm clk now| |gf now|sees gf tid now]; cbn [session_step window_heard] in *.
  - apply (accounts_same s); [done|apply resource_bursts].
  - rewrite Ho, HA. destruct H as (n & o & H & Hf).
    destruct (open_tally start_ok timer n o (tier s) (negb (c_cnt s g_ctx_enabled =? 0)) sy tid now H) as (n' & o' & H' & Hf').
    exists n', o'. split; [exact H'|]. intros E. destruct (Hf' E) as [Hs|[E1 Hs]]; [by left|]. right. destruct (Hf E1); [congruence|done].
  - rewrite Ho, HA. destruct H as (n & o & H & Hf).
    destruct (exit_tally cfg getdata sem stop_ok (g_pc_collect_num_pcs g) (g_num_stall_reasons (stalls s)) timer n o (tier s) tid now H)
      as (n' & o' & H' & Hf').
    exists n', o'. split; [exact H'|]. intros E. destruct (Hf' E) as [Hs|[E1 Hs]]; [by left|]. right. destruct (Hf E1); [congruence|done].
  - apply (accounts_same s); [done|apply tick_bursts].
  - by apply (accounts_same s).
  - destruct H as (n & o & H & _). destruct (finalize_tally n o gf now s H) as [H1 H2]. exists n, o. auto.
  - rewrite Ho, HA. destruct H as (n & o & H & _).
    destruct (shutdown_tally cfg getdata sem stop_ok (g_pc_collect_num_pcs g) (g_num_stall_reasons (stalls s)) timer n o (tier s) tid now H) as [H1 _].
    match goal with |- context [set_tier ?t s] => destruct (finalize_tally _ _ gf now (set_tier t s) H1) as [H2 H3] end.
    eexists _, _. split; [exact H2|]. by right.
Qed.

(** C33: The windows of the report are two for each burst.  Through any history of
    contexts, launches, ticks, errors and exit on any threads, with any answers of
    CUPTI, in which the window probe is heard at every launch, launch exit and
    process exit: the windows are twice the bursts, less one or not at all;
    before a finalization they are one less exactly while a burst is open; and the
    exit handler of a process without a fatal error leaves exactly two for each
    burst. *)
Theorem windows_pair_bursts os period drain_ns pc :
  forallb window_heard os = true ->
  let step := session_step cfg g cu getdata sem wsem start_ok stop_ok timer in
  let s := session_run cfg g cu getdata sem wsem start_ok stop_ok timer (session_init cfg g wsem period drain_ns pc) os in
  let bursts s := b_cnt (tier s) g_sampling_bursts in
  let windows s := b_cnt (tier s) g_windows_emitted in
  (windows s = u64 (2 * bursts s) \/ windows s = u64 (2 * bursts s - 1)) /\
  (finalize_done s = false -> windows s = u64 (2 * bursts s - (if sampling_ (g_burst (tier s)) then 1 else 0))) /\
  (finalize_done s = false -> forall gf tid now, let s' := step s (AtExit true gf tid now) in windows s' = u64 (2 * bursts s')).
Proof using HA HE.
  intros Ho step s bursts windows.
  assert (Hs : accounts s).
  { subst s. unfold session_run. assert (H0 : accounts (session_init cfg g wsem period drain_ns pc)).
    { exists 0, 0. split; [|done]. split; simpl; try done. by left. }
    revert Ho H0. generalize (session_init cfg g wsem period drain_ns pc). induction os as [|o os IH]; intros s0 Ho H0; [done|]. simpl in *.
    apply andb_true_iff in Ho as [Ho1 Ho2]. apply IH; [done|]. by apply step_accounts. }
  assert (Hw : forall n o t, book t = (u64 n, u64 (2 * n - o)) -> b_cnt t g_windows_emitted = u64 (2 * b_cnt t g_sampling_bursts - o)).
  { intros n o t E. unfold book in E. injection E as E1 E2. rewrite E1, E2. unfold u64.
    rewrite (Zminus_mod (2 * (n mod _))), Zmult_mod_idemp_r, <- Zminus_mod. done. }
  clearbody s. destruct Hs as (n & o & H & Hf). pose proof (Hw n o (tier s) (ta_book _ _ _ H)) as W. subst bursts windows. cbn beta. split_and!.
  - destruct (ta_open _ _ _ H) as [-> | ->]; [left; by rewrite Z.sub_0_r in W|by right].
  - intros Hd. rewrite W. destruct (sampling_ (g_burst (tier s))) eqn:Es; [by rewrite (ta_sampling _ _ _ H Es)|].
    destruct (ta_open _ _ _ H) as [-> | ->]; [done|]. destruct (Hf eq_refl); congruence.
  - intros Hd gf tid now. subst step. cbn [session_step]. rewrite HA.
    destruct (shutdown_tally cfg getdata sem stop_ok (g_pc_collect_num_pcs g) (g_num_stall_reasons (stalls s)) timer n o (tier s) tid now H) as [H1 _].
    assert (E : (if sampling_ (g_burst (tier s)) then 0 else o) = 0).
    { destruct (sampling_ (g_burst (tier s))); [done|]. destruct (ta_open _ _ _ H) as [-> | ->]; [done|]. destruct (Hf eq_refl); congruence. }
    rewrite E in H1. match goal with |- context [set_tier ?t s] => destruct (finalize_tally _ _ gf now (set_tier t s) H1) as [H2 _] end.
    by rewrite (Hw _ _ _ (ta_book _ _ _ H2)), Z.sub_0_r.
Qed.
End histories.

(** A history of contexts coming and going, and an exit while a burst is open. *)
Lemma windows_pair_bursts_witness :
  let s := demo_session 8 in
  finalize_done s = false /\ sampling_ (g_burst (tier s)) = true /\ b_cnt (tier s) g_sampling_bursts = 1 /\
  b_cnt (tier s) g_windows_emitted = 1 /\
  let s' := session_step default_burst demo_settings demo_cupti (fun _ => GdError) (fun _ => true) (fun _ => true) yes yes 5 s (AtExit true true 11 60003000) in
  b_cnt (tier s') g_windows_emitted = u64 (2 * b_cnt (tier s') g_sampling_bursts).
Proof.
  split; [vm_compute; reflexivity|]. split; [vm_compute; reflexivity|]. split; [vm_compute; reflexivity|].
  destruct (windows_pair_bursts default_burst demo_settings demo_cupti (fun _ => GdError) (fun _ => true) (fun _ => true) yes yes 5 eq_refl eq_refl
    (take 8 demo_session_ops) 0 100000000 demo_pc ltac:(vm_compute; reflexivity)) as (_ & H1 & H2).
  split; [vm_compute; reflexivity|]. exact (H2 ltac:(vm_compute; reflexivity) true 11 60003000).
Defined.

(** A fatal error in a burst leaves its window without an end for good, although
    the process goes on to its exit handler. *)
Example fatal_error_leaves_window :
  let s := session_run default_burst demo_settings demo_cupti (fun _ => GdError) (fun _ => true) (fun _ => true) yes yes 5
    (session_init default_burst demo_settings (fun _ => true) 0 100000000 demo_pc)
    (take 2 demo_session_ops ++ [FatalError true 2000; AtExit true true 11 60003000]) in
  b_cnt (tier s) g_sampling_bursts = 1 /\ b_cnt (tier s) g_windows_emitted = 1 /\ cupti_on (tier s) = [].
Proof. vm_compute. done. Qed.
