(* ===== verification/Inject.v ===== *)
(** * Inject: how the adapter sets itself up

    Models the initialization of src/shim/nvidia/cupti_adapter.cc
    ([InitializeInjection] with [env_uint], [env_u64] and [pin_nvperf_host]) and
    the loading of CUPTI (src/shim/nvidia/cupti_dyn.h, [load]), composed with the
    parsers of PcTier, the schedules of Timers, the burst configuration and the
    session of Contexts.  The environment, the dynamic loader, the file system and
    CUPTI's answers are arguments. *)
From Stdlib Require Import String Ascii.
From S2P Require Import Prelude Tables GpuUsdt Abi Batch Sampler Double Burst PcTier Timers Replay Maps Rendezvous Adapter PcSampling Window Contexts.
#[local] Open Scope Z_scope.

(** ** The environment *)

(** The sign of [strtol] and its relatives. *)
Definition scan_sign (s : cstr) : bool * cstr :=
  match s with
  | c :: s' => if Ascii.eqb c "-" then (true, s') else if Ascii.eqb c "+" then (false, s') else (false, s)
  | [] => (false, s)
  end.

(** [strtol(v, nullptr, 10)]: zero without digits, the nearest [long] outside its
    range. *)
Definition strtol10 (v : cstr) : Z :=
  let '(neg, s) := scan_sign (skip_space v) in
  let n := from_digits 10 (span_digits 10 s).1 in
  Z.max (- 2 ^ 63) (Z.min (2 ^ 63 - 1) (if neg then - n else n)).

Definition env_uint (v : option cstr) (dflt : Z) : Z :=
  match v with
  | None | Some [] => dflt
  | Some s => let n := strtol10 s in if n <=? 0 then dflt else u32 n
  end.

(** The base [strtoull(v, &end, 0)] reads in, and the digits' place. *)
Definition scan_base (s : cstr) : Z * cstr :=
  match s with
  | c :: s' =>
      if Ascii.eqb c "0" then
        match s' with
        | x :: d :: _ =>
            if (Ascii.eqb x "x" || Ascii.eqb x "X") && bool_decide (is_Some (char_digit 16 d)) then (16, tl s') else (8, s)
        | _ => (8, s)
        end
      else (10, s)
  | [] => (10, s)
  end.

(** [None]: no digits, or text after them. *)
Definition strtoull0 (v : cstr) : option Z :=
  let '(neg, s) := scan_sign (skip_space v) in
  let '(base, s) := scan_base s in
  match span_digits base s with
  | (_ :: _ as ds, []) =>
      let n := from_digits base ds in
      Some (if 2 ^ 64 <=? n then 2 ^ 64 - 1 else if neg then u64 (- n) else n)
  | _ => None
  end.

Definition env_u64 (v : option cstr) (dflt : Z) : Z :=
  match v with
  | None | Some [] => dflt
  | Some s => default dflt (strtoull0 s)
  end.

(** ** The libraries *)

(** What the loader and the file system answer: the file an address of libcupti
    comes from, [realpath], [stat], the object mapped under libnvperf_host's
    soname (with its name, where the link map has one), and whether a path can be
    opened. *)
Record loader := Loader {
  ld_cupti : option cstr;
  ld_realpath : cstr -> option cstr;
  ld_stat : cstr -> option (Z * Z);
  ld_mapped : option (option cstr);
  ld_dlopen : cstr -> bool;
}.

Definition kName : cstr := lit "libnvperf_host.so".

(** The sibling of a library file, if it is there. *)
Definition sibling_of (l : loader) (lib : cstr) : option cstr :=
  match nvperf_sibling_path (Some lib) (Some kName) 4096 with
  | Some p => if present (NvperfFile_of (ld_stat l) (Some p)) then Some p else None
  | None => None
  end.

(** The directory libcupti was opened from, then the one it resolves to. *)
Definition find_sibling (l : loader) (fname : cstr) : option cstr :=
  match sibling_of l fname with
  | Some p => Some p
  | None => match ld_realpath l fname with Some real => sibling_of l real | None => None end
  end.

(** [loaded]: an object that is mapped but cannot be identified is present. *)
Definition loaded_file (l : loader) : NvperfFile :=
  match ld_mapped l with
  | None => MkNvperfFile false 0 0
  | Some name =>
      let f := match name with Some p => NvperfFile_of (ld_stat l) (Some (take 4095 p)) | None => MkNvperfFile false 0 0 end in
      MkNvperfFile true (dev f) (ino f)
  end.

(** Whether PC sampling may run, what the report says, and the library opened. *)
Definition pin_nvperf_host (l : loader) : bool * cstr * option cstr :=
  match ld_cupti l with
  | None => (true, lit "no-cupti-path", None)
  | Some fname =>
      let sibling := find_sibling l fname in
      let sib := NvperfFile_of (ld_stat l) sibling in
      let pin := nvperf_pin_decide sib (loaded_file l) in
      match pin with
      | kPinSibling =>
          let p := default [] sibling in
          if negb (ld_dlopen l p) then (false, lit "pin-failed", None)
          else (true, nvperf_pin_name pin, Some p)
      | kAlreadyMatched => (true, nvperf_pin_name pin, None)
      | kMismatched => (false, nvperf_pin_name pin, None)
      | kNoSibling => (true, nvperf_pin_name pin, None)
      end
  end.

(** *** cupti_dyn.h *)

Definition soNames : list cstr := map lit ["libcupti.so.13"; "libcupti.so.12"; "libcupti.so.11"; "libcupti.so"]%string.
Definition cupti_symbols : list cstr :=
  map lit ["cuptiSubscribe"; "cuptiEnableDomain"; "cuptiFinalize"; "cuptiGetTimestamp"; "cuptiGetResultString";
    "cuptiGetCubinCrc"; "cuptiActivityEnable"; "cuptiActivityFlushAll"; "cuptiActivityGetNextRecord";
    "cuptiActivityGetNumDroppedRecords"; "cuptiActivityRegisterCallbacks"; "cuptiPCSamplingEnable";
    "cuptiPCSamplingDisable"; "cuptiPCSamplingStart"; "cuptiPCSamplingStop"; "cuptiPCSamplingGetData";
    "cuptiPCSamplingGetNumStallReasons"; "cuptiPCSamplingGetStallReasons"; "cuptiPCSamplingSetConfigurationAttribute";
    "cuptiPCSamplingGetConfigurationAttribute"]%string.

(** The function-local statics. *)
Record dyn_state := DynState { dyn_handle : option Z; dyn_resolved : bool }.

Section Load.
  Context (dlopen : cstr -> option Z) (dlsym : Z -> cstr -> bool).

Fixpoint first_open (names : list cstr) : option Z :=
  match names with
  | [] => None
  | n :: names' => match dlopen n with Some h => Some h | None => first_open names' end
  end.

Definition load (s : dyn_state) : bool * dyn_state :=
  if dyn_resolved s then (true, s)
  else
    let h := match dyn_handle s with Some h => Some h | None => first_open soNames end in
    match h with
    | None => (false, DynState None false)
    | Some h => let ok := forallb (dlsym h) cupti_symbols in (ok, DynState (Some h) ok)
    end.
End Load.

(** ** InitializeInjection *)

Inductive cb_domain := RUNTIME_API | RESOURCE | DRIVER_API | STATE.
Inductive activity_kind := CONCURRENT_KERNEL | DEVICE.

(** What initialization asks of the world, in order. *)
Inductive init_act :=
| ActEnroll (timeout_ms : Z)
| ActPin (path : cstr)
| ActSubscribe
| ActDomain (d : cb_domain)
| ActRegisterBuffers
| ActActivity (k : activity_kind)
| ActResample
| ActAtExit
| ActTimer (ms : Z).

Record init_env := InitEnv {
  ie_getenv : cstr -> option cstr;
  ie_loaded : bool;               (* dyn::load() *)
  ie_loader : loader;
  ie_enroll : Z -> EnrollResult;  (* enroll_with_consumer of the timeout *)
  ie_subscribe : bool;
}.

(** What the adapter is configured to. *)
Record adapter := Adapter {
  ad_tier : PCSamplingTier;
  ad_tier_refused : Z;
  ad_nvperf : cstr;
  ad_enrolled : bool;
  ad_sampler : sampler;
  ad_cubin_timeout : Z;
  ad_pc : pc_settings;
  ad_period : Z;
  ad_pc_drain_ns : Z;
  ad_burst : option BurstConfig;
  ad_tick_ns : Z;
  ad_plan : TickPlan;
}.

Definition kPCDefaultCollectNumPcs : Z := 64.
Definition kPCDefaultWorkerSleepMs : Z := 10.

Section Init.
  Context (e : init_env).
Definition ev (name : String.string) : option cstr := ie_getenv e (lit name).

(** The setting, then the pin. *)
Definition select_tier : PCSamplingTier * Z * cstr * list init_act :=
  let '(verdict, tier, _) := pc_tier_parse (ev "PERFAGENT_GPU_PC_SAMPLING") 96 in
  let refused := match verdict with kOK => 0 | _ => 1 end in
  if decide (tier = kOff) then (tier, refused, lit "unchecked", [])
  else
    let '(may, why, opened) := pin_nvperf_host (ie_loader e) in
    let acts := match opened with Some p => [ActPin p] | None => [] end in
    if may then (tier, refused, why, acts) else (kOff, refused + 1, why, acts).

Definition pc_period_of : Z :=
  let want := env_uint (ev "PERFAGENT_GPU_PC_PERIOD") 0 in
  if negb (want =? 0) && ((want <? kPCPeriodMin) || (kPCPeriodMax <? want)) then 0 else want.

Definition pc_settings_of (tier : PCSamplingTier) : pc_settings :=
  if decide (tier = kOff)
  then PcSettings false false (Z.to_nat kPCDefaultCollectNumPcs) 0 0 kPCDefaultWorkerSleepMs
  else PcSettings true (bool_decide (tier = kSerialized))
         (Z.to_nat (env_uint (ev "PERFAGENT_GPU_PC_MAX_PCS") kPCDefaultCollectNumPcs))
         (u64 (Z.shiftl (env_uint (ev "PERFAGENT_GPU_PC_SCRATCH_MB") 0) 20))
         (u64 (Z.shiftl (env_uint (ev "PERFAGENT_GPU_PC_HW_BUFFER_MB") 0) 20))
         (env_uint (ev "PERFAGENT_GPU_PC_WORKER_SLEEP_MS") kPCDefaultWorkerSleepMs).

(** [gain] keeps the default of struct BurstConfig. *)
Definition burst_config_of : BurstConfig :=
  MkBurstConfig (u64 (env_uint (ev "PERFAGENT_GPU_PC_BURST_MS") 50 * 1000000))
    (of_u64 (env_uint (ev "PERFAGENT_GPU_PC_TARGET_RATE") 100))
    (ddiv (of_u64 (env_uint (ev "PERFAGENT_GPU_PC_MAX_DUTY_PERMILLE") 50)) (of_u64 1000))
    (u64 (env_uint (ev "PERFAGENT_GPU_PC_MAX_GAP_MS") 10000 * 1000000))
    (of_ratio 1 2).

Definition drain_ms_of : Z := env_uint (ev "PERFAGENT_GPU_DRAIN_MS") 100.

(** All but the timer. *)
Definition configure (tier : PCSamplingTier) (refused : Z) (nvperf : cstr) (enrolled : EnrollResult) : adapter :=
  let pc := pc_settings_of tier in
  let drain_ns := u64 (drain_ms_of * 1000000) in
  let tick_ns := tick_period_ns drain_ns 0 false in
  Adapter tier refused nvperf
    (match enrolled with kEnrollConfirmed => true | _ => false end)
    (Sampler_init (env_uint (ev "PERFAGENT_GPU_SAMPLE_PERIOD") 8) (env_u64 (ev "PERFAGENT_GPU_SAMPLE_SEED") kDefaultSeed))
    (cubin_timeout_ms (ev "PERFAGENT_GPU_CUBIN_TIMEOUT_MS") 2000)
    pc (if g_pc_enabled pc then pc_period_of else 0)
    (if g_pc_enabled pc then u64 (env_uint (ev "PERFAGENT_GPU_PC_DRAIN_MS") drain_ms_of * 1000000) else 0)
    (if g_pc_tier_a pc then Some burst_config_of else None)
    tick_ns (TickPlan_init (drain_limit_ns drain_ns tick_ns)).

(** [done] is the function's flag; the result is what it returns, the adapter if
    it got as far as its timer, and what was asked of the world. *)
Definition InitializeInjection (done : bool) : bool * Z * option adapter * list init_act :=
  if done then (true, 1, None, [])
  else if negb (ie_loaded e) then (true, 1, None, [])
  else
    let timeout := enroll_timeout_ms (ev "PERFAGENT_GPU_ENROLL_TIMEOUT_MS") 2000 in
    let enrolled := ie_enroll e timeout in
    let '(tier, refused, nvperf, pinned) := select_tier in
    let ad := configure tier refused nvperf enrolled in
    let early := ActEnroll timeout :: pinned ++ [ActSubscribe] in
    if negb (ie_subscribe e) then (true, 0, None, early)
    else
      let domains := [ActDomain RUNTIME_API; ActDomain RESOURCE; ActDomain DRIVER_API]
                     ++ (if g_pc_enabled (ad_pc ad) then [ActDomain STATE] else []) in
      let activity := [ActRegisterBuffers; ActActivity CONCURRENT_KERNEL]
                      ++ (if g_pc_enabled (ad_pc ad) then [ActActivity DEVICE] else []) in
      (true, 1, Some ad,
       early ++ domains ++ activity ++ [ActResample; ActAtExit; ActTimer (u32 (ad_tick_ns ad / 1000000))]).
End Init.

(** ** The libnvperf_host CUPTI will call *)

(** The file a later dlopen by name returns, where it is already decided. *)
Definition nvperf_after (l : loader) : NvperfFile :=
  match (pin_nvperf_host l).2 with
  | Some p => NvperfFile_of (ld_stat l) (Some p)
  | None => loaded_file l
  end.

Lemma sibling_present l lib p : sibling_of l lib = Some p -> present (NvperfFile_of (ld_stat l) (Some p)) = true.
Proof. unfold sibling_of. by repeat case_match; intros [= <-]. Qed.

Lemma find_sibling_present l fname p : find_sibling l fname = Some p -> present (NvperfFile_of (ld_stat l) (Some p)) = true.
Proof.
  unfold find_sibling. destruct (sibling_of l fname) as [q|] eqn:E; [intros [= <-]; by eapply sibling_present|].
  destruct (ld_realpath l fname); [|done]. apply sibling_present.
Qed.

Lemma same_refl f : present f = true -> same f f = true.
Proof. intros H. unfold same. by rewrite H, !Z.eqb_refl. Qed.

(** CUPTI never calls into a foreign libnvperf_host when its own is there.
    Whatever the loader has mapped and the file system holds: if libcupti has a
    sibling, in the directory it was opened from or the one it resolves to, then
    PC sampling is allowed only if the object mapped under the soname from then on
    is that very file; and it is refused exactly when another object, or one that
    cannot be identified, is mapped already, or the sibling cannot be loaded. *)
Theorem nvperf_pin_sound l fname sib :
  ld_cupti l = Some fname -> find_sibling l fname = Some sib ->
  let own := NvperfFile_of (ld_stat l) (Some sib) in
  let may := (pin_nvperf_host l).1.1 in
  (may = true -> present (nvperf_after l) = true /\ same own (nvperf_after l) = true) /\
  (may = false <-> (ld_mapped l <> None /\ same own (loaded_file l) = false) \/ (ld_mapped l = None /\ ld_dlopen l sib = false)).
Proof.
  intros Hc Hs own may. pose proof (find_sibling_present l fname sib Hs) as Hp. fold own in Hp.
  unfold may, nvperf_after, pin_nvperf_host. rewrite Hc, Hs. fold own. change (default [] (Some sib)) with sib. unfold nvperf_pin_decide. rewrite Hp. cbn [negb].
  assert (El : present (loaded_file l) = true <-> ld_mapped l <> None).
  { unfold loaded_file. destruct (ld_mapped l); simpl; by split. }
  destruct (present (loaded_file l)) eqn:Ep; cbn [negb].
  - assert (Hm : ld_mapped l <> None) by (by apply El). destruct (same own (loaded_file l)) eqn:Es; simpl.
    + split; [done|]. split; [done|]. intros [[_ ?]|[? _]]; congruence.
    + split; [done|]. split; [by left|done].
  - assert (Hm : ld_mapped l = None). { destruct (ld_mapped l); [|done]. exfalso. by assert (false = true) by (by apply El). }
    destruct (ld_dlopen l sib) eqn:Ed; simpl.
    + split; [|split; [done|]]; [intros _; split; [done|by apply same_refl]|]. intros [[? _]|[_ ?]]; congruence.
    + split; [done|]. split; [by right|done].
Qed.

(** A wheel's libcupti, with its own library beside it; the toolkit's copy is
    mapped already or not. *)
Definition wheel_loader (mapped : option (option cstr)) : loader :=
  Loader (Some (lit "/wheel/lib/libcupti.so.13")) (fun _ => None)
    (fun p => if decide (p = lit "/wheel/lib/libnvperf_host.so") then Some (1, 10)
              else if decide (p = lit "/usr/local/cuda/libnvperf_host.so") then Some (1, 20) else None)
    mapped (fun _ => true).

Lemma nvperf_pin_sound_witness :
  let sib := lit "/wheel/lib/libnvperf_host.so" in
  let foreign := wheel_loader (Some (Some (lit "/usr/local/cuda/libnvperf_host.so"))) in
  (pin_nvperf_host (wheel_loader None)).1.1 = true /\ same (NvperfFile_of (ld_stat foreign) (Some sib)) (nvperf_after (wheel_loader None)) = true /\
  (pin_nvperf_host foreign).1.1 = false.
Proof.
  intros sib foreign. split; [vm_compute; reflexivity|]. split.
  - refine (proj2 (proj1 (nvperf_pin_sound (wheel_loader None) _ sib eq_refl ltac:(vm_compute; reflexivity)) _)). vm_compute. reflexivity.
  - refine (proj2 (proj2 (nvperf_pin_sound foreign _ sib eq_refl ltac:(vm_compute; reflexivity))) _). left. split; [discriminate|vm_compute; reflexivity].
Defined.

(** ** Off means off *)

Section Off.
  Context (cfg : BurstConfig) (g : pc_settings) (cu : cupti_pc).
  Context (getdata : nat -> getdata_result) (sem wsem : nat -> bool) (start_ok stop_ok : nat -> bool) (timer : Z).
  Context (HE : g_pc_enabled g = false) (HA : g_pc_tier_a g = false).

(** Nothing was asked of CUPTI's PC sampling and nothing is known of it. *)
Record untouched (pc : pc_state) (s : session) : Prop := {
  ut_log : cupti_log s = [];
  ut_ctxs : g_pc_ctxs (tier s) = [];
  ut_on : cupti_on (tier s) = [];
  ut_starts : pc_start_calls (tier s) = 0%nat /\ pc_stop_calls (tier s) = 0%nat;
  ut_windows : windows (tier s) = [];
  ut_replay : stalls_ (g_replay s) = [] /\ have_config_ (g_replay s) = false /\ module_fn_ (g_replay s) = None;
  ut_sent : stalls_sent (pc_out s) = [] /\ configs_sent (pc_out s) = [];
  ut_pc : pc_calls (g_pc (tier s)) = pc_calls pc /\ pc_fires (g_pc (tier s)) = pc_fires pc;
}.

Lemma off_step pc s o : untouched pc s -> untouched pc (session_step cfg g cu getdata sem wsem start_ok stop_ok timer s o).
Proof using HE HA.
  intros H. destruct o as [cbid rd now|sees sy tid now|sees tid now|att sm clk now| |gf now|sees gf tid now]; cbn [session_step];
    unfold on_resource, burst_open_at_launch, burst_close_at_launch, burst_shutdown, on_finalize; rewrite ?HE, ?HA; cbn [negb].
  - done.
  - destruct H. by split.
  - destruct H. by split.
  - unfold session_tick, replay_if_newly_attached, pc_tick. rewrite HE. cbn [negb]. destruct H as [A B C D E (F1 & F2 & F3) G I].
    split; try done. cbn [set_replay pc_out]. rewrite F1, F2, F3. cbn [call_each]. destruct (att && _); [|done]. by destruct (stall_fn_ _).
  - destruct H. by split.
  - destruct (finalize_done s); [done|]. destruct H. by split.
  - cbn [set_tier finalize_done]. destruct (finalize_done s); destruct H; by split.
Qed.

Lemma off_run pc os s : untouched pc s -> untouched pc (session_run cfg g cu getdata sem wsem start_ok stop_ok timer s os).
Proof using HE HA. revert s. induction os as [|o os IH]; intros s H; [done|]. by apply IH, off_step. Qed.
End Off.

(** The setting asks for a tier, alone, and its library may be used. *)
Definition tier_wanted (e : init_env) (t : PCSamplingTier) : Prop :=
  (pc_tier_parse (ev e "PERFAGENT_GPU_PC_SAMPLING") 96).1 = (kOK, t) /\ t <> kOff /\ (pin_nvperf_host (ie_loader e)).1.1 = true.

Lemma parse_falls_closed v n : (pc_tier_parse v n).1.1 <> kOK -> (pc_tier_parse v n).1.2 = kOff.
Proof.
  assert (L : forall fuel value p first, let r := pc_tier_loop fuel n value p first in r.1.1 <> kOK -> r.1.2 = kOff).
  { induction fuel as [|fuel IH]; intros value p first; [done|]. cbn [pc_tier_loop]. repeat (case_match; simplify_eq/=; try done); apply IH. }
  unfold pc_tier_parse. destruct v as [v|]; [apply L|done].
Qed.

Lemma select_tier_spec e :
  let r := select_tier e in
  (forall t, t <> kOff -> (r.1.1.1 = t <-> tier_wanted e t)) /\
  ((r.1.1.2 = 0) <-> ((pc_tier_parse (ev e "PERFAGENT_GPU_PC_SAMPLING") 96).1 = (kOK, r.1.1.1))) /\ 0 <= r.1.1.2 <= 1.
Proof.
  unfold select_tier, tier_wanted. pose proof (parse_falls_closed (ev e "PERFAGENT_GPU_PC_SAMPLING") 96) as Hc.
  destruct (pc_tier_parse _ 96) as [[verdict tier] bad]. cbn [fst snd] in *.
  destruct (decide (tier = kOff)) as [->|Ht].
  { simpl. split_and!; [intros t Hn; split; [congruence|by intros ([= _ <-] & _)]|destruct verdict; split; congruence|destruct verdict; lia|destruct verdict; lia]. }
  assert (Hv : verdict = kOK) by (destruct verdict; [done|by destruct Ht; apply Hc..]). subst verdict.
  destruct (pin_nvperf_host (ie_loader e)) as [[may why] opened]. cbn [fst snd]. destruct may; simpl.
  - split_and!; [intros t Hn; split; [by intros ->|by intros ([= ->] & _)]|done|lia|lia].
  - split_and!; [intros t Hn; split; [congruence|by intros (_ & _ & ?)]| |lia|lia]. split; [lia|]. intros [= ->]. done.
Qed.

(** C22: Off means off.  Whatever the environment, the loader and CUPTI: a tier is
    selected only if the setting names it, and no other, and the library it needs
    may be used; otherwise PC sampling is off, and a setting or a library that was
    refused is counted.  When it is off, initialization subscribes to no
    fatal-error callback and no device record and builds no burst controller; and
    then, through any history of contexts, modules, launches, ticks, errors and
    exit, not one PC-sampling call is made of CUPTI and no PC sample, stall map,
    configuration or window is sent. *)
Theorem pc_off_means_off e ad acts :
  InitializeInjection e false = (true, 1, Some ad, acts) ->
  (forall t, t <> kOff -> (ad_tier ad = t <-> tier_wanted e t)) /\
  ((ad_tier_refused ad = 0) <-> ((pc_tier_parse (ev e "PERFAGENT_GPU_PC_SAMPLING") 96).1 = (kOK, ad_tier ad))) /\
  (ad_tier ad = kOff ->
     (ActDomain STATE ∉ acts) /\ (ActActivity DEVICE ∉ acts) /\ ad_burst ad = None /\
     forall cfg cu getdata sem wsem start_ok stop_ok timer pc os,
       untouched pc (session_run cfg (ad_pc ad) cu getdata sem wsem start_ok stop_ok timer
         (session_init cfg (ad_pc ad) wsem (ad_period ad) (ad_pc_drain_ns ad) pc) os)).
Proof.
  unfold InitializeInjection. destruct (ie_loaded e); [|done]. cbn [negb]. pose proof (select_tier_spec e) as (S1 & S2 & _).
  assert (Hp : forall x, x ∈ (select_tier e).2 -> exists p, x = ActPin p).
  { unfold select_tier. intros x. repeat case_match; simplify_eq/=; intros Hx; set_unfold in Hx; naive_solver. }
  destruct (select_tier e) as [[[tier refused] why] pinned]. cbn [fst snd] in *. destruct (ie_subscribe e); [|done]. cbn [negb].
  intros [= <- <-]. split_and!; [exact S1|exact S2|]. intros Ht. change (ad_tier _) with tier in Ht. subst tier.
  cbn [ad_pc ad_burst configure pc_settings_of]. unfold pc_settings_of. rewrite decide_True by done. cbn [g_pc_enabled g_pc_tier_a].
  split_and!; [| |done|].
  - intros Hin. set_unfold in Hin. naive_solver.
  - intros Hin. set_unfold in Hin. naive_solver.
  - intros. apply off_run; [done|done|]. by split.
Qed.

(** A setting that names both tiers. *)
Definition both_env : init_env :=
  InitEnv (fun n => if decide (n = lit "PERFAGENT_GPU_PC_SAMPLING") then Some (lit "continuous,serialized") else None)
    true (wheel_loader None) (fun _ => kEnrollConfirmed) true.

Lemma pc_off_means_off_witness :
  exists ad acts, InitializeInjection both_env false = (true, 1, Some ad, acts) /\ ad_tier ad = kOff /\ ad_tier_refused ad = 1 /\
    ad_burst ad = None /\ ~ tier_wanted both_env kSerialized.
Proof.
  destruct (InitializeInjection both_env false) as [[[d r] oad] acts] eqn:E.
  assert (E' : (d, r, oad, acts) = InitializeInjection both_env false) by (symmetry; exact E). vm_compute in E'. injection E' as -> -> -> ->.
  eexists _, _. split; [reflexivity|]. pose proof (pc_off_means_off both_env _ _ E) as (H1 & _ & H3).
  split; [reflexivity|]. split; [reflexivity|]. split; [exact (proj1 (proj2 (proj2 (H3 eq_refl))))|].
  intros Hw. apply H1 in Hw; discriminate.
Defined.

(** ** The numbers *)

Lemma scan_sign_digits base ds r :
  base <= 10 -> digits_ok base ds -> ds <> [] -> scan_sign ((digit_char <$> ds) ++ r) = (false, (digit_char <$> ds) ++ r).
Proof.
  intros Hb H Hn. destruct ds as [|d ds]; [done|]. apply Forall_cons_1 in H as [Hd _]. rewrite fmap_cons. cbn [app scan_sign].
  destruct (digit_char_plain d ltac:(lia)) as (_ & Hm & Hp & _). by rewrite (proj2 (Ascii.eqb_neq _ _) Hm), (proj2 (Ascii.eqb_neq _ _) Hp).
Qed.

Lemma strtol10_dec n r : 0 <= n < 2 ^ 63 -> stops r -> strtol10 (put_dec n ++ r) = n.
Proof.
  intros Hn Hr. unfold strtol10. rewrite skip_space_start by (apply put_dec_start; lia).
  destruct (put_dec_digits n) as (ds & -> & Hne & H). destruct (H ltac:(lia)) as [Hds Hv].
  rewrite (scan_sign_digits 10), span_digits_app by done. cbn [fst]. rewrite Hv. lia.
Qed.

Lemma from_digits_nonneg base ds : 0 <= base -> Forall (fun d => 0 <= d) ds -> 0 <= from_digits base ds.
Proof.
  intros Hb H. unfold from_digits. assert (G : forall a, 0 <= a -> 0 <= foldl (fun a d => a * base + d) a ds); [|by apply G].
  induction H as [|d ds Hd _ IH]; intros a Ha; [done|]. cbn [foldl]. apply IH. nia.
Qed.

(** The numeric settings are read as written.  A positive decimal number below
    2^32 is what the variable's text says, whatever follows it after a blank; an
    unset or empty variable, a text that does not begin with a number, and a
    number that is not positive leave the default; and the result is always an
    unsigned 32-bit number. *)
Theorem env_uint_reads n r v dflt :
  0 < n < 2 ^ 32 -> stops r -> is_u32 dflt ->
  env_uint (Some (put_dec n ++ r)) dflt = n /\ env_uint None dflt = dflt /\ env_uint (Some []) dflt = dflt /\
  is_u32 (env_uint (Some v) dflt) /\ (strtol10 v <= 0 -> env_uint (Some v) dflt = dflt).
Proof.
  intros Hn Hr Hd. split_and!; [|done|done| |].
  - unfold env_uint. rewrite strtol10_dec by (done || lia).
    destruct (put_dec_digits n) as (ds & -> & Hne & _). destruct ds as [|d ds]; [done|]. rewrite fmap_cons. cbn [app].
    destruct (Z.leb_spec n 0); [lia|]. apply u32_small. unfold is_u32. lia.
  - unfold env_uint. destruct v; [done|]. case_match; [done|]. unfold is_u32, u32. apply Z.mod_pos_bound. lia.
  - intros Hv. unfold env_uint. destruct v; [done|]. by rewrite (proj2 (Z.leb_le _ _)).
Qed.

Lemma env_uint_reads_witness :
  env_uint (Some (put_dec 250 ++ lit " ms")) 100 = 250 /\ put_dec 250 = lit "250" /\ env_uint (Some (lit "-3")) 100 = 100.
Proof.
  split; [|split; [vm_compute; reflexivity|]].
  - refine (proj1 (env_uint_reads 250 (lit " ms") [] 100 _ _ _)); [lia|left; reflexivity|unfold is_u32; lia].
  - refine (proj2 (proj2 (proj2 (proj2 (env_uint_reads 250 [] (lit "-3") 100 _ I _)))) _); [lia|unfold is_u32; lia|vm_compute; discriminate].
Defined.

(** Two settings the text promises cannot be made.  A worker sleep of zero,
    CUPTI's own default by the comment, is read as the adapter's default of ten;
    and a number that is a multiple of 2^32 passes the test for positive numbers
    and is then cut to zero: a PC buffer of no entries. *)
Theorem env_zero_settings :
  env_uint (Some (lit "0")) kPCDefaultWorkerSleepMs = 10 /\
  env_uint (Some (lit "4294967296")) kPCDefaultCollectNumPcs = 0 /\ kPCDefaultCollectNumPcs = 64.
Proof. vm_compute. done. Qed.

(** ** What runs when nothing is set *)

Definition default_env (tier : cstr) : init_env :=
  InitEnv (fun n => if decide (n = lit "PERFAGENT_GPU_PC_SAMPLING") then Some tier else None) true (wheel_loader None)
    (fun _ => kEnrollConfirmed) true.

(** With only the tier set, the adapter runs the configuration the other
    theorems are about: in the serialized tier the bursts are those of the shipped
    configuration (the duty ceiling of a twentieth, a double computed from
    per-mille), the timer ticks every 100 ms with no limit on top, PC data are
    pulled on the same period, one launch in eight is sampled from the default
    seed, and the buffers take 64 PCs. *)
Theorem default_configuration :
  let '(_, r, oad, acts) := InitializeInjection (default_env (lit "serialized")) false in
  r = 1 /\
  match oad with
  | Some ad =>
      ad_burst ad = Some default_burst /\ ad_tier ad = kSerialized /\ ad_tier_refused ad = 0 /\
      ad_tick_ns ad = 100000000 /\ tp_period_ns (ad_plan ad) = 0 /\ ad_pc_drain_ns ad = 100000000 /\
      ad_sampler ad = Sampler_init 8 kDefaultSeed /\ ad_pc ad = PcSettings true true 64 0 0 10 /\ ad_enrolled ad = true
  | None => False
  end /\
  acts = [ActEnroll 2000; ActPin (lit "/wheel/lib/libnvperf_host.so"); ActSubscribe; ActDomain RUNTIME_API; ActDomain RESOURCE;
          ActDomain DRIVER_API; ActDomain STATE; ActRegisterBuffers; ActActivity CONCURRENT_KERNEL; ActActivity DEVICE; ActResample;
          ActAtExit; ActTimer 100].
Proof. vm_compute. split_and!; reflexivity. Qed.

(** ** Loading CUPTI *)

Lemma first_open_spec dlopen names h :
  first_open dlopen names = Some h <->
  exists l n r, names = (l ++ n :: r)%list /\ Forall (fun x => dlopen x = None) l /\ dlopen n = Some h.
Proof.
  induction names as [|n names IH]; simpl; [split; [done|by intros ([] & ? & ? & ? & _)]|]. destruct (dlopen n) as [h'|] eqn:E.
  - split; [intros [= <-]; by exists [], n, names|]. intros (l & m & r & Eq & Hl & Hm). destruct l as [|x l]; simplify_eq/=; [congruence|].
    apply Forall_cons_1 in Hl as [? _]. congruence.
  - rewrite IH. split; intros (l & m & r & Eq & Hl & Hm).
    + exists (n :: l), m, r. split_and!; [by rewrite Eq|by constructor|done].
    + destruct l as [|x l]; simplify_eq/=. apply Forall_cons_1 in Hl as [_ Hl]. by exists l, m, r.
Qed.

(** CUPTI is bound whole or not at all.  With a loader that keeps its answers,
    however often [load] is called: it succeeds exactly if the first of the four
    library names that can be opened has every one of the twenty functions, and
    then each later call succeeds without looking again; otherwise the process
    runs unprofiled. *)
Theorem cupti_loaded_whole dlopen dlsym n :
  let r := Nat.iter n (fun r => load dlopen dlsym r.2) (load dlopen dlsym (DynState None false)) in
  ((r.1 = true) <-> exists l x rest h, soNames = (l ++ x :: rest)%list /\ Forall (fun y => dlopen y = None) l /\ dlopen x = Some h /\
    Forall (fun f => dlsym h f = true) cupti_symbols) /\
  r = load dlopen dlsym (DynState None false).
Proof.
  intros r. assert (Hr : r = load dlopen dlsym (DynState None false)).
  { subst r. induction n as [|n IH]; [done|]. rewrite Nat.iter_succ, IH. unfold load. cbn [dyn_resolved dyn_handle].
    destruct (first_open dlopen soNames) as [h|] eqn:E; cbn [snd dyn_resolved dyn_handle]; [|done].
    destruct (forallb (dlsym h) cupti_symbols) eqn:Eb; [done|]. done. }
  split; [|exact Hr]. rewrite Hr. unfold load. cbn [dyn_resolved dyn_handle].
  destruct (first_open dlopen soNames) as [h|] eqn:E; cbn [fst].
  - rewrite forallb_forall, <- List.Forall_forall. apply first_open_spec in E as (l & x & rest & E1 & E2 & E3). split.
    + intros H. by exists l, x, rest, h.
    + intros (l' & x' & rest' & h' & F1 & F2 & F3 & F4). assert (Some h' = Some h) as [= ->]; [|done].
      assert (G : forall h0, (exists l x rest, soNames = (l ++ x :: rest)%list /\ Forall (fun y => dlopen y = None) l /\ dlopen x = Some h0) ->
        first_open dlopen soNames = Some h0) by (intros h0; apply first_open_spec).
      rewrite <- (G h), <- (G h'); eauto 10.
  - split; [done|]. intros (l & x & rest & h & F1 & F2 & F3 & _).
    assert (first_open dlopen soNames = Some h) by (apply first_open_spec; eauto 10). congruence.
Qed.
