(* ===== verification/GuardedCalls.v ===== *)
(** * GuardedCalls: who may wait for whom inside the vendor library

    Models src/shim/nvidia/cupti_guard.h, and of cupti_adapter.cc which calls each
    entry point makes and under which scopes.  The wrappers take the guard of
    CallGuard; the activity flush and the two calls of the buffer-completed
    callback do not, and count their own misuse.

    The header documents what the vendor does: the driver fires callbacks with a
    lock of its own held, and a flush waits for CUPTI's pool threads, which take
    that lock.  So there are two locks, the guard and the driver's, and the
    threads of the process interleave between the operations on either. *)
From S2P Require Import Prelude CallGuard.

(** The entry points behind a [CallScope]. *)
Inductive wrapper :=
| GetTimestamp | GetResultString | GetCubinCrc | Subscribe | EnableDomain | ActivityRegisterCallbacks
| ActivityEnable | PCSamplingEnable | PCSamplingDisable | PCSamplingStart | PCSamplingStop
| PCSamplingGetData | PCSamplingSetConfigurationAttribute | PCSamplingGetConfigurationAttribute
| PCSamplingGetNumStallReasons | PCSamplingGetStallReasons.

(** What a thread does of interest to another. *)
Inductive op :=
| Hold | Release               (* CallScope, its constructor and its destructor *)
| Vendor (f : wrapper)         (* dyn::table().f, inside a wrapper *)
| FlushAll                     (* ActivityFlushAll_NeverUnderGuard *)
| BufferBegin | BufferEnd      (* BufferCompletedScope *)
| NextRecord | NumDropped      (* the two ..._InBufferCompletedOnly *)
| DriverLock | DriverUnlock.   (* the application enters and leaves the driver *)

(** A thread's future; [TryElse] is a [TryCallScope] with what follows when it
    owns and when it does not. *)
Inductive prog := Done | Then (o : op) (k : prog) | TryElse (owned refused : prog).
#[global] Instance wrapper_eq_dec : EqDecision wrapper.
Proof. solve_decision. Defined.
#[global] Instance op_eq_dec : EqDecision op.
Proof. solve_decision. Defined.
#[global] Instance prog_eq_dec : EqDecision prog.
Proof. solve_decision. Defined.

Record sys := Sys {
  sg : guard;
  driver : option nat;
  in_buffer_completed : gset nat;
  flush_under_guard : Z;
  misplaced_callback_calls : Z;
  todo : list prog;
}.
Definition sys_init (ps : list prog) : sys := Sys guard_init None ∅ 0 0 ps.

(** Thread [t]'s operation is over, or its call of the guard goes on. *)
Definition settled (t : nat) (p : prog) (g : guard) (s : sys) : sys :=
  let p' := match pcs g !! t with
            | Some _ => p
            | None =>
                match p with
                | Done => Done
                | Then _ k => k
                | TryElse a b => if (open_scopes (sg s) t <? open_scopes g t)%nat then a else b
                end
            end in
  Sys g (driver s) (in_buffer_completed s) (flush_under_guard s) (misplaced_callback_calls s) (<[t := p']> (todo s)).

Definition misplaced (t : nat) (s : sys) : Z :=
  if bool_decide (t ∈ in_buffer_completed s) then misplaced_callback_calls s else u64 (misplaced_callback_calls s + 1).

(** The next operation of thread [t], [None] while it waits or when it is done.  A
    flush returns once the pool threads can have had the driver's lock. *)
Definition tnext (s : sys) (t : nat) : option sys :=
  match todo s !! t, pcs (sg s) !! t with
  | None, _ => None
  | Some p, Some _ => g ← gnext (sg s) (Go t); Some (settled t p g s)
  | Some p, None =>
      let to drv bc fl mis k := Some (Sys (sg s) drv bc fl mis (<[t := k]> (todo s))) in
      let drv := driver s in let bc := in_buffer_completed s in
      let fl := flush_under_guard s in let mis := misplaced_callback_calls s in
      match p with
      | Done => None
      | Then Hold _ => g ← gnext (sg s) (Enter t); Some (settled t p g s)
      | Then Release _ => g ← gnext (sg s) (Leave t); Some (settled t p g s)
      | TryElse _ _ => g ← gnext (sg s) (Try t); Some (settled t p g s)
      | Then (Vendor _) k => to drv bc fl mis k
      | Then FlushAll k =>
          match drv with
          | Some _ => None
          | None => to drv bc (if held_by_this_thread (sg s) t then u64 (fl + 1) else fl) mis k
          end
      | Then BufferBegin k => to drv ({[t]} ∪ bc) fl mis k
      | Then BufferEnd k => to drv (bc ∖ {[t]}) fl mis k
      | Then NextRecord k | Then NumDropped k => to drv bc fl (misplaced t s) k
      | Then DriverLock k => match drv with Some _ => None | None => to (Some t) bc fl mis k end
      | Then DriverUnlock k => if bool_decide (drv = Some t) then to None bc fl mis k else None
      end
  end.

Fixpoint srun (s : sys) (sched : list nat) : option sys :=
  match sched with [] => Some s | t :: l => s' ← tnext s t; srun s' l end.

(** ** The adapter's calls

    Each function before its continuation [k]. *)

(** A wrapper; [fatal] when CUPTI raises its fatal-error callback inside the call,
    on the calling thread: [on_finalize] then runs there, and [teardown] are the
    calls it makes when it owns the guard. *)
Definition guarded_plain (f : wrapper) (k : prog) : prog := Then Hold (Then (Vendor f) (Then Release k)).
Definition guarded_all (fs : list wrapper) (k : prog) : prog := foldr guarded_plain k fs.
Definition finalize_calls (teardown : list wrapper) (k : prog) : prog :=
  TryElse (guarded_all teardown (Then Release k)) k.
Definition guarded (x : wrapper * option (list wrapper)) (k : prog) : prog :=
  Then Hold (Then (Vendor x.1)
    (match x.2 with Some teardown => finalize_calls teardown (Then Release k) | None => Then Release k end)).
Definition guarded_calls (xs : list (wrapper * option (list wrapper))) (k : prog) : prog := foldr guarded k xs.

(** A [CallScope] over a sequence of calls. *)
Definition scope_calls (xs : list (wrapper * option (list wrapper))) (k : prog) : prog :=
  Then Hold (guarded_calls xs (Then Release k)).

(** [burst_close]: the stops and, in a scope of its own inside theirs, the drain. *)
Definition burst_close_calls (x : list (wrapper * option (list wrapper)) * list (wrapper * option (list wrapper))) (k : prog) : prog :=
  Then Hold (guarded_calls x.1 (scope_calls x.2 (Then Release k))).
Definition burst_close_opt (x : option (list (wrapper * option (list wrapper)) * list (wrapper * option (list wrapper)))) (k : prog) : prog :=
  match x with Some x => burst_close_calls x k | None => k end.

(** [buffer_completed], with [n] records. *)
Definition buffer_completed_calls (n : nat) (k : prog) : prog :=
  Then BufferBegin (Nat.iter (S n) (Then NextRecord) (Then NumDropped (Then BufferEnd k))).
Definition deliveries (ns : list nat) (k : prog) : prog := foldr buffer_completed_calls k ns.

(** [on_tick]: the clock, the flush (and the buffers it hands back on this
    thread), one CRC for each module waiting, and the periodic PC drain, when
    due, over calls [xs]. *)
Definition on_tick_calls (ns : list nat) (crcs : nat) (drain : option (list (wrapper * option (list wrapper)))) (k : prog) : prog :=
  guarded (GetTimestamp, None) (Then FlushAll (deliveries ns
    (guarded_calls (replicate crcs (GetCubinCrc, None))
       (match drain with Some xs => scope_calls xs k | None => k end)))).

(** The at-exit handler, after the timer was joined: the last burst, the
    finalization (unless PC sampling is off or it has run), the flush, the last
    CRCs. *)
Definition at_exit_calls (close : option (list (wrapper * option (list wrapper)) * list (wrapper * option (list wrapper)))) (teardown : option (list wrapper))
    (ns : list nat) (crcs : nat) (k : prog) : prog :=
  let rest := Then FlushAll (deliveries ns (guarded_calls (replicate crcs (GetCubinCrc, None)) k)) in
  burst_close_opt close (match teardown with Some fs => finalize_calls fs rest | None => rest end).

(** What the threads of the process come to do.  A resource callback arrives with
    the driver's lock held; the copy of a loaded module makes no call; a launch
    callback synchronizes the context, without the guard, before it starts a
    burst. *)
Inductive activity :=
| ATick (ns : list nat) (crcs : nat) (drain : option (list (wrapper * option (list wrapper))))
| AResource (xs : option (list (wrapper * option (list wrapper))))
| ALaunch (starts : option (list (wrapper * option (list wrapper)))) (stops : option (list (wrapper * option (list wrapper)) * list (wrapper * option (list wrapper))))
| APool (n : nat)
| AFatal (teardown : list wrapper)
| AExit (close : option (list (wrapper * option (list wrapper)) * list (wrapper * option (list wrapper)))) (teardown : option (list wrapper)) (ns : list nat) (crcs : nat).

Definition activity_calls (a : activity) (k : prog) : prog :=
  match a with
  | ATick ns crcs drain => on_tick_calls ns crcs drain k
  | AResource (Some xs) => Then DriverLock (scope_calls xs (Then DriverUnlock k))
  | AResource None => Then DriverLock (Then DriverUnlock k)
  | ALaunch starts stops =>
      let launch := Then DriverLock (Then DriverUnlock (burst_close_opt stops k)) in
      match starts with
      | Some xs => Then DriverLock (Then DriverUnlock (scope_calls xs launch))
      | None => launch
      end
  | APool n => Then DriverLock (Then DriverUnlock (buffer_completed_calls n k))
  | AFatal teardown => finalize_calls teardown k
  | AExit close teardown ns crcs => at_exit_calls close teardown ns crcs k
  end.
Definition thread_of (l : list activity) : prog := foldr activity_calls Done l.

(** ** The discipline

    [d] is whether the thread has the driver's lock, [b] whether it is in a
    buffer-completed callback, [n] the scopes it has open.  A vendor call is made
    under the guard; the flush, and the driver's lock, are not taken under it. *)
Fixpoint safe (d b : bool) (n : nat) (p : prog) : bool :=
  match p with
  | Done => negb d && (n =? 0)%nat
  | TryElse x y => if (n =? 0)%nat then safe d b 1 x && safe d b 0 y else safe d b n y
  | Then o k =>
      match o with
      | Hold => safe d b (S n) k
      | Release => negb (n =? 0)%nat && safe d b (pred n) k
      | Vendor _ => negb (n =? 0)%nat && safe d b n k
      | FlushAll => (n =? 0)%nat && negb d && safe d b n k
      | BufferBegin => safe d true n k
      | BufferEnd => safe d false n k
      | NextRecord | NumDropped => b && safe d b n k
      | DriverLock => (n =? 0)%nat && negb d && safe true b n k
      | DriverUnlock => (n =? 0)%nat && d && safe false b n k
      end
  end.

Section SafeCalls.
  Context (d b : bool).

Lemma guarded_all_safe n fs k : safe d b n k = true -> safe d b n (guarded_all fs k) = true.
Proof using Type. intros Hk. induction fs; simpl; done. Qed.

Lemma finalize_safe n fs k : safe d b n k = true -> safe d b n (finalize_calls fs k) = true.
Proof using Type.
  intros Hk. simpl. destruct (Nat.eqb_spec n 0) as [->|]; [|done].
  rewrite guarded_all_safe by done. by rewrite Hk.
Qed.

Lemma guarded_safe n x k : safe d b n k = true -> safe d b n (guarded x k) = true.
Proof using Type. intros Hk. destruct x as [f [fs|]]; [|done]. by apply (finalize_safe (S n) fs (Then Release k)). Qed.

Lemma guarded_calls_safe n xs k : safe d b n k = true -> safe d b n (guarded_calls xs k) = true.
Proof using Type. intros Hk. induction xs; [done|]. by apply guarded_safe. Qed.

Lemma scope_safe n xs k : safe d b n k = true -> safe d b n (scope_calls xs k) = true.
Proof using Type. intros Hk. by apply (guarded_calls_safe (S n)). Qed.

Lemma scope_opt_safe n xs k :
  safe d b n k = true -> safe d b n (match xs with Some xs => scope_calls xs k | None => k end) = true.
Proof using Type. destruct xs; [apply scope_safe|done]. Qed.

Lemma burst_close_safe n x k : safe d b n k = true -> safe d b n (burst_close_opt x k) = true.
Proof using Type.
  intros Hk. destruct x as [[xs ys]|]; [|done]. apply (guarded_calls_safe (S n)), scope_safe. exact Hk.
Qed.
End SafeCalls.

Lemma next_records_safe d n j k : safe d true n k = true -> safe d true n (Nat.iter j (Then NextRecord) k) = true.
Proof. intros Hk. induction j; done. Qed.

Lemma deliveries_safe d n ns k : safe d false n k = true -> safe d false n (deliveries ns k) = true.
Proof. intros Hk. induction ns as [|m ns IH]; [done|]. by apply (next_records_safe d n (S m)). Qed.

Create HintDb safe_calls.
#[export] Hint Resolve guarded_all_safe finalize_safe guarded_safe guarded_calls_safe scope_safe scope_opt_safe burst_close_safe deliveries_safe
  : safe_calls.

(** Each entry point keeps the discipline, whatever follows it. *)
Lemma activity_safe a k : safe false false 0 k = true -> safe false false 0 (activity_calls a k) = true.
Proof.
  intros Hk. destruct a as [ns crcs drain|[xs|]|starts stops|n|fs|close fs ns crcs]; unfold activity_calls.
  - apply guarded_safe. apply (deliveries_safe false 0). auto with safe_calls.
  - by apply (scope_safe true false 0 xs (Then DriverUnlock k)).
  - done.
  - assert (E : safe false false 0 (Then DriverLock (Then DriverUnlock (burst_close_opt stops k))) = true)
      by (simpl; auto with safe_calls).
    destruct starts; [|done]. by apply (scope_safe false false 0).
  - by apply (deliveries_safe false 0 [n]).
  - auto with safe_calls.
  - assert (E : safe false false 0 (Then FlushAll (deliveries ns (guarded_calls (replicate crcs (GetCubinCrc, None)) k))) = true)
      by (apply (deliveries_safe false 0); auto with safe_calls).
    apply burst_close_safe. destruct fs; [by apply finalize_safe|done].
Qed.

Lemma thread_safe l : safe false false 0 (thread_of l) = true.
Proof. induction l; [done|]. by apply activity_safe. Qed.

(** ** Every step keeps it *)

(** Where in the guard a thread may be, by what it is about to do. *)
Definition fits (c : option gpc) (p : prog) : bool :=
  match c, p with
  | None, _ => true
  | Some (EChecked | EWaiting | ELocked), Then Hold _ => true
  | Some LUnlocking, Then Release _ => true
  | Some (TChecked | TLocked), TryElse _ _ => true
  | _, _ => false
  end.
(** The scopes a thread has not finished closing. *)
Definition depth_in (c : option gpc) (n : nat) : nat := match c with Some LUnlocking => 1 | _ => n end.

Definition has_driver (s : sys) (t : nat) : bool := bool_decide (driver s = Some t).
Definition in_buffer (s : sys) (t : nat) : bool := bool_decide (t ∈ in_buffer_completed s).
Definition thread_ok (s : sys) (t : nat) (p : prog) : Prop :=
  fits (pcs (sg s) !! t) p = true /\
  safe (has_driver s t) (in_buffer s t) (depth_in (pcs (sg s) !! t) (open_scopes (sg s) t)) p = true.

(** The steps a thread has left, at most. *)
Fixpoint weight (p : prog) : nat :=
  match p with Done => 0 | Then _ k => 4 + weight k | TryElse x y => 4 + (weight x `max` weight y) end.
Definition spent (c : option gpc) : nat :=
  match c with
  | None => 0 | Some EChecked | Some LUnlocking | Some TChecked => 1
  | Some EWaiting | Some TLocked => 2 | Some ELocked => 3
  end.
Fixpoint work (g : guard) (t : nat) (ps : list prog) : nat :=
  match ps with [] => 0 | p :: ps' => (weight p - spent (pcs g !! t)) + work g (S t) ps' end.

Record sys_ok (k : Z) (s : sys) : Prop := {
  so_guard : ginv k (sg s);
  so_thread : forall t p, todo s !! t = Some p -> thread_ok s t p;
  so_absent : forall t, todo s !! t = None ->
    pcs (sg s) !! t = None /\ open_scopes (sg s) t = 0%nat /\ driver s <> Some t;
  so_flush : flush_under_guard s = 0;
  so_misplaced : misplaced_callback_calls s = 0;
}.

Definition gthread (x : gstep) : nat := match x with Enter t | Leave t | Try t | Go t => t end.

(** A step of the guard touches its own thread's share only. *)
Lemma gnext_frame g x g' t :
  gnext g x = Some g' -> t <> gthread x -> pcs g' !! t = pcs g !! t /\ open_scopes g' t = open_scopes g t.
Proof.
  unfold open_scopes. destruct x as [u|u|u|u]; simpl; intros H Hne;
    unfold enter, leave, try_enter_uncontended, take_ownership, set_mu, set_pc, clear_pc in H;
    repeat case_match; simplify_eq; simpl; rewrite ?lookup_insert_ne, ?lookup_delete_ne by done; done.
Qed.

(** What a step of the guard leaves its own thread with. *)
Lemma gnext_own k g x g' p d b :
  ginv k g -> gnext g x = Some g' ->
  let t := gthread x in
  fits (pcs g !! t) p = true ->
  (pcs g !! t = None -> match x, p with Enter _, Then Hold _ | Leave _, Then Release _ | Try _, TryElse _ _ => True | _, _ => False end) ->
  safe d b (depth_in (pcs g !! t) (open_scopes g t)) p = true ->
  let p' := match pcs g' !! t with
            | Some _ => p
            | None => match p with
                      | Done => Done | Then _ k => k
                      | TryElse u v => if (open_scopes g t <? open_scopes g' t)%nat then u else v
                      end
            end in
  fits (pcs g' !! t) p' = true /\ safe d b (depth_in (pcs g' !! t) (open_scopes g' t)) p' = true /\
  (S (weight p' - spent (pcs g' !! t)) <= weight p - spent (pcs g !! t))%nat.
Proof.
  intros Hg Hx t Hf Hh Hs. destruct x as [u|u|u|u]; unfold t in *; clear t; simpl in *; destruct (pcs g !! u) as [c|] eqn:Ec; try done.
  - destruct p as [|[] k1|]; try (by destruct (Hh eq_refl)). injection Hx as <-. unfold enter. case_bool_decide as Ho; simpl.
    + rewrite Ec. simpl. rewrite (scopes_insert g _ u (S (open_scopes g u))), decide_True by done.
      split_and!; [done|done|lia].
    + rewrite lookup_insert_eq. simpl. split_and!; [done|done|lia].
  - destruct p as [|[] k1|]; try (by destruct (Hh eq_refl)). destruct (Nat.eqb_spec (open_scopes g u) 0) as [|Hn]; [done|].
    injection Hx as <-. unfold leave. rewrite (gi_depth k g Hg u) by lia.
    destruct (Z.ltb_spec 1 (Z.of_nat (open_scopes g u))); simpl.
    + rewrite Ec. simpl. rewrite (scopes_insert g _ u (pred (open_scopes g u))), decide_True by done.
      apply andb_true_iff in Hs as [_ Hs]. split_and!; [done|done|lia].
    + rewrite lookup_insert_eq. simpl in *. replace (open_scopes g u) with 1%nat in Hs by lia. split_and!; [done|done|lia].
  - destruct p as [|[] k1|p1 p2]; try (by destruct (Hh eq_refl)). injection Hx as <-. unfold try_enter_uncontended.
    case_bool_decide as Ho; simpl.
    + rewrite Ec. simpl. apply (gi_owner k g Hg) in Ho.
      change (open_scopes (Guard _ _ _ _ _ _ _ _ _ _ _) u) with (open_scopes g u). rewrite Nat.ltb_irrefl.
      split_and!; [done|destruct (open_scopes g u); [lia|done]|lia].
    + rewrite lookup_insert_eq. simpl. split_and!; [done|done|lia].
  - pose proof (no_scope k g Hg u c Ec) as Hz. rewrite Hz in *. destruct c; destruct p as [|[] k1|p1 p2]; try done;
      unfold take_ownership, set_mu, set_pc, clear_pc in Hx; try destruct (mu_ g) eqn:Em; try done; injection Hx as <-; simpl in *;
      rewrite ?lookup_insert_eq, ?lookup_delete_eq; simpl;
      unfold open_scopes in *; simpl; rewrite ?Hz, ?lookup_insert_eq; simpl; split_and!; try done; try lia.
    all: apply andb_true_iff in Hs as [H1 H2]; done.
Qed.

Lemma ginv_mono k g : ginv k g -> ginv (k + 1) g.
Proof. intros [A B C D E]. split; try done. intros t. specialize (E t). lia. Qed.

Lemma work_step g g' ps i t p p' :
  ps !! t = Some p -> (forall t', t' <> (i + t)%nat -> pcs g' !! t' = pcs g !! t') ->
  (S (weight p' - spent (pcs g' !! (i + t)%nat)) <= weight p - spent (pcs g !! (i + t)%nat))%nat ->
  (S (work g' i (<[t := p']> ps)) <= work g i ps)%nat.
Proof.
  assert (Hsame : forall j qs, (forall t', (j <= t')%nat -> pcs g' !! t' = pcs g !! t') -> work g' j qs = work g j qs).
  { intros j qs. revert j. induction qs as [|q qs IH]; intros j Hj; [done|]. simpl. rewrite Hj by lia.
    rewrite IH; [done|]. intros t' Ht. apply Hj. lia. }
  revert i t. induction ps as [|q ps IH]; intros i t Hp Hoth Hw; [done|]. destruct t as [|t]; simpl in *.
  - injection Hp as ->. rewrite Nat.add_0_r in *. rewrite (Hsame (S i) ps); [lia|]. intros t' Ht. apply Hoth. lia.
  - rewrite (Hoth i) by lia. rewrite <- Nat.add_succ_comm in *. specialize (IH (S i) t Hp Hoth Hw). lia.
Qed.

(** A step, judged by its own thread. *)
Lemma sys_ok_thread k s s' t p p' :
  sys_ok k s -> ginv (k + 1) (sg s') -> todo s !! t = Some p -> todo s' = <[t := p']> (todo s) ->
  (forall t', t' <> t -> pcs (sg s') !! t' = pcs (sg s) !! t' /\ open_scopes (sg s') t' = open_scopes (sg s) t' /\
     has_driver s' t' = has_driver s t' /\ in_buffer s' t' = in_buffer s t') ->
  thread_ok s' t p' ->
  (S (weight p' - spent (pcs (sg s') !! t)) <= weight p - spent (pcs (sg s) !! t))%nat ->
  flush_under_guard s' = 0 -> misplaced_callback_calls s' = 0 ->
  sys_ok (k + 1) s' /\ (S (work (sg s') 0 (todo s')) <= work (sg s) 0 (todo s))%nat.
Proof.
  intros Hs Hg Ht Htodo Hoth Hok Hw Hf Hm. split; [split; try done|].
  - intros t' q. rewrite Htodo. destruct (decide (t' = t)) as [->|Hne].
    + rewrite list_lookup_insert_eq by (by eapply lookup_lt_Some). by intros [= <-].
    + rewrite list_lookup_insert_ne by done. intros Hq. destruct (so_thread k s Hs t' q Hq) as [A B].
      destruct (Hoth t' Hne) as (E1 & E2 & E3 & E4). unfold thread_ok. by rewrite E1, E2, E3, E4.
  - intros t' Hn. assert (Hne : t' <> t).
    { intros ->. rewrite Htodo, list_lookup_insert_eq in Hn by (by eapply lookup_lt_Some). done. }
    rewrite Htodo, list_lookup_insert_ne in Hn by done. destruct (Hoth t' Hne) as (-> & -> & E3 & _).
    destruct (so_absent k s Hs t' Hn) as (A & B & C). split_and!; [done|done|]. intros E.
    unfold has_driver in E3. rewrite E, bool_decide_eq_true_2 in E3 by done. symmetry in E3.
    by apply bool_decide_eq_true in E3.
  - rewrite Htodo. apply (work_step _ _ _ 0 t p p' Ht); [|done]. intros t' Hne. by destruct (Hoth t' Hne).
Qed.

Lemma guard_step_ok k s x g' p :
  sys_ok k s -> 0 <= k < 4294967295 -> let t := gthread x in todo s !! t = Some p -> gnext (sg s) x = Some g' ->
  (pcs (sg s) !! t = None -> match x, p with Enter _, Then Hold _ | Leave _, Then Release _ | Try _, TryElse _ _ => True | _, _ => False end) ->
  sys_ok (k + 1) (settled t p g' s) /\ (S (work g' 0 (todo (settled t p g' s))) <= work (sg s) 0 (todo s))%nat.
Proof.
  intros Hs Hk t Ht Hx Hh. destruct (so_thread k s Hs t p Ht) as [Hfit Hsafe].
  destruct (gnext_own k (sg s) x g' p _ _ (so_guard k s Hs) Hx Hfit Hh Hsafe) as (F & S & W).
  eapply (sys_ok_thread k s (settled t p g' s) t p); try done; try apply Hs.
  - simpl. eapply step_ginv; [apply Hs|lia|done].
  - intros t' Hne. destruct (gnext_frame _ _ _ t' Hx Hne). by split_and!.
Qed.

Lemma has_driver_other s s' t t' :
  t' <> t -> driver s' = Some t \/ driver s' = None -> driver s = Some t \/ driver s = None -> has_driver s' t' = has_driver s t'.
Proof. intros Hne H1 H2. unfold has_driver. apply bool_decide_ext. intuition congruence. Qed.

Lemma free_step_ok k s t p' p drv bc fl mis :
  sys_ok k s -> todo s !! t = Some p -> pcs (sg s) !! t = None -> (S (weight p') <= weight p)%nat ->
  (drv = driver s \/ ((drv = Some t \/ drv = None) /\ (driver s = Some t \/ driver s = None))) ->
  (forall t', t' <> t -> t' ∈ bc <-> t' ∈ in_buffer_completed s) -> fl = 0 -> mis = 0 ->
  safe (bool_decide (drv = Some t)) (bool_decide (t ∈ bc)) (open_scopes (sg s) t) p' = true ->
  let s' := Sys (sg s) drv bc fl mis (<[t := p']> (todo s)) in
  sys_ok (k + 1) s' /\ (S (work (sg s') 0 (todo s')) <= work (sg s) 0 (todo s))%nat.
Proof.
  intros Hs Ht Hp Hw Hd Hb -> -> Hsafe s'. eapply (sys_ok_thread k s s' t p); try done.
  - apply ginv_mono, Hs.
  - intros t' Hne. split_and!; [done|done| |].
    + destruct Hd as [->|[H1 H2]]; [done|]. by apply (has_driver_other s s' t).
    + unfold in_buffer, s'. simpl. apply bool_decide_ext. by apply Hb.
  - unfold thread_ok. simpl. by rewrite Hp.
  - simpl. rewrite Hp. simpl. lia.
Qed.

(** A step that leaves the guard alone: what is left are the facts of its own. *)
Ltac free_step :=
  match goal with
  | Hs : sys_ok _ ?s, Ht : todo ?s !! ?t = Some _, Ec : pcs (sg ?s) !! ?t = None |- _ =>
      eapply (free_step_ok _ s t); [exact Hs|exact Ht|exact Ec|simpl; lia|..]; simpl; try done
  end.

Lemma tnext_ok k s t s' :
  sys_ok k s -> 0 <= k < 4294967295 -> tnext s t = Some s' ->
  sys_ok (k + 1) s' /\ (S (work (sg s') 0 (todo s')) <= work (sg s) 0 (todo s))%nat.
Proof.
  intros Hs Hk H. unfold tnext in H. destruct (todo s !! t) as [p|] eqn:Ht; [|done].
  destruct (so_thread k s Hs t p Ht) as [Hfit Hsafe]. destruct (pcs (sg s) !! t) as [c|] eqn:Ec.
  { destruct (gnext (sg s) (Go t)) as [g'|] eqn:Eg; [|done]. injection H as <-.
    apply (guard_step_ok k s (Go t)); try done. simpl. by rewrite Ec. }
  destruct p as [|o p'|p1 p2]; [done| |].
  - pose proof (so_flush k s Hs) as Hfl. pose proof (so_misplaced k s Hs) as Hmi.
    assert (Hb : forall t', t' <> t -> t' ∈ in_buffer_completed s <-> t' ∈ in_buffer_completed s) by done.
    simpl in Hsafe. unfold has_driver, in_buffer in Hsafe.
    destruct o; try (injection H as <-); rewrite ?andb_true_iff in Hsafe.
    + apply bind_Some in H as (g' & Eg & [= <-]). by apply (guard_step_ok k s (Enter t)).
    + apply bind_Some in H as (g' & Eg & [= <-]). by apply (guard_step_ok k s (Leave t)).
    + free_step; [by left|apply Hsafe].
    + destruct (driver s) as [|] eqn:Ed; [done|]. injection H as <-. destruct Hsafe as [[Hn _] Hsafe].
      free_step.
      * left. by rewrite Ed.
      * destruct (held_by_this_thread (sg s) t) eqn:Eh; [|done]. unfold held_by_this_thread in Eh.
        rewrite bool_decide_eq_true in Eh. apply (gi_owner k _ (so_guard k s Hs)) in Eh. apply Nat.eqb_eq in Hn. lia.
    + free_step; [by left|set_solver|].
      rewrite (bool_decide_eq_true_2 (t ∈ {[t]} ∪ _)) by set_solver. done.
    + free_step; [by left|set_solver|].
      rewrite (bool_decide_eq_false_2 (t ∈ _ ∖ {[t]})) by set_solver. done.
    + unfold misplaced. destruct Hsafe as [E Hsafe]. rewrite E.
      free_step; by left.
    + unfold misplaced. destruct Hsafe as [E Hsafe]. rewrite E.
      free_step; by left.
    + destruct (driver s) as [|] eqn:Ed; [done|]. injection H as <-.
      free_step.
      * right. rewrite Ed. auto.
      * rewrite bool_decide_eq_true_2 by done. apply Hsafe.
    + case_bool_decide as Ed; [|done]. injection H as <-.
      free_step.
      * right. rewrite Ed. auto.
      * apply Hsafe.
  - destruct (gnext (sg s) (Try t)) as [g'|] eqn:Eg; [|done]. injection H as <-. by apply (guard_step_ok k s (Try t)).
Qed.

Lemma sys_init_ok ps : Forall (fun p => safe false false 0 p = true) ps -> sys_ok 0 (sys_init ps).
Proof.
  intros H. split; try done.
  - apply init_ginv.
  - intros t p Hp. unfold thread_ok, has_driver, in_buffer, open_scopes. simpl. rewrite !lookup_empty. simpl.
    rewrite bool_decide_eq_false_2 by set_solver. split; [done|]. rewrite Forall_lookup in H. eauto.
Qed.

Lemma srun_ok sched k s s' :
  sys_ok k s -> 0 <= k -> k + Z.of_nat (work (sg s) 0 (todo s)) < 4294967295 -> srun s sched = Some s' ->
  exists k', sys_ok k' s' /\ (length sched + work (sg s') 0 (todo s') <= work (sg s) 0 (todo s))%nat.
Proof.
  revert k s. induction sched as [|t l IH]; intros k s Hs Hk Hb H; simpl in *.
  { injection H as <-. exists k. split; [done|lia]. }
  apply bind_Some in H as (s1 & E & H). pose proof (tnext_ok k s t s1 Hs) as Hn.
  destruct (work (sg s) 0 (todo s)) as [|w] eqn:Ew; destruct (Hn ltac:(lia) E) as [H1 W1]; [lia|].
  destruct (IH (k + 1) s1 H1 ltac:(lia) ltac:(lia) H) as (k' & H' & W'). exists k'. split; [done|lia].
Qed.

(** ** Somebody can move *)

(** A thread outside the guard's methods waits only for the driver's lock. *)
Lemma ready_moves s t p :
  todo s !! t = Some p -> pcs (sg s) !! t = None -> thread_ok s t p ->
  (0 < open_scopes (sg s) t)%nat \/ driver s = Some t \/ (driver s = None /\ p <> Done) -> is_Some (tnext s t).
Proof.
  intros Ht Ec [_ Hsafe] Hwhy. unfold tnext, has_driver in *. rewrite Ht, Ec in *. simpl in Hsafe.
  destruct p as [|o k|p1 p2].
  - simpl in Hsafe. apply andb_true_iff in Hsafe as [Hd Hn]. apply Nat.eqb_eq in Hn. apply negb_true_iff, bool_decide_eq_false in Hd.
    intuition lia.
  - destruct o; simpl in *; rewrite ?andb_true_iff in Hsafe; rewrite ?Ec; eauto.
    + destruct Hsafe as [Hn _]. apply negb_true_iff in Hn. rewrite Hn. simpl. eauto.
    + destruct Hsafe as [[Hn Hd] _]. apply Nat.eqb_eq in Hn. apply negb_true_iff, bool_decide_eq_false in Hd.
      destruct Hwhy as [?|[?|[-> _]]]; [lia|done|eauto].
    + destruct Hsafe as [[Hn Hd] _]. apply Nat.eqb_eq in Hn. apply negb_true_iff, bool_decide_eq_false in Hd.
      destruct Hwhy as [?|[?|[-> _]]]; [lia|done|eauto].
    + destruct Hsafe as [[Hn Hd] _]. rewrite Hd. eauto.
  - simpl. rewrite Ec. simpl. eauto.
Qed.

Lemma inside_moves k s t c :
  sys_ok k s -> pcs (sg s) !! t = Some c -> mu_ (sg s) = None \/ has_mutex (Some c) = true -> is_Some (tnext s t).
Proof.
  intros Hs Ec Hm. unfold tnext. destruct (todo s !! t) as [p|] eqn:Ht.
  - rewrite Ec. simpl. rewrite Ec. destruct c; destruct Hm as [Em|Em]; try done; rewrite ?Em; simpl; eauto;
      destruct (mu_ (sg s)); simpl; eauto.
  - destruct (so_absent k s Hs t Ht). congruence.
Qed.

Lemma somebody_moves k s :
  sys_ok k s -> (exists t, is_Some (tnext s t)) \/
  ((forall t p, todo s !! t = Some p -> p = Done) /\ mu_ (sg s) = None /\ driver s = None).
Proof.
  intros Hs. destruct (mu_ (sg s)) as [t|] eqn:Em.
  { left. exists t. pose proof (proj1 (gi_mutex k _ (so_guard k s Hs) t) Em) as Hm.
    destruct (pcs (sg s) !! t) as [c|] eqn:Ec.
    { eapply inside_moves; [done|done|]. right. destruct Hm as [Hm|Ho]; [done|].
      pose proof (gi_pc k _ (so_guard k s Hs) t Ho). congruence. }
    destruct Hm as [Hm|Ho]; [done|]. destruct (todo s !! t) as [p|] eqn:Ht.
    - eapply ready_moves; [done|done|by eapply so_thread|by left].
    - destruct (so_absent k s Hs t Ht) as (_ & Hz & _). lia. }
  destruct (driver s) as [t|] eqn:Ed.
  { left. exists t. destruct (pcs (sg s) !! t) as [c|] eqn:Ec; [eapply inside_moves; [done|done|by left]|].
    destruct (todo s !! t) as [p|] eqn:Ht; [eapply ready_moves; [done|done|by eapply so_thread|by right; left]|].
    by destruct (so_absent k s Hs t Ht) as (_ & _ & ?). }
  destruct (decide (Exists (fun p => p <> Done) (todo s))) as [He|He].
  - left. apply list.Exists_exists in He as (p & Hp & Hne). apply list_elem_of_lookup in Hp as [t Ht]. exists t.
    destruct (pcs (sg s) !! t) as [c|] eqn:Ec; [eapply inside_moves; [done|done|by left]|].
    eapply ready_moves; [done|done|by eapply so_thread|by right; right].
  - right. split_and!; [|done|done]. intros t p Ht. destruct (decide (p = Done)) as [|Hne]; [done|]. destruct He.
    apply list.Exists_exists. exists p. split; [by eapply list_elem_of_lookup_2|done].
Qed.

Lemma work_init ps i : work guard_init i ps = sum_list (weight <$> ps).
Proof. revert i. induction ps as [|p ps IH]; intros i; [done|]. change (weight p - spent (@None gpc) + work guard_init (S i) ps = weight p + sum_list (weight <$> ps))%nat. rewrite IH. simpl. lia. Qed.

(** C12: The adapter cannot hang the profiled process on CUPTI.  Any threads, each
    doing any sequence of timer ticks, resource callbacks (made with the driver's
    lock held), launches that open and close bursts, fatal-error callbacks (also
    inside a guarded call, with the guard held) and the exit handler, interleaved
    in any way between the operations on the guard and on the driver's lock: no
    run is longer than the work of the threads, and a run that cannot go on is
    one in which every thread finished, with both locks free.  On the way at most
    one thread is inside a guarded entry point of CUPTI, and it owns the guard; no
    flush is made under the guard and no record call outside a buffer-completed
    callback, so both counters the exit report prints stay 0. *)
Theorem guarded_calls_never_hang (threads : list (list activity)) sched s :
  srun (sys_init (map thread_of threads)) sched = Some s ->
  Z.of_nat (sum_list (weight <$> map thread_of threads)) < 4294967295 ->
  (length sched <= sum_list (weight <$> map thread_of threads))%nat /\
  ((exists t, is_Some (tnext s t)) \/
   ((forall t p, todo s !! t = Some p -> p = Done) /\ mu_ (sg s) = None /\ driver s = None)) /\
  (forall t f k, todo s !! t = Some (Then (Vendor f) k) -> held_by_this_thread (sg s) t = true) /\
  (forall t t' f f' k k', todo s !! t = Some (Then (Vendor f) k) -> todo s !! t' = Some (Then (Vendor f') k') -> t = t') /\
  flush_under_guard s = 0 /\ misplaced_callback_calls s = 0.
Proof.
  intros H Hb. set (ps := map thread_of threads) in *.
  assert (H0 : sys_ok 0 (sys_init ps)).
  { apply sys_init_ok, list.Forall_forall. intros p (l & -> & _)%list_elem_of_fmap. apply thread_safe. }
  destruct (srun_ok sched 0 _ s H0 ltac:(lia) ltac:(simpl; rewrite work_init; lia) H) as (k' & Hs & Hw).
  simpl in Hw. rewrite work_init in Hw.
  assert (Hh : forall t f k, todo s !! t = Some (Then (Vendor f) k) -> owner_ (sg s) = Some t).
  { intros t f k Ht. destruct (so_thread k' s Hs t _ Ht) as [Hf Hsafe]. apply (gi_owner k' _ (so_guard k' s Hs)).
    destruct (pcs (sg s) !! t) as [[]|]; try done. simpl in Hsafe. apply andb_true_iff in Hsafe as [Hn _].
    apply negb_true_iff, Nat.eqb_neq in Hn. lia. }
  split_and!; [lia|by eapply somebody_moves| | |apply Hs|apply Hs].
  - intros t f k Ht. unfold held_by_this_thread. apply bool_decide_eq_true. eauto.
  - intros t t' f f' k1 k2 H1 H2. apply Hh in H1, H2. congruence.
Qed.

(** *** A run: the timer's tick meets the unload of a module *)

Definition demo_threads : list (list activity) :=
  [[ATick [2%nat] 1 (Some [(PCSamplingGetData, Some [PCSamplingGetData; PCSamplingDisable])])];
   [AResource (Some [(PCSamplingGetData, None)])]; [APool 1]].
(** The unload has the driver's lock and waits for the guard the tick holds. *)
Definition demo_schedule : list nat := [0; 0; 0; 1; 1; 1; 0; 0; 0; 1; 1; 1; 1; 1; 1; 1; 1]%nat.
Definition demo_sys : sys := default (sys_init []) (srun (sys_init (map thread_of demo_threads)) demo_schedule).

Lemma demo_sys_run : srun (sys_init (map thread_of demo_threads)) demo_schedule = Some demo_sys.
Proof. vm_compute. reflexivity. Qed.

Lemma guarded_calls_never_hang_witness :
  exists t, is_Some (tnext demo_sys t).
Proof.
  destruct (guarded_calls_never_hang demo_threads demo_schedule demo_sys demo_sys_run ltac:(vm_compute; reflexivity))
    as (_ & [H|(H & _)] & _); [exact H|].
  exfalso. assert (E : todo demo_sys !! 2%nat = Some (thread_of [APool 1])) by (vm_compute; reflexivity).
  apply H in E. discriminate E.
Defined.

(** With the flush in a [CallScope], as it once was, the same two threads stop for
    good: the unload waits for the guard, the flush for the driver's lock. *)
Definition held_flush : prog := Then Hold (Then FlushAll (Then Release Done)).
Example flush_under_guard_hangs :
  exists s, srun (sys_init [held_flush; thread_of [AResource (Some [(PCSamplingGetData, None)])]])
              [0; 0; 0; 1; 1; 1]%nat = Some s /\
    (forall t, tnext s t = None) /\ mu_ (sg s) = Some 0%nat /\ driver s = Some 1%nat.
Proof.
  eexists. split; [vm_compute; reflexivity|]. split; [|done]. intros [|[|t]]; vm_compute; reflexivity.
Qed.
