(* ===== verification/GuardDepth.v ===== *)
(** * GuardDepth: how deep the scopes of the CUPTI guard nest

    The exit report prints the deepest nesting the guard has seen, and its
    comment (src/shim/nvidia/cupti_adapter.cc, [report]) says what to read from
    it: 3 when bursts run, 2 with continuous sampling, 1 with PC sampling off, and
    more only if CUPTI came back to the adapter inside a call.  This file proves
    the bounds from the programs of GuardedCalls, in which CUPTI comes back only
    with the fatal-error callback. *)
From S2P Require Import Prelude CallGuard GuardedCalls.

(** The most scopes a thread ever has open, from [n] open ones on. *)
Fixpoint deepest (n : nat) (p : prog) : nat :=
  match p with
  | Done => n
  | Then Hold k => deepest (S n) k
  | Then Release k => n `max` deepest (pred n) k
  | Then _ k => deepest n k
  | TryElse x y => if (n =? 0)%nat then deepest 1 x `max` deepest 0 y else deepest n y
  end.

(** What the comment's three cases allow an entry point: a burst's end, any other
    PC-sampling call, or none. *)
Definition activity_depth (a : activity) : nat :=
  match a with
  | ALaunch _ (Some _) | AExit (Some _) _ _ _ => 3
  | ATick _ _ (Some _) | AResource (Some _) | ALaunch (Some _) None => 2
  | AFatal (_ :: _) | AExit None (Some (_ :: _)) _ _ => 2
  | _ => 1
  end.

Lemma deepest_ge n p : (n <= deepest n p)%nat.
Proof.
  revert n. induction p as [|o k IH|x IHx y IHy]; intros n; simpl; [done| |].
  - destruct o; try apply IH; [pose proof (IH (S n)); lia|lia].
  - destruct (Nat.eqb_spec n 0) as [->|]; [lia|apply IHy].
Qed.

(** ** What the entry points reach *)

Section Reach.
  Context (B : nat).

Lemma guarded_all_deepest n fs k :
  (fs = [] \/ n < B)%nat -> (deepest n k <= B)%nat -> (deepest n (guarded_all fs k) <= B)%nat.
Proof using Type.
  intros Hn Hk. induction fs as [|f fs IH]; [done|]. destruct Hn as [|Hn]; [done|]. simpl.
  apply Nat.max_lub; [lia|]. apply IH. by right.
Qed.

(** The finalization inside a call finds the guard taken. *)
Lemma finalize_deepest n fs k :
  (n <> 0 \/ fs = [] \/ 2 <= B)%nat -> (1 <= B)%nat -> (deepest n k <= B)%nat -> (deepest n (finalize_calls fs k) <= B)%nat.
Proof using Type.
  intros Hn HB Hk. simpl. destruct (Nat.eqb_spec n 0) as [->|]; [|done]. apply Nat.max_lub; [|done].
  apply guarded_all_deepest; [destruct Hn as [|[->|]]; [lia|by left|right; lia]|]. simpl. destruct (deepest 0 k); lia.
Qed.

Lemma guarded_deepest n x k : (n < B)%nat -> (deepest n k <= B)%nat -> (deepest n (guarded x k) <= B)%nat.
Proof using Type.
  intros Hn Hk. destruct x as [f [fs|]]; [|cbn; lia].
  apply (finalize_deepest (S n) fs (Then Release k)); [by left|lia|]. cbn. lia.
Qed.

Lemma guarded_calls_deepest n xs k : (n < B)%nat -> (deepest n k <= B)%nat -> (deepest n (guarded_calls xs k) <= B)%nat.
Proof using Type. intros Hn Hk. induction xs; [done|]. by apply guarded_deepest. Qed.

Lemma scope_deepest n xs k : (S n < B)%nat -> (deepest n k <= B)%nat -> (deepest n (scope_calls xs k) <= B)%nat.
Proof using Type. intros Hn Hk. apply (guarded_calls_deepest (S n)); [done|]. cbn. lia. Qed.

Lemma burst_close_deepest n x k : (x = None \/ S (S n) < B)%nat -> (deepest n k <= B)%nat -> (deepest n (burst_close_opt x k) <= B)%nat.
Proof using Type.
  intros Hn Hk. destruct x as [[xs ys]|]; [|done]. destruct Hn as [|Hn]; [done|].
  apply (guarded_calls_deepest (S n)); [lia|]. apply scope_deepest; [done|]. cbn. lia.
Qed.

Lemma deliveries_deepest n ns k : (deepest n k <= B)%nat -> (deepest n (deliveries ns k) <= B)%nat.
Proof using Type.
  intros Hk. induction ns as [|m ns IH]; [done|]. cbn. induction m as [|m IHm]; [exact IH|exact IHm].
Qed.

Lemma activity_deepest a k :
  (activity_depth a <= B)%nat -> (deepest 0 k <= B)%nat -> (deepest 0 (activity_calls a k) <= B)%nat.
Proof using Type.
  intros Ha Hk. assert (HB : (1 <= B)%nat) by (destruct a as [? ? []|[]|[] []|?|[]|[] [[]|] ? ?]; simpl in Ha; lia).
  destruct a as [ns crcs drain|[xs|]|starts stops|n|fs|close fs ns crcs]; unfold activity_calls.
  - apply guarded_deepest; [done|]. apply (deliveries_deepest 0), guarded_calls_deepest; [done|].
    destruct drain; [|done]. apply scope_deepest; [simpl in Ha; lia|done].
  - apply (scope_deepest 0 xs (Then DriverUnlock k)); [simpl in Ha; lia|done].
  - done.
  - assert (Hl : (deepest 0 (Then DriverLock (Then DriverUnlock (burst_close_opt stops k))) <= B)%nat).
    { apply (burst_close_deepest 0 stops k); [|done]. destruct stops; [right; simpl in Ha; destruct starts; lia|by left]. }
    destruct starts; [|done]. apply (scope_deepest 0); [destruct stops; simpl in Ha; lia|done].
  - by apply (deliveries_deepest 0 [n]).
  - apply finalize_deepest; [|done|done]. destruct fs; [by right; left|simpl in Ha; right; right; lia].
  - apply burst_close_deepest; [destruct close; [right; simpl in Ha; lia|by left]|].
    assert (Hf : (deepest 0 (Then FlushAll (deliveries ns (guarded_calls (replicate crcs (GetCubinCrc, None)) k))) <= B)%nat)
      by (by apply (deliveries_deepest 0), guarded_calls_deepest).
    destruct fs as [[|f fs]|]; [apply finalize_deepest; auto..|done].
    right; right. destruct close; simpl in Ha; lia.
Qed.

Lemma thread_deepest l : (1 <= B)%nat -> Forall (fun a => activity_depth a <= B)%nat l -> (deepest 0 (thread_of l) <= B)%nat.
Proof using Type. intros HB. induction 1; [simpl; lia|]. by apply activity_deepest. Qed.
End Reach.

(** ** What a run reaches *)

Record depth_ok (B : nat) (s : sys) : Prop := {
  do_max : max_depth_ (sg s) <= Z.of_nat B;
  do_thread : forall t p, todo s !! t = Some p -> (deepest (depth_in (pcs (sg s) !! t) (open_scopes (sg s) t)) p <= B)%nat;
}.

(** A step of the guard raises the maximum no further than its thread may go. *)
Lemma gnext_depth k B g x g' p :
  ginv k g -> 0 <= k < 4294967295 -> gnext g x = Some g' ->
  let t := gthread x in
  fits (pcs g !! t) p = true ->
  (pcs g !! t = None -> match x, p with Enter _, Then Hold _ | Leave _, Then Release _ | Try _, TryElse _ _ => True | _, _ => False end) ->
  max_depth_ g <= Z.of_nat B -> (deepest (depth_in (pcs g !! t) (open_scopes g t)) p <= B)%nat ->
  let p' := match pcs g' !! t with
            | Some _ => p
            | None => match p with
                      | Done => Done | Then _ k => k
                      | TryElse u v => if (open_scopes g t <? open_scopes g' t)%nat then u else v
                      end
            end in
  max_depth_ g' <= Z.of_nat B /\ (deepest (depth_in (pcs g' !! t) (open_scopes g' t)) p' <= B)%nat.
Proof.
  intros Hg Hk Hx t Hf Hh Hm Hd. destruct x as [u|u|u|u]; unfold t in *; clear t; simpl in *; destruct (pcs g !! u) as [c|] eqn:Ec; try done.
  - destruct p as [|[] k1|]; try (by destruct (Hh eq_refl)). injection Hx as <-. unfold enter. case_bool_decide as Ho; simpl.
    + rewrite Ec. simpl. rewrite (scopes_insert g _ u (S (open_scopes g u))), decide_True by done. simpl in Hd.
      apply (gi_owner k g Hg) in Ho. rewrite (gi_depth k g Hg u Ho). pose proof (gi_bound k g Hg u).
      rewrite u32_small by word_lia. pose proof (deepest_ge (S (open_scopes g u)) k1). split; [case_match; lia|done].
    + rewrite lookup_insert_eq. simpl. split; [done|exact Hd].
  - destruct p as [|[] k1|]; try (by destruct (Hh eq_refl)). destruct (Nat.eqb_spec (open_scopes g u) 0) as [|Hn]; [done|].
    injection Hx as <-. unfold leave. rewrite (gi_depth k g Hg u) by lia. simpl in Hd.
    destruct (Z.ltb_spec 1 (Z.of_nat (open_scopes g u))); simpl.
    + rewrite Ec. simpl. rewrite (scopes_insert g _ u (pred (open_scopes g u))), decide_True by done. split; [done|lia].
    + rewrite lookup_insert_eq. replace (open_scopes g u) with 1%nat in Hd by lia. split; [done|exact Hd].
  - destruct p as [|[] k1|p1 p2]; try (by destruct (Hh eq_refl)). injection Hx as <-. unfold try_enter_uncontended.
    case_bool_decide as Ho; simpl.
    + rewrite Ec. apply (gi_owner k g Hg) in Ho.
      change (open_scopes (Guard _ _ _ _ _ _ _ _ _ _ _) u) with (open_scopes g u). rewrite Nat.ltb_irrefl.
      split; [done|]. simpl in Hd. destruct (open_scopes g u); [lia|done].
    + rewrite lookup_insert_eq. split; [done|exact Hd].
  - pose proof (no_scope k g Hg u c Ec) as Hz. rewrite Hz in *. destruct c; destruct p as [|[] k1|p1 p2]; try done;
      unfold take_ownership, set_mu, set_pc, clear_pc in Hx; try destruct (mu_ g) eqn:Em; try done; injection Hx as <-; simpl in *;
      rewrite ?lookup_insert_eq, ?lookup_delete_eq; simpl;
      unfold open_scopes in *; simpl; rewrite ?Hz, ?lookup_insert_eq; simpl; try (split; [done|lia]).
    all: pose proof (deepest_ge 1 k1); split; [case_match; lia|done].
Qed.

(** A step that changes one thread's future, and the guard for that thread only. *)
Lemma depth_ok_thread B s s' t p' :
  depth_ok B s -> is_Some (todo s !! t) -> todo s' = <[t := p']> (todo s) -> max_depth_ (sg s') <= Z.of_nat B ->
  (forall t', t' <> t -> pcs (sg s') !! t' = pcs (sg s) !! t' /\ open_scopes (sg s') t' = open_scopes (sg s) t') ->
  (deepest (depth_in (pcs (sg s') !! t) (open_scopes (sg s') t)) p' <= B)%nat -> depth_ok B s'.
Proof.
  intros H [p Ht] Htodo Hm Hoth Hd. split; [done|]. intros t' q. rewrite Htodo. destruct (decide (t' = t)) as [->|Hne].
  - rewrite list_lookup_insert_eq by (by eapply lookup_lt_Some). by intros [= <-].
  - rewrite list_lookup_insert_ne by done. destruct (Hoth t' Hne) as [-> ->]. apply H.
Qed.

Lemma guard_step_depth k B s x g' p :
  sys_ok k s -> depth_ok B s -> 0 <= k < 4294967295 -> let t := gthread x in todo s !! t = Some p -> gnext (sg s) x = Some g' ->
  (pcs (sg s) !! t = None -> match x, p with Enter _, Then Hold _ | Leave _, Then Release _ | Try _, TryElse _ _ => True | _, _ => False end) ->
  depth_ok B (settled t p g' s).
Proof.
  intros Hs Hd Hk t Ht Hx Hh. destruct (so_thread k s Hs t p Ht) as [Hfit _].
  destruct (gnext_depth k B (sg s) x g' p (so_guard k s Hs) Hk Hx Hfit Hh (do_max B s Hd) (do_thread B s Hd t p Ht)) as [M D].
  eapply (depth_ok_thread B s (settled t p g' s) t); eauto. intros t' Hne. by apply (gnext_frame _ _ _ _ Hx).
Qed.

Lemma tnext_depth k B s t s' :
  sys_ok k s -> depth_ok B s -> 0 <= k < 4294967295 -> tnext s t = Some s' -> depth_ok B s'.
Proof.
  intros Hs Hd Hk H. unfold tnext in H. destruct (todo s !! t) as [p|] eqn:Ht; [|done].
  destruct (pcs (sg s) !! t) as [c|] eqn:Ec.
  { apply bind_Some in H as (g' & Eg & [= <-]). apply (guard_step_depth k B s (Go t)); try done. simpl. by rewrite Ec. }
  destruct p as [|o p'|p1 p2]; [done| |].
  - pose proof (do_thread B s Hd t _ Ht) as Hdt. rewrite Ec in Hdt.
    destruct o.
    1: apply bind_Some in H as (g' & Eg & [= <-]); by apply (guard_step_depth k B s (Enter t)).
    1: apply bind_Some in H as (g' & Eg & [= <-]); by apply (guard_step_depth k B s (Leave t)).
    all: repeat case_match; simplify_eq; (apply (depth_ok_thread B s _ t p' Hd);
      [by rewrite Ht|done|apply (do_max B s Hd)|done|simpl; rewrite Ec; exact Hdt]).
  - apply bind_Some in H as (g' & Eg & [= <-]). by apply (guard_step_depth k B s (Try t)).
Qed.

Lemma srun_depth B sched k s s' :
  sys_ok k s -> depth_ok B s -> 0 <= k -> k + Z.of_nat (work (sg s) 0 (todo s)) < 4294967295 -> srun s sched = Some s' ->
  depth_ok B s'.
Proof.
  revert k s. induction sched as [|t l IH]; intros k s Hs Hd Hk Hb H; simpl in *; [by injection H as <-|].
  apply bind_Some in H as (s1 & E & H). destruct (tnext_ok k s t s1 Hs ltac:(lia) E) as [H1 W1].
  apply (IH (k + 1) s1 H1); [|lia|lia|done]. by apply (tnext_depth k B s t s1 Hs Hd ltac:(lia)).
Qed.

(** C38: What the reported nesting means.  Any threads doing any of the adapter's
    entry points, interleaved in any way between the operations on the guard and
    on the driver's lock: the deepest nesting the guard records is at most 3; it
    is at most 2 when no entry point ends a burst, and at most 1 when none makes a
    PC-sampling call.  So a larger number in the exit report can only come from
    CUPTI calling the adapter back inside one of its calls, which is what the
    report's comment says it shows. *)
Theorem guard_depth_bounded (threads : list (list activity)) sched s :
  srun (sys_init (map thread_of threads)) sched = Some s ->
  Z.of_nat (sum_list (weight <$> map thread_of threads)) < 4294967295 ->
  max_depth_ (sg s) <= 3 /\
  (Forall (Forall (fun a => activity_depth a <= 2)%nat) threads -> max_depth_ (sg s) <= 2) /\
  (Forall (Forall (fun a => activity_depth a <= 1)%nat) threads -> max_depth_ (sg s) <= 1).
Proof.
  intros H Hb. assert (Hall : forall B, (1 <= B)%nat -> Forall (Forall (fun a => activity_depth a <= B)%nat) threads ->
    max_depth_ (sg s) <= Z.of_nat B).
  { intros B HB HF. eapply do_max, (srun_depth B sched 0); [| |lia| |exact H].
    - apply sys_init_ok, list.Forall_forall. intros p (l & -> & _)%list_elem_of_fmap. apply thread_safe.
    - split; [simpl; lia|]. intros t p Hp. change (deepest 0 p <= B)%nat.
      apply list_elem_of_lookup_2, list_elem_of_fmap in Hp as (l & -> & Hl). rewrite list.Forall_forall in HF. apply thread_deepest; eauto.
    - simpl. rewrite work_init. lia. }
  split_and!; [apply (Hall 3%nat)|apply (Hall 2%nat)|apply (Hall 1%nat)]; try lia.
  apply Forall_true. intros l. apply Forall_true. intros a. destruct a as [? ? []|[]|[] []|?|[]|[] [[]|] ? ?]; simpl; lia.
Qed.

(** A launch that ends a burst reaches 3, a tick that drains 2. *)
Definition closing_launch : list activity :=
  [ALaunch (Some [(PCSamplingStart, None)]) (Some ([(PCSamplingStop, None)], [(PCSamplingGetData, None)]))].
Definition closing_run : list nat := replicate 25 0%nat.

Lemma guard_depth_bounded_witness :
  exists s, srun (sys_init (map thread_of [closing_launch])) closing_run = Some s /\ max_depth_ (sg s) = 3 /\
    todo s = [Done] /\ max_depth_ (sg s) <= 3 /\ max_depth_ (sg demo_sys) <= 2.
Proof.
  eexists. split; [vm_compute; reflexivity|]. split; [reflexivity|]. split; [reflexivity|]. split.
  - apply (guard_depth_bounded [closing_launch] closing_run); vm_compute; reflexivity.
  - apply (guard_depth_bounded demo_threads demo_schedule demo_sys); [vm_compute; reflexivity..|].
    repeat constructor.
Defined.
