(* ===== verification/Printf.v ===== *)
(** * Printf: formatted lines and what a reader finds in them

    The adapter's log lines (src/shim/nvidia/cupti_adapter.cc, [logf]) are
    formatted by [vfprintf]; src/bench/cmd/scenario/gpupc.go reads them back with
    strings.Contains and strings.Fields.  This file has the conversions the
    formats use, the two Go functions, and how each acts on a formatted line
    without looking at the digits: a format is compiled once into characters and
    conversions. *)
From Stdlib Require Import String Ascii.
From S2P Require Import Prelude PcTier Maps Double.
#[local] Open Scope Z_scope.
#[local] Existing Instance Maps.ascii_eq_dec'.

(** ** Formats *)

Inductive spec := SLlu | SLld | SU | SZu | SD | SS | SF4.
#[global] Instance spec_eq_dec : EqDecision spec.
Proof. solve_decision. Defined.

(** The text after the percent sign, and its conversion; the formats have no
    others. *)
Definition directives : list (cstr * spec) :=
  [(lit "llu", SLlu); (lit "lld", SLld); (lit "zu", SZu); (lit ".4f", SF4); (lit "u", SU); (lit "d", SD); (lit "s", SS)].
Definition directive (s : cstr) : option (spec * nat) :=
  match filter (fun d => take (length d.1) s = d.1) directives with
  | d :: _ => Some (d.2, length d.1)
  | [] => None
  end.

Inductive piece := PChar (c : ascii) | PSpec (sp : spec).
Fixpoint compile_from (skip : nat) (fmt : cstr) : list piece :=
  match fmt with
  | [] => []
  | c :: rest =>
      match skip with
      | S skip => compile_from skip rest
      | O => if decide (c = "%"%char)
             then match directive rest with Some (sp, n) => PSpec sp :: compile_from n rest | None => PChar c :: compile_from 0 rest end
             else PChar c :: compile_from 0 rest
      end
  end.
Definition compile (fmt : String.string) : list piece := compile_from 0 (lit fmt).

(** ** Arguments *)

Inductive arg := ALlu (z : Z) | ALld (z : Z) | AU (z : Z) | AZu (z : Z) | AD (z : Z) | AS (s : cstr) | AF4 (x : double).
Definition spec_of (a : arg) : spec :=
  match a with ALlu _ => SLlu | ALld _ => SLld | AU _ => SU | AZu _ => SZu | AD _ => SD | AS _ => SS | AF4 _ => SF4 end.

Definition put_signed (z : Z) : cstr := if z <? 0 then "-"%char :: put_dec (- z) else put_dec z.

(** [%.4f]: the value in ten-thousandths, to nearest with ties to even. *)
Definition tenthousandths (n : Z) : Z := rne (n * 10000) scale.
Definition put_frac4 (t : Z) : cstr := put_dec (t / 10000) ++ "."%char :: (digit_char <$> [t / 1000 mod 10; t / 100 mod 10; t / 10 mod 10; t mod 10]).
Definition put_f4 (x : double) : cstr :=
  match x with
  | DFin s n => (if s then ["-"%char] else []) ++ put_frac4 (tenthousandths n)
  | DInf s => (if s then lit "-inf" else lit "inf")
  | DNaN => lit "nan"
  end.

Definition text (a : arg) : cstr :=
  match a with
  | ALlu z | AU z | AZu z => put_dec z
  | ALld z | AD z => put_signed z
  | AS s => s
  | AF4 x => put_f4 x
  end.

(** A conversion with an argument of another type, or with none, has no defined
    result; it prints nothing here, and no line below has one ([matched]). *)
Fixpoint fill (ps : list piece) (args : list arg) : cstr :=
  match ps with
  | [] => []
  | PChar c :: r => c :: fill r args
  | PSpec sp :: r =>
      match args with
      | a :: args => (if decide (spec_of a = sp) then text a else []) ++ fill r args
      | [] => fill r []
      end
  end.
Fixpoint matched (ps : list piece) (args : list arg) : bool :=
  match ps with
  | [] => match args with [] => true | _ => false end
  | PChar _ :: r => matched r args
  | PSpec sp :: r => match args with a :: args => bool_decide (spec_of a = sp) && matched r args | [] => false end
  end.
Definition printf (fmt : String.string) (args : list arg) : cstr := fill (compile fmt) args.

Example printf_works :
  printf "a=%llu(=%u cycles) d=%.4f o=%lld %s."%string [ALlu 12; AU 7; AF4 (of_ratio 1043 10000); ALld (-5); AS (lit "x")] =
  lit "a=12(=7 cycles) d=0.1043 o=-5 x."%string.
Proof. vm_compute. reflexivity. Qed.

(** ** strings.Contains *)

Fixpoint prefix_of (p s : cstr) : bool :=
  match p, s with
  | [], _ => true
  | c :: p', d :: s' => if decide (c = d) then prefix_of p' s' else false
  | _ :: _, [] => false
  end.
Fixpoint Contains (p s : cstr) : bool :=
  prefix_of p s || match s with [] => false | _ :: s' => Contains p s' end.

Lemma prefix_of_spec p s : prefix_of p s = true <-> exists r, s = p ++ r.
Proof.
  revert s. induction p as [|c p IH]; intros s; simpl; [split; [by eexists|done]|].
  destruct s as [|d s]; [split; [done|by intros []]|]. case_decide as E.
  - subst d. rewrite IH. split; intros [r H]; exists r; [by rewrite H|by injection H].
  - split; [done|]. intros [r H]. injection H. congruence.
Qed.

Lemma Contains_spec p s : Contains p s = true <-> exists l r, s = l ++ p ++ r.
Proof.
  induction s as [|d s IH]; cbn [Contains]; rewrite orb_true_iff, prefix_of_spec.
  - split; [intros [[r H]|]; [by exists [], r|done]|]. intros (l & r & H). left. destruct l; [by exists r|done].
  - rewrite IH. split.
    + intros [[r H]|(l & r & ->)]; [by exists [], r|by exists (d :: l), r].
    + intros ([|e l] & r & H); [left; by exists r|right]. injection H as -> ->. eauto.
Qed.

(** A character outside the pattern cuts the text. *)
Lemma Contains_cut p a d w : d ∉ p -> Contains p (a ++ d :: w) = Contains p a || Contains p w.
Proof.
  intros Hd. apply Bool.eq_iff_eq_true. rewrite orb_true_iff, !Contains_spec. split.
  - intros (l & r & H). rewrite app_assoc in H. symmetry in H. apply app_eq_app in H as (k & [[H1 H2]|[H1 H2]]).
    + destruct k as [|e k]; [rewrite app_nil_r in H1; left; exists l, []; by rewrite app_nil_r|]. injection H2 as <- Hw.
      apply app_eq_app in H1 as (k2 & [[H1 H3]|[H1 H3]]).
      * destruct k2 as [|e k2]; [|injection H3 as <- ->; right; by exists k2, r; rewrite Hw, <- app_assoc].
        simpl in H3. subst p. destruct Hd. by left.
      * subst p. destruct Hd. apply elem_of_app. right. by left.
    + left. exists l, k. by rewrite H1, <- app_assoc.
  - intros [(l & r & ->)|(l & r & ->)].
    + exists l, (r ++ d :: w). by rewrite <- !app_assoc.
    + exists (a ++ d :: l), r. by rewrite <- app_assoc.
Qed.

(** ** A formatted line, without its digits *)

(** Digits and the decimal point: every number has one, and the reader's patterns
    none. *)
Definition cutter (c : ascii) : bool :=
  let n := nat_of_ascii c in ((48 <=? n)%nat && (n <=? 57)%nat) || (n =? 46)%nat.
Definition pattern_ok (p : cstr) : bool := forallb (fun c => negb (cutter c)) p.

(** A value of the argument's type. *)
Definition arg_ok (a : arg) : Prop :=
  match a with
  | ALlu z | AZu z => is_u64 z
  | AU z => is_u32 z
  | ALld z => - 2 ^ 63 <= z < 2 ^ 63
  | AD z => - 2 ^ 31 <= z < 2 ^ 31
  | AS s => plain s /\ s <> [] /\ (length s <= 64)%nat
  | AF4 x => exists n, x = DFin false n /\ 0 <= tenthousandths n < 2 ^ 64
  end.
Definition is_number (a : arg) : bool := match a with AS _ => false | _ => true end.

Lemma cutter_digit d : 0 <= d < 10 -> cutter (digit_char d) = true.
Proof.
  intros Hd. assert (H : exists n, (n < 10)%nat /\ d = Z.of_nat n) by (exists (Z.to_nat d); lia).
  destruct H as (n & Hn & ->). do 10 (destruct n as [|n]; [done|]). lia.
Qed.
Lemma cutter_digits ds : digits_ok 10 ds -> Forall (fun c => cutter c = true) (digit_char <$> ds).
Proof. intros H. apply Forall_fmap. eapply List.Forall_impl; [|exact H]. intros d Hd. by apply cutter_digit. Qed.
Lemma cutter_dec z : 0 <= z < 2 ^ 64 -> put_dec z <> [] /\ Forall (fun c => cutter c = true) (put_dec z).
Proof.
  intros Hz. destruct (put_dec_digits z) as (ds & -> & Hne & H). destruct (H Hz) as [Hds _].
  split; [by destruct ds|by apply cutter_digits].
Qed.
Lemma cutter_plain s : Forall (fun c => cutter c = true) s -> plain s.
Proof.
  intros H. eapply List.Forall_impl; [|exact H]. intros c. unfold cutter, is_space. generalize (nat_of_ascii c). intros n Hn.
  apply orb_true_iff in Hn. rewrite andb_true_iff, !Nat.leb_le, Nat.eqb_eq in Hn. apply orb_false_iff. split; [apply Nat.eqb_neq; lia|].
  apply andb_false_iff. rewrite !Nat.leb_gt. lia.
Qed.

(** A number is a sign, perhaps, and then digits and a point. *)
Lemma number_text a :
  arg_ok a -> is_number a = true ->
  exists sg ds, text a = sg ++ ds /\ (sg = [] \/ sg = ["-"%char]) /\ ds <> [] /\ Forall (fun c => cutter c = true) ds.
Proof.
  assert (Hs : forall z, - 2 ^ 63 <= z < 2 ^ 63 ->
    exists sg ds, put_signed z = sg ++ ds /\ (sg = [] \/ sg = ["-"%char]) /\ ds <> [] /\ Forall (fun c => cutter c = true) ds).
  { intros z Hz. unfold put_signed. destruct (Z.ltb_spec z 0).
    - destruct (cutter_dec (- z) ltac:(lia)). exists ["-"%char], (put_dec (- z)). eauto.
    - destruct (cutter_dec z ltac:(lia)). exists [], (put_dec z). eauto. }
  intros Ha Hn. destruct a as [z|z|z|z|z|s|x]; simpl in *; try done; try (apply Hs; lia).
  1-3: destruct (cutter_dec z) as [H1 H2]; [unfold is_u64, is_u32 in Ha; lia|exists [], (put_dec z); eauto].
  destruct Ha as (n & -> & Hn'). exists [], (put_frac4 (tenthousandths n)). split; [done|]. split; [by left|]. unfold put_frac4.
  set (t := tenthousandths n) in *. assert (0 <= t / 10000 < 2 ^ 64) by (split; [apply Z.div_pos; lia|apply Z.div_lt_upper_bound; lia]).
  destruct (cutter_dec (t / 10000)) as [H1 H2]; [done|]. split; [by intros [_ ?]%app_eq_nil|].
  apply Forall_app. split; [done|]. constructor; [done|]. apply cutter_digits.
  repeat constructor; by apply Z.mod_pos_bound.
Qed.

Lemma text_word a : arg_ok a -> plain (text a) /\ text a <> [].
Proof.
  intros Ha. destruct (is_number a) eqn:En; [|destruct a; try done; by destruct Ha as (? & ? & _)].
  destruct (number_text a Ha En) as (sg & ds & -> & Hsg & Hne & Hc). split.
  - apply Forall_app. split; [destruct Hsg as [->| ->]; repeat constructor|by apply cutter_plain].
  - destruct Hsg as [->| ->]; [done|done].
Qed.

Lemma to_digits_fuel fuel base z : (length (to_digits fuel base z) <= fuel)%nat.
Proof.
  revert z. induction fuel as [|fuel IH]; intros z; simpl; [lia|]. destruct (z <? base); [simpl; lia|].
  rewrite length_app. specialize (IH (z / base)). simpl. lia.
Qed.
Lemma text_length a : arg_ok a -> (length (text a) <= 70)%nat.
Proof.
  assert (Hd : forall z, (length (put_dec z) <= 64)%nat) by (intros z; unfold put_dec; rewrite length_fmap; apply to_digits_fuel).
  intros Ha. destruct a as [z|z|z|z|z|s|x]; simpl; try (specialize (Hd z); lia).
  1, 2: unfold put_signed; case_match; [specialize (Hd (- z)); simpl; lia|specialize (Hd z); lia].
  - destruct Ha as (_ & _ & ?). lia.
  - destruct Ha as (n & -> & _). cbn [put_f4 app]. unfold put_frac4. rewrite length_app. cbn [length fmap list_fmap].
    specialize (Hd (tenthousandths n / 10000)). lia.
Qed.
Lemma fill_length ps args : Forall arg_ok args -> (length (fill ps args) <= length ps + 70 * length args)%nat.
Proof.
  revert args. induction ps as [|[c|sp] ps IH]; intros args Ha; cbn [fill length]; [lia|specialize (IH args Ha); lia|].
  destruct args as [|a args]; [specialize (IH [] Ha); lia|]. apply Forall_cons_1 in Ha as [Ha Has]. specialize (IH args Has).
  rewrite length_app. cbn [length]. pose proof (text_length a Ha). case_decide; simpl in *; lia.
Qed.

(** What stands between the numbers. *)
Fixpoint segments (ps : list piece) (args : list arg) (cur : cstr) : list cstr :=
  match ps with
  | [] => [cur]
  | PChar c :: r => segments r args (cur ++ [c])
  | PSpec _ :: r =>
      match args with
      | AS s :: args => segments r args (cur ++ s)
      | _ :: args => cur :: segments r args []
      | [] => segments r [] cur
      end
  end.

Lemma pattern_cut p c : pattern_ok p = true -> cutter c = true -> c ∉ p.
Proof.
  unfold pattern_ok. rewrite forallb_forall. intros Hp Hc Hin. apply list_elem_of_In in Hin. apply Hp in Hin. by rewrite Hc in Hin.
Qed.

Lemma Contains_number p a ds b :
  pattern_ok p = true -> ds <> [] -> Forall (fun c => cutter c = true) ds -> p <> [] ->
  Contains p (a ++ ds ++ b) = Contains p a || Contains p b.
Proof.
  intros Hp Hne Hds Hnil. destruct Hds as [|c ds Hc Hds]; [done|]. clear Hne. revert a c Hc. induction Hds as [|c' ds Hc' _ IH]; intros a c Hc.
  - simpl. by rewrite (Contains_cut p a c b (pattern_cut p c Hp Hc)).
  - cbn [app]. rewrite (Contains_cut p a c _ (pattern_cut p c Hp Hc)). specialize (IH [] c' Hc'). cbn [app] in IH. rewrite IH.
    assert (E : Contains p [] = false) by (by destruct p). by rewrite E.
Qed.

(** A pattern that is in no segment, not even one followed by a minus sign, is not
    in the line. *)
Lemma Contains_fill_none p ps args cur :
  pattern_ok p = true -> p <> [] -> matched ps args = true -> Forall arg_ok args ->
  forallb (fun s => negb (Contains p s) && negb (Contains p (s ++ ["-"%char]))) (segments ps args cur) = true ->
  Contains p (cur ++ fill ps args) = false.
Proof.
  intros Hp Hnil. revert args cur. induction ps as [|[c|sp] ps IH]; intros args cur Hm Ha Hs.
  - simpl in *. rewrite app_nil_r. rewrite andb_true_r in Hs. apply andb_true_iff in Hs as [Hs _]. by apply negb_true_iff in Hs.
  - cbn [fill segments matched] in *. rewrite cons_middle, app_assoc. by apply IH.
  - cbn [matched] in Hm. destruct args as [|a args]; [done|]. apply andb_true_iff in Hm as [Hsp Hm].
    apply bool_decide_eq_true in Hsp. apply Forall_cons_1 in Ha as [Ha Has]. cbn [fill]. rewrite decide_True by done.
    destruct (is_number a) eqn:En; [|destruct a; try done; cbn [segments text] in *; rewrite app_assoc; by apply IH].
    assert (Hs' : forallb (fun s => negb (Contains p s) && negb (Contains p (s ++ ["-"%char]))) (cur :: segments ps args []) = true)
      by (by destruct a). clear Hs. cbn [forallb] in Hs'. apply andb_true_iff in Hs' as [Hc Hs].
    apply andb_true_iff in Hc as [Hc1 Hc2]. apply negb_true_iff in Hc1, Hc2. specialize (IH args [] Hm Has Hs). cbn [app] in IH.
    destruct (number_text a Ha En) as (sg & ds & -> & [->| ->] & Hne & Hds).
    + cbn [app]. by rewrite Contains_number, Hc1, IH by done.
    + rewrite <- (app_assoc ["-"%char] ds), app_assoc. by rewrite Contains_number, Hc2, IH by done.
Qed.

(** A segment is in the line. *)
Lemma Contains_fill_some p ps args cur :
  matched ps args = true -> existsb (Contains p) (segments ps args cur) = true -> Contains p (cur ++ fill ps args) = true.
Proof.
  assert (Hmono : forall l s r, Contains p s = true -> Contains p (l ++ s ++ r) = true).
  { intros l s r. rewrite !Contains_spec. intros (l' & r' & ->). exists (l ++ l'), (r' ++ r). by rewrite <- !app_assoc. }
  revert args cur. induction ps as [|[c|sp] ps IH]; intros args cur Hm Hs.
  - simpl in *. rewrite app_nil_r. by rewrite orb_false_r in Hs.
  - cbn [fill segments matched] in *. rewrite cons_middle, app_assoc. by apply IH.
  - cbn [matched] in Hm. destruct args as [|a args]; [done|]. apply andb_true_iff in Hm as [Hsp Hm]. apply bool_decide_eq_true in Hsp.
    cbn [fill]. rewrite decide_True by done.
    destruct (is_number a) eqn:En; [|destruct a; try done; cbn [segments text] in *; rewrite app_assoc; by apply IH].
    assert (Hs' : existsb (Contains p) (cur :: segments ps args []) = true) by (by destruct a).
    cbn [existsb] in Hs'. apply orb_true_iff in Hs' as [Hc|Hs']; [by apply (Hmono [])|].
    specialize (IH args [] Hm Hs'). cbn [app] in IH. rewrite <- (app_nil_r (fill ps args)), app_assoc. by apply Hmono.
Qed.

(** ** strings.Fields, and the key=value tokens *)

(** A part of a token: a character, or a number. *)
Abbreviation item := (ascii + arg)%type.
Definition flat (l : list item) : cstr := l ≫= (fun i => match i with inl c => [c] | inr a => text a end).
Definition item_ok (i : item) : Prop := match i with inl c => is_space c = false | inr a => arg_ok a end.

Fixpoint tokens (ps : list piece) (args : list arg) (cur : list item) : list (list item) :=
  match ps with
  | [] => match cur with [] => [] | _ => [cur] end
  | PChar c :: r =>
      if is_space c then match cur with [] => tokens r args [] | _ => cur :: tokens r args [] end
      else tokens r args (cur ++ [inl c])
  | PSpec _ :: r =>
      match args with
      | AS s :: args => tokens r args (cur ++ map inl s)
      | a :: args => tokens r args (cur ++ [inr a])
      | [] => tokens r [] cur
      end
  end.

Lemma flat_app l l' : flat (l ++ l') = flat l ++ flat l'.
Proof. apply bind_app. Qed.
Lemma flat_chars s : flat (map inl s) = s.
Proof. induction s as [|c s IH]; [done|]. change (c :: flat (map inl s) = c :: s). by rewrite IH. Qed.
Lemma flat_plain l : Forall item_ok l -> plain (flat l).
Proof.
  induction 1 as [|[c|a] l Hi _ IH]; [constructor| |].
  - change (plain (c :: flat l)). by constructor.
  - change (plain (text a ++ flat l)). apply Forall_app. split; [by apply text_word|done].
Qed.
Lemma flat_nil l : Forall item_ok l -> flat l = [] -> l = [].
Proof.
  intros H. destruct H as [|[c|a] l Hi _]; [done|done|]. change (text a ++ flat l = [] -> inr a :: l = []).
  intros [E _]%app_eq_nil. destruct (text_word a Hi). done.
Qed.

Lemma Fields_fill ps args cur :
  matched ps args = true -> Forall arg_ok args -> Forall item_ok cur ->
  Fields (flat cur ++ fill ps args) = map flat (tokens ps args cur).
Proof.
  revert args cur. induction ps as [|[c|sp] ps IH]; intros args cur Hm Ha Hc.
  - cbn [fill tokens]. destruct cur as [|i cur]; [done|].
    rewrite Fields_word; [done| |by apply flat_plain|done]. by intros E%(flat_nil _ Hc).
  - cbn [fill tokens matched] in *. destruct (is_space c) eqn:Es.
    + assert (E : Fields (c :: fill ps args) = Fields (fill ps args)) by (simpl; by rewrite Es).
      specialize (IH args [] Hm Ha (List.Forall_nil _)). cbn [flat mbind app] in IH. change (flat []) with (@nil ascii) in IH. cbn [app] in IH.
      destruct cur as [|i cur]; [by rewrite <- IH, <- E|].
      rewrite Fields_word; [|by intros H%(flat_nil _ Hc)|by apply flat_plain|done]. by rewrite E, IH.
    + rewrite <- IH; [|done|done|apply Forall_app; by repeat constructor]. rewrite flat_app, <- app_assoc. done.
  - cbn [matched] in Hm. destruct args as [|a args]; [done|]. apply andb_true_iff in Hm as [Hsp Hm]. apply bool_decide_eq_true in Hsp.
    apply Forall_cons_1 in Ha as [Ha Has]. cbn [fill]. rewrite decide_True by done. rewrite app_assoc.
    destruct (is_number a) eqn:En.
    + assert (E : tokens (PSpec sp :: ps) (a :: args) cur = tokens ps args (cur ++ [inr a])) by (by destruct a). rewrite E.
      rewrite <- IH; [|done|done|apply Forall_app; split; [done|by repeat constructor]]. rewrite flat_app. f_equal. f_equal.
      unfold flat. simpl. by rewrite app_nil_r.
    + destruct a as [| | | | |s|]; try done. cbn [tokens text].
      rewrite <- IH; [|done|done|]; [by rewrite flat_app, flat_chars|]. apply Forall_app. split; [done|]. apply Forall_map.
      destruct Ha as [Ha _]. exact Ha.
Qed.

(** A token with '=' after its first character: key and value. *)
Definition key_value (tok : cstr) : option (cstr * cstr) :=
  match Cut tok "="%char with Some (c :: k, v) => Some (c :: k, v) | _ => None end.
(** [newKeyValues] and the lookup in it: the last token of the key counts. *)
Definition kv_get (k : cstr) (line : cstr) : option cstr :=
  foldl (fun r tok => match key_value tok with Some (k', v) => if decide (k' = k) then Some v else r | None => r end) None (Fields line).

(** The same on a token of a format; undecided when a number comes before '='. *)
Fixpoint item_cut (l : list item) : option (option (cstr * list item)) :=
  match l with
  | [] => Some None
  | inl c :: l =>
      if decide (c = "="%char) then Some (Some ([], l))
      else match item_cut l with Some (Some (k, v)) => Some (Some (c :: k, v)) | r => r end
  | inr _ :: _ => None
  end.
Definition item_get (k : cstr) (toks : list (list item)) : option (list item) :=
  foldl (fun r tok => match item_cut tok with
                      | Some (Some (c :: k', v)) => if decide (c :: k' = k) then Some v else r
                      | _ => r
                      end) None toks.
Definition decided (tok : list item) : bool := match item_cut tok with None => false | _ => true end.

Lemma item_cut_flat l r : item_cut l = Some r -> Cut (flat l) "="%char = (fun x => (x.1, flat x.2)) <$> r.
Proof.
  revert r. induction l as [|[c|a] l IH]; intros r H; [by injection H as <-| |done]. cbn [item_cut] in H.
  change (flat (inl c :: l)) with (c :: flat l). cbn [Cut]. case_decide; [by injection H as <-|].
  destruct (item_cut l) as [[[k v]|]|]; [| |done]; injection H as <-; by rewrite (IH _ eq_refl).
Qed.

Lemma kv_fill k ps args :
  matched ps args = true -> Forall arg_ok args -> forallb decided (tokens ps args []) = true ->
  kv_get k (fill ps args) = flat <$> item_get k (tokens ps args []).
Proof.
  intros Hm Ha Hd. unfold kv_get, item_get. pose proof (Fields_fill ps args [] Hm Ha (List.Forall_nil _)) as E.
  change (flat []) with (@nil ascii) in E. cbn [app] in E. rewrite E. clear E.
  assert (H : forall r : option (list item), foldl (fun r tok => match key_value tok with Some (k', v) => if decide (k' = k) then Some v else r | None => r end)
    (flat <$> r) (map flat (tokens ps args [])) = flat <$> foldl (fun r tok => match item_cut tok with
                      | Some (Some (c :: k', v)) => if decide (c :: k' = k) then Some v else r
                      | _ => r
                      end) r (tokens ps args [])); [|apply (H None)].
  induction (tokens ps args []) as [|tok l IH]; intros r; [done|]. cbn [forallb] in Hd. apply andb_true_iff in Hd as [Ht Hd].
  cbn [map foldl]. rewrite <- IH by done. f_equal. unfold decided in Ht. destruct (item_cut tok) as [o|] eqn:Ei; [|done].
  unfold key_value. rewrite (item_cut_flat tok o Ei). destruct o as [[[|c k'] v]|]; [done| |done]. cbn. by case_decide.
Qed.
