(* ===== verification/Launch.v ===== *)
(** * Launch: from the application's launches and CUPTI's activity to the wire

    Models, of src/shim/nvidia/cupti_adapter.cc, the launch arms of
    [on_callback] with their nesting depth, [on_launch], [emit_name_if_new],
    [hash_name], [note_device] and [handle_kernel].  [on_launch] runs on any
    number of application threads at once, so it is a sequence of steps, one for
    each access to shared state; [should_sample] and [intern] are one step each
    (Sampler and Replay treat what happens inside them).  What a reading of a
    probe's semaphore finds is part of the step that reads it. *)
From S2P Require Import Prelude Tables GpuUsdt Abi Batch Sampler Timers Replay Adapter.

(** ** Kernel names and ids *)

Definition fnv_step (h c : Z) : Z := u64 (Z.lxor h c * 1099511628211).

(** The bytes of a C string; [None] is the null pointer. *)
Definition unknown_name : list Z := [60; 117; 110; 107; 110; 111; 119; 110; 62].
Definition hash_name (s : option (list Z)) : Z :=
  let h := foldl fnv_step 1469598103934665603 (default unknown_name s) in
  if h =? 0 then 1 else h.

(** ** The callbacks of a launch *)

(** The runtime entry points of [is_launch_cbid] and the driver's of
    [is_driver_launch_cbid]; any other callback id is [OtherCbid]. *)
Inductive cbid :=
| cudaLaunchKernel_v7000 | cudaLaunchKernel_ptsz_v7000 | cudaLaunchKernelExC_v11060
| cudaLaunchKernelExC_ptsz_v11060 | cudaLaunchKernel_v13000 | cudaLaunchKernel_ptsz_v13000
| cuLaunchKernel | cuLaunchKernel_ptsz | cuLaunchKernelEx | cuLaunchKernelEx_ptsz
| cuLaunchCooperativeKernel | cuLaunchCooperativeKernel_ptsz
| OtherCbid (n : Z).
Inductive domain := RuntimeApi | DriverApi.
Inductive site := ApiEnter | ApiExit.

Definition is_launch_cbid (c : cbid) : bool :=
  match c with
  | cudaLaunchKernel_v7000 | cudaLaunchKernel_ptsz_v7000 | cudaLaunchKernelExC_v11060
  | cudaLaunchKernelExC_ptsz_v11060 | cudaLaunchKernel_v13000 | cudaLaunchKernel_ptsz_v13000 => true
  | _ => false
  end.
Definition is_driver_launch_cbid (c : cbid) : bool :=
  match c with
  | cuLaunchKernel | cuLaunchKernel_ptsz | cuLaunchKernelEx | cuLaunchKernelEx_ptsz
  | cuLaunchCooperativeKernel | cuLaunchCooperativeKernel_ptsz => true
  | _ => false
  end.

(** The fields of CUpti_CallbackData the adapter reads. *)
Record callback_data := CallbackData { cb_correlationId : Z; cb_symbolName : option (list Z); cb_contextUid : Z }.
Record api_event := ApiEvent { ev_domain : domain; ev_cbid : cbid; ev_site : site; ev_data : callback_data }.

(** The launch arms of [on_callback]: whether [on_launch] is called, and the
    thread's [g_rt_launch_depth] afterwards. *)
Definition on_callback (e : api_event) (depth : Z) : bool * Z :=
  match ev_domain e with
  | DriverApi =>
      if negb (is_driver_launch_cbid (ev_cbid e)) then (false, depth)
      else if 0 <? depth then (false, depth)
      else match ev_site e with ApiEnter => (true, depth) | ApiExit => (false, depth) end
  | RuntimeApi =>
      if negb (is_launch_cbid (ev_cbid e)) then (false, depth)
      else match ev_site e with
           | ApiEnter => (true, depth + 1)
           | ApiExit => (false, if 0 <? depth then depth - 1 else depth)
           end
  end.

(** ** [on_launch] *)

Inductive wire_event :=
| EvName (seq : Z) (r : gpu_kernel_name_v1)
| EvSampled (seq : Z) (r : gpu_launch_sampled_v1)
| EvLaunch (f : fire gpu_launch_v1).

(** Where a thread is inside [on_launch]. *)
Inductive lpc :=
| AtOrdinal (cb : callback_data)
| AtSample (cb : callback_data) (ordinal : Z)
| AtGate (cb : callback_data) (ordinal : Z) (sample : bool)
| AtName (cb : callback_data) (ordinal : Z) (sample : bool)
| AtCorrelate (cb : callback_data) (ordinal : Z) (sample : bool)
| AtSampled (ordinal : Z) (sample : bool) (l : gpu_launch_v1)
| AtAdd (ordinal : Z) (sample : bool) (l : gpu_launch_v1).

Record launch_state := MkLaunch {
  g_launch_ordinal : Z;
  g_sampler : sampler;
  g_corr : Z;
  g_names : KernelNameTable;
  g_name_seq : Z;
  g_sampled_seq : Z;
  g_lb : Batch_t (T := gpu_launch_v1);
  lb_fires : list (fire gpu_launch_v1);
  wire : list wire_event;
  g_launch_unattached : Z;
  g_rt_launch_depth : gmap Z Z;
  inside : gmap Z lpc;
  (** what was called, skipped and added so far *)
  issued : list (Z * callback_data);
  skipped : list (Z * callback_data);
  queued : list (Z * bool * gpu_launch_v1);
}.

Definition launch_init (period seed : Z) (junk : list gpu_launch_v1) : launch_state :=
  MkLaunch 0 (Sampler_init period seed) 0 KernelNameTable_init 0 0 (Batch_init junk) [] [] 0 ∅ ∅ [] [] [].

Definition goto (t : Z) (p : option lpc) (s : launch_state) : launch_state :=
  MkLaunch (g_launch_ordinal s) (g_sampler s) (g_corr s) (g_names s) (g_name_seq s) (g_sampled_seq s) (g_lb s)
    (lb_fires s) (wire s) (g_launch_unattached s) (g_rt_launch_depth s)
    (match p with Some p => <[t := p]> (inside s) | None => delete t (inside s) end) (issued s) (skipped s) (queued s).

(** A callback on thread [t]. *)
Definition callback (t : Z) (e : api_event) (s : launch_state) : launch_state :=
  let depth := default 0 (g_rt_launch_depth s !! t) in
  let '(launch, depth) := on_callback e depth in
  let s := MkLaunch (g_launch_ordinal s) (g_sampler s) (g_corr s) (g_names s) (g_name_seq s) (g_sampled_seq s) (g_lb s)
    (lb_fires s) (wire s) (g_launch_unattached s) (<[t := depth]> (g_rt_launch_depth s)) (inside s)
    (if launch then issued s ++ [(t, ev_data e)] else issued s) (skipped s) (queued s) in
  if launch then goto t (Some (AtOrdinal (ev_data e))) s else s.

Definition emit_name_if_new (en en' : bool) (kernel_id : Z) (name : option (list Z)) (s : launch_state) : launch_state :=
  if negb en then s
  else
    let '(r, names) := intern kernel_id (Some (default unknown_name name)) (g_names s) in
    let hit := match r with Some _ => en' | None => false end in
    MkLaunch (g_launch_ordinal s) (g_sampler s) (g_corr s) names
      (if hit then u64 (g_name_seq s + 1) else g_name_seq s) (g_sampled_seq s) (g_lb s) (lb_fires s)
      (match r with Some r => if en' then wire s ++ [EvName (g_name_seq s) r] else wire s | None => wire s end)
      (g_launch_unattached s) (g_rt_launch_depth s) (inside s) (issued s) (skipped s) (queued s).

(** [g_lb->add(l)] and [g_lb->flush()]: the firings go out on the wire. *)
Definition put_lb (b : Batch_t) (fs : list (fire gpu_launch_v1)) (q : list (Z * bool * gpu_launch_v1)) (s : launch_state) : launch_state :=
  MkLaunch (g_launch_ordinal s) (g_sampler s) (g_corr s) (g_names s) (g_name_seq s) (g_sampled_seq s) b fs
    (wire s ++ map EvLaunch (drop (length (lb_fires s)) fs)) (g_launch_unattached s) (g_rt_launch_depth s) (inside s)
    (issued s) (skipped s) q.

(** The readings of the probes' semaphores a step makes, and the clock. *)
Record answers := Answers { en1 : bool; en2 : bool; clock : Z }.

(** One step of [on_launch] on thread [t]. *)
Definition launch_go (t : Z) (a : answers) (s : launch_state) : option launch_state :=
  match inside s !! t with
  | Some (AtOrdinal cb) =>
      Some (goto t (Some (AtSample cb (g_launch_ordinal s)))
        (MkLaunch (u64 (g_launch_ordinal s + 1)) (g_sampler s) (g_corr s) (g_names s) (g_name_seq s) (g_sampled_seq s)
           (g_lb s) (lb_fires s) (wire s) (g_launch_unattached s) (g_rt_launch_depth s) (inside s) (issued s) (skipped s) (queued s)))
  | Some (AtSample cb ordinal) =>
      let '(hit, sm) := should_sample (g_sampler s) in
      Some (goto t (Some (AtGate cb ordinal hit))
        (MkLaunch (g_launch_ordinal s) sm (g_corr s) (g_names s) (g_name_seq s) (g_sampled_seq s)
           (g_lb s) (lb_fires s) (wire s) (g_launch_unattached s) (g_rt_launch_depth s) (inside s) (issued s) (skipped s) (queued s)))
  | Some (AtGate cb ordinal sample) =>
      if negb (en1 a) && negb (en2 a) then
        Some (goto t None
          (MkLaunch (g_launch_ordinal s) (g_sampler s) (g_corr s) (g_names s) (g_name_seq s) (g_sampled_seq s)
             (g_lb s) (lb_fires s) (wire s) (u64 (g_launch_unattached s + 1)) (g_rt_launch_depth s) (inside s)
             (issued s) (skipped s ++ [(t, cb)]) (queued s)))
      else Some (goto t (Some (AtName cb ordinal sample)) s)
  | Some (AtName cb ordinal sample) =>
      Some (goto t (Some (AtCorrelate cb ordinal sample))
        (emit_name_if_new (en1 a) (en2 a) (hash_name (cb_symbolName cb)) (cb_symbolName cb) s))
  | Some (AtCorrelate cb ordinal sample) =>
      let '(corr, cur) := correlate_launch (cb_correlationId cb) (g_corr s) in
      let l := GpuLaunch corr (hash_name (cb_symbolName cb)) 0 (cb_contextUid cb) (clock a) t 0 in
      Some (goto t (Some (AtSampled ordinal sample l))
        (MkLaunch (g_launch_ordinal s) (g_sampler s) cur (g_names s) (g_name_seq s) (g_sampled_seq s)
           (g_lb s) (lb_fires s) (wire s) (g_launch_unattached s) (g_rt_launch_depth s) (inside s) (issued s) (skipped s) (queued s)))
  | Some (AtSampled ordinal sample l) =>
      let fired := sample && en1 a in
      let r := GpuLaunchSampled (l_correlation l) (l_kernel_id l) 0 (l_context_id l) (l_time_ns l) (l_tid l)
                 (period_ (g_sampler s)) ordinal in
      Some (goto t (Some (AtAdd ordinal fired l))
        (MkLaunch (g_launch_ordinal s) (g_sampler s) (g_corr s) (g_names s) (g_name_seq s)
           (if fired then u64 (g_sampled_seq s + 1) else g_sampled_seq s) (g_lb s) (lb_fires s)
           (if fired then wire s ++ [EvSampled (g_sampled_seq s) r] else wire s)
           (g_launch_unattached s) (g_rt_launch_depth s) (inside s) (issued s) (skipped s) (queued s)))
  | Some (AtAdd ordinal sample l) =>
      let '(_, (b, fs)) := add 32 log_emit l (en1 a) (en2 a) (g_lb s) (lb_fires s) in
      Some (goto t None (put_lb b fs (queued s ++ [(ordinal, sample, l)]) s))
  | None => None
  end.

Inductive launch_op :=
| Callback (t : Z) (e : api_event)
| Go (t : Z) (a : answers)
| FlushLaunches (en : bool).

Definition launch_next (s : launch_state) (o : launch_op) : option launch_state :=
  match o with
  | Callback t e => if decide (inside s !! t = None) then Some (callback t e s) else None
  | Go t a => launch_go t a s
  | FlushLaunches en => let '(b, fs) := flush log_emit en (g_lb s) (lb_fires s) in Some (put_lb b fs (queued s) s)
  end.
Fixpoint launch_run (s : launch_state) (os : list launch_op) : option launch_state :=
  match os with [] => Some s | o :: os' => launch_next s o ≫= fun s' => launch_run s' os' end.

(** ** One [on_launch] per launch

    What a thread does: a launch through the runtime, with the driver's own
    callbacks inside it, a launch through the driver, or something else. *)
Inductive api_call :=
| RtLaunch (c : cbid) (d : callback_data) (inner : list (cbid * callback_data))
| DrvLaunch (c : cbid) (d : callback_data)
| NoLaunch (e : api_event).

Definition call_ok (x : api_call) : bool :=
  match x with
  | RtLaunch c _ _ => is_launch_cbid c
  | DrvLaunch c _ => is_driver_launch_cbid c
  | NoLaunch e => negb (is_launch_cbid (ev_cbid e)) && negb (is_driver_launch_cbid (ev_cbid e))
  end.

Definition drv_events (x : cbid * callback_data) : list api_event :=
  [ApiEvent DriverApi x.1 ApiEnter x.2; ApiEvent DriverApi x.1 ApiExit x.2].
Definition call_events (x : api_call) : list api_event :=
  match x with
  | RtLaunch c d inner =>
      ApiEvent RuntimeApi c ApiEnter d :: concat (map drv_events inner) ++ [ApiEvent RuntimeApi c ApiExit d]
  | DrvLaunch c d => drv_events (c, d)
  | NoLaunch e => [e]
  end.
(** The launches of a call, one or none. *)
Definition call_launches (x : api_call) : list callback_data :=
  match x with RtLaunch _ d _ | DrvLaunch _ d => [d] | NoLaunch _ => [] end.

Fixpoint dispatched (es : list api_event) (depth : Z) : list callback_data * Z :=
  match es with
  | [] => ([], depth)
  | e :: es' =>
      let '(launch, depth1) := on_callback e depth in
      let '(ds, depth2) := dispatched es' depth1 in
      ((if launch then [ev_data e] else []) ++ ds, depth2)
  end.

Lemma dispatched_app es es' d :
  dispatched (es ++ es') d =
  ((dispatched es d).1 ++ (dispatched es' (dispatched es d).2).1, (dispatched es' (dispatched es d).2).2).
Proof.
  revert d. induction es as [|e es IH]; intros d; simpl; [by destruct (dispatched es' d)|].
  destruct (on_callback e d) as [b d1]. rewrite IH. destruct (dispatched es d1) as [ds d2]. simpl. by rewrite app_assoc.
Qed.

Lemma dispatched_inner inner d : 0 < d -> dispatched (concat (map drv_events inner)) d = ([], d).
Proof.
  intros Hd. induction inner as [|x inner IH]; [done|]. cbn [map concat]. rewrite dispatched_app.
  assert (E : dispatched (drv_events x) d = ([], d)).
  { unfold drv_events. simpl. unfold on_callback. simpl. rewrite (proj2 (Z.ltb_lt _ _)) by lia.
    destruct (is_driver_launch_cbid x.1); simpl; by rewrite ?(proj2 (Z.ltb_lt _ _)) by lia. }
  rewrite E. cbn [fst snd]. by rewrite IH.
Qed.

Lemma dispatched_calls xs : forallb call_ok xs = true ->
  dispatched (concat (map call_events xs)) 0 = (concat (map call_launches xs), 0).
Proof.
  induction xs as [|x xs IH]; intros Hok; [done|]. apply andb_true_iff in Hok as [Hx Hxs]. cbn [map concat].
  rewrite dispatched_app. assert (E : dispatched (call_events x) 0 = (call_launches x, 0)).
  { destruct x as [c d inner|c d|[dom c st d]]; simpl in Hx.
    - cbn [call_events dispatched]. unfold on_callback at 1. simpl. rewrite Hx. simpl.
      rewrite dispatched_app, dispatched_inner by lia. simpl. unfold on_callback. simpl. by rewrite Hx.
    - cbn [call_events dispatched drv_events]. unfold on_callback. simpl. by rewrite Hx.
    - cbn [call_events dispatched]. apply andb_true_iff in Hx as [H1 H2]. apply negb_true_iff in H1, H2.
      unfold on_callback. simpl. destruct dom; by rewrite ?H1, ?H2. }
  rewrite E. cbn [fst snd]. by rewrite IH.
Qed.

(** ** The machine *)

Definition events_of (t : Z) (os : list launch_op) : list api_event :=
  omap (fun o => match o with Callback t' e => if decide (t' = t) then Some e else None | _ => None end) os.
Definition issued_by (t : Z) (s : launch_state) : list callback_data :=
  omap (fun x => if decide (x.1 = t) then Some x.2 else None) (issued s).
Definition depth_of (t : Z) (s : launch_state) : Z := default 0 (g_rt_launch_depth s !! t).

Lemma goto_rest t p s : issued (goto t p s) = issued s /\ g_rt_launch_depth (goto t p s) = g_rt_launch_depth s.
Proof. done. Qed.

Lemma go_rest t a s s' : launch_go t a s = Some s' -> issued s' = issued s /\ g_rt_launch_depth s' = g_rt_launch_depth s.
Proof.
  unfold launch_go, emit_name_if_new. intros H. repeat (case_match; simplify_eq/=; try done).
Qed.

Lemma issued_run t os s s' :
  launch_run s os = Some s' ->
  issued_by t s' = issued_by t s ++ (dispatched (events_of t os) (depth_of t s)).1 /\
  depth_of t s' = (dispatched (events_of t os) (depth_of t s)).2.
Proof.
  revert s. induction os as [|o os IH]; intros s Hrun; simpl in Hrun; [simplify_eq; simpl; by rewrite app_nil_r|].
  destruct (launch_next s o) as [s1|] eqn:E; [|done]. simpl in Hrun. destruct (IH _ Hrun) as [-> ->]. clear IH Hrun.
  destruct o as [t' e|t' a|en]; simpl in E.
  - case_decide; [|done]. injection E as <-. unfold callback. destruct (on_callback e _) as [b d] eqn:Eb.
    assert (Hs : forall b s1 p, issued_by t (if b : bool then goto t' p s1 else s1) = issued_by t s1 /\
      depth_of t (if b then goto t' p s1 else s1) = depth_of t s1) by (by intros [] ? ?).
    destruct (Hs b (MkLaunch (g_launch_ordinal s) (g_sampler s) (g_corr s) (g_names s) (g_name_seq s) (g_sampled_seq s) (g_lb s)
      (lb_fires s) (wire s) (g_launch_unattached s) (<[t' := d]> (g_rt_launch_depth s)) (inside s)
      (if b then issued s ++ [(t', ev_data e)] else issued s) (skipped s) (queued s)) (Some (AtOrdinal (ev_data e)))) as [-> ->].
    unfold issued_by, depth_of, events_of. simpl. destruct (decide (t' = t)) as [->|Hne]; simpl.
    + rewrite lookup_insert_eq. simpl. unfold depth_of in Eb. rewrite Eb. destruct (dispatched _ d) as [ds d2]. simpl.
      destruct b; simpl; [|done]. rewrite omap_app. simpl. by rewrite decide_True, <- app_assoc.
    + rewrite lookup_insert_ne by done. destruct b; [|done]. rewrite omap_app. simpl. by rewrite decide_False, app_nil_r.
  - destruct (go_rest _ _ _ _ E) as [E1 E2]. unfold issued_by, depth_of. by rewrite E1, E2.
  - destruct (flush log_emit en (g_lb s) (lb_fires s)) as [b fs]. by injection E as <-.
Qed.

(** What identifies a launch in its record. *)
Definition launch_key : Type := Z * Z * Z.
Definition key_of (x : Z * callback_data) : launch_key := (x.1, hash_name (cb_symbolName x.2), cb_contextUid x.2).
Definition record_key (l : gpu_launch_v1) : launch_key := (l_tid l, l_kernel_id l, l_context_id l).
Definition pc_key (x : Z * lpc) : launch_key :=
  match x.2 with
  | AtOrdinal cb | AtSample cb _ | AtGate cb _ _ | AtName cb _ _ | AtCorrelate cb _ _ => key_of (x.1, cb)
  | AtSampled _ _ l | AtAdd _ _ l => record_key l
  end.
Definition pending_keys (m : gmap Z lpc) : list launch_key := map pc_key (map_to_list m).

Lemma pending_insert m t p : m !! t = None -> pending_keys (<[t := p]> m) ≡ₚ pc_key (t, p) :: pending_keys m.
Proof. intros H. unfold pending_keys. rewrite (map_to_list_insert m t p H). done. Qed.
Lemma pending_delete m t p : m !! t = Some p -> pc_key (t, p) :: pending_keys (delete t m) ≡ₚ pending_keys m.
Proof. intros H. unfold pending_keys. by rewrite <- (map_to_list_delete m t p H). Qed.
Lemma pending_update m t p p' : m !! t = Some p -> pc_key (t, p') = pc_key (t, p) -> pending_keys (<[t := p']> m) ≡ₚ pending_keys m.
Proof.
  intros H E. rewrite <- (insert_delete_eq m). rewrite pending_insert by apply lookup_delete_eq. rewrite E. by apply pending_delete.
Qed.

(** The sampled record of launch [ordinal] is on the wire. *)
Definition twin_in (w : list wire_event) (ordinal : Z) (l : gpu_launch_v1) : Prop :=
  exists seq r, EvSampled seq r ∈ w /\ s_launch_seq r = ordinal /\ s_correlation r = l_correlation l /\ s_kernel_id r = l_kernel_id l /\
    s_context_id r = l_context_id l /\ s_time_ns r = l_time_ns l /\ s_tid r = l_tid l.

Definition fires_of (w : list wire_event) : list (fire gpu_launch_v1) :=
  omap (fun e => match e with EvLaunch f => Some f | _ => None end) w.

(** Every launch record on the wire is one that was added, and its twin, if it
    has one, was sent before. *)
Definition twins_first (w : list wire_event) (q : list (Z * bool * gpu_launch_v1)) : Prop :=
  forall w1 f w2, w = w1 ++ EvLaunch f :: w2 -> forall l, l ∈ f_recs f ->
    exists n b, (n, b, l) ∈ q /\ (b = true -> twin_in w1 n l).

Record launch_inv (s : launch_state) : Prop := {
  la_keys : map key_of (issued s) ≡ₚ map key_of (skipped s) ++ map (fun x => record_key x.2) (queued s) ++ pending_keys (inside s);
  la_skipped : g_launch_unattached s = u64 (Z.of_nat (length (skipped s)));
  la_batch : batch_inv 32 32 (map snd (queued s)) (g_lb s, lb_fires s);
  la_fires : fires_of (wire s) = lb_fires s;
  la_twin : forall n l, (n, true, l) ∈ queued s \/ (exists t, inside s !! t = Some (AtAdd n true l)) -> twin_in (wire s) n l;
  la_order : twins_first (wire s) (queued s);
}.

Lemma twin_app w w' n l : twin_in w n l -> twin_in (w ++ w') n l.
Proof. intros (seq & r & Hin & H). exists seq, r. split; [|done]. apply elem_of_app. by left. Qed.

Lemma fires_of_app w w' : fires_of (w ++ w') = fires_of w ++ fires_of w'.
Proof. apply omap_app. Qed.

Lemma app_cons_cases {A} (w w1 w2 : list A) x y :
  w ++ [x] = w1 ++ y :: w2 -> (exists w2', w = w1 ++ y :: w2' /\ w2 = w2' ++ [x]) \/ (w1 = w /\ y = x /\ w2 = []).
Proof.
  destruct w2 as [|z w2 _] using rev_ind; intros E.
  - apply app_inj_tail in E as [-> ->]. by right.
  - rewrite app_comm_cons, app_assoc in E. apply app_inj_tail in E as [-> ->]. left. by exists w2.
Qed.

(** An event that is no launch batch. *)
Lemma twins_other w q e : twins_first w q -> fires_of [e] = [] -> twins_first (w ++ [e]) q.
Proof.
  intros H He w1 f w2 E l Hl. apply app_cons_cases in E as [(w2' & -> & _)|(_ & <- & _)]; [by eapply H|done].
Qed.

(** New batches, of records that were added. *)
Lemma twins_fires w q fs :
  twins_first w q -> (forall f l, f ∈ fs -> l ∈ f_recs f -> exists n b, (n, b, l) ∈ q /\ (b = true -> twin_in w n l)) ->
  twins_first (w ++ map EvLaunch fs) q.
Proof.
  intros Hw. induction fs as [|f fs IH] using rev_ind; intros Hf; [by rewrite app_nil_r|].
  rewrite map_app, app_assoc. intros w1 g w2 E l Hl. simpl in E. apply app_cons_cases in E as [(w2' & E & _)|(-> & E & _)].
  - eapply IH; [|exact E|exact Hl]. intros f' l' Hf' Hl'. apply (Hf f'); [|done]. apply elem_of_app. by left.
  - injection E as ->. destruct (Hf f l) as (n & b & Hq & Ht); [apply elem_of_app; right; by apply elem_of_cons; left|done|].
    exists n, b. split; [done|]. intros Hb. by apply twin_app, Ht.
Qed.

Lemma twins_more w q q' : twins_first w q -> twins_first w (q ++ q').
Proof.
  intros H w1 f w2 E l Hl. destruct (H w1 f w2 E l Hl) as (n & b & Hq & Ht). exists n, b. split; [|done]. apply elem_of_app. by left.
Qed.

Lemma fires_of_map fs : fires_of (map EvLaunch fs) = fs.
Proof. induction fs as [|f fs IH]; [done|]. unfold fires_of in *. simpl. f_equal. exact IH. Qed.

(** The batch's firings only grow, by records that were added. *)
Lemma put_lb_ok b fs q s :
  fires_of (wire s) = lb_fires s -> lb_fires s `prefix_of` fs -> batch_inv 32 32 (map snd q) (b, fs) ->
  twins_first (wire s) q -> (forall n l, (n, true, l) ∈ q -> twin_in (wire s) n l) ->
  fires_of (wire (put_lb b fs q s)) = fs /\ twins_first (wire (put_lb b fs q s)) q.
Proof.
  intros Hf [new ->] Hb Hw Ht. simpl. rewrite drop_app_length. split.
  - by rewrite fires_of_app, Hf, fires_of_map.
  - apply twins_fires; [done|]. intros f l Hin Hl.
    assert (Hq : l ∈ map snd q).
    { pose proof (bi_order _ _ _ _ Hb) as Ho. simpl in Ho. eapply elem_of_sublist; [|exact Ho].
      apply elem_of_app. left. rewrite records_app. apply elem_of_app. right. unfold records.
      apply list_elem_of_In, in_concat. exists (f_recs f). split; [|by apply list_elem_of_In].
      apply in_map_iff. exists f. split; [done|]. by apply list_elem_of_In. }
    apply list_elem_of_In, in_map_iff in Hq as ([[n bb] l'] & <- & Hq). apply list_elem_of_In in Hq. exists n, bb.
    split; [done|]. intros ->. by apply Ht.
Qed.

Lemma flush_prefix {T} en (b : Batch_t (T := T)) fs : fs `prefix_of` (flush_locked log_emit en b fs).2.
Proof. unfold flush_locked, log_emit. repeat case_match; simpl; try done. by apply prefix_app_r. Qed.

Lemma add_prefix {T} N (r : T) en en' b fs : fs `prefix_of` (add N log_emit r en en' b fs).2.2.
Proof. unfold add. repeat case_match; simpl; try done. apply flush_prefix. Qed.

(** What a step that adds no launch record leaves alone. *)
Record unmoved (s s' : launch_state) : Prop := {
  um_issued : issued s' = issued s;
  um_skipped : skipped s' = skipped s;
  um_unattached : g_launch_unattached s' = g_launch_unattached s;
  um_lb : g_lb s' = g_lb s;
  um_fires : lb_fires s' = lb_fires s;
  um_queued : queued s' = queued s;
  um_inside : inside s' = inside s;
}.

(** Such a step, with at most one event on the wire; the thread goes on to
    [p']. *)
Lemma inv_advance t p p' s s0 ws :
  launch_inv s -> inside s !! t = Some p -> unmoved s s0 -> pc_key (t, p') = pc_key (t, p) ->
  wire s0 = wire s ++ ws -> fires_of ws = [] -> (length ws <= 1)%nat ->
  (forall n l, p' = AtAdd n true l -> twin_in (wire s0) n l) ->
  launch_inv (goto t (Some p') s0).
Proof.
  intros [K S B F T O] Ep [E1 E2 E3 E4 E5 E6 E7] Hk Ew Hws Hlen Ht.
  split; simpl; rewrite ?E1, ?E2, ?E3, ?E4, ?E5, ?E6, ?E7; try done.
  - by rewrite (pending_update _ t p p').
  - by rewrite Ew, fires_of_app, F, Hws, app_nil_r.
  - intros n l [Hq|[t' Hi]]; [rewrite Ew; apply twin_app, T; by left|].
    destruct (decide (t' = t)) as [->|Hne].
    + rewrite lookup_insert_eq in Hi. injection Hi as ->. by apply Ht.
    + rewrite lookup_insert_ne in Hi by done. rewrite Ew. apply twin_app, T. right. by exists t'.
  - rewrite Ew. destruct ws as [|e [|]]; simpl in Hlen; [by rewrite app_nil_r|by apply twins_other|lia].
Qed.

(** The key of the thread that is about to leave. *)
Lemma inv_leave t p s :
  launch_inv s -> inside s !! t = Some p ->
  map key_of (issued s) ≡ₚ
    map key_of (skipped s) ++ map (fun x => record_key x.2) (queued s) ++ pc_key (t, p) :: pending_keys (delete t (inside s)).
Proof. intros [K _ _ _ _ _] Ep. by rewrite K, <- (pending_delete _ t _ Ep). Qed.

Lemma gate_inv t a cb o sm s s' :
  launch_inv s -> inside s !! t = Some (AtGate cb o sm) -> launch_go t a s = Some s' -> launch_inv s'.
Proof.
  intros Hi Ep H. unfold launch_go in H. rewrite Ep in H. destruct (negb (en1 a) && negb (en2 a)); injection H as <-.
  - pose proof (inv_leave _ _ _ Hi Ep) as K. destruct Hi as [_ S B F T O]. split; simpl; try done.
    + rewrite K, map_app, <- !app_assoc. apply Permutation_app_head. simpl. symmetry. apply Permutation_middle.
    + rewrite S, length_app. simpl. unfold u64. rewrite Zplus_mod_idemp_l. f_equal. lia.
    + intros n l [Hq|[t' Hi]]; [apply T; by left|]. apply T. right. exists t'. by apply lookup_delete_Some in Hi as [_ Hi].
  - apply (inv_advance _ _ _ s _ [] Hi Ep); try done; [by rewrite app_nil_r|simpl; lia].
Qed.

Lemma add_inv t a o sm l s s' :
  launch_inv s -> inside s !! t = Some (AtAdd o sm l) -> launch_go t a s = Some s' -> launch_inv s'.
Proof.
  intros Hi Ep H. unfold launch_go in H. rewrite Ep in H.
  destruct (add 32 log_emit l (en1 a) (en2 a) (g_lb s) (lb_fires s)) as [ok [b fs]] eqn:Ea. injection H as <-.
  pose proof (inv_leave _ _ _ Hi Ep) as K. destruct Hi as [_ S B F T O].
  pose proof (step_inv 32 ltac:(lia) (map snd (queued s)) (g_lb s, lb_fires s) (Add l (en1 a) (en2 a)) B) as Hb.
  simpl in Hb. rewrite Ea in Hb. cbn [snd] in Hb.
  pose proof (add_prefix 32 l (en1 a) (en2 a) (g_lb s) (lb_fires s)) as Hp. rewrite Ea in Hp. cbn [snd] in Hp.
  assert (Hq : forall n l', (n, true, l') ∈ queued s ++ [(o, sm, l)] -> twin_in (wire s) n l').
  { intros n l' [Hin|[[= -> <- ->]|[]%elem_of_nil]%elem_of_cons]%elem_of_app; apply T; [by left|right; by exists t]. }
  destruct (put_lb_ok b fs (queued s ++ [(o, sm, l)]) s F Hp) as [H1 H2]; [by rewrite map_app|by apply twins_more|done|].
  split; [| |by simpl; rewrite map_app|done| |done]; simpl.
  - rewrite K, map_app. apply Permutation_app_head. simpl. rewrite <- app_assoc. done.
  - done.
  - intros n l' [Hin|[t' Hin]]; apply twin_app; [by apply Hq|]. apply T. right. exists t'. by apply lookup_delete_Some in Hin as [_ Hin].
Qed.

Lemma launch_go_inv t a s s' : launch_inv s -> launch_go t a s = Some s' -> launch_inv s'.
Proof.
  intros Hi H. destruct (inside s !! t) as [p|] eqn:Ep; [|unfold launch_go in H; by rewrite Ep in H].
  destruct p as [cb|cb o|cb o sm|cb o sm|cb o sm|o sm l|o sm l];
    [| |by eapply gate_inv| | | |by eapply add_inv]; unfold launch_go in H; rewrite Ep in H.
  - injection H as <-. apply (inv_advance _ _ _ s _ [] Hi Ep); try done; [by rewrite app_nil_r|simpl; lia].
  - destruct (should_sample (g_sampler s)) as [hit sm]. injection H as <-.
    apply (inv_advance _ _ _ s _ [] Hi Ep); try done; [by rewrite app_nil_r|simpl; lia].
  - injection H as <-. unfold emit_name_if_new.
    destruct (en1 a); cbn [negb]; [|apply (inv_advance _ _ _ s _ [] Hi Ep); try done; [by rewrite app_nil_r|simpl; lia]].
    destruct (intern _ _ (g_names s)) as [[r|] names]; [destruct (en2 a)|].
    + apply (inv_advance _ _ _ s _ [EvName (g_name_seq s) r] Hi Ep); try done; simpl; lia.
    + apply (inv_advance _ _ _ s _ [] Hi Ep); try done; [by rewrite app_nil_r|simpl; lia].
    + apply (inv_advance _ _ _ s _ [] Hi Ep); try done; [by rewrite app_nil_r|simpl; lia].
  - destruct (correlate_launch _ (g_corr s)) as [corr cur]. injection H as <-.
    apply (inv_advance _ _ _ s _ [] Hi Ep); try done; [by rewrite app_nil_r|simpl; lia].
  - injection H as <-. destruct (sm && en1 a); cbn [negb].
    + set (r := GpuLaunchSampled _ _ _ _ _ _ _ _).
      apply (inv_advance _ _ _ s _ [EvSampled (g_sampled_seq s) r] Hi Ep); try done.
      intros n l' [= -> ->]. exists (g_sampled_seq s), r. split; [|done]. simpl. apply elem_of_app. right. by apply elem_of_cons; left.
    + apply (inv_advance _ _ _ s _ [] Hi Ep); try done; [by rewrite app_nil_r|simpl; lia].
Qed.

Lemma launch_next_inv s o s' : launch_inv s -> launch_next s o = Some s' -> launch_inv s'.
Proof.
  intros Hi. destruct o as [t e|t a|en]; simpl; [|by apply launch_go_inv|].
  - case_decide as Hn; [|done]. intros [= <-]. unfold callback. destruct (on_callback e _) as [[] d].
    + destruct Hi as [K S B F T O]. split; simpl; try done.
      * rewrite map_app, K, pending_insert by done. simpl. rewrite <- !app_assoc. do 2 apply Permutation_app_head.
        rewrite Permutation_app_comm. done.
      * intros n l [Hq|[t' Hin]]; [apply T; by left|]. destruct (decide (t' = t)) as [->|Hne].
        -- by rewrite lookup_insert_eq in Hin.
        -- rewrite lookup_insert_ne in Hin by done. apply T. right. by exists t'.
    + destruct Hi. by split.
  - destruct (flush log_emit en (g_lb s) (lb_fires s)) as [b fs] eqn:Ef. intros [= <-]. destruct Hi as [K S B F T O].
    pose proof (step_inv 32 ltac:(lia) (map snd (queued s)) (g_lb s, lb_fires s) (Flush en) B) as Hb.
    simpl in Hb. rewrite app_nil_r, Ef in Hb. pose proof (flush_prefix en (g_lb s) (lb_fires s)) as Hp.
    unfold flush in Ef. rewrite Ef in Hp. cbn [snd] in Hp.
    destruct (put_lb_ok b fs (queued s) s F Hp Hb O) as [H1 H2]; [intros n l Hq; apply T; by left|].
    split; try done. intros n l H. simpl. apply twin_app, T. exact H.
Qed.

Lemma launch_run_inv os s s' : launch_inv s -> launch_run s os = Some s' -> launch_inv s'.
Proof.
  revert s. induction os as [|o os IH]; intros s Hi Hr; simpl in Hr; [by simplify_eq|].
  destruct (launch_next s o) as [s1|] eqn:E; [|done]. apply (IH s1); [by eapply launch_next_inv|done].
Qed.

Lemma launch_init_inv period seed junk : length junk = 32%nat -> launch_inv (launch_init period seed junk).
Proof.
  intros Hj. split; simpl; try done.
  - by apply (init_inv 32 ltac:(lia)).
  - intros n l [[]%elem_of_nil|[t Hin]]. by rewrite lookup_empty in Hin.
  - intros w1 f w2 E. by destruct w1.
Qed.

(** C6: Every kernel launch is recorded once or counted.  Let any number of
    threads launch kernels through the runtime, whose launches fire the driver's
    callback too, and through the driver alone, with the steps of [on_launch] on
    different threads and the timer's flushes in any order.  On each thread
    [on_launch] runs once for each of its launches, in order, and for nothing
    else; and once no thread is inside it, the launches are, with their thread,
    kernel and context, exactly those skipped for want of a consumer, which
    [g_launch_unattached] counts, and those added to the batch; of these the
    batches sent and the pending ones are, in order, a part, and [dropped_]
    counts the rest. *)
Theorem launch_recorded_once period seed junk os s (calls : Z -> list api_call) :
  length junk = 32%nat -> launch_run (launch_init period seed junk) os = Some s ->
  (forall t, forallb call_ok (calls t) = true /\ events_of t os = concat (map call_events (calls t))) ->
  inside s = ∅ ->
  (forall t, issued_by t s = concat (map call_launches (calls t))) /\
  map key_of (issued s) ≡ₚ map key_of (skipped s) ++ map record_key (map snd (queued s)) /\
  g_launch_unattached s = u64 (Z.of_nat (length (skipped s))) /\
  records (lb_fires s) ++ take (n_ (g_lb s)) (buf_ (g_lb s)) `sublist_of` map snd (queued s) /\
  dropped_ (g_lb s) = u64 (Z.of_nat (length (queued s)) - Z.of_nat (length (records (lb_fires s))) - Z.of_nat (n_ (g_lb s))).
Proof.
  intros Hj Hrun Hcalls Hin. pose proof (launch_run_inv _ _ _ (launch_init_inv period seed junk Hj) Hrun) as [K S B _ _ _].
  split_and!; [|by rewrite K, Hin, app_nil_r, map_map|done|exact (bi_order _ _ _ _ B)|].
  - intros t. destruct (Hcalls t) as [Hok He]. destruct (issued_run t _ _ _ Hrun) as [-> _]. rewrite He. simpl.
    unfold depth_of. simpl. rewrite lookup_empty. simpl. by rewrite dispatched_calls.
  - pose proof (bi_count _ _ _ _ B) as Hc. by rewrite length_map in Hc.
Qed.

(** ** What the sampler decided

    Read off a run from outside: the sampler's answer to each launch that asks
    it, by ordinal, and whether the sampled probe's semaphore was on when the
    launch read it. *)

Definition decides (s : launch_state) (o : launch_op) : list (Z * bool) :=
  match o with
  | Go t _ => match inside s !! t with
              | Some (AtSample _ ordinal) => [(ordinal, (should_sample (g_sampler s)).1)]
              | _ => []
              end
  | _ => []
  end.
Definition reads (s : launch_state) (o : launch_op) : list (Z * bool * gpu_launch_v1) :=
  match o with
  | Go t a => match inside s !! t with Some (AtSampled ordinal _ l) => [(ordinal, en1 a, l)] | _ => [] end
  | _ => []
  end.
Fixpoint gather {A} (f : launch_state -> launch_op -> list A) (s : launch_state) (os : list launch_op) : list A :=
  match os with
  | [] => []
  | o :: os' => f s o ++ match launch_next s o with Some s' => gather f s' os' | None => [] end
  end.

(** The first [n] answers of a sampler. *)
Fixpoint choices (n : nat) (s : sampler) : list bool :=
  match n with O => [] | S n' => let '(hit, s') := should_sample s in hit :: choices n' s' end.

Lemma go_sampler s o s' :
  launch_next s o = Some s' ->
  (decides s o = [] /\ g_sampler s' = g_sampler s) \/
  (exists ordinal, decides s o = [(ordinal, (should_sample (g_sampler s)).1)] /\
     g_sampler s' = (should_sample (g_sampler s)).2).
Proof.
  destruct o as [t e|t a|en]; simpl; intros H.
  - case_decide; [|done]. injection H as <-. left. unfold callback. by destruct (on_callback _ _) as [[] ?].
  - unfold launch_go, emit_name_if_new in H. destruct (inside s !! t) as [[]|]; [|right|..];
      try (left; simplify_eq/=; try done; repeat (case_match; simplify_eq/=; try done); fail).
    destruct (should_sample (g_sampler s)). injection H as <-. by eexists.
  - left. by destruct (flush _ _ _ _); simplify_eq/=.
Qed.

Lemma decides_choices os s s' :
  launch_run s os = Some s' ->
  map snd (gather decides s os) = choices (length (gather decides s os)) (g_sampler s).
Proof.
  revert s. induction os as [|o os IH]; intros s Hr; simpl in *; [done|].
  destruct (launch_next s o) as [s1|] eqn:E; [|done]. simpl in Hr. specialize (IH s1 Hr).
  destruct (go_sampler _ _ _ E) as [[-> H2]|(n & -> & H2)]; simpl; [by rewrite <- H2|].
  rewrite IH, H2. by destruct (should_sample (g_sampler s)).
Qed.

(** The choice a thread inside [on_launch] carries is the sampler's, and a
    launch that was added carries what its reading of the probe made of it. *)
Definition pc_traced (D : list (Z * bool)) (R : list (Z * bool * gpu_launch_v1)) (p : lpc) : Prop :=
  match p with
  | AtOrdinal _ | AtSample _ _ => True
  | AtGate _ o c | AtName _ o c | AtCorrelate _ o c | AtSampled o c _ => (o, c) ∈ D
  | AtAdd o b l => exists c h, (o, c) ∈ D /\ (o, h, l) ∈ R /\ b = c && h
  end.
Record traced (D : list (Z * bool)) (R : list (Z * bool * gpu_launch_v1)) (s : launch_state) : Prop := {
  tr_inside : forall t p, inside s !! t = Some p -> pc_traced D R p;
  tr_queued : forall o b l, (o, b, l) ∈ queued s -> pc_traced D R (AtAdd o b l);
}.

Lemma pc_traced_mono D R D' R' p : pc_traced D R p -> pc_traced (D ++ D') (R ++ R') p.
Proof.
  destruct p; simpl; try done; rewrite ?elem_of_app; auto.
  intros (c & h & H1 & H2 & H3). exists c, h. rewrite !elem_of_app. auto.
Qed.
Lemma traced_mono D R D' R' s : traced D R s -> traced (D ++ D') (R ++ R') s.
Proof. intros [H1 H2]. split; intros; eapply pc_traced_mono; eauto. Qed.

(** A step moves one thread, and adds at most the launch that thread carried. *)
Lemma traced_move D R s s' t p' :
  traced D R s -> inside s' = match p' with Some p => <[t := p]> (inside s) | None => delete t (inside s) end ->
  (forall p, p' = Some p -> pc_traced D R p) ->
  (queued s' = queued s \/ exists o b l, inside s !! t = Some (AtAdd o b l) /\ queued s' = queued s ++ [(o, b, l)]) ->
  traced D R s'.
Proof.
  intros [H1 H2] Hi Hp Hq. split.
  - intros t' p. rewrite Hi. destruct p' as [p0|].
    + destruct (decide (t' = t)) as [->|]; [rewrite lookup_insert_eq; intros [= <-]; auto|].
      rewrite lookup_insert_ne by done. apply H1.
    + intros [_ Hl]%lookup_delete_Some. by eapply H1.
  - intros o b l. destruct Hq as [-> | (o' & b' & l' & Hl & ->)]; [apply H2|].
    intros [Hin|[[= -> -> ->]|[]%elem_of_nil]%elem_of_cons]%elem_of_app; [by apply H2|]. exact (H1 _ _ Hl).
Qed.

Lemma go_traced D R t a s s' :
  traced D R s -> launch_go t a s = Some s' ->
  traced (D ++ decides s (Go t a)) (R ++ reads s (Go t a)) s'.
Proof.
  intros Ht H. pose proof (traced_mono D R (decides s (Go t a)) (reads s (Go t a)) s Ht) as Hm.
  unfold launch_go in H. unfold decides, reads in *. destruct (inside s !! t) as [p|] eqn:Ep; [|done].
  pose proof (tr_inside _ _ _ Ht t p Ep) as Hp. destruct p as [cb|cb o|cb o c|cb o c|cb o c|o c l|o b l]; simpl in Hp.
  - injection H as <-. apply (traced_move _ _ s _ t (Some (AtSample cb (g_launch_ordinal s))) Hm); [done|by intros p [= <-]|by left].
  - destruct (should_sample (g_sampler s)) as [hit sm]. injection H as <-.
    apply (traced_move _ _ s _ t (Some (AtGate cb o hit)) Hm); [done|intros p [= <-]; simpl; set_solver|by left].
  - destruct (negb (en1 a) && negb (en2 a)); injection H as <-.
    + apply (traced_move _ _ s _ t None Hm); [done|done|by left].
    + apply (traced_move _ _ s _ t (Some (AtName cb o c)) Hm); [done|intros p [= <-]; simpl; set_solver|by left].
  - injection H as <-. assert (E : inside (emit_name_if_new (en1 a) (en2 a) (hash_name (cb_symbolName cb)) (cb_symbolName cb) s) = inside s /\
      queued (emit_name_if_new (en1 a) (en2 a) (hash_name (cb_symbolName cb)) (cb_symbolName cb) s) = queued s)
      by (unfold emit_name_if_new; repeat (case_match; simplify_eq/=; try done)). destruct E as [E1 E2].
    apply (traced_move _ _ s _ t (Some (AtCorrelate cb o c)) Hm); [simpl; by rewrite E1|intros p [= <-]; simpl; set_solver|by left].
  - destruct (correlate_launch _ _) as [corr cur]. injection H as <-.
    apply (traced_move _ _ s _ t (Some (AtSampled o c (GpuLaunch corr (hash_name (cb_symbolName cb)) 0 (cb_contextUid cb) (clock a) t 0))) Hm); [done|intros p [= <-]; simpl; set_solver|by left].
  - injection H as <-. apply (traced_move _ _ s _ t (Some (AtAdd o (c && en1 a) l)) Hm); [done| |by left].
    intros p [= <-]. simpl. exists c, (en1 a). set_solver.
  - destruct (add _ _ _ _ _ _ _) as [ok [b' fs]]. injection H as <-.
    apply (traced_move _ _ s _ t None Hm); [done|done|]. right. by exists o, b, l.
Qed.

Lemma next_traced D R s o s' :
  traced D R s -> launch_next s o = Some s' -> traced (D ++ decides s o) (R ++ reads s o) s'.
Proof.
  intros Ht. destruct o as [t e|t a|en]; simpl; [|by apply go_traced|].
  - case_decide as Hn; [|done]. intros [= <-]. rewrite !app_nil_r. unfold callback.
    destruct (on_callback _ _) as [[] d]; [|by destruct Ht].
    apply (traced_move _ _ s _ t (Some (AtOrdinal (ev_data e))) Ht); [done|by intros p [= <-]|by left].
  - destruct (flush _ _ _ _). intros [= <-]. rewrite !app_nil_r. by destruct Ht.
Qed.

Lemma run_traced os D R s s' :
  traced D R s -> launch_run s os = Some s' ->
  traced (D ++ gather decides s os) (R ++ gather reads s os) s'.
Proof.
  revert D R s. induction os as [|o os IH]; intros D R s Ht Hr; simpl in *; [simplify_eq; by rewrite !app_nil_r|].
  destruct (launch_next s o) as [s1|] eqn:E; [|done]. simpl in Hr. rewrite !app_assoc.
  apply IH; [by apply next_traced|done].
Qed.

(** C25: The stack of a sampled launch is on the wire before the launch.  Under
    the same interleavings, let [D] be the sampler's answers as the launches ask
    it, which are the answers of one sampler in order, and [R] what each launch
    read of the sampled probe's semaphore.  Whenever a batch of launches is
    sent, each record in it is that of a launch with an ordinal of [D] and a
    reading of [R]; and if the sampler chose that launch and the probe was
    heard, its sampled record, with the same ordinal, correlation, kernel,
    context, time and thread, was sent before the batch: no flush on any thread
    can carry the launch past it. *)
Theorem sampled_twin_first period seed junk os s w1 f w2 l :
  length junk = 32%nat -> launch_run (launch_init period seed junk) os = Some s ->
  wire s = w1 ++ EvLaunch f :: w2 -> l ∈ f_recs f ->
  let D := gather decides (launch_init period seed junk) os in
  let R := gather reads (launch_init period seed junk) os in
  map snd D = choices (length D) (Sampler_init period seed) /\
  exists ordinal chosen heard, (ordinal, chosen) ∈ D /\ (ordinal, heard, l) ∈ R /\
    (chosen = true -> heard = true -> twin_in w1 ordinal l).
Proof.
  intros Hj Hrun Hw Hl D R. pose proof (launch_run_inv _ _ _ (launch_init_inv period seed junk Hj) Hrun) as [_ _ _ _ _ O].
  split; [exact (decides_choices _ _ _ Hrun)|].
  destruct (O w1 f w2 Hw l Hl) as (n & b & Hq & Ht).
  assert (H0 : traced [] [] (launch_init period seed junk)) by (split; [intros t p Hp|intros n' b' l' Hp]; set_solver).
  destruct (tr_queued _ _ _ (run_traced os [] [] _ s H0 Hrun) n b l Hq) as (c & h & H1 & H2 & ->).
  exists n, c, h. split; [exact H1|]. split; [exact H2|]. intros -> ->. by apply Ht.
Qed.

(** A runtime launch with the driver's callback inside it on thread 1, while
    thread 2 launches through the driver and the timer flushes. *)
Definition demo_junk : list gpu_launch_v1 := replicate 32 (GpuLaunch 0 0 0 0 0 0 0).
Definition demo_cb (id : Z) : callback_data := CallbackData id (Some [107; 49]) 3.
Definition demo_go (t : Z) (n : nat) : list launch_op := replicate n (Go t (Answers true true 500)).
Definition demo_calls (t : Z) : list api_call :=
  if t =? 1 then [RtLaunch cudaLaunchKernel_v7000 (demo_cb 5) [(cuLaunchKernel, demo_cb 5)]]
  else if t =? 2 then [DrvLaunch cuLaunchKernelEx (demo_cb 6)] else [].
Definition demo_launches : list launch_op :=
  let ev1 := call_events (RtLaunch cudaLaunchKernel_v7000 (demo_cb 5) [(cuLaunchKernel, demo_cb 5)]) in
  let ev2 := call_events (DrvLaunch cuLaunchKernelEx (demo_cb 6)) in
  map (Callback 1) (take 1 ev1) ++ demo_go 1 4 ++ map (Callback 2) (take 1 ev2) ++ demo_go 1 2 ++ demo_go 2 7 ++
  demo_go 1 1 ++ [FlushLaunches true] ++ map (Callback 1) (drop 1 ev1) ++ map (Callback 2) (drop 1 ev2).
Definition demo_end : launch_state := default (launch_init 1 0 []) (launch_run (launch_init 1 0 demo_junk) demo_launches).

Lemma demo_run : launch_run (launch_init 1 0 demo_junk) demo_launches = Some demo_end.
Proof. unfold demo_end. vm_compute. reflexivity. Qed.

Lemma demo_events t : forallb call_ok (demo_calls t) = true /\ events_of t demo_launches = concat (map call_events (demo_calls t)).
Proof.
  unfold demo_calls. destruct (Z.eqb_spec t 1) as [->|H1]; [by vm_compute|].
  destruct (Z.eqb_spec t 2) as [->|H2]; [by vm_compute|]. split; [done|]. unfold events_of, demo_launches, demo_go. simpl.
  by rewrite !decide_False by congruence.
Qed.

Lemma launch_recorded_once_witness :
  inside demo_end = ∅ /\ issued_by 1 demo_end = [demo_cb 5] /\ issued_by 2 demo_end = [demo_cb 6] /\
  length (records (lb_fires demo_end)) = 2%nat.
Proof.
  assert (Hin : inside demo_end = ∅) by (vm_compute; reflexivity). split; [exact Hin|].
  destruct (launch_recorded_once 1 0 demo_junk demo_launches demo_end demo_calls eq_refl demo_run demo_events Hin) as [H _].
  split; [exact (H 1)|]. split; [exact (H 2)|]. vm_compute. reflexivity.
Defined.

(** With a period of one the sampler chooses both launches, and both twins are
    on the wire before the batch. *)
Lemma sampled_twin_first_witness :
  exists w1 f l, wire demo_end = w1 ++ [EvLaunch f] /\ l ∈ f_recs f /\ exists ordinal, twin_in w1 ordinal l.
Proof.
  destruct (wire demo_end) as [|e1 [|e2 [|e3 [|e4 [|]]]]] eqn:E; try (vm_compute in E; discriminate).
  destruct e4 as [| |f]; try (vm_compute in E; discriminate).
  destruct (f_recs f) as [|l ls] eqn:El; [vm_compute in E; injection E as <- <- <- <-; vm_compute in El; discriminate|].
  assert (Hl : l ∈ f_recs f) by (rewrite El; apply elem_of_cons; by left).
  exists [e1; e2; e3], f, l. split; [done|]. split; [done|].
  destruct (sampled_twin_first 1 0 demo_junk demo_launches demo_end [e1; e2; e3] f [] l eq_refl demo_run E Hl)
    as (_ & n & c & h & H1 & H2 & H3).
  assert (HD : forallb snd (gather decides (launch_init 1 0 demo_junk) demo_launches) = true) by (vm_compute; reflexivity).
  assert (HR : forallb (fun x => x.1.2) (gather reads (launch_init 1 0 demo_junk) demo_launches) = true)
    by (vm_compute; reflexivity).
  rewrite forallb_forall in HD, HR. apply list_elem_of_In in H1, H2.
  exists n. apply H3; [exact (HD _ H1)|exact (HR _ H2)].
Defined.
