(* ===== verification/Exec.v ===== *)
(** * Exec: CUPTI's activity records, decoded

    Models, of src/shim/nvidia/cupti_adapter.cc, [buffer_completed] with
    [handle_kernel] and [note_device], and [vendor_to_mono].  CUPTI is a
    parameter: a buffer is the list of records cuptiActivityGetNextRecord hands
    out before it answers anything but success.  The clock fit is shared with
    the timer, under a mutex taken for each conversion, so the two conversions of
    one execution have a fit each; the answers of the probes' semaphores are
    part of the call. *)
From S2P Require Import Prelude Tables GpuUsdt Abi Batch Sampler Timers Replay Adapter Launch.

(** The fields of CUpti_ActivityKernel12 and CUpti_ActivityDevice6 the adapter
    reads. *)
Record activity_kernel := ActivityKernel {
  ak_deviceId : Z; ak_graphId : Z; ak_start : Z; ak_end : Z; ak_name : option (list Z);
  ak_correlationId : Z; ak_streamId : Z;
}.
Inductive activity :=
| KindKernel (k : activity_kernel)
| KindDevice (numMultiprocessors coreClockRate : Z)
| KindOther.

Inductive exec_counter :=
| g_activity_records | g_exec_unattached | g_exec_no_time | g_exec_no_clock | g_exec_from_graph_
| g_activity_other | g_buffers | g_cupti_dropped | g_multi_device.
#[global] Instance exec_counter_eq_dec : EqDecision exec_counter.
Proof. solve_decision. Defined.

Record exec_state := MkExec {
  e_cnt : exec_counter -> Z;
  g_first_device : Z;
  g_devices_seen : list Z;
  e_names : KernelNameTable;
  e_name_seq : Z;
  e_name_wire : list (Z * gpu_kernel_name_v1);
  g_eb : Batch_t (T := gpu_exec_v1);
  eb_fires : list (fire gpu_exec_v1);
  g_sm_count : Z;
  g_core_clock_hz : Z;
}.

Definition exec_init (junk : list gpu_exec_v1) : exec_state :=
  MkExec (fun _ => 0) (2 ^ 64 - 1) [] KernelNameTable_init 0 [] (Batch_init junk) [] 0 0.

(** [buffer_requested]: the buffer given to CUPTI, its size and the limit on its
    records, and [g_buffer_alloc_failed]; [aligned_alloc] may fail. *)
Definition kBufferSize : Z := 4 * 1024 * 1024.
Definition buffer_requested (aligned_alloc : option Z) (alloc_failed : Z) : Z * Z * Z * Z :=
  match aligned_alloc with
  | Some p => (p, kBufferSize, 0, alloc_failed)
  | None => (0, 0, 0, u64 (alloc_failed + 1))
  end.

Definition e_count (k : exec_counter) (d : Z) (s : exec_state) : exec_state :=
  MkExec (fun k' => if bool_decide (k' = k) then u64 (e_cnt s k' + d) else e_cnt s k') (g_first_device s) (g_devices_seen s)
    (e_names s) (e_name_seq s) (e_name_wire s) (g_eb s) (eb_fires s) (g_sm_count s) (g_core_clock_hz s).

(** [None] where the fit was never seeded. *)
Definition vendor_to_mono (vendor_ns : Z) (c : ClockFit) : option (option Z) :=
  if negb (ck_valid c) then Some None else Some <$> to_monotonic vendor_ns c.

Definition note_device (device_id : Z) (s : exec_state) : exec_state :=
  if g_first_device s =? device_id then s
  else
    let seen := g_devices_seen s in
    let first := match seen with [] => device_id | _ => g_first_device s end in
    let s := MkExec (e_cnt s) first seen (e_names s) (e_name_seq s) (e_name_wire s) (g_eb s) (eb_fires s) (g_sm_count s) (g_core_clock_hz s) in
    if existsb (fun d => d =? device_id) seen then s
    else
      let s := MkExec (e_cnt s) first (seen ++ [device_id]) (e_names s) (e_name_seq s) (e_name_wire s) (g_eb s) (eb_fires s)
                 (g_sm_count s) (g_core_clock_hz s) in
      if (1 <? length (g_devices_seen s))%nat then e_count g_multi_device 1 s else s.

(** What the adapter finds while it handles one record: the readings of the
    exec, name and batch semaphores, the clock fits of the two conversions and
    the correlation word. *)
Record exec_env := ExecEnv {
  ee_exec : bool; ee_name : bool; ee_name' : bool; ee_add : bool; ee_add' : bool;
  ee_clock : ClockFit; ee_clock' : ClockFit; ee_corr : Z;
}.

Definition exec_name_if_new (en en' : bool) (kernel_id : Z) (name : option (list Z)) (s : exec_state) : exec_state :=
  if negb en then s
  else
    let '(r, names) := intern kernel_id (Some (default unknown_name name)) (e_names s) in
    let '(seq, w) := match r with
                     | Some r => if en' then (u64 (e_name_seq s + 1), e_name_wire s ++ [(e_name_seq s, r)])
                                 else (e_name_seq s, e_name_wire s)
                     | None => (e_name_seq s, e_name_wire s)
                     end in
    MkExec (e_cnt s) (g_first_device s) (g_devices_seen s) names seq w (g_eb s) (eb_fires s) (g_sm_count s) (g_core_clock_hz s).

Definition exec_record (env : exec_env) (k : activity_kernel) (start end_ : Z) : gpu_exec_v1 :=
  GpuExec (correlate_activity (ak_correlationId k) (ee_corr env)) (hash_name (ak_name k)) (ak_streamId k) (ak_deviceId k) start end_.

(** [None] where a signed operation of the clock fit would overflow. *)
Definition handle_kernel (env : exec_env) (k : activity_kernel) (s : exec_state) : option exec_state :=
  let s := e_count g_activity_records 1 s in
  let s := note_device (ak_deviceId k) s in
  let s := if negb (ak_graphId k =? 0) then e_count g_exec_from_graph_ 1 s else s in
  if negb (ee_exec env) then Some (e_count g_exec_unattached 1 s)
  else if (ak_start k =? 0) && (ak_end k =? 0) then Some (e_count g_exec_no_time 1 s)
  else
    start ← vendor_to_mono (ak_start k) (ee_clock env);
    match start with
    | None => Some (e_count g_exec_no_clock 1 s)
    | Some start =>
        end_ ← vendor_to_mono (ak_end k) (ee_clock' env);
        match end_ with
        | None => Some (e_count g_exec_no_clock 1 s)
        | Some end_ =>
            let s := exec_name_if_new (ee_name env) (ee_name' env) (hash_name (ak_name k)) (ak_name k) s in
            let '(_, (b, fs)) := add 32 log_emit (exec_record env k start end_) (ee_add env) (ee_add' env) (g_eb s) (eb_fires s) in
            Some (MkExec (e_cnt s) (g_first_device s) (g_devices_seen s) (e_names s) (e_name_seq s) (e_name_wire s) b fs
                    (g_sm_count s) (g_core_clock_hz s))
        end
    end.

Definition handle_record (s : exec_state) (x : activity * exec_env) : option exec_state :=
  match x.1 with
  | KindKernel k => handle_kernel x.2 k s
  | KindDevice sms khz =>
      Some (MkExec (e_cnt s) (g_first_device s) (g_devices_seen s) (e_names s) (e_name_seq s) (e_name_wire s) (g_eb s) (eb_fires s)
              sms (u64 (khz * 1000)))
  | KindOther => Some (e_count g_activity_other 1 s)
  end.

Fixpoint handle_records (xs : list (activity * exec_env)) (s : exec_state) : option exec_state :=
  match xs with [] => Some s | x :: xs' => handle_record s x ≫= handle_records xs' end.

(** [None] for a buffer pointer that is null or a valid size of zero; [dropped]
    is CUPTI's own count, [None] where it could not be read. *)
Definition buffer_completed (buffer : option (list (activity * exec_env))) (dropped : option Z) (s : exec_state) : option exec_state :=
  let s := e_count g_buffers 1 s in
  s ← (match buffer with Some xs => handle_records xs s | None => Some s end);
  Some (match dropped with Some d => if d =? 0 then s else e_count g_cupti_dropped d s | None => s end).

(** ** What becomes of an activity record *)

Inductive outcome := Unattached | NoTime | NoClock | Added (e : gpu_exec_v1) | NotKernel.

(** The monotonic time, for readings of a host clock. *)
Definition mono_of (t : Z) (c : ClockFit) : Z := u64 (t - ck_offset c).

Definition outcome_of (x : activity * exec_env) : outcome :=
  match x.1 with
  | KindKernel k =>
      let env := x.2 in
      if negb (ee_exec env) then Unattached
      else if (ak_start k =? 0) && (ak_end k =? 0) then NoTime
      else if negb (ck_valid (ee_clock env)) || negb (ck_valid (ee_clock' env)) then NoClock
      else Added (exec_record env k (mono_of (ak_start k) (ee_clock env)) (mono_of (ak_end k) (ee_clock' env)))
  | _ => NotKernel
  end.

Definition added_execs (xs : list (activity * exec_env)) : list gpu_exec_v1 :=
  omap (fun x => match outcome_of x with Added e => Some e | _ => None end) xs.
Definition kernels_of (xs : list (activity * exec_env)) : list activity_kernel :=
  omap (fun x => match x.1 with KindKernel k => Some k | _ => None end) xs.

(** By how much a record moves a counter. *)
Definition exec_tally (x : activity * exec_env) (c : exec_counter) : Z :=
  match c, outcome_of x with
  | g_activity_records, NotKernel => 0
  | g_activity_records, _ => 1
  | g_exec_unattached, Unattached | g_exec_no_time, NoTime | g_exec_no_clock, NoClock => 1
  | g_exec_from_graph_, _ => match x.1 with KindKernel k => if ak_graphId k =? 0 then 0 else 1 | _ => 0 end
  | g_activity_other, _ => match x.1 with KindOther => 1 | _ => 0 end
  | _, _ => 0
  end.
Definition exec_total (xs : list (activity * exec_env)) (c : exec_counter) : Z := foldr (fun x acc => exec_tally x c + acc) 0 xs.

Definition sane_clock (c : ClockFit) : Prop := - 2 ^ 62 < ck_offset c < 2 ^ 62.
Definition sane (x : activity * exec_env) : Prop :=
  match x.1 with
  | KindKernel k => is_u32 (ak_deviceId k) /\ host_time (ak_start k) /\ host_time (ak_end k) /\
                    sane_clock (ee_clock x.2) /\ sane_clock (ee_clock' x.2)
  | _ => True
  end.

(** The devices, as far as they have been seen. *)
Record devices_ok (seen : list Z) (s : exec_state) : Prop := {
  dv_seen : g_devices_seen s = first_by id seen;
  dv_first : g_first_device s = default (2 ^ 64 - 1) (seen !! 0%nat);
  dv_multi : e_cnt s g_multi_device = u64 (Z.of_nat (length (first_by id seen) - 1));
}.

Record exec_moved (s s' : exec_state) (f : exec_counter -> Z) (rs : list gpu_exec_v1) (ds : list Z) : Prop := {
  em_cnt : forall c, c <> g_multi_device -> u64 (e_cnt s' c) = u64 (e_cnt s c + f c);
  em_batch : exists ops, added ops = rs /\ (g_eb s', eb_fires s') = batch_run 32 log_emit (g_eb s, eb_fires s) ops;
  em_devices : forall seen, devices_ok seen s -> devices_ok (seen ++ ds) s';
}.

Lemma exec_refl s : exec_moved s s (fun _ => 0) [] [].
Proof. split; [intros; by rewrite Z.add_0_r|by exists []|intros; by rewrite app_nil_r]. Qed.

Lemma exec_trans s1 s2 s3 f g rs rs' ds ds' :
  exec_moved s1 s2 f rs ds -> exec_moved s2 s3 g rs' ds' -> exec_moved s1 s3 (fun c => f c + g c) (rs ++ rs') (ds ++ ds').
Proof.
  intros [C1 (o1 & A1 & B1) D1] [C2 (o2 & A2 & B2) D2]. split.
  - intros c Hc. rewrite C2, Z.add_assoc by done. rewrite <- (u64_add (e_cnt s2 c)), <- (u64_add (e_cnt s1 c + f c)). by rewrite C1.
  - exists (o1 ++ o2). unfold added in *. rewrite omap_app, A1, A2. split; [done|]. unfold batch_run in *. by rewrite foldl_app, <- B1.
  - intros seen H. rewrite app_assoc. auto.
Qed.

Lemma exec_ext s s' f g rs ds : (forall c, f c = g c) -> exec_moved s s' f rs ds -> exec_moved s s' g rs ds.
Proof. intros E [C B D]. split; [|done|done]. intros c Hc. rewrite <- E. by apply C. Qed.

Definition only (k : exec_counter) (d : Z) (c : exec_counter) : Z := if bool_decide (c = k) then d else 0.

Lemma e_count_moved k d s : k <> g_multi_device -> exec_moved s (e_count k d s) (only k d) [] [].
Proof.
  intros Hk. split; simpl; [|by exists []|].
  - intros c Hc. unfold only. case_bool_decide; [|by rewrite Z.add_0_r]. unfold u64. by rewrite Zmod_mod.
  - intros seen [A B C]. rewrite app_nil_r. split; simpl; [done|done|]. by rewrite bool_decide_eq_false_2.
Qed.

Lemma first_by_length_snoc (seen : list Z) d :
  first_by id (seen ++ [d]) = if existsb (fun x => x =? d) (first_by id seen) then first_by id seen else first_by id seen ++ [d].
Proof.
  rewrite first_by_snoc. rewrite list_fmap_id.
  assert (Hin : d ∈ seen <-> existsb (fun x => x =? d) (first_by id seen) = true).
  { rewrite existsb_exists. pose proof (first_by_keys (A := Z) id seen d) as H. rewrite !list_fmap_id in H. rewrite <- H. split.
    - intros Hd. exists d. split; [by apply list_elem_of_In|apply Z.eqb_refl].
    - intros (x & Hx & ->%Z.eqb_eq). by apply list_elem_of_In. }
  unfold id at 1. case_decide as Hd; [by rewrite (proj1 Hin Hd)|].
  destruct (existsb _ _) eqn:E; [|done]. destruct Hd. by apply Hin.
Qed.

Lemma note_device_ok d s seen :
  is_u32 d -> devices_ok seen s -> devices_ok (seen ++ [d]) (note_device d s).
Proof.
  intros Hd [A B C]. unfold note_device. destruct (Z.eqb_spec (g_first_device s) d) as [E|E].
  - assert (Hs : exists l, seen = d :: l).
    { rewrite B in E. destruct seen as [|x l]; simpl in E; [unfold is_u32 in Hd; lia|]. exists l. by rewrite E. }
    destruct Hs as [l ->]. assert (Hf : first_by id ((d :: l) ++ [d]) = first_by id (d :: l)).
    { rewrite first_by_length_snoc. cbn [first_by existsb]. unfold id at 1. by rewrite Z.eqb_refl. }
    split; [by rewrite Hf|done|by rewrite Hf].
  - rewrite A. cbn [e_cnt g_devices_seen].
    assert (Hfirst : match first_by id seen with [] => d | _ => g_first_device s end = default (2 ^ 64 - 1) ((seen ++ [d]) !! 0%nat)).
    { rewrite B. by destruct seen. }
    rewrite Hfirst. destruct (existsb _ _) eqn:Ex.
    + split; cbn [g_devices_seen g_first_device e_cnt]; rewrite ?first_by_length_snoc, ?Ex; done.
    + assert (Hl : length (first_by id seen ++ [d]) = S (length (first_by id seen))) by (rewrite length_app; simpl; lia).
      destruct (Nat.ltb_spec 1 (length (first_by id seen ++ [d]))); split; simpl; rewrite ?first_by_length_snoc, ?Ex; try done;
        rewrite C; unfold u64; rewrite ?Zplus_mod_idemp_l; f_equal; lia.
Qed.

Lemma note_device_moved d s : is_u32 d -> exec_moved s (note_device d s) (fun _ => 0) [] [d].
Proof.
  intros Hd. split; [| |intros seen; by apply note_device_ok].
  - intros c Hc. rewrite Z.add_0_r. unfold note_device. repeat case_match; simpl; try done. by rewrite bool_decide_eq_false_2.
  - exists []. split; [done|]. unfold note_device. by repeat case_match.
Qed.

Lemma exec_name_moved en en' id name s : exec_moved s (exec_name_if_new en en' id name s) (fun _ => 0) [] [].
Proof.
  unfold exec_name_if_new. destruct en; cbn [negb]; [|apply exec_refl]. destruct (intern _ _ _) as [[r|] names]; [destruct en'|];
    (split; [intros; by rewrite Z.add_0_r|by exists []|intros seen []; rewrite app_nil_r; by split]).
Qed.

Lemma vendor_to_mono_sane t c :
  host_time t -> sane_clock c -> vendor_to_mono t c = Some (if ck_valid c then Some (mono_of t c) else None).
Proof.
  unfold host_time, sane_clock. intros Ht Hc. unfold vendor_to_mono, to_monotonic. destruct (ck_valid c); [|done]. cbn [negb].
  rewrite s64_small, i64_small by lia. done.
Qed.

Definition devices_of (x : activity * exec_env) : list Z := match x.1 with KindKernel k => [ak_deviceId k] | _ => [] end.
Definition execs_of (x : activity * exec_env) : list gpu_exec_v1 := match outcome_of x with Added e => [e] | _ => [] end.

Lemma handle_record_moved s x :
  sane x -> exists s', handle_record s x = Some s' /\ exec_moved s s' (exec_tally x) (execs_of x) (devices_of x).
Proof.
  destruct x as [[k|sms khz|] env]; intros Hs.
  2:{ eexists. split; [done|]. apply (exec_ext _ _ (fun _ => 0)); [by intros []|]. split; [intros; by rewrite Z.add_0_r|by exists []|intros seen []; rewrite app_nil_r; by split]. }
  2:{ eexists. split; [done|]. eapply exec_ext; [|by apply e_count_moved]. by intros []. }
  destruct Hs as (Hd & H1 & H2 & H3 & H4). unfold handle_record, handle_kernel. cbn [fst snd] in *.
  set (s1 := if negb (ak_graphId k =? 0) then _ else _).
  assert (M1 : exec_moved s s1 (fun c => only g_activity_records 1 c + only g_exec_from_graph_ (if ak_graphId k =? 0 then 0 else 1) c) [] [ak_deviceId k]).
  { pose proof (exec_trans _ _ _ _ _ _ _ _ _ (e_count_moved g_activity_records 1 s ltac:(done)) (note_device_moved (ak_deviceId k) _ Hd)) as M.
    subst s1. destruct (ak_graphId k =? 0); cbn [negb].
    - eapply exec_ext; [|exact M]. by intros [].
    - eapply exec_ext; [|exact (exec_trans _ _ _ _ _ _ _ _ _ M (e_count_moved g_exec_from_graph_ 1 _ ltac:(done)))]. by intros []. }
  assert (Mc : forall c, c <> g_multi_device -> exec_moved s (e_count c 1 s1)
    (fun c' => only g_activity_records 1 c' + only g_exec_from_graph_ (if ak_graphId k =? 0 then 0 else 1) c' + only c 1 c') [] [ak_deviceId k]).
  { intros c Hc. exact (exec_trans _ _ _ _ _ _ _ _ _ M1 (e_count_moved c 1 s1 Hc)). }
  unfold execs_of, devices_of, exec_tally, outcome_of. cbn [fst snd].
  destruct (ee_exec env); cbn [negb]; [|eexists; split; [done|]; eapply exec_ext; [|by apply Mc]; intros []; unfold only; simpl; lia].
  destruct ((ak_start k =? 0) && (ak_end k =? 0)); [eexists; split; [done|]; eapply exec_ext; [|by apply Mc]; intros []; unfold only; simpl; lia|].
  rewrite (vendor_to_mono_sane (ak_start k)) by done. cbn [mbind option_bind].
  destruct (ck_valid (ee_clock env)); cbn [negb orb]; [|eexists; split; [done|]; eapply exec_ext; [|by apply Mc]; intros []; unfold only; simpl; lia].
  rewrite (vendor_to_mono_sane (ak_end k)) by done. cbn [mbind option_bind].
  destruct (ck_valid (ee_clock' env)); cbn [negb orb]; [|eexists; split; [done|]; eapply exec_ext; [|by apply Mc]; intros []; unfold only; simpl; lia].
  set (s2 := exec_name_if_new _ _ _ _ s1). set (e := exec_record env k _ _).
  pose proof (exec_trans _ _ _ _ _ _ _ _ _ M1 (exec_name_moved (ee_name env) (ee_name' env) (hash_name (ak_name k)) (ak_name k) s1)) as M2.
  destruct (add 32 log_emit e (ee_add env) (ee_add' env) (g_eb s2) (eb_fires s2)) as [ok [b fs]] eqn:Ea.
  eexists. split; [done|].
  assert (M3 : exec_moved s2 (MkExec (e_cnt s2) (g_first_device s2) (g_devices_seen s2) (e_names s2) (e_name_seq s2) (e_name_wire s2) b fs
    (g_sm_count s2) (g_core_clock_hz s2)) (fun _ => 0) [e] []).
  { split; [intros; by rewrite Z.add_0_r| |intros seen []; rewrite app_nil_r; by split].
    exists [Add e (ee_add env) (ee_add' env)]. split; [done|]. unfold batch_run. simpl. by rewrite Ea. }
  eapply exec_ext; [|exact (exec_trans _ _ _ _ _ _ _ _ _ M2 M3)]. intros []; unfold only; simpl; lia.
Qed.

Lemma handle_records_moved xs s :
  Forall sane xs -> exists s', handle_records xs s = Some s' /\
    exec_moved s s' (exec_total xs) (concat (map execs_of xs)) (concat (map devices_of xs)).
Proof.
  intros Hx. revert s. induction Hx as [|x xs Hx _ IH]; intros s; [exists s; split; [done|apply exec_refl]|].
  destruct (handle_record_moved s x Hx) as (s1 & E1 & M1). destruct (IH s1) as (s2 & E2 & M2). exists s2.
  split; [simpl; by rewrite E1|]. exact (exec_trans _ _ _ _ _ _ _ _ _ M1 M2).
Qed.

Lemma hash_name_nonzero s : hash_name s <> 0.
Proof. unfold hash_name. case_match eqn:E; [done|]. by apply Z.eqb_neq in E. Qed.

Lemma added_concat xs : concat (map execs_of xs) = added_execs xs.
Proof.
  induction xs as [|x xs IH]; [done|]. cbn [map concat]. rewrite IH. unfold added_execs at 2, execs_of. simpl.
  by destruct (outcome_of x).
Qed.

Lemma devices_concat xs : concat (map devices_of xs) = map ak_deviceId (kernels_of xs).
Proof.
  induction xs as [|[[k| |] env] xs IH]; [done|..]; cbn [map concat]; rewrite IH; done.
Qed.

Lemma totals_split xs :
  exec_total xs g_activity_records = Z.of_nat (length (kernels_of xs)) /\
  exec_total xs g_activity_records = exec_total xs g_exec_unattached + exec_total xs g_exec_no_time +
    exec_total xs g_exec_no_clock + Z.of_nat (length (added_execs xs)).
Proof.
  assert (Hx : forall x, exec_tally x g_activity_records = (match x.1 with KindKernel _ => 1 | _ => 0 end) /\
    exec_tally x g_activity_records = exec_tally x g_exec_unattached + exec_tally x g_exec_no_time + exec_tally x g_exec_no_clock +
      match outcome_of x with Added _ => 1 | _ => 0 end).
  { intros [[k| |] env]; [|done..]. unfold exec_tally, outcome_of. simpl. by repeat case_match. }
  induction xs as [|x xs [IH1 IH2]]; [done|]. destruct (Hx x) as [H1 H2].
  assert (Ek : length (kernels_of (x :: xs)) = (match x.1 with KindKernel _ => 1 | _ => 0 end + length (kernels_of xs))%nat)
    by (unfold kernels_of; simpl; by destruct (x.1)).
  assert (Ea : length (added_execs (x :: xs)) = (match outcome_of x with Added _ => 1 | _ => 0 end + length (added_execs xs))%nat)
    by (unfold added_execs; simpl; by destruct (outcome_of x)).
  assert (Ec : forall c, exec_total (x :: xs) c = exec_tally x c + exec_total xs c) by done.
  rewrite !Ec, Ek, Ea. split.
  - rewrite IH1, H1. destruct (x.1); lia.
  - rewrite IH2, H2. destruct (outcome_of x); lia.
Qed.

(** C31: Every kernel execution CUPTI reports is recorded or counted.  For any
    sequence of activity records, with times of a host clock, and whatever the
    probes' semaphores, the clock fit and the correlation word are at each: all
    are handled; each kernel record is exactly one of unattached, without time,
    without clock, or added to the batch, and the counters count them; the
    batches sent and the pending records are, in order, a part of those added,
    [dropped_] counting the rest; a record added carries a kernel id that is
    never zero and depends on the name alone, so it is the launch's; where one
    clock fit converts both its times, it lasts as long as CUPTI measured; and
    the devices are listed once each, every one after the first counted. *)
Theorem exec_accounted junk xs :
  length junk = 32%nat -> Forall sane xs ->
  exists s, handle_records xs (exec_init junk) = Some s /\
  (forall c, c <> g_multi_device -> u64 (e_cnt s c) = u64 (exec_total xs c)) /\
  exec_total xs g_activity_records = Z.of_nat (length (kernels_of xs)) /\
  exec_total xs g_activity_records = exec_total xs g_exec_unattached + exec_total xs g_exec_no_time +
    exec_total xs g_exec_no_clock + Z.of_nat (length (added_execs xs)) /\
  records (eb_fires s) ++ take (n_ (g_eb s)) (buf_ (g_eb s)) `sublist_of` added_execs xs /\
  dropped_ (g_eb s) = u64 (Z.of_nat (length (added_execs xs)) - Z.of_nat (length (records (eb_fires s))) - Z.of_nat (n_ (g_eb s))) /\
  g_devices_seen s = first_by id (map ak_deviceId (kernels_of xs)) /\
  e_cnt s g_multi_device = u64 (Z.of_nat (length (g_devices_seen s) - 1)) /\
  (forall k env e, (KindKernel k, env) ∈ xs -> outcome_of (KindKernel k, env) = Added e ->
    x_kernel_id e = hash_name (ak_name k) /\ x_kernel_id e <> 0 /\
    x_correlation e = correlate_activity (ak_correlationId k) (ee_corr env) /\
    (ee_clock' env = ee_clock env -> ck_offset (ee_clock env) <= ak_start k -> ak_start k <= ak_end k ->
      x_end_ns e - x_start_ns e = ak_end k - ak_start k)).
Proof.
  intros Hj Hx. destruct (handle_records_moved xs (exec_init junk) Hx) as (s & E & [C (ops & A & B) D]).
  rewrite added_concat in A. rewrite devices_concat in D. exists s. destruct (totals_split xs) as [T1 T2].
  assert (D0 : devices_ok [] (exec_init junk)) by (by split). apply D in D0 as [D1 D2 D3]. rewrite app_nil_l in *.
  pose proof (run_inv 32 ltac:(lia) [] _ ops (init_inv 32 ltac:(lia) junk Hj)) as Hb. rewrite app_nil_l, A in Hb.
  change (g_eb (exec_init junk), eb_fires (exec_init junk)) with (Batch_init junk, @nil (fire gpu_exec_v1)) in B. rewrite <- B in Hb.
  split_and!; try done.
  - exact (bi_order _ _ _ _ Hb).
  - exact (bi_count _ _ _ _ Hb).
  - by rewrite D1.
  - intros k env e Hin Ho. rewrite list.Forall_forall in Hx. destruct (Hx _ Hin) as (_ & Hs1 & Hs2 & Hs3 & Hs4). simpl in *.
    unfold outcome_of in Ho. simpl in Ho. repeat case_match; try done. injection Ho as <-. simpl.
    split_and!; [done|apply hash_name_nonzero|done|]. intros -> Hof Hle. unfold mono_of, host_time, sane_clock in *.
    rewrite !u64_small by (unfold is_u64; lia). lia.
Qed.

Definition demo_env : exec_env := ExecEnv true true true true true (MkClock 1000 true 0) (MkClock 1000 true 0) 5.
Definition demo_acts : list (activity * exec_env) :=
  [(KindKernel (ActivityKernel 0 0 5000 7000 (Some [107]) 3 1), demo_env); (KindDevice 82 1695000, demo_env);
   (KindKernel (ActivityKernel 0 0 0 0 None 4 1), demo_env);
   (KindKernel (ActivityKernel 1 9 8000 8500 None 5 2), ExecEnv false true true true true (MkClock 0 false 0) (MkClock 0 false 0) 5);
   (KindOther, demo_env)].
Definition demo_exec_junk : list gpu_exec_v1 := replicate 32 (GpuExec 0 0 0 0 0 0).

Lemma exec_accounted_witness :
  exists s, handle_records demo_acts (exec_init demo_exec_junk) = Some s /\ g_devices_seen s = [0; 1] /\
    u64 (e_cnt s g_activity_records) = 3 /\ length (added_execs demo_acts) = 1%nat.
Proof.
  assert (Hx : Forall sane demo_acts) by (repeat constructor; simpl; unfold is_u32, host_time, sane_clock; simpl; lia).
  destruct (exec_accounted demo_exec_junk demo_acts eq_refl Hx) as (s & E & C & _ & _ & _ & _ & D & _).
  exists s. split; [exact E|]. split; [rewrite D; reflexivity|]. split; [rewrite C by done; reflexivity|reflexivity].
Defined.

(** The two times of an execution are converted in two critical sections.  A
    resampling between them that moves the offset by more than the kernel ran
    makes it end before it started. *)
Theorem exec_times_torn :
  let k := ActivityKernel 0 0 1000005000 1000007000 (Some [107]) 3 1 in
  exists c1 c2, resample 1000000000 1000 Clock_init = Some c1 /\ resample 1000006000 4000 c1 = Some c2 /\
    forall e, outcome_of (KindKernel k, ExecEnv true true true true true c1 c2 5) = Added e ->
      x_start_ns e = 6000 /\ x_end_ns e = 5000.
Proof.
  intros k. do 2 eexists. split; [reflexivity|]. split; [reflexivity|]. intros e [= <-]. done.
Qed.
