(* ===== verification/Report.v ===== *)
(** * Report: the exit report of the adapter, and its reader

    Models [report], [logf] and [open_log] of src/shim/nvidia/cupti_adapter.cc:
    the lines in which the adapter accounts for the whole run, composed over the
    states of the components that keep the counters; and
    [parseAdapterReport] of src/bench/cmd/scenario/gpupc.go, which takes the
    producer's half of the evidence from these lines. *)
From Stdlib Require Import String Ascii.
From S2P Require Import Prelude PcTier Maps Double Printf CallGuard Sampler Batch CubinQueue Burst Timers Replay Adapter Modules PcSampling Window.
From S2P Require Import Rendezvous Contexts Disclosure Inject GuardedCalls Launch Exec.
#[local] Open Scope Z_scope.
#[local] Existing Instance Maps.ascii_eq_dec'.

(** Everything the report reads. *)
Record process := Process {
  r_pid : Z;
  r_adapter : adapter;
  r_launch : launch_state;
  r_exec : exec_state;
  (** [g_names], into which both intern *)
  r_names : KernelNameTable;
  r_modules : modules;
  r_session : session;
  r_cupti : sys;
  r_plan : TickPlan;
  r_clock : ClockFit;
  r_burst_cfg : BurstConfig;
  g_buffer_alloc_failed : Z;
  cubins_offered : Z; cubins_send_failed : Z;
  g_resource_events : list Z;
  semaphore_count : Z;
  r_now : Z;
}.

(** A call of [logf]: the format, without the newline it ends in, and the
    arguments. *)
Abbreviation log_line := (String.string * list arg)%type.
Definition logf (l : log_line) : cstr := printf l.1 l.2 ++ ["010"%char].

(** [open_log]: where the lines go; [fopen] may fail. *)
Inductive log_dest := LogNone | LogStderr | LogFile (name : cstr).
Definition open_log (dest : option cstr) (fopen_ok : cstr -> bool) : log_dest :=
  match dest with
  | None | Some [] => LogNone
  | Some d =>
      if bool_decide (d = lit "stderr") || bool_decide (d = lit "-") then LogStderr
      else if fopen_ok d then LogFile d else LogNone
  end.

Section report.
  Context (r : process).
Let q := g_cubins (r_modules r).
Let x := r_exec r.
Let g := sg (r_cupti r).
Let s := r_session r.
Let t := tier s.
Let p := g_pc t.
Let d := g_pc_schedule t.
Let ad := r_adapter r.

Definition main_line (why : cstr) : log_line :=
  ("perfagent-cupti: %s pid=%d launches=%llu sampled=%llu period=%u launch_unattached=%llu launch_batch_dropped=%llu activity_kernels=%llu activity_other=%llu buffers=%llu buffer_alloc_failed=%llu exec_unattached=%llu exec_batch_dropped=%llu exec_no_clock=%llu exec_no_time=%llu cupti_dropped=%llu names=%zu modules_captured=%llu module_reload_skipped=%llu module_retained_unattached=%llu module_no_bytes=%llu cubin_too_large=%llu cubin_crc_failed=%llu cubin_alloc_failed=%llu cubin_queue_full=%llu cubin_queue_depth=%zu cubin_pending_full=%llu cubin_pending_depth=%zu cubins_sent=%llu cubin_send_failed=%llu cubins_offered=%llu cubin_transport_send_failed=%llu clock_steps=%llu clock_offset_ns=%lld sem_at_exit=%u"%string,
   [AS why; AD (r_pid r); ALlu (observed_ (g_sampler (r_launch r))); ALlu (sampled_ (g_sampler (r_launch r))); AU (period_ (g_sampler (r_launch r)));
    ALlu (g_launch_unattached (r_launch r)); ALlu (dropped_ (g_lb (r_launch r)));
    ALlu (e_cnt x g_activity_records); ALlu (e_cnt x g_activity_other); ALlu (e_cnt x g_buffers); ALlu (g_buffer_alloc_failed r);
    ALlu (e_cnt x g_exec_unattached); ALlu (dropped_ (g_eb x)); ALlu (e_cnt x g_exec_no_clock); ALlu (e_cnt x g_exec_no_time);
    ALlu (e_cnt x g_cupti_dropped); AZu (Z.of_nat (length (records_ (r_names r))));
    ALlu (counters q modules_captured); ALlu (counters q module_reload_skipped); ALlu (g_module_retained (r_modules r));
    ALlu (g_module_no_bytes (r_modules r)); ALlu (counters q cubin_too_large); ALlu (counters q cubin_crc_failed);
    ALlu (counters q cubin_alloc_failed); ALlu (counters q cubin_queue_full); AZu (Z.of_nat (length (q_ q)));
    ALlu (counters q cubin_pending_full); AZu (Z.of_nat (length (pending_ q))); ALlu (counters q cubins_sent);
    ALlu (counters q cubin_send_failed); ALlu (cubins_offered r); ALlu (cubins_send_failed r);
    ALlu (ck_steps (r_clock r)); ALld (ck_offset (r_clock r)); AU (semaphore_count r)]).

Definition resource_lines : list log_line :=
  omap (fun in_ => if in_.2 =? 0 then None
                   else Some ("perfagent-cupti: resource cbid=%u count=%llu"%string, [AU (Z.of_nat in_.1); ALlu in_.2]))
    (imap (fun i n => (i, n)) (g_resource_events r)).

Definition process_lines : list log_line :=
  [("perfagent-cupti: graph_execs=%llu multi_device=%llu devices=%zu"%string,
    [ALlu (e_cnt x g_exec_from_graph_); ALlu (e_cnt x g_multi_device); AZu (Z.of_nat (length (g_devices_seen x)))]);
   ("perfagent-cupti: cupti_calls=%llu cupti_reentrant=%llu cupti_waits=%llu cupti_try_failed_self=%llu cupti_try_failed_other=%llu cupti_max_depth=%u cupti_calls_misplaced=%llu cupti_flush_under_guard=%llu timer_ticks=%llu timer_drains=%llu timer_skipped=%llu"%string,
    [ALlu (entries_ g); ALlu (reentries_ g); ALlu (waits_ g); ALlu (try_failed_self_ g); ALlu (try_failed_other_ g); AU (max_depth_ g);
     ALlu (misplaced_callback_calls (r_cupti r)); ALlu (flush_under_guard (r_cupti r));
     ALlu (tp_ticks (r_plan r)); ALlu (tp_drains (r_plan r)); ALlu (tp_skipped (r_plan r))])].

Definition off_line : log_line :=
  ("perfagent-cupti: pc_sampling=off tier_refused=%llu nvperf=%s (set PERFAGENT_GPU_PC_SAMPLING=continuous or =serialized)"%string,
   [ALlu (ad_tier_refused ad); AS (ad_nvperf ad)]).

Definition tier_a_lines : list log_line :=
  [("perfagent-cupti: tier A bursts=%llu burst_ns=%llu duty=%.4f gap_ns=%llu windows=%llu range_end_drains=%llu start_failed=%llu stop_failed=%llu graph_refused=%llu sampling_now=%d"%string,
    [ALlu (b_cnt t g_sampling_bursts); ALlu (b_cnt t g_sampling_burst_ns); AF4 (duty (r_now r) (g_burst t)); ALlu (gap_ns_ (g_burst t));
     ALlu (b_cnt t g_windows_emitted); ALlu (pd_range_end d); ALlu (b_cnt t g_burst_start_failed); ALlu (b_cnt t g_burst_stop_failed);
     ALlu (b_cnt t g_tier_a_graph_refused); AD (if sampling_ (g_burst t) then 1 else 0)]);
   ("perfagent-cupti: tier A boundaries enter=%llu exit=%llu on_timer=%llu sync_missing=%llu sync_failed=%llu empty_bursts=%llu"%string,
    [ALlu (b_cnt t g_burst_enter_polls); ALlu (b_cnt t g_burst_exit_polls); ALlu (b_cnt t g_burst_calls_on_timer);
     ALlu (b_cnt t g_burst_sync_missing); ALlu (b_cnt t g_burst_sync_failed); ALlu (b_cnt t g_bursts_empty)])]
  ++ (if negb (b_cnt t g_sampling_bursts =? 0) && (b_cnt t g_bursts_empty =? b_cnt t g_sampling_bursts) then
        [("perfagent-cupti: WARNING every one of the %llu Tier A burst(s) in this run pulled ZERO PCs. Kernels were serialized and the throughput cost was paid in full, for no data. The usual cause is PERFAGENT_GPU_PC_MAX_PCS being too large: CUPTI withholds PC data until it can nearly fill collectNumPcs, so a high value means nothing is delivered inside a burst. It is %llu here and the burst is %llums; on GA102/CUDA 13.3 at a 50ms burst, 64 yielded on every burst and 512 on none. Lower it, lengthen the burst, or turn Tier A off. See issue #102."%string,
          [ALlu (b_cnt t g_sampling_bursts); ALlu (Z.of_nat (g_pc_collect_num_pcs (ad_pc ad))); ALlu (cfg_burst_ns (r_burst_cfg r) / 1000000)])]
      else []).

Definition pc_line (why : cstr) : log_line :=
  ("perfagent-cupti: pc %s tier=%s nvperf=%s period=%u(=%u cycles) stall_reasons=%zu ctx_seen=%llu ctx_enabled=%llu ctx_enable_failed=%llu ctx_destroyed=%llu ctx_disable_failed=%llu pc_records=%llu pcs=%llu pc_batch_dropped=%llu pc_unattached=%llu zero_stall_pairs=%llu getdata=%llu getdata_failed=%llu drain_rounds_capped=%llu drains_periodic=%llu drains_unload=%llu drains_range_end=%llu drains_teardown=%llu drains_coalesced=%llu module_unload_drains=%llu dropped_hw=%llu buffer_full=%llu non_user_samples=%llu total_samples=%llu emitted_counts=%llu graph_execs=%llu multi_device=%llu finalize_seen=%llu finalize_contended=%llu config_emitted=%llu config_no_device=%llu sm_count=%u clock_hz=%llu"%string,
   [AS why; AS (pc_tier_name (ad_tier ad)); AS (ad_nvperf ad); AU (g_pc_period s);
    AU (if (kPCPeriodMin <=? g_pc_period s) && (g_pc_period s <=? kPCPeriodMax) then 2 ^ g_pc_period s else 0);
    AZu (Z.of_nat (g_num_stall_reasons (stalls s)));
    ALlu (c_cnt s g_ctx_seen); ALlu (c_cnt s g_ctx_enabled); ALlu (c_cnt s g_ctx_enable_failed); ALlu (c_cnt s g_ctx_destroyed);
    ALlu (c_cnt s g_ctx_disable_failed); ALlu (pc_cnt p g_pc_records); ALlu (pc_cnt p g_pc_pcs); ALlu (dropped_ (g_pcb p));
    ALlu (pc_cnt p g_pc_unattached); ALlu (pc_cnt p g_pc_zero_stall); ALlu (pc_cnt p g_pc_getdata_calls);
    ALlu (pc_cnt p g_pc_getdata_failed); ALlu (pc_cnt p g_pc_drain_rounds_capped);
    ALlu (pd_periodic d); ALlu (pd_unload d); ALlu (pd_range_end d); ALlu (pd_teardown d); ALlu (pd_coalesced d);
    ALlu (c_cnt s g_module_unload_drains); ALlu (pc_cnt p g_pc_dropped_hw); ALlu (pc_cnt p g_pc_buffer_full);
    ALlu (pc_cnt p g_pc_non_user); ALlu (pc_cnt p g_pc_total_samples); ALlu (pc_cnt p g_pc_emitted_counts);
    ALlu (e_cnt x g_exec_from_graph_); ALlu (e_cnt x g_multi_device); ALlu (c_cnt s g_finalize_seen); ALlu (c_cnt s g_finalize_contended);
    ALlu (c_cnt s g_config_emitted); ALlu (c_cnt s g_config_no_device); AU (g_sm_count x); ALlu (g_core_clock_hz x)]).

Definition pc_tail_lines : list log_line :=
  (if negb (pc_cnt p g_pc_buffer_full =? 0) then
     [("perfagent-cupti: WARNING cuptiPCSamplingGetData returned CUPTI_ERROR_OUT_OF_MEMORY %llu time(s): CUPTI's hardware buffer filled and the PC data in it was DISCARDED. How much is unknowable --- droppedSamples does not count it. PERFAGENT_GPU_PC_WORKER_SLEEP_MS is %u; lowering it drains the buffer more often and is the cheap fix (100ms->10ms took this from 48 occurrences to 0 and 195 PCs to 2012 on GA102). PERFAGENT_GPU_PC_HW_BUFFER_MB and a longer PERFAGENT_GPU_PC_PERIOD also work. See issue #106."%string,
       [ALlu (pc_cnt p g_pc_buffer_full); AU (g_pc_worker_sleep_ms (ad_pc ad))])]
   else [])
  ++ [("perfagent-cupti: pc identity (log only, not a check): emitted_counts + dropped_hw + non_user = %llu <= total_samples = %llu; the gap is instructions with all selected stall counts zero, which CUPTI never reports"%string,
       [ALlu (u64 (pc_cnt p g_pc_emitted_counts + pc_cnt p g_pc_dropped_hw + pc_cnt p g_pc_non_user)); ALlu (pc_cnt p g_pc_total_samples)])].

(** With PC sampling on, the burst controller, the schedule and the PC batch
    exist, so that the tests for them are not repeated here; so do the cubin queue
    and the tick plan whenever the exit handler runs. *)
Definition report (why : cstr) : list log_line :=
  main_line why :: resource_lines ++ process_lines
  ++ (if negb (g_pc_enabled (ad_pc ad)) then [off_line]
      else (if g_pc_tier_a (ad_pc ad) then tier_a_lines else []) ++ pc_line why :: pc_tail_lines).
End report.

(** ** The reader *)

(** schema.GPUPCEvidence, as far as the report fills it. *)
Record evidence := Evidence {
  ProducerTier : cstr;
  ProducerPCRecords : Z; ProducerGraphExecs : Z;
  ProducerBursts : Z; ProducerWindows : Z; ProducerDuty : double;
  ProducerStartFailed : Z; ProducerStopFailed : Z; ProducerGraphRefuse : Z;
}.
Definition no_evidence : evidence := Evidence [] 0 0 0 0 d0 0 0 0.

(** [kv.uint] without its second result: 0 for an absent key or a text that is no
    number, and what strconv.ParseUint returns beside a range error. *)
Definition kv_uint (k : String.string) (line : cstr) : Z :=
  match kv_get (lit k) line with
  | None => 0
  | Some v =>
      match ParseUint v 10 64 with
      | Some n => n
      | None => match span_digits 10 v with (_ :: _, []) => 2 ^ 64 - 1 | _ => 0 end
      end
  end.

(** strconv.ParseFloat on digits with a fraction, which is all the report prints;
    other texts are not interpreted. *)
Definition ParseFloat (v : cstr) : double :=
  match span_digits 10 v with
  | (ds, c :: rest) =>
      if decide (c = "."%char)
      then match span_digits 10 rest with
           | (fs, []) => of_ratio (from_digits 10 (ds ++ fs)) (10 ^ Z.of_nat (length fs))
           | _ => d0
           end
      else d0
  | (ds, []) => of_ratio (from_digits 10 ds) 1
  end.
Definition kv_float (k : String.string) (line : cstr) : double :=
  match kv_get (lit k) line with Some v => ParseFloat v | None => d0 end.

(** What tells the lines apart. *)
Definition pc_pattern : cstr := lit "perfagent-cupti: pc ".
Definition tier_pattern : cstr := lit " tier=".
Definition records_pattern : cstr := lit " pc_records=".
Definition off_pattern : cstr := lit "perfagent-cupti: pc_sampling=off".
Definition bursts_pattern : cstr := lit "perfagent-cupti: tier A bursts=".

Definition parse_line (ev : evidence) (line : cstr) : evidence :=
  if Contains pc_pattern line && Contains tier_pattern line && Contains records_pattern line then
    Evidence (default (ProducerTier ev) (kv_get (lit "tier") line)) (kv_uint "pc_records" line) (kv_uint "graph_execs" line)
      (ProducerBursts ev) (ProducerWindows ev) (ProducerDuty ev) (ProducerStartFailed ev) (ProducerStopFailed ev) (ProducerGraphRefuse ev)
  else if Contains off_pattern line then
    Evidence (pc_tier_name kOff) (ProducerPCRecords ev) (ProducerGraphExecs ev)
      (ProducerBursts ev) (ProducerWindows ev) (ProducerDuty ev) (ProducerStartFailed ev) (ProducerStopFailed ev) (ProducerGraphRefuse ev)
  else if Contains bursts_pattern line then
    Evidence (ProducerTier ev) (ProducerPCRecords ev) (ProducerGraphExecs ev)
      (kv_uint "bursts" line) (kv_uint "windows" line) (kv_float "duty" line)
      (kv_uint "start_failed" line) (kv_uint "stop_failed" line) (kv_uint "graph_refused" line)
  else ev.

(** bufio.Scanner with a buffer of 1 MiB: lines without their end, until one does
    not fit. *)
Definition drop_cr (l : cstr) : cstr :=
  match list.last l with Some c => if decide (c = "013"%char) then take (length l - 1) l else l | None => l end.
Fixpoint scan_lines (fuel : nat) (s : cstr) : list cstr :=
  match fuel, s with
  | S fuel, _ :: _ =>
      let '(line, rest) := next_line s in
      if 1024 * 1024 <=? Z.of_nat (length line) then [] else drop_cr line :: scan_lines fuel rest
  | _, _ => []
  end.
Definition parseAdapterReport (stderr : cstr) : evidence := foldl parse_line no_evidence (scan_lines (length stderr) stderr).

(** ** What the reader finds *)

(** What a call of [logf] has to have, apart from values of the right types: the
    conversions its arguments ask for, no line end inside, and a length the
    reader takes. *)
Definition line_shape (l : log_line) : bool :=
  matched (compile l.1) l.2 &&
  forallb (fun x => match x with PChar c => negb (bool_decide (c = "010"%char)) && negb (bool_decide (c = "013"%char)) | PSpec _ => true end) (compile l.1) &&
  (Z.of_nat (length (compile l.1) + 70 * length l.2) <? 1024 * 1024).
Definition line_ok (l : log_line) : Prop := line_shape l = true /\ Forall arg_ok l.2.

Lemma plain_inline s : plain s -> Forall (fun c => c <> "010"%char /\ c <> "013"%char) s.
Proof. intros H. eapply List.Forall_impl; [|exact H]. intros c Hc. split; intros ->; discriminate Hc. Qed.

Lemma fill_inline ps args :
  Forall arg_ok args -> matched ps args = true ->
  forallb (fun x => match x with PChar c => negb (bool_decide (c = "010"%char)) && negb (bool_decide (c = "013"%char)) | PSpec _ => true end) ps = true ->
  Forall (fun c => c <> "010"%char /\ c <> "013"%char) (fill ps args).
Proof.
  revert args. induction ps as [|[c|sp] ps IH]; intros args Ha Hm Hp; [constructor| |]; cbn [forallb matched fill] in *.
  - apply andb_true_iff in Hp as [Hc Hp]. constructor; [|by apply IH].
    apply andb_true_iff in Hc as [H1 H2]. apply negb_true_iff, bool_decide_eq_false in H1, H2. done.
  - destruct args as [|a args]; [done|]. apply andb_true_iff in Hm as [Hsp Hm]. apply bool_decide_eq_true in Hsp. rewrite decide_True by done.
    apply Forall_cons_1 in Ha as [Ha Has]. apply Forall_app. split; [|by apply IH]. by apply plain_inline, text_word.
Qed.

Lemma next_line_app l rest : Forall (fun c => c <> "010"%char /\ c <> "013"%char) l -> next_line (l ++ "010"%char :: rest) = (l, rest).
Proof. induction 1 as [|c l [Hc _] _ IH]; [done|]. cbn [app next_line]. rewrite decide_False by done. by rewrite IH. Qed.
Lemma drop_cr_none l : Forall (fun c => c <> "010"%char /\ c <> "013"%char) l -> drop_cr l = l.
Proof.
  intros H. unfold drop_cr. destruct (list.last l) as [c|] eqn:E; [|done]. rewrite decide_False; [done|].
  apply last_Some_elem_of in E. rewrite list.Forall_forall in H. by destruct (H _ E).
Qed.

(** The lines of a log are read as they were printed, if they fit the reader's
    buffer. *)
Lemma scan_logged ls fuel :
  Forall line_ok ls -> (length (concat (map logf ls)) <= fuel)%nat ->
  scan_lines fuel (concat (map logf ls)) = map (fun l => printf l.1 l.2) ls.
Proof.
  intros Hok. revert fuel. induction Hok as [|l ls [Hs Ha] _ IH]; intros fuel Hf; [by destruct fuel|].
  unfold line_shape in Hs. rewrite !andb_true_iff, Z.ltb_lt in Hs. destruct Hs as [[Hm Hc] Hl].
  cbn [map concat] in *. unfold logf at 1 in Hf. unfold logf at 1.
  pose proof (fill_inline (compile l.1) l.2 Ha Hm Hc) as Hin. pose proof (fill_length (compile l.1) l.2 Ha) as Hlen.
  fold (printf l.1 l.2) in Hin, Hlen.
  rewrite !length_app in Hf. cbn [length] in Hf. destruct fuel as [|fuel]; [lia|]. rewrite <- app_assoc. cbn [app scan_lines].
  rewrite next_line_app by done. destruct (printf l.1 l.2 ++ "010"%char :: concat (map logf ls)) eqn:E; [by apply app_eq_nil in E as [_ ?]|].
  rewrite (proj2 (Z.leb_gt _ _)), drop_cr_none by (done || lia). f_equal. apply IH. lia.
Qed.

(** *** Telling the lines apart *)

Definition absent (p : cstr) (l : log_line) : bool :=
  forallb (fun s => negb (Contains p s) && negb (Contains p (s ++ ["-"%char]))) (segments (compile l.1) l.2 []).
Definition present (p : cstr) (l : log_line) : bool := existsb (Contains p) (segments (compile l.1) l.2 []).

Lemma absent_line p l : line_ok l -> pattern_ok p = true -> p <> [] -> absent p l = true -> Contains p (printf l.1 l.2) = false.
Proof.
  intros [Hs Ha] Hp Hn H. unfold line_shape in Hs. rewrite !andb_true_iff in Hs. destruct Hs as [[Hm _] _].
  exact (Contains_fill_none p (compile l.1) l.2 [] Hp Hn Hm Ha H).
Qed.
Lemma present_line p l : line_ok l -> present p l = true -> Contains p (printf l.1 l.2) = true.
Proof.
  intros [Hs Ha] H. unfold line_shape in Hs. rewrite !andb_true_iff in Hs. destruct Hs as [[Hm _] _].
  exact (Contains_fill_some p (compile l.1) l.2 [] Hm H).
Qed.

Definition ignored (l : log_line) : bool :=
  (absent pc_pattern l || absent tier_pattern l) && absent off_pattern l && absent bursts_pattern l.
Lemma ignored_line ev l : line_ok l -> ignored l = true -> parse_line ev (printf l.1 l.2) = ev.
Proof.
  intros Hl H. unfold ignored in H. rewrite !andb_true_iff, orb_true_iff in H. destruct H as [[H1 H2] H3]. unfold parse_line.
  rewrite (absent_line off_pattern l), (absent_line bursts_pattern l) by done.
  destruct H1 as [H1|H1]; [rewrite (absent_line pc_pattern l) by done; done|].
  rewrite (absent_line tier_pattern l) by done. by rewrite andb_false_r.
Qed.
Lemma ignored_lines ev ls : Forall line_ok ls -> Forall (fun l => ignored l = true) ls ->
  foldl parse_line ev (map (fun l => printf l.1 l.2) ls) = ev.
Proof. intros Hl. induction Hl as [|l ls Hl _ IH]; intros Hi; [done|]. apply Forall_cons_1 in Hi as [Hi His]. simpl. by rewrite ignored_line, IH. Qed.

Lemma kv_uint_arg k l a z :
  line_ok l -> forallb decided (tokens (compile l.1) l.2 []) = true ->
  item_get (lit k) (tokens (compile l.1) l.2 []) = Some [inr a] -> text a = put_dec z -> is_u64 z -> kv_uint k (printf l.1 l.2) = z.
Proof.
  intros [Hs Ha] Hd Hk Ht Hz. unfold line_shape in Hs. rewrite !andb_true_iff in Hs. destruct Hs as [[Hm _] _].
  unfold kv_uint, printf. rewrite kv_fill, Hk by done. cbn [fmap option_fmap option_map].
  replace (flat [inr a]) with (put_dec z) by (unfold flat; simpl; by rewrite app_nil_r).
  by destruct (put_dec_facts z Hz) as (_ & _ & ->).
Qed.
Lemma kv_uint_line k l z :
  line_ok l -> forallb decided (tokens (compile l.1) l.2 []) = true ->
  item_get (lit k) (tokens (compile l.1) l.2 []) = Some [inr (ALlu z)] -> is_u64 z -> kv_uint k (printf l.1 l.2) = z.
Proof. intros Hl Hd Hk Hz. by apply (kv_uint_arg k l (ALlu z)). Qed.
Lemma kv_text_line k l v :
  line_ok l -> forallb decided (tokens (compile l.1) l.2 []) = true ->
  item_get k (tokens (compile l.1) l.2 []) = Some v -> kv_get k (printf l.1 l.2) = Some (flat v).
Proof.
  intros [Hs Ha] Hd Hk. unfold line_shape in Hs. rewrite !andb_true_iff in Hs. destruct Hs as [[Hm _] _].
  unfold printf. by rewrite kv_fill, Hk.
Qed.

Lemma from_digits_app ds fs : from_digits 10 (ds ++ fs) = from_digits 10 ds * 10 ^ Z.of_nat (length fs) + from_digits 10 fs.
Proof.
  unfold from_digits. rewrite foldl_app. set (a := foldl _ 0 ds). clearbody a. clear ds.
  assert (H : forall a, foldl (fun a d => a * 10 + d) a fs = a * 10 ^ Z.of_nat (length fs) + foldl (fun a d => a * 10 + d) 0 fs); [|apply H].
  clear a. induction fs as [|f fs IH]; intros a; [simpl; lia|]. cbn [foldl length]. rewrite (IH (a * 10 + f)), (IH (0 * 10 + f)).
  rewrite Nat2Z.inj_succ, Z.pow_succ_r by lia. ring.
Qed.

(** A printed fraction is read back as the double nearest to it. *)
Lemma ParseFloat_frac4 t : 0 <= t < 2 ^ 64 -> ParseFloat (put_frac4 t) = of_ratio t 10000.
Proof.
  intros Ht. unfold ParseFloat, put_frac4. destruct (put_dec_digits (t / 10000)) as (ds & -> & _ & H).
  destruct H as [Hds Hv]; [split; [apply Z.div_pos; lia|apply Z.div_lt_upper_bound; lia]|].
  rewrite span_digits_app; [|lia|done|by right; right; right; right]. cbn [decide]. rewrite decide_True by done.
  set (fs := [t / 1000 mod 10; t / 100 mod 10; t / 10 mod 10; t mod 10]).
  assert (Hfs : digits_ok 10 fs) by (repeat constructor; by apply Z.mod_pos_bound).
  pose proof (span_digits_app 10 fs [] ltac:(lia) Hfs I) as E. rewrite app_nil_r in E. rewrite E.
  rewrite from_digits_app, Hv. f_equal. change (10 ^ Z.of_nat (length fs)) with 10000. unfold fs, from_digits. cbn [foldl].
  Z.to_euclidean_division_equations. lia.
Qed.

(** *** The two lines it reads numbers from, whatever the numbers *)

Lemma tier_a_tokens b n y gp w re sf st gr sn :
  let ts := tokens (compile "perfagent-cupti: tier A bursts=%llu burst_ns=%llu duty=%.4f gap_ns=%llu windows=%llu range_end_drains=%llu start_failed=%llu stop_failed=%llu graph_refused=%llu sampling_now=%d")
    [ALlu b; ALlu n; AF4 y; ALlu gp; ALlu w; ALlu re; ALlu sf; ALlu st; ALlu gr; AD sn] [] in
  forallb decided ts = true /\ item_get (lit "bursts") ts = Some [inr (ALlu b)] /\ item_get (lit "windows") ts = Some [inr (ALlu w)] /\
  item_get (lit "duty") ts = Some [inr (AF4 y)] /\ item_get (lit "start_failed") ts = Some [inr (ALlu sf)] /\
  item_get (lit "stop_failed") ts = Some [inr (ALlu st)] /\ item_get (lit "graph_refused") ts = Some [inr (ALlu gr)].
Proof. vm_compute. done. Qed.

Lemma pc_tokens tn nv a1 a2 a3 a4 a5 a6 a7 a8 a9 a10 a11 a12 a13 a14 a15 a16 a17 a18 a19 a20 a21 a22 a23 a24 a25 a26 a27 a28 a29 a30 a31 a32 a33 a34 a35 :
  let ts := tokens (compile "perfagent-cupti: pc %s tier=%s nvperf=%s period=%u(=%u cycles) stall_reasons=%zu ctx_seen=%llu ctx_enabled=%llu ctx_enable_failed=%llu ctx_destroyed=%llu ctx_disable_failed=%llu pc_records=%llu pcs=%llu pc_batch_dropped=%llu pc_unattached=%llu zero_stall_pairs=%llu getdata=%llu getdata_failed=%llu drain_rounds_capped=%llu drains_periodic=%llu drains_unload=%llu drains_range_end=%llu drains_teardown=%llu drains_coalesced=%llu module_unload_drains=%llu dropped_hw=%llu buffer_full=%llu non_user_samples=%llu total_samples=%llu emitted_counts=%llu graph_execs=%llu multi_device=%llu finalize_seen=%llu finalize_contended=%llu config_emitted=%llu config_no_device=%llu sm_count=%u clock_hz=%llu")
    [AS (lit "exit"); AS tn; AS nv; AU a1; AU a2; AZu a3; ALlu a4; ALlu a5; ALlu a6; ALlu a7; ALlu a8; ALlu a9; ALlu a10; ALlu a11; ALlu a12; ALlu a13;
     ALlu a14; ALlu a15; ALlu a16; ALlu a17; ALlu a18; ALlu a19; ALlu a20; ALlu a21; ALlu a22; ALlu a23; ALlu a24; ALlu a25; ALlu a26; ALlu a27;
     ALlu a28; ALlu a29; ALlu a30; ALlu a31; ALlu a32; ALlu a33; AU a34; ALlu a35] [] in
  forallb decided ts = true /\ item_get (lit "tier") ts = Some (map inl tn) /\ item_get (lit "pc_records") ts = Some [inr (ALlu a9)] /\
  item_get (lit "graph_execs") ts = Some [inr (ALlu a28)].
Proof. vm_compute. done. Qed.

(** *** The whole report *)

(** What [pin_nvperf_host] says, and the word before it has run. *)
Definition nvperf_words : list cstr :=
  map lit ["unchecked"; "no-cupti-path"; "pin-failed"; "pinned"; "matched"; "mismatched"; "no-sibling"]%string.
Lemma nvperf_word l : (pin_nvperf_host l).1.2 ∈ nvperf_words.
Proof.
  unfold pin_nvperf_host. destruct (ld_cupti l); [|apply list_elem_of_In; simpl; tauto].
  destruct (nvperf_pin_decide _ _); [destruct (ld_dlopen l _)|..]; apply list_elem_of_In; simpl; tauto.
Qed.

(** The numbers of the report are values of the counters' types. *)
Definition printable (r : process) : Prop :=
  Forall (fun l : log_line => Forall arg_ok l.2) (report r (lit "exit")) /\ ad_nvperf (r_adapter r) ∈ nvperf_words.

(** What the states say. *)
Definition duty_read (x : double) : double := match x with DFin _ n => of_ratio (tenthousandths n) 10000 | _ => d0 end.
Definition evidence_of (r : process) : evidence :=
  let t := tier (r_session r) in
  let on := g_pc_enabled (ad_pc (r_adapter r)) in
  let a := on && g_pc_tier_a (ad_pc (r_adapter r)) in
  Evidence (if on then pc_tier_name (ad_tier (r_adapter r)) else pc_tier_name kOff)
    (if on then pc_cnt (g_pc t) g_pc_records else 0) (if on then e_cnt (r_exec r) g_exec_from_graph_ else 0)
    (if a then b_cnt t g_sampling_bursts else 0) (if a then b_cnt t g_windows_emitted else 0)
    (if a then duty_read (duty (r_now r) (g_burst t)) else d0)
    (if a then b_cnt t g_burst_start_failed else 0) (if a then b_cnt t g_burst_stop_failed else 0)
    (if a then b_cnt t g_tier_a_graph_refused else 0).

Lemma resource_shape r : Forall (fun l => line_shape l = true /\ ignored l = true) (resource_lines r).
Proof.
  apply list.Forall_forall. intros l Hl. apply list_elem_of_omap in Hl as ([i n] & _ & H). simpl in H.
  destruct (n =? 0); [done|]. injection H as <-. split; vm_compute; reflexivity.
Qed.

Lemma process_shape r : Forall (fun l => line_shape l = true /\ ignored l = true) (main_line r (lit "exit") :: process_lines r).
Proof. repeat (apply List.Forall_cons; [split; vm_compute; reflexivity|]). apply List.Forall_nil. Qed.

Lemma pc_tail_shape r : Forall (fun l => line_shape l = true /\ ignored l = true) (pc_tail_lines r).
Proof.
  unfold pc_tail_lines. apply Forall_app. split; [case_match; [|apply List.Forall_nil]|];
    (apply List.Forall_cons; [split; vm_compute; reflexivity|apply List.Forall_nil]).
Qed.

Lemma tier_a_shape r l ls : tier_a_lines r = l :: ls ->
  line_shape l = true /\ present bursts_pattern l = true /\ absent pc_pattern l = true /\ absent off_pattern l = true /\
  Forall (fun l => line_shape l = true /\ ignored l = true) ls.
Proof.
  unfold tier_a_lines. intros E. injection E as <- <-. split_and!; [vm_compute; reflexivity..|].
  apply List.Forall_cons; [split; vm_compute; reflexivity|]. case_match; [|apply List.Forall_nil].
  apply List.Forall_cons; [split; vm_compute; reflexivity|apply List.Forall_nil].
Qed.

Lemma skip_lines ev ls rest :
  Forall (fun l : log_line => Forall arg_ok l.2) ls -> Forall (fun l => line_shape l = true /\ ignored l = true) ls ->
  foldl parse_line ev (map (fun l => printf l.1 l.2) (ls ++ rest)) = foldl parse_line ev (map (fun l => printf l.1 l.2) rest).
Proof.
  intros Ha Hs. rewrite map_app, foldl_app, (ignored_lines ev ls); [done| |].
  - apply list.Forall_forall. intros l Hl. rewrite list.Forall_forall in Ha, Hs. exact (conj (proj1 (Hs _ Hl)) (Ha _ Hl)).
  - apply list.Forall_forall. intros l Hl. rewrite list.Forall_forall in Hs. exact (proj2 (Hs _ Hl)).
Qed.

Lemma off_read r ev : ad_nvperf (r_adapter r) ∈ nvperf_words ->
  Forall arg_ok (off_line r).2 -> line_shape (off_line r) = true /\
  parse_line ev (printf (off_line r).1 (off_line r).2) =
  Evidence (pc_tier_name kOff) (ProducerPCRecords ev) (ProducerGraphExecs ev) (ProducerBursts ev) (ProducerWindows ev) (ProducerDuty ev)
    (ProducerStartFailed ev) (ProducerStopFailed ev) (ProducerGraphRefuse ev).
Proof.
  intros Hw Ha. assert (Hs : line_shape (off_line r) = true) by (vm_compute; reflexivity). split; [done|].
  assert (Hl : line_ok (off_line r)) by done. unfold parse_line.
  rewrite (absent_line pc_pattern (off_line r)), (present_line off_pattern (off_line r)); try done.
  unfold absent, off_line. cbn [fst snd]. apply list_elem_of_In in Hw. unfold nvperf_words in Hw. simpl in Hw.
  destruct Hw as [<-|[<-|[<-|[<-|[<-|[<-|[<-|[]]]]]]]]; vm_compute; reflexivity.
Qed.

Lemma tier_a_read r ev : let l := default (main_line r []) (tier_a_lines r !! 0%nat) in
  Forall arg_ok l.2 -> let t := tier (r_session r) in
  parse_line ev (printf l.1 l.2) =
  Evidence (ProducerTier ev) (ProducerPCRecords ev) (ProducerGraphExecs ev) (b_cnt t g_sampling_bursts) (b_cnt t g_windows_emitted)
    (duty_read (duty (r_now r) (g_burst t))) (b_cnt t g_burst_start_failed) (b_cnt t g_burst_stop_failed) (b_cnt t g_tier_a_graph_refused).
Proof.
  intros l Ha t. destruct (tier_a_shape r l (drop 1 (tier_a_lines r)) eq_refl) as (Hs & Hb & Hp & Ho & _).
  assert (Hl : line_ok l) by done. unfold parse_line.
  rewrite (absent_line pc_pattern l), (absent_line off_pattern l), (present_line bursts_pattern l) by done. cbn [andb].
  pose proof (tier_a_tokens (b_cnt t g_sampling_bursts) (b_cnt t g_sampling_burst_ns) (duty (r_now r) (g_burst t)) (gap_ns_ (g_burst t))
    (b_cnt t g_windows_emitted) (pd_range_end (g_pc_schedule t)) (b_cnt t g_burst_start_failed) (b_cnt t g_burst_stop_failed)
    (b_cnt t g_tier_a_graph_refused) (if sampling_ (g_burst t) then 1 else 0)) as (D & T1 & T2 & T3 & T4 & T5 & T6).
  pose proof Ha as Ha'. rewrite list.Forall_forall in Ha'.
  assert (Hin : forall a, In a l.2 -> arg_ok a) by (intros a Hx; apply Ha'; by apply list_elem_of_In).
  assert (Hu : forall z, In (ALlu z) l.2 -> is_u64 z) by (intros z Hz; exact (Hin _ Hz)).
  rewrite (kv_uint_line "bursts" l _ Hl D T1), (kv_uint_line "windows" l _ Hl D T2), (kv_uint_line "start_failed" l _ Hl D T4),
    (kv_uint_line "stop_failed" l _ Hl D T5), (kv_uint_line "graph_refused" l _ Hl D T6) by (apply Hu; cbn; tauto).
  f_equal. unfold kv_float. rewrite (kv_text_line (lit "duty") l _ Hl D T3).
  destruct (Hin (AF4 (duty (r_now r) (g_burst t))) ltac:(cbn; tauto)) as (n & E & Hn). rewrite E.
  change (flat [inr (AF4 (DFin false n))]) with (put_frac4 (tenthousandths n) ++ []). rewrite app_nil_r. by apply ParseFloat_frac4.
Qed.

Lemma pc_read r ev : ad_nvperf (r_adapter r) ∈ nvperf_words -> let l := pc_line r (lit "exit") in Forall arg_ok l.2 ->
  line_shape l = true /\
  parse_line ev (printf l.1 l.2) =
  Evidence (pc_tier_name (ad_tier (r_adapter r))) (pc_cnt (g_pc (tier (r_session r))) g_pc_records) (e_cnt (r_exec r) g_exec_from_graph_)
    (ProducerBursts ev) (ProducerWindows ev) (ProducerDuty ev) (ProducerStartFailed ev) (ProducerStopFailed ev) (ProducerGraphRefuse ev).
Proof.
  intros Hw l Ha. assert (Hs : line_shape l = true) by (vm_compute; reflexivity). split; [done|]. assert (Hl : line_ok l) by done.
  assert (Hr : present records_pattern l = true).
  { unfold l, pc_line, present. cbn [fst snd]. apply list_elem_of_In in Hw. unfold nvperf_words in Hw. simpl in Hw.
    destruct Hw as [<-|[<-|[<-|[<-|[<-|[<-|[<-|[]]]]]]]]; destruct (ad_tier (r_adapter r)); vm_compute; reflexivity. }
  unfold parse_line.
  rewrite (present_line pc_pattern l), (present_line tier_pattern l), (present_line records_pattern l)
    by (first [exact Hl | exact Hr | unfold l, pc_line; destruct (ad_tier (r_adapter r)); vm_compute; reflexivity]).
  cbn [andb]. assert (Hu : forall z, In (ALlu z) l.2 -> is_u64 z).
  { intros z Hz. rewrite list.Forall_forall in Ha. apply (Ha (ALlu z)). by apply list_elem_of_In. }
  edestruct (pc_tokens (pc_tier_name (ad_tier (r_adapter r))) (ad_nvperf (r_adapter r))) as (D & T1 & T2 & T3).
  rewrite (kv_text_line (lit "tier") l _ Hl D T1), (kv_uint_line "pc_records" l _ Hl D T2), (kv_uint_line "graph_execs" l _ Hl D T3)
    by (apply Hu; cbn; tauto).
  cbn [default from_option]. by rewrite flat_chars.
Qed.

(** C23: The exit report says what the adapter counted, and the benchmark reads
    it.  Whatever the states of the components, with values of the counters'
    types: of the lines [report] prints, the reader of the benchmark takes the
    tier, the records, the graph executions and, for serialized bursts, their
    number, the windows, the failures and the duty cycle exactly as the components
    have them, the last as the double nearest to its value in ten-thousandths;
    nothing else in the report is mistaken for one of these lines, whatever its
    numbers, and with PC sampling off the reader finds "off" and no numbers. *)
Theorem report_reads_back r : printable r -> parseAdapterReport (concat (map logf (report r (lit "exit")))) = evidence_of r.
Proof.
  intros [Hp Hw]. pose proof Hp as Hall. unfold report in Hall. rewrite app_comm_cons in Hall.
  assert (Hok : Forall line_ok (report r (lit "exit"))).
  { enough (Hs : Forall (fun l => line_shape l = true) (report r (lit "exit"))).
    { apply list.Forall_forall. intros l Hl. rewrite list.Forall_forall in Hs, Hp. split; auto. }
    pose proof (process_shape r) as H1. apply Forall_cons_1 in H1 as [[H0 _] H1]. unfold report.
    assert (Hf : forall ls, Forall (fun l => line_shape l = true /\ ignored l = true) ls -> Forall (fun l => line_shape l = true) ls)
      by (intros ls H; eapply List.Forall_impl; [|exact H]; by intros l [? _]).
    constructor; [done|]. apply Forall_app. split; [apply Hf, resource_shape|]. apply Forall_app. split; [by apply Hf|].
    case_match; [constructor; [vm_compute; reflexivity|constructor]|]. apply Forall_app. split.
    - case_match; [|constructor]. destruct (tier_a_shape r _ _ eq_refl) as (? & _ & _ & _ & ?). constructor; [done|by apply Hf].
    - constructor; [vm_compute; reflexivity|]. apply Hf, pc_tail_shape. }
  unfold parseAdapterReport. rewrite scan_logged by done. clear Hok.
  pose proof (process_shape r) as H1. apply Forall_cons_1 in H1 as [H0 H1]. unfold report in *.
  apply Forall_cons_1 in Hp as [P0 Hp]. apply Forall_app in Hp as [P1 Hp]. apply Forall_app in Hp as [P2 Hp].
  match goal with |- context [main_line r (lit "exit") :: ?X] => change (main_line r (lit "exit") :: X) with ([main_line r (lit "exit")] ++ X) end.
  rewrite skip_lines by (apply List.Forall_cons; [done|apply List.Forall_nil]). rewrite skip_lines by (done || apply resource_shape).
  rewrite skip_lines by done. clear Hall P0 P1 P2 H0 H1. unfold evidence_of. destruct (g_pc_enabled (ad_pc (r_adapter r))); cbn [negb andb] in *.
  - apply Forall_app in Hp as [P3 Hp]. apply Forall_cons_1 in Hp as [P4 P5]. rewrite map_app, foldl_app. cbn [map foldl].
    rewrite (proj2 (pc_read r _ Hw P4)). rewrite <- (app_nil_r (pc_tail_lines r)), skip_lines by (done || apply pc_tail_shape). cbn [map foldl].
    destruct (g_pc_tier_a (ad_pc (r_adapter r))); [|done].
    destruct (tier_a_lines r) as [|l ls] eqn:El; [done|]. apply Forall_cons_1 in P3 as [P3 P6]. cbn [map foldl].
    pose proof (tier_a_read r no_evidence) as Hr. rewrite El in Hr. specialize (Hr P3). cbn [default from_option] in Hr. simpl in Hr. rewrite Hr.
    destruct (tier_a_shape r l ls El) as (_ & _ & _ & _ & Hls). rewrite <- (app_nil_r ls), skip_lines by done. done.
  - apply Forall_cons_1 in Hp as [P3 _]. cbn [map foldl]. by rewrite (proj2 (off_read r _ Hw P3)).
Qed.

(** *** A serialized run, and one with PC sampling off *)

Definition demo_process (tier_ : PCSamplingTier) : process :=
  let ad := configure (default_env (lit "serialized")) tier_ 0 (lit "pinned") kEnrollConfirmed in
  Process 4242 ad (launch_init 8 0 []) (exec_init []) KernelNameTable_init modules_init (demo_session 8) demo_sys (ad_plan ad) Clock_init default_burst
    0 0 0 [0; 3; 0; 1] 1 5000.

Definition arg_okb (a : arg) : bool :=
  match a with
  | ALlu z | AZu z => (0 <=? z) && (z <? 2 ^ 64)
  | AU z => (0 <=? z) && (z <? 2 ^ 32)
  | ALld z => (- 2 ^ 63 <=? z) && (z <? 2 ^ 63)
  | AD z => (- 2 ^ 31 <=? z) && (z <? 2 ^ 31)
  | AS s => forallb (fun c => negb (is_space c)) s && negb (length s =? 0)%nat && (length s <=? 64)%nat
  | AF4 (DFin false n) => (0 <=? tenthousandths n) && (tenthousandths n <? 2 ^ 64)
  | AF4 _ => false
  end.
Lemma arg_okb_sound a : arg_okb a = true -> arg_ok a.
Proof.
  destruct a as [z|z|z|z|z|s|x]; simpl; rewrite ?andb_true_iff, ?Z.leb_le, ?Z.ltb_lt; try (unfold is_u64, is_u32; lia).
  - rewrite forallb_forall, Nat.leb_le, negb_true_iff, Nat.eqb_neq. intros [[H1 H2] H3]. split_and!; [|by destruct s|done].
    apply list.Forall_forall. intros c Hc%list_elem_of_In%H1. by apply negb_true_iff in Hc.
  - destruct x as [[] n| |]; try done. rewrite andb_true_iff, Z.leb_le, Z.ltb_lt. eauto.
Qed.
Definition printableb (r : process) : bool :=
  forallb (fun l : log_line => forallb arg_okb l.2) (report r (lit "exit")) && bool_decide (ad_nvperf (r_adapter r) ∈ nvperf_words).
Lemma printableb_sound r : printableb r = true -> printable r.
Proof.
  unfold printableb. rewrite andb_true_iff, bool_decide_eq_true, forallb_forall. intros [H Hw]. split; [|done].
  apply list.Forall_forall. intros l Hl%list_elem_of_In%H. rewrite forallb_forall in Hl.
  apply list.Forall_forall. intros a Ha%list_elem_of_In%Hl. by apply arg_okb_sound.
Qed.

Lemma report_reads_back_witness :
  printable (demo_process kSerialized) /\ printable (demo_process kOff) /\
  ProducerTier (parseAdapterReport (concat (map logf (report (demo_process kSerialized) (lit "exit"))))) = lit "serialized" /\
  ProducerBursts (parseAdapterReport (concat (map logf (report (demo_process kSerialized) (lit "exit"))))) = 1 /\
  ProducerTier (parseAdapterReport (concat (map logf (report (demo_process kOff) (lit "exit"))))) = lit "off".
Proof.
  assert (Ha : printable (demo_process kSerialized)) by (apply printableb_sound; vm_compute; reflexivity).
  assert (Hb : printable (demo_process kOff)) by (apply printableb_sound; vm_compute; reflexivity).
  split; [exact Ha|]. split; [exact Hb|]. rewrite (report_reads_back _ Ha), (report_reads_back _ Hb). vm_compute. done.
Defined.
