(* ===== verification/Exit.v ===== *)
(** * Exit: the exit handler, and what its report adds up to

    Models [at_exit_handler] of src/shim/nvidia/cupti_adapter.cc over the whole
    state of the adapter ([process] of Report): the shutdown of a burst, the
    finalization of the contexts, the last delivery of activity buffers, the
    flushes of the batches, the last settle and offer of modules, and the report.
    The timer thread is joined before any of it (Replay models [stop]). *)
From Stdlib Require Import String Ascii.
From S2P Require Import Prelude Abi PcTier Maps Double Printf CallGuard Sampler Batch CubinQueue Burst Timers Replay Adapter Modules PcSampling Window.
From S2P Require Import Rendezvous Contexts Disclosure Inject GuardedCalls Launch Exec Report.
#[local] Open Scope Z_scope.

(** What the handler meets: whether a graph was seen and the guard is free, its
    thread and the clock; the buffers that CUPTI hands over during the flush; the
    semaphores when the launches and the executions are flushed; the clock and
    the semaphore's count when the report is written. *)
Record exit_env := ExitEnv {
  xe_sees : bool; xe_guard_free : bool; xe_tid : Z; xe_now : Z;
  xe_buffers : list (option (list (Exec.activity * exec_env)) * option Z);
  xe_launch : bool; xe_exec : bool;
  xe_report_now : Z; xe_semaphore : Z;
}.

(** The executions and the launches intern into one table, and number the names
    they send from one sequence. *)
Definition share_names (names : KernelNameTable) (seq : Z) (x : exec_state) : exec_state :=
  MkExec (e_cnt x) (g_first_device x) (g_devices_seen x) names seq (e_name_wire x) (g_eb x) (eb_fires x) (g_sm_count x) (g_core_clock_hz x).
Definition take_names (x : exec_state) (l : launch_state) : launch_state :=
  MkLaunch (g_launch_ordinal l) (g_sampler l) (g_corr l) (e_names x) (e_name_seq x) (g_sampled_seq l) (g_lb l)
    (lb_fires l) (wire l) (g_launch_unattached l) (g_rt_launch_depth l) (inside l) (issued l) (skipped l) (queued l).

Fixpoint buffers_completed (bs : list (option (list (Exec.activity * exec_env)) * option Z)) (x : exec_state) : option exec_state :=
  match bs with [] => Some x | b :: l => x ← buffer_completed b.1 b.2 x; buffers_completed l x end.

(** [g_eb->flush()]. *)
Definition flush_execs (en : bool) (x : exec_state) : exec_state :=
  let '(b, fs) := flush log_emit en (g_eb x) (eb_fires x) in
  MkExec (e_cnt x) (g_first_device x) (g_devices_seen x) (e_names x) (e_name_seq x) (e_name_wire x) b fs (g_sm_count x) (g_core_clock_hz x).

(** The executions from graphs in these buffers, which the drop counter of the
    session sees too. *)
Definition graph_kernels (bs : list (option (list (Exec.activity * exec_env)) * option Z)) : nat :=
  length (filter (fun k => ak_graphId k <> 0) (kernels_of (bs ≫= fun b => default [] b.1))).

(** [cupti_cubin_crc]: zero where CUPTI could not. *)
Definition cupti_cubin_crc (GetCubinCrc : list Z -> option Z) (bytes : list Z) : Z := default 0 (GetCubinCrc bytes).

Section pass.
  Context (lim : CubinQueueLimits) (crc : list Z -> Z).
  (** [cubin_offer_to_consumer], modelled in Rendezvous, with its two counters,
      against whatever the kernel answers at the n-th offer. *)
  Context (offer : nat -> Z -> list Z -> Z * Z -> bool * (Z * Z)).

(** One [settle] run to its end, and one [drain]. *)
Fixpoint settle_pass (fuel : nat) (m : modules) : option modules :=
  match fuel with
  | O => None
  | S fuel =>
      match settling (g_cubins m) with
      | SIdle => Some m
      | _ => q ← qnext lim crc (g_cubins m) Settle; settle_pass fuel (set_ann (told_by (g_cubins m) q (ann m)) (set_cubins q m))
      end
  end.
Definition settle (m : modules) : option modules :=
  q ← qnext lim crc (g_cubins m) SettleBegin; settle_pass (4 * length (pending_ (g_cubins m)) + 2) (set_cubins q m).

Fixpoint drain_pass (fuel : nat) (m : modules) (oc : Z * Z) : option (modules * (Z * Z)) :=
  match fuel with
  | O => None
  | S fuel =>
      match draining (g_cubins m) !! 0%nat with
      | None => Some (m, oc)
      | Some (DLoop _ _) => q ← qnext lim crc (g_cubins m) (CubinQueue.Drain 0 false); drain_pass fuel (set_cubins q m) oc
      | Some (DHeld _ _ e) =>
          let '(ok, oc) := offer (length (offered (g_cubins m))) (en_crc e) (default [] (h_blocks (mem (g_cubins m)) !! en_bytes e)) oc in
          q ← qnext lim crc (g_cubins m) (CubinQueue.Drain 0 ok); drain_pass fuel (set_cubins q m) oc
      end
  end.
Definition drain (m : modules) (oc : Z * Z) : option (modules * (Z * Z)) :=
  q ← qnext lim crc (g_cubins m) (DrainBegin 0); drain_pass (2 * length (q_ (g_cubins m)) + 2) (set_cubins q m) oc.

End pass.

Section handler.
  Context (cu : cupti_pc) (getdata : nat -> getdata_result) (sem wsem start_ok stop_ok : nat -> bool) (timer : Z).
  Context (lim : CubinQueueLimits) (GetCubinCrc : list Z -> option Z) (offer : nat -> Z -> list Z -> Z * Z -> bool * (Z * Z)).

(** [at_exit_handler], from the join of the timer on.  The buffers arrive on a
    thread of CUPTI's inside [ActivityFlushAll], which waits for them. *)
Definition at_exit_handler (e : exit_env) (r : process) : option (process * list log_line) :=
  let g := ad_pc (r_adapter r) in
  let step := session_step (r_burst_cfg r) g cu getdata sem wsem start_ok stop_ok timer in
  let s := step (r_session r) (AtExit (xe_sees e) (xe_guard_free e) (xe_tid e) (xe_now e)) in
  x ← buffers_completed (xe_buffers e) (share_names (r_names r) (g_name_seq (r_launch r)) (r_exec r));
  let s := foldl step s (replicate (graph_kernels (xe_buffers e)) GraphSeen) in
  let l := take_names x (r_launch r) in
  l ← launch_next l (FlushLaunches (xe_launch e));
  let x := flush_execs (xe_exec e) x in
  let s := if g_pc_enabled g then pcb_flush sem s else s in
  let crc := cupti_cubin_crc GetCubinCrc in
  m ← settle lim crc (r_modules r);
  '(m, oc) ← drain lim crc offer m (cubins_offered r, cubins_send_failed r);
  let r' := Process (r_pid r) (r_adapter r) l x (e_names x) m s (r_cupti r) (r_plan r) (r_clock r) (r_burst_cfg r)
              (g_buffer_alloc_failed r) oc.1 oc.2 (g_resource_events r) (xe_semaphore e) (xe_report_now e) in
  Some (r', report r' (lit "exit")).
End handler.

(** ** The last settle and offer take everything *)

(** The budget of a pass covers what is left to do. *)
Definition settle_budget (q : queue) : Prop :=
  match settling q with
  | SIdle => pending_ q = []
  | SLoop d b => b = (d + length (pending_ q))%nat
  | SHeld d b _ | SKeyed d b _ | SPushed d b _ => b = (S d + length (pending_ q))%nat
  end.
Definition settle_left (q : queue) : nat :=
  4 * length (pending_ q) + match settling q with SIdle => 0 | SLoop _ _ => 1 | SHeld _ _ _ => 4 | SKeyed _ _ _ => 3 | SPushed _ _ _ => 2 end.
Definition drain_budget (q : queue) : Prop :=
  match draining q !! 0%nat with
  | None => q_ q = []
  | Some (DLoop d b) => b = (d + length (q_ q))%nat
  | Some (DHeld d b _) => b = (S d + length (q_ q))%nat
  end.
Definition drain_left (q : queue) : nat :=
  2 * length (q_ q) + match draining q !! 0%nat with None => 0 | Some (DLoop _ _) => 1 | Some (DHeld _ _ _) => 2 end.

Section passes.
  Context (lim : CubinQueueLimits) (crc : list Z -> Z) (offer : nat -> Z -> list Z -> Z * Z -> bool * (Z * Z)) (Hl : limits_ok lim).

Lemma settle_step_left q :
  settle_budget q -> settling q <> SIdle -> exists q', qnext lim crc q Settle = Some q' /\ settle_budget q' /\
    (settle_left q' < settle_left q)%nat /\ draining q' = draining q /\ capturing q' = capturing q.
Proof.
  intros Hb Hs. unfold settle_budget, settle_left in *. destruct (settling q) as [|d b|d b e|d b e|d b e] eqn:Es; [done|..];
    simpl; rewrite Es; eexists; (split; [reflexivity|]).
  - unfold settle_pop. destruct (Nat.ltb_spec d b); [|assert (pending_ q = []) by (apply nil_length_inv; lia); simpl; split_and!; try done; lia].
    destruct (pending_ q) as [|e rest] eqn:Ep; simpl in *; [lia|]. split_and!; try done; lia.
  - unfold settle_key. destruct (crc _ =? 0); [|destruct (bool_decide _)]; simpl; split_and!; try done; lia.
  - unfold settle_push. destruct (_ || _); simpl; split_and!; try done; lia.
  - unfold settle_note. destruct (_ <? _); simpl; split_and!; try done; lia.
Qed.

Lemma settle_pass_ends fuel m :
  settle_budget (g_cubins m) -> (settle_left (g_cubins m) < fuel)%nat -> exists m', settle_pass lim crc fuel m = Some m' /\
    settling (g_cubins m') = SIdle /\ pending_ (g_cubins m') = [] /\ draining (g_cubins m') = draining (g_cubins m) /\
    capturing (g_cubins m') = capturing (g_cubins m) /\ (queue_inv lim crc (g_cubins m) -> queue_inv lim crc (g_cubins m')).
Proof.
  revert m. induction fuel as [|fuel IH]; intros m Hb Hf; [lia|]. cbn [settle_pass].
  destruct (settling (g_cubins m)) eqn:Es; [exists m; unfold settle_budget in Hb; by rewrite Es in Hb|..].
  all: destruct (settle_step_left _ Hb) as (q & Eq & Hb' & Hlt & Hd & Hc); [congruence|]; rewrite Eq; cbn [mbind option_bind];
    destruct (IH (set_ann (told_by (g_cubins m) q (ann m)) (set_cubins q m)) Hb') as (m' & E & H1 & H2 & H3 & H4 & H5); [simpl; lia|];
    exists m'; rewrite E; cbn [set_ann set_cubins g_cubins] in *; split_and!; try done; try congruence;
    intros Hi; apply H5; apply (run_queue_inv lim crc Hl [Settle] (g_cubins m)); [done|by cbn [qrun]; rewrite Eq].
Qed.

Lemma drain_step_left ok q :
  drain_budget q -> is_Some (draining q !! 0%nat) -> exists q', qnext lim crc q (CubinQueue.Drain 0 ok) = Some q' /\ drain_budget q' /\
    (drain_left q' < drain_left q)%nat /\ delete 0%nat (draining q') = delete 0%nat (draining q) /\
    capturing q' = capturing q /\ settling q' = settling q /\ pending_ q' = pending_ q.
Proof.
  intros Hb [p Ep]. unfold drain_budget, drain_left in *. rewrite Ep in *. destruct p as [d b|d b e]; simpl; rewrite Ep; eexists; (split; [reflexivity|]).
  - unfold drain_pop. destruct (Nat.ltb_spec d b).
    + destruct (q_ q) as [|e rest] eqn:Eq; simpl in *; [lia|]. rewrite lookup_insert_eq, delete_insert_eq. split_and!; try done; lia.
    + assert (Hq : q_ q = []) by (apply nil_length_inv; lia). simpl. rewrite Hq, lookup_delete_eq, delete_delete_eq. split_and!; try done; lia.
  - unfold drain_offer. simpl. rewrite lookup_insert_eq, delete_insert_eq. split_and!; try done; lia.
Qed.

Lemma drain_pass_ends fuel m oc :
  drain_budget (g_cubins m) -> (drain_left (g_cubins m) < fuel)%nat -> exists m' oc', drain_pass lim crc offer fuel m oc = Some (m', oc') /\
    q_ (g_cubins m') = [] /\ draining (g_cubins m') = delete 0%nat (draining (g_cubins m)) /\
    settling (g_cubins m') = settling (g_cubins m) /\ pending_ (g_cubins m') = pending_ (g_cubins m) /\
    capturing (g_cubins m') = capturing (g_cubins m) /\ (queue_inv lim crc (g_cubins m) -> queue_inv lim crc (g_cubins m')).
Proof.
  revert m oc. induction fuel as [|fuel IH]; intros m oc Hb Hf; [lia|]. cbn [drain_pass].
  destruct (draining (g_cubins m) !! 0%nat) as [p|] eqn:Ep.
  - assert (Hstep : forall ok oc', exists m' oc'', (q ← qnext lim crc (g_cubins m) (CubinQueue.Drain 0 ok); drain_pass lim crc offer fuel (set_cubins q m) oc') = Some (m', oc'') /\
      q_ (g_cubins m') = [] /\ draining (g_cubins m') = delete 0%nat (draining (g_cubins m)) /\
      settling (g_cubins m') = settling (g_cubins m) /\ pending_ (g_cubins m') = pending_ (g_cubins m) /\
      capturing (g_cubins m') = capturing (g_cubins m) /\ (queue_inv lim crc (g_cubins m) -> queue_inv lim crc (g_cubins m'))).
    { intros ok oc'. destruct (drain_step_left ok _ Hb) as (q & Eq & Hb' & Hd & Hdel & Hc & Hs & Hp); [by eexists|]. rewrite Eq. cbn [mbind option_bind].
      destruct (IH (set_cubins q m) oc' Hb') as (m' & oc'' & E & H1 & H2 & H3 & H4 & H5 & H6); [simpl; lia|].
      exists m', oc''. cbn [set_cubins g_cubins] in *. split_and!; try done; try congruence.
      intros Hi. apply H6, (run_queue_inv lim crc Hl [CubinQueue.Drain 0 ok] (g_cubins m)); [done|by cbn [qrun]; rewrite Eq]. }
    destruct p as [d b|d b e]; [apply Hstep|]. destruct (offer _ _ _ _) as [ok oc']. apply Hstep.
  - exists m, oc. unfold drain_budget in Hb. rewrite Ep in Hb. split_and!; try done. by rewrite delete_id.
Qed.

(** With the timer joined, both passes come to their end, and no copy is left
    but those of threads still inside [capture]. *)
Lemma exit_modules m oc :
  settling (g_cubins m) = SIdle -> draining (g_cubins m) = ∅ -> queue_inv lim crc (g_cubins m) ->
  exists m1 m2 oc', settle lim crc m = Some m1 /\ drain lim crc offer m1 oc = Some (m2, oc') /\ queue_inv lim crc (g_cubins m2) /\
    settling (g_cubins m2) = SIdle /\ pending_ (g_cubins m2) = [] /\ q_ (g_cubins m2) = [] /\ draining (g_cubins m2) = ∅ /\
    capturing (g_cubins m2) = capturing (g_cubins m).
Proof.
  intros Hs Hd Hi. unfold settle. set (q0 := set_settling (SLoop 0 (length (pending_ (g_cubins m)))) (g_cubins m)).
  assert (E0 : qnext lim crc (g_cubins m) SettleBegin = Some q0) by (simpl; by rewrite Hs).
  assert (I0 : queue_inv lim crc q0) by (apply (run_queue_inv lim crc Hl [SettleBegin] (g_cubins m)); [done|by cbn [qrun]; rewrite E0]).
  rewrite E0. cbn [mbind option_bind].
  destruct (settle_pass_ends (4 * length (pending_ (g_cubins m)) + 2) (set_cubins q0 m)) as (m1 & E1 & S1 & P1 & D1 & C1 & I1);
    [done|unfold settle_left; simpl; lia|]. rewrite E1. cbn [set_cubins g_cubins] in *. specialize (I1 I0).
  assert (D1' : draining (g_cubins m1) = ∅) by (rewrite D1; done).
  unfold drain. set (q1 := set_draining (<[0%nat := DLoop 0 (length (q_ (g_cubins m1)))]> (draining (g_cubins m1))) (g_cubins m1)).
  assert (E2 : qnext lim crc (g_cubins m1) (DrainBegin 0) = Some q1).
  { assert (N0 : draining (g_cubins m1) !! 0%nat = None) by (by rewrite D1'). simpl. by rewrite N0. }
  assert (I2 : queue_inv lim crc q1) by (apply (run_queue_inv lim crc Hl [DrainBegin 0] (g_cubins m1)); [done|by cbn [qrun]; rewrite E2]).
  destruct (drain_pass_ends (2 * length (q_ (g_cubins m1)) + 2) (set_cubins q1 m1) oc) as (m2 & oc' & E3 & Q3 & D3 & S3 & P3 & C3 & I3);
    [unfold drain_budget; simpl; by rewrite lookup_insert_eq|unfold drain_left; simpl; rewrite lookup_insert_eq; lia|].
  exists m1, m2, oc'. rewrite E2. cbn [mbind option_bind set_cubins g_cubins] in *. split_and!; try done; [auto|by rewrite S3|by rewrite P3| |].
  - rewrite D3. simpl. by rewrite D1', delete_insert_eq, delete_empty.
  - rewrite C3. simpl. rewrite C1. done.
Qed.
End passes.

(** ** What the counters are before the handler runs *)

(** A launch that the sampler has seen: skipped, added, or on its way. *)
Definition seen_by_sampler (p : lpc) : list unit := match p with AtOrdinal _ | AtSample _ _ => [] | _ => [tt] end.
Definition observed_ok (s : launch_state) : Prop :=
  observed_ (g_sampler s) = u64 (Z.of_nat (length (skipped s) + length (queued s) + length (hands seen_by_sampler (inside s)))).

Lemma observed_go t a s s' : observed_ok s -> launch_go t a s = Some s' -> observed_ok s'.
Proof.
  unfold observed_ok, launch_go. intros Ho Hg. destruct (inside s !! t) as [p|] eqn:Ep; [|done].
  assert (Hput : forall p', seen_by_sampler p = seen_by_sampler p' ->
    length (hands seen_by_sampler (<[t := p']> (inside s))) = length (hands seen_by_sampler (inside s)))
    by (intros p' E; exact (Permutation_length (hands_same seen_by_sampler _ t p p' Ep E))).
  pose proof (fun p' => Permutation_length (hands_update seen_by_sampler _ t p p' Ep)) as Hup.
  pose proof (Permutation_length (hands_delete seen_by_sampler _ t p Ep)) as Hdel.
  destruct p as [cb|cb o|cb o sm|cb o sm|cb o sm|o sm l|o sm l]; simpl in Hdel.
  - injection Hg as <-. simpl. by rewrite Hput.
  - specialize (Hup (AtGate cb o (should_sample (g_sampler s)).1)). rewrite !length_app in Hup. simpl in Hup.
    destruct (should_sample (g_sampler s)) as [hit sm] eqn:Es. injection Hg as <-. simpl in *.
    assert (Eo : observed_ sm = u64 (observed_ (g_sampler s) + 1)) by (unfold should_sample in Es; case_match; by simplify_eq).
    rewrite Eo, Ho, u64_add. f_equal. lia.
  - destruct (_ && _); injection Hg as <-; simpl; [|by rewrite Hput]. rewrite Ho, length_app. simpl. f_equal. lia.
  - injection Hg as <-. unfold emit_name_if_new. destruct (en1 a); cbn [negb]; [|simpl; by rewrite Hput].
    destruct (intern _ _ _) as [[r|] names]; simpl; by rewrite Hput.
  - destruct (correlate_launch _ _) as [corr cur]. injection Hg as <-. simpl. by rewrite Hput.
  - injection Hg as <-. simpl. by rewrite Hput.
  - destruct (add _ _ _ _ _ _ _) as [ok [b fs]]. injection Hg as <-. simpl. rewrite Ho, length_app. simpl. f_equal. lia.
Qed.

Lemma observed_run os s s' : observed_ok s -> launch_run s os = Some s' -> observed_ok s'.
Proof.
  revert s. induction os as [|o os IH]; intros s Ho Hr; simpl in Hr; [by simplify_eq|].
  apply bind_Some in Hr as (s1 & E & Hr). apply (IH s1); [|done]. destruct o as [t e|t a|en]; simpl in E; [|by eapply observed_go|].
  - case_decide as Hn; [|done]. injection E as <-. unfold callback. destruct (on_callback e _) as [[] d]; [|done].
    unfold observed_ok in *. simpl. by rewrite (Permutation_length (hands_insert seen_by_sampler _ t _ Hn)).
  - destruct (flush _ _ _ _) as [b fs]. by injection E as <-.
Qed.

(** The timer's half of a tick, between ticks, is inside neither pass. *)
Record timer_ok (m : modules) : Prop := {
  to_settle : tick m = TSettle \/ settling (g_cubins m) = SIdle;
  to_drain : tick m = TDrain \/ draining (g_cubins m) !! 0%nat = None;
  to_only : forall t, t <> 0%nat -> draining (g_cubins m) !! t = None;
}.

Section history.
  Context (lim : CubinQueueLimits) (crc : list Z -> Z) (Hl : limits_ok lim).

(** A step touches the place of its own thread only. *)
Lemma qnext_places q o q' : qnext lim crc q o = Some q' ->
  match o with SettleBegin | Settle => True | _ => settling q' = settling q end /\
  match o with DrainBegin t | CubinQueue.Drain t _ => delete t (draining q') = delete t (draining q) | _ => draining q' = draining q end.
Proof.
  destruct o as [t v m ns ok|t| | |t|t ok]; simpl; intros H; repeat case_match; simplify_eq; try done; (split; [try done|]); simpl;
    unfold capture_copy, capture_park, settle_pop, settle_key, settle_push, settle_note, drain_pop, drain_offer in *; simpl; rewrite ?delete_insert_eq;
    repeat (case_match; simpl); rewrite ?delete_insert_eq, ?delete_delete_eq; done.
Qed.

Lemma mnext_timer e m o m' : timer_ok m /\ queue_inv lim crc (g_cubins m) -> mnext lim crc e m o = Some m' ->
  timer_ok m' /\ queue_inv lim crc (g_cubins m').
Proof.
  intros [[A B C] Q] H.
  assert (Hq : forall st q, qnext lim crc (g_cubins m) st = Some q -> queue_inv lim crc q)
    by (intros st q Eq; apply (run_queue_inv lim crc Hl [st] (g_cubins m)); [done|by cbn [qrun]; rewrite Eq]).
  assert (Hother : forall t q, delete 0%nat (draining q) = delete 0%nat (draining (g_cubins m)) -> t <> 0%nat -> draining q !! t = None).
  { intros t q E Ht. rewrite <- (lookup_delete_ne (draining q) 0%nat t) by done. rewrite E. rewrite lookup_delete_ne by done. by apply C. }
  destruct o as [t v id ns ok|t|on|ok]; cbn [mnext] in H.
  - unfold on_module_loaded in H. destruct (view_empty v); [injection H as <-; by split|]. apply bind_Some in H as (q & Eq & [= <-]).
    assert (Eq' : qnext lim crc (g_cubins m) (Capture t v id ns ok) = Some q) by (by destruct (attached_now e m)).
    destruct (qnext_places _ _ _ Eq') as [E1 E2]. destruct (attached_now e m); (split; [split; simpl; rewrite ?E1, ?E2; done|by apply (Hq _ _ Eq')]).
  - apply bind_Some in H as (q & Eq & [= <-]). destruct (qnext_places _ _ _ Eq) as [E1 E2].
    split; [split; simpl; rewrite ?E1, ?E2; done|by apply (Hq _ _ Eq)].
  - injection H as <-. by split.
  - unfold tick_step in H. destruct (tick m) eqn:Et.
    + apply bind_Some in H as (q & Eq & [= <-]). destruct (qnext_places _ _ _ Eq) as [_ E2]. destruct B as [B|B]; [done|].
      split; [split; simpl; rewrite ?E2; auto|by apply (Hq _ _ Eq)].
    + destruct B as [B|B]; [done|]. destruct (settling (g_cubins m)) eqn:Es; [injection H as <-; split; [split; simpl; auto|done]|..];
        apply bind_Some in H as (q & Eq & [= <-]); destruct (qnext_places _ _ _ Eq) as [_ E2];
        (split; [split; simpl; rewrite ?E2; auto|by apply (Hq _ _ Eq)]).
    + destruct A as [A|A]; [done|]. destruct B as [B|B]; [done|]. injection H as <-. split; [split; simpl; auto|done].
    + destruct A as [A|A]; [done|]. destruct B as [B|B]; [done|]. destruct (attached_now e m); [|injection H as <-; split; [split; simpl; auto|done]].
      apply bind_Some in H as (q & Eq & [= <-]). destruct (qnext_places _ _ _ Eq) as [E1 E2].
      split; [split; simpl; [right; by rewrite E1|by left|intros t Ht; by apply Hother]|by apply (Hq _ _ Eq)].
    + destruct A as [A|A]; [done|]. destruct (draining (g_cubins m) !! 0%nat) eqn:Ed; [|injection H as <-; split; [split; simpl; auto|done]].
      apply bind_Some in H as (q & Eq & [= <-]). destruct (qnext_places _ _ _ Eq) as [E1 E2].
      split; [split; simpl; [right; by rewrite E1|by left|intros t Ht; by apply Hother]|by apply (Hq _ _ Eq)].
Qed.

Lemma mrun_joined e l m : mrun lim crc e modules_init l = Some m -> tick m = TIdle ->
  settling (g_cubins m) = SIdle /\ draining (g_cubins m) = ∅ /\ queue_inv lim crc (g_cubins m).
Proof.
  assert (H : forall l m m', timer_ok m /\ queue_inv lim crc (g_cubins m) -> mrun lim crc e m l = Some m' -> timer_ok m' /\ queue_inv lim crc (g_cubins m')).
  { clear l m. induction l as [|o l IH]; intros m m' Hi Hr; simpl in Hr; [by simplify_eq|].
    apply bind_Some in Hr as (m1 & E & Hr). apply (IH m1); [by eapply mnext_timer|done]. }
  intros Hr Ht. destruct (H l modules_init m) as [[A B C] Q]; [|done|].
  { split; [split; simpl; auto|]. by apply init_queue_inv. }
  rewrite Ht in A, B. destruct A as [A|A]; [done|]. destruct B as [B|B]; [done|]. split_and!; [done| |done].
  apply map_eq. intros t. rewrite lookup_empty. destruct (decide (t = 0%nat)) as [->|Hn]; auto.
Qed.
End history.

(** *** The executions, through buffers and flushes *)

Inductive exec_op := Completed (buffer : option (list (Exec.activity * exec_env))) (dropped : option Z) | FlushExecs (en : bool).
Definition exec_next (x : exec_state) (o : exec_op) : option exec_state :=
  match o with Completed b d => buffer_completed b d x | FlushExecs en => Some (flush_execs en x) end.
Fixpoint exec_run (x : exec_state) (os : list exec_op) : option exec_state :=
  match os with [] => Some x | o :: l => x ← exec_next x o; exec_run x l end.
Definition buffer_sane (b : option (list (Exec.activity * exec_env))) : Prop := match b with Some xs => Forall sane xs | None => True end.
Definition exec_op_sane (o : exec_op) : Prop := match o with Completed b _ => buffer_sane b | FlushExecs _ => True end.

(** Every kernel record is under one counter or was added. *)
Definition execs_balanced (x : exec_state) : Prop :=
  exists added, batch_inv 32 32 added (g_eb x, eb_fires x) /\
  u64 (e_cnt x g_activity_records) =
    u64 (e_cnt x g_exec_unattached + e_cnt x g_exec_no_time + e_cnt x g_exec_no_clock + Z.of_nat (length added)).

Lemma u64_eq a b : u64 a = u64 b <-> exists k, a = b + k * 2 ^ 64.
Proof.
  unfold u64. split.
  - intros E. exists (a / 2 ^ 64 - b / 2 ^ 64). pose proof (Z.div_mod a (2 ^ 64) ltac:(lia)). pose proof (Z.div_mod b (2 ^ 64) ltac:(lia)).
    change 18446744073709551616 with (2 ^ 64) in E. lia.
  - intros [k ->]. apply Z_mod_plus_full.
Qed.

Lemma u64_off z : exists k, u64 z = z + k * 2 ^ 64.
Proof. apply u64_eq. unfold u64. by rewrite Zmod_mod. Qed.

Lemma balanced_moved x x' f rs ds :
  execs_balanced x -> exec_moved x x' f rs ds ->
  f g_activity_records = f g_exec_unattached + f g_exec_no_time + f g_exec_no_clock + Z.of_nat (length rs) -> execs_balanced x'.
Proof.
  intros (l & B & E) [C (ops & A & Eb) _] Hf. exists (l ++ rs). split.
  - rewrite Eb, <- A. apply (run_inv 32 ltac:(lia)). exact B.
  - rewrite C, Hf, length_app by done.
    pose proof (C g_exec_unattached ltac:(done)) as C1. pose proof (C g_exec_no_time ltac:(done)) as C2. pose proof (C g_exec_no_clock ltac:(done)) as C3.
    apply u64_eq in E as [k E]. apply u64_eq in C1 as [k1 C1], C2 as [k2 C2], C3 as [k3 C3]. apply u64_eq. exists (k - k1 - k2 - k3). lia.
Qed.

Lemma balanced_completed b d x : buffer_sane b -> execs_balanced x -> exists x', buffer_completed b d x = Some x' /\ execs_balanced x'.
Proof.
  intros Hb Hx. unfold buffer_completed.
  assert (H1 : execs_balanced (e_count g_buffers 1 x)) by (by eapply balanced_moved; [|apply e_count_moved|]).
  assert (H2 : exists x2, (match b with Some xs => handle_records xs (e_count g_buffers 1 x) | None => Some (e_count g_buffers 1 x) end) = Some x2 /\ execs_balanced x2).
  { destruct b as [xs|]; [|by eexists]. destruct (handle_records_moved xs (e_count g_buffers 1 x) Hb) as (x2 & E & M).
    exists x2. split; [done|]. rewrite added_concat in M. by apply (balanced_moved _ _ _ _ _ H1 M), totals_split. }
  destruct H2 as (x2 & -> & H2). eexists. split; [reflexivity|]. destruct d as [d|]; [|done]. destruct (d =? 0); [done|].
  by eapply balanced_moved; [exact H2|apply e_count_moved|].
Qed.

Lemma balanced_flush en x : execs_balanced x -> execs_balanced (flush_execs en x) /\ n_ (g_eb (flush_execs en x)) = 0%nat.
Proof.
  intros (l & B & E). unfold flush_execs. pose proof (step_inv 32 ltac:(lia) l (g_eb x, eb_fires x) (Flush en) B) as Hb. simpl in Hb. rewrite app_nil_r in Hb.
  assert (Hn : n_ (flush log_emit en (g_eb x) (eb_fires x)).1 = 0%nat).
  { unfold flush, flush_locked. destruct (Nat.eqb_spec (n_ (g_eb x)) 0); [done|]. by destruct en. }
  destruct (flush log_emit en (g_eb x) (eb_fires x)) as [b fs]. split; [by exists l|done].
Qed.

Lemma balanced_run os x x' : Forall exec_op_sane os -> execs_balanced x -> exec_run x os = Some x' -> execs_balanced x'.
Proof.
  intros Ho. revert x. induction Ho as [|o os Ho _ IH]; intros x Hx Hr; simpl in Hr; [by simplify_eq|].
  apply bind_Some in Hr as (x1 & E & Hr). apply (IH x1); [|done]. destruct o as [b d|en]; simpl in E.
  - destruct (balanced_completed b d x Ho Hx) as (x2 & E2 & H2). congruence.
  - injection E as <-. by apply balanced_flush.
Qed.

Lemma balanced_buffers bs x : Forall (fun b => buffer_sane b.1) bs -> execs_balanced x ->
  exists x', buffers_completed bs x = Some x' /\ execs_balanced x'.
Proof.
  intros Hb. revert x. induction Hb as [|b bs Hb _ IH]; intros x Hx; [by exists x|]. simpl.
  destruct (balanced_completed b.1 b.2 x Hb Hx) as (x1 & -> & H1). by apply IH.
Qed.

(** ** The report of the handler *)

(** The number the report's first line prints for a key. *)
Definition number (k : String.string) (r : process) : Z := let l := main_line r (lit "exit") in kv_uint k (printf l.1 l.2).

Lemma main_tokens pid a1 a2 a3 a4 a5 a6 a7 a8 a9 a10 a11 a12 a13 a14 a15 a16 a17 a18 a19 a20 a21 a22 a23 a24 a25 a26 a27 a28 a29 a30 a31 a32 a33 :
  let ts := tokens (compile "perfagent-cupti: %s pid=%d launches=%llu sampled=%llu period=%u launch_unattached=%llu launch_batch_dropped=%llu activity_kernels=%llu activity_other=%llu buffers=%llu buffer_alloc_failed=%llu exec_unattached=%llu exec_batch_dropped=%llu exec_no_clock=%llu exec_no_time=%llu cupti_dropped=%llu names=%zu modules_captured=%llu module_reload_skipped=%llu module_retained_unattached=%llu module_no_bytes=%llu cubin_too_large=%llu cubin_crc_failed=%llu cubin_alloc_failed=%llu cubin_queue_full=%llu cubin_queue_depth=%zu cubin_pending_full=%llu cubin_pending_depth=%zu cubins_sent=%llu cubin_send_failed=%llu cubins_offered=%llu cubin_transport_send_failed=%llu clock_steps=%llu clock_offset_ns=%lld sem_at_exit=%u")
    [AS (lit "exit"); AD pid; ALlu a1; ALlu a2; AU a3; ALlu a4; ALlu a5; ALlu a6; ALlu a7; ALlu a8; ALlu a9; ALlu a10; ALlu a11; ALlu a12; ALlu a13; ALlu a14; AZu a15; ALlu a16; ALlu a17; ALlu a18; ALlu a19; ALlu a20; ALlu a21; ALlu a22; ALlu a23; AZu a24; ALlu a25; AZu a26; ALlu a27; ALlu a28; ALlu a29; ALlu a30; ALlu a31; ALld a32; AU a33] [] in
  forallb decided ts = true /\
  item_get (lit "launches") ts = Some [inr (ALlu a1)] /\
  item_get (lit "launch_unattached") ts = Some [inr (ALlu a4)] /\
  item_get (lit "launch_batch_dropped") ts = Some [inr (ALlu a5)] /\
  item_get (lit "activity_kernels") ts = Some [inr (ALlu a6)] /\
  item_get (lit "exec_unattached") ts = Some [inr (ALlu a10)] /\
  item_get (lit "exec_batch_dropped") ts = Some [inr (ALlu a11)] /\
  item_get (lit "exec_no_clock") ts = Some [inr (ALlu a12)] /\
  item_get (lit "exec_no_time") ts = Some [inr (ALlu a13)] /\
  item_get (lit "modules_captured") ts = Some [inr (ALlu a16)] /\
  item_get (lit "module_reload_skipped") ts = Some [inr (ALlu a17)] /\
  item_get (lit "cubin_too_large") ts = Some [inr (ALlu a20)] /\
  item_get (lit "cubin_crc_failed") ts = Some [inr (ALlu a21)] /\
  item_get (lit "cubin_alloc_failed") ts = Some [inr (ALlu a22)] /\
  item_get (lit "cubin_queue_full") ts = Some [inr (ALlu a23)] /\
  item_get (lit "cubin_queue_depth") ts = Some [inr (AZu a24)] /\
  item_get (lit "cubin_pending_full") ts = Some [inr (ALlu a25)] /\
  item_get (lit "cubin_pending_depth") ts = Some [inr (AZu a26)] /\
  item_get (lit "cubins_sent") ts = Some [inr (ALlu a27)] /\
  item_get (lit "cubin_send_failed") ts = Some [inr (ALlu a28)].
Proof. vm_compute. repeat split. Qed.

Lemma numbers_read r : Forall arg_ok (main_line r (lit "exit")).2 ->
  number "launches" r = observed_ (g_sampler (r_launch r)) /\
  number "launch_unattached" r = g_launch_unattached (r_launch r) /\
  number "launch_batch_dropped" r = dropped_ (g_lb (r_launch r)) /\
  number "activity_kernels" r = e_cnt (r_exec r) g_activity_records /\
  number "exec_unattached" r = e_cnt (r_exec r) g_exec_unattached /\
  number "exec_batch_dropped" r = dropped_ (g_eb (r_exec r)) /\
  number "exec_no_clock" r = e_cnt (r_exec r) g_exec_no_clock /\
  number "exec_no_time" r = e_cnt (r_exec r) g_exec_no_time /\
  number "modules_captured" r = counters (g_cubins (r_modules r)) modules_captured /\
  number "module_reload_skipped" r = counters (g_cubins (r_modules r)) module_reload_skipped /\
  number "cubin_too_large" r = counters (g_cubins (r_modules r)) cubin_too_large /\
  number "cubin_crc_failed" r = counters (g_cubins (r_modules r)) cubin_crc_failed /\
  number "cubin_alloc_failed" r = counters (g_cubins (r_modules r)) cubin_alloc_failed /\
  number "cubin_queue_full" r = counters (g_cubins (r_modules r)) cubin_queue_full /\
  number "cubin_queue_depth" r = Z.of_nat (length (q_ (g_cubins (r_modules r)))) /\
  number "cubin_pending_full" r = counters (g_cubins (r_modules r)) cubin_pending_full /\
  number "cubin_pending_depth" r = Z.of_nat (length (pending_ (g_cubins (r_modules r)))) /\
  number "cubins_sent" r = counters (g_cubins (r_modules r)) cubins_sent /\
  number "cubin_send_failed" r = counters (g_cubins (r_modules r)) cubin_send_failed.
Proof.
  intros Ha. assert (Hl : line_ok (main_line r (lit "exit"))) by (split; [vm_compute; reflexivity|done]).
  assert (Hu : forall a, In a (main_line r (lit "exit")).2 -> match a with ALlu z | AZu z => is_u64 z | _ => True end).
  { intros a Hin. rewrite list.Forall_forall in Ha. specialize (Ha a). rewrite list_elem_of_In in Ha. specialize (Ha Hin). by destruct a. }
  edestruct main_tokens as (D & T0 & T1 & T2 & T3 & T4 & T5 & T6 & T7 & T8 & T9 & T10 & T11 & T12 & T13 & T14 & T15 & T16 & T17 & T18). split_and!.
  all: match goal with T : item_get (lit ?k) _ = _ |- number ?k _ = _ => eapply kv_uint_arg; [exact Hl|exact D|exact T|reflexivity|] end; first [apply (Hu (ALlu _)); cbn; tauto | apply (Hu (AZu _)); cbn; tauto].
Qed.

Section balance.
  Context (cu : cupti_pc) (getdata : nat -> getdata_result) (sem wsem start_ok stop_ok : nat -> bool) (timer : Z).
  Context (lim : CubinQueueLimits) (GetCubinCrc : list Z -> option Z) (offer : nat -> Z -> list Z -> Z * Z -> bool * (Z * Z)) (Hl : limits_ok lim).
Let crc := cupti_cubin_crc GetCubinCrc.

(** The run of a process up to its exit: its launches, executions and modules,
    each history in any order; at the exit no application thread is inside
    [on_launch] or [capture], and the timer is between two ticks. *)
Record ran (r : process) : Prop := {
  ran_launches : exists period seed junk os, length junk = 32%nat /\ launch_run (launch_init period seed junk) os = Some (r_launch r);
  ran_execs : exists junk os, length junk = 32%nat /\ Forall exec_op_sane os /\ exec_run (exec_init junk) os = Some (r_exec r);
  ran_modules : exists enrolled l, mrun lim crc enrolled modules_init l = Some (r_modules r);
  ran_joined : tick (r_modules r) = TIdle;
  ran_outside : inside (r_launch r) = ∅ /\ capturing (g_cubins (r_modules r)) = ∅;
}.

Lemma launches_balanced l en : launch_inv l -> observed_ok l -> inside l = ∅ ->
  exists l', launch_next l (FlushLaunches en) = Some l' /\ inside l' = ∅ /\ n_ (g_lb l') = 0%nat /\
  observed_ (g_sampler l') = u64 (g_launch_unattached l' + dropped_ (g_lb l') + Z.of_nat (length (records (lb_fires l')))).
Proof using Type.
  intros Hi Ho Hin.
  assert (Hs : exists l', launch_next l (FlushLaunches en) = Some l') by (simpl; destruct (flush _ _ _ _); by eexists).
  destruct Hs as [l' E]. exists l'. pose proof (launch_next_inv _ _ _ Hi E) as Hi'.
  assert (Hn : inside l' = ∅ /\ n_ (g_lb l') = 0%nat /\ observed_ok l').
  { assert (Hz : n_ (flush log_emit en (g_lb l) (lb_fires l)).1 = 0%nat).
    { unfold flush, flush_locked. destruct (Nat.eqb_spec (n_ (g_lb l)) 0); [done|]. by destruct en. }
    simpl in E. destruct (flush log_emit en (g_lb l) (lb_fires l)) as [b fs]. injection E as <-. done. }
  destruct Hn as (H1 & H2 & H3). split_and!; try done. destruct Hi' as [_ S B _ _ _]. pose proof (bi_count _ _ _ _ B) as C. cbn [fst snd] in C.
  unfold observed_ok in H3. rewrite H3, S, C, H1, H2, length_map. change (length (hands seen_by_sampler ∅)) with 0%nat.
  apply u64_eq. destruct (u64_off (Z.of_nat (length (skipped l')))) as [k1 ->].
  match goal with |- context [u64 ?z] => destruct (u64_off z) as [k2 ->] end. exists (- k1 - k2). lia.
Qed.

(** What is left in the queue is nothing, and the counters say so. *)
Lemma modules_balanced q : queue_inv lim crc q -> settling q = SIdle -> pending_ q = [] -> q_ q = [] -> draining q = ∅ -> capturing q = ∅ ->
  h_blocks (mem q) = ∅ /\ faults q = 0%nat /\
  counters q modules_captured = u64 (counters q cubins_sent + counters q cubin_send_failed) /\
  u64 (Z.of_nat (length (copied q))) = u64 (counters q cubin_pending_full + counters q cubin_crc_failed + counters q module_reload_skipped +
    counters q cubin_queue_full + counters q modules_captured).
Proof using Type.
  intros (M & _ & [A1 A2 A3 _] & _) Hs Hp Hq Hd Hc. rewrite Hs, Hp, Hq, Hd, Hc in *. simpl in A2, A3.
  change (length (hands cap_hand ∅)) with 0%nat in A2. change (length (hands drain_hand ∅)) with 0%nat in A3.
  split_and!; [|apply (mv_faults q M)| |].
  - pose proof (mv_live q M) as L. unfold own, owned in L. rewrite Hs, Hp, Hq, Hd, Hc in L. simpl in L. change (hands cap_hand ∅) with (@nil Entry) in L.
    change (hands drain_hand ∅) with (@nil Entry) in L. simpl in L. apply Permutation_nil_l in L. symmetry in L. apply fmap_nil_inv in L. by apply map_to_list_empty_iff.
  - rewrite !A1. apply u64_eq. destruct (u64_off (Z.of_nat (times cubins_sent (counted q)))) as [k1 ->].
    destruct (u64_off (Z.of_nat (times cubin_send_failed (counted q)))) as [k2 ->]. exists (- k1 - k2). lia.
  - rewrite A2, !A1. apply u64_eq.
    repeat match goal with |- context [u64 ?z] => let k := fresh "k" in destruct (u64_off z) as [k ->] end.
    eexists (- k - k0 - k1 - k2 - k3). lia.
Qed.

(** What the exit leaves behind, and what its report says. *)
Record settled_accounts (r : process) : Prop := {
  sa_sent : n_ (g_lb (r_launch r)) = 0%nat /\ n_ (g_eb (r_exec r)) = 0%nat;
  sa_memory : h_blocks (mem (g_cubins (r_modules r))) = ∅ /\ faults (g_cubins (r_modules r)) = 0%nat;
  sa_launches : number "launches" r =
    u64 (number "launch_unattached" r + number "launch_batch_dropped" r + Z.of_nat (length (records (lb_fires (r_launch r)))));
  sa_execs : number "activity_kernels" r =
    u64 (number "exec_unattached" r + number "exec_no_time" r + number "exec_no_clock" r + number "exec_batch_dropped" r
         + Z.of_nat (length (records (eb_fires (r_exec r)))));
  sa_modules : number "modules_captured" r = u64 (number "cubins_sent" r + number "cubin_send_failed" r);
  sa_copies : u64 (Z.of_nat (length (copied (g_cubins (r_modules r))))) =
    u64 (number "cubin_pending_full" r + number "cubin_crc_failed" r + number "module_reload_skipped" r + number "cubin_queue_full" r
         + number "modules_captured" r);
  sa_depths : number "cubin_pending_depth" r = 0 /\ number "cubin_queue_depth" r = 0;
}.

(** C13: The exit handler returns with nothing left to send, and its report adds up.
    After any run, with whatever CUPTI, the probes and the consumer answer while
    the handler works: the batches of launches and executions are empty, every
    copy of a module is freed, once; and in the line the report prints, the
    launches are those skipped, those dropped by the batch and those sent; the
    kernel records are those skipped, those without a time or a clock, those
    dropped and those sent; the modules captured are those sent and those whose
    sending failed; every copy made is under one of the five outcomes; and no
    module is waiting. *)
Theorem exit_settles_accounts e r :
  ran r -> Forall (fun b => buffer_sane b.1) (xe_buffers e) ->
  exists r', at_exit_handler cu getdata sem wsem start_ok stop_ok timer lim GetCubinCrc offer e r = Some (r', report r' (lit "exit")) /\
  (Forall arg_ok (main_line r' (lit "exit")).2 -> settled_accounts r').
Proof using Hl.
  intros [(period & seed & junk & os & Hj & Hr) (junk' & xs & Hj' & Hx & Hxr) (en & ml & Hm) Ht [Hin Hc]] Hb. unfold at_exit_handler. cbv zeta. fold crc.
  destruct (balanced_buffers (xe_buffers e) (share_names (r_names r) (g_name_seq (r_launch r)) (r_exec r)) Hb) as (x & -> & Hx1).
  { assert (Hb0 : execs_balanced (r_exec r)); [|done]. eapply balanced_run; [exact Hx| |exact Hxr].
    exists []. split; [by apply (init_inv 32 ltac:(lia))|done]. }
  cbn [mbind option_bind].
  assert (Hi : launch_inv (take_names x (r_launch r))).
  { assert (Hi : launch_inv (r_launch r)) by (eapply launch_run_inv; [by apply launch_init_inv|exact Hr]). destruct Hi. by split. }
  assert (Ho : observed_ok (take_names x (r_launch r))) by (assert (Ho : observed_ok (r_launch r)); [|done]; eapply observed_run; [|exact Hr]; done).
  destruct (launches_balanced _ (xe_launch e) Hi Ho Hin) as (l & -> & _ & Hn & Hobs). cbn [mbind option_bind].
  destruct (mrun_joined lim crc Hl en ml _ Hm Ht) as (Hs & Hd & Hq).
  destruct (exit_modules lim crc offer Hl _ (cubins_offered r, cubins_send_failed r) Hs Hd Hq)
    as (m1 & m2 & oc & -> & E2 & Q2 & S2 & P2 & QQ2 & D2 & C2). cbn [mbind option_bind]. rewrite E2. cbn [mbind option_bind].
  eexists. split; [reflexivity|]. set (r' := Process _ _ _ _ _ _ _ _ _ _ _ _ _ _ _ _ _). intros Ha.
  destruct (balanced_flush (xe_exec e) x Hx1) as [(added & B & Ec) Hne]. rewrite Hc in C2.
  destruct (modules_balanced _ Q2 S2 P2 QQ2 D2 C2) as (M1 & M2 & M3 & M4).
  destruct (numbers_read r' Ha) as (N1 & N2 & N3 & N4 & N5 & N6 & N7 & N8 & N9 & N10 & _ & N12 & _ & N14 & N15 & N16 & N17 & N18 & N19).
  split; [exact (conj Hn Hne)|exact (conj M1 M2)| | |rewrite N9, N18, N19; exact M3|rewrite N9, N10, N12, N14, N16; exact M4|].
  - rewrite N1, N2, N3. exact Hobs.
  - rewrite N4, N5, N6, N7, N8. assert (U : is_u64 (e_cnt (r_exec r') g_activity_records)).
    { rewrite list.Forall_forall in Ha. apply (Ha (ALlu _)), list_elem_of_In. cbn. tauto. }
    rewrite <- (u64_small _ U). change (r_exec r') with (flush_execs (xe_exec e) x). rewrite Ec. pose proof (bi_count _ _ _ _ B) as Cn. cbn [fst snd] in Cn.
    rewrite Cn, Hne. apply u64_eq. match goal with |- context [u64 ?z] => destruct (u64_off z) as [k ->] end. exists (- k). lia.
  - rewrite N15, N17. change (r_modules r') with m2. rewrite P2, QQ2. split; reflexivity.
Qed.
End balance.

(** ** A process that exits *)

Definition demo_get (bs : list Z) : option Z := Some (Modules.demo_crc bs).
Definition demo_offer (n : nat) (crc : Z) (bs : list Z) (oc : Z * Z) : bool * (Z * Z) := (true, (oc.1 + 1, oc.2)).
(** A listener heard of the one graph execution there was at a tick. *)
Definition demo_heard : session :=
  let pc := g_pc (tier (demo_session 8)) in
  set_pc (MkPc (pc_cnt pc) (g_pcb pc) (pc_fires pc) (graph_run (pc_drops pc) [DropSemaphore true; GraphExec; GraphTick]) (pc_calls pc) (pc_reads pc))
    (demo_session 8).
Definition demo_running (m : modules) : process :=
  let ad := configure (default_env (lit "serialized")) kSerialized 0 (lit "pinned") kEnrollConfirmed in
  Process 4242 ad demo_end (default (exec_init []) (exec_run (exec_init demo_exec_junk) [Completed (Some demo_acts) (Some 2); FlushExecs true]))
    KernelNameTable_init m demo_heard demo_sys (ad_plan ad) Clock_init default_burst 0 0 0 [0; 3; 0; 1] 1 5000.
Definition demo_loaded : modules := default modules_init (mrun default_limits (cupti_cubin_crc demo_get) false modules_init demo_loads).
Definition demo_exit : exit_env := ExitEnv false true 7 900000000 [(Some demo_acts, None)] true true 950000000 1.
Definition demo_handler (m : modules) : option (process * list log_line) :=
  at_exit_handler demo_cupti (fun _ => GdError) (fun _ => true) (fun _ => true) (fun _ => true) (fun _ => true) 1
    default_limits demo_get demo_offer demo_exit (demo_running m).

Definition demo_exited (m : modules) : process := match demo_handler m with Some (r, _) => r | None => demo_running m end.

Lemma some_default {A} (o : option A) d : match o with Some _ => true | None => false end = true -> o = Some (default d o).
Proof. by destruct o. Qed.

Lemma demo_ran : ran default_limits demo_get (demo_running demo_loaded).
Proof.
  split.
  - exists 1, 0, demo_junk, demo_launches. split; [reflexivity|exact Launch.demo_run].
  - exists demo_exec_junk, [Completed (Some demo_acts) (Some 2); FlushExecs true]. split_and!; [reflexivity| |apply some_default; vm_compute; reflexivity].
    repeat constructor; simpl; unfold is_u32, host_time, sane_clock; simpl; lia.
  - exists false, demo_loads. apply some_default. vm_compute. reflexivity.
  - vm_compute. reflexivity.
  - split; vm_compute; reflexivity.
Qed.

Lemma exit_settles_accounts_witness :
  demo_handler demo_loaded = Some (demo_exited demo_loaded, report (demo_exited demo_loaded) (lit "exit")) /\
  settled_accounts (demo_exited demo_loaded) /\ number "activity_kernels" (demo_exited demo_loaded) = 6 /\
  number "cubins_sent" (demo_exited demo_loaded) = 1.
Proof.
  destruct (exit_settles_accounts demo_cupti (fun _ => GdError) (fun _ => true) (fun _ => true) (fun _ => true) (fun _ => true) 1
    default_limits demo_get demo_offer default_limits_ok demo_exit (demo_running demo_loaded) demo_ran
    ltac:(repeat constructor; simpl; unfold is_u32, host_time, sane_clock; simpl; lia)) as (r & E & H).
  assert (Er : demo_exited demo_loaded = r) by (unfold demo_exited, demo_handler; by rewrite E). rewrite Er. split; [exact E|]. split.
  - apply H. rewrite <- Er. apply list.Forall_forall. intros a Ha%list_elem_of_In.
    apply arg_okb_sound. revert a Ha. apply forallb_forall. vm_compute. reflexivity.
  - rewrite <- Er. split; vm_compute; reflexivity.
Defined.

(** The drain of the handler has no gate and no replay before it: a consumer that
    attached after the last tick is handed code it was never told of. *)
Example exit_offers_untold :
  let m := Modules.demo_modules 9 0 in
  tick m = TIdle /\ sent (r_modules (demo_exited m)) = [] /\ offered (g_cubins (r_modules (demo_exited m))) = [(16, [7; 8])].
Proof. vm_compute. done. Qed.

(** Nothing reports graph executions after the last flush: one that it delivers
    is in the log and never on the wire, although the consumer listens. *)
Example exit_graphs_unreported :
  let r := demo_exited demo_loaded in let d := pc_drops (g_pc (tier (r_session r))) in
  drop_semaphore d = true /\ e_cnt (r_exec r) g_exec_from_graph_ = 2 /\ g_exec_from_graph d = 2 /\
  map (fun x => d_count x.2) (filter (fun x => d_klass x.2 = GPU_DROP_CLASS_GRAPH_EXEC) (drops_sent d)) = [1].
Proof. vm_compute. repeat split. Qed.
