(* ===== verification/Stub.v ===== *)
(** * Stub: the producer without a GPU

    Models src/shim/stub/stub.cc: [perfagent_stub_run], which emits the records an
    adapter would so that the consumer can be exercised without hardware, the
    stand-in for CUPTI's CRC, and [perfagent_stub_linger].  The main thread and
    the drain thread interleave between their operations on what they share, each
    of which is one step; what a reading of a probe's semaphore finds is given by
    the number of the reading. *)
From Stdlib Require Import String Ascii.
From S2P Require Import Prelude Tables GpuUsdt Abi Batch Sampler Double Burst PcTier Timers Replay Maps Rendezvous Adapter PcSampling Window Contexts Inject.
#[local] Open Scope Z_scope.

(** FNV-1a over a module's bytes. *)
Definition stub_cubin_crc (bytes : list Z) : Z :=
  let h := foldl (fun h c => u64 (Z.lxor h c * 1099511628211)) 1469598103934665603 bytes in
  if h =? 0 then 1 else h.

Definition text (s : string) : list Z := map (fun c => Z.of_nat (nat_of_ascii c)) (list_ascii_of_string s).

Definition kStallNames : list string :=
  ["selected"; "no_instruction"; "long_scoreboard"; "short_scoreboard"; "wait"; "membar"; "barrier"; "dispatch_stall"]%string.
Definition kStubCubinCRC (i : Z) : Z := if i =? 0 then 0xC0FFEE01 else 0xC0FFEE02.

(** [(unsigned)atoi(v)] *)
Definition atou (v : cstr) : Z := u32 (strtol10 v).

(** ** The probes *)

(** One firing of a probe: its sequence number and its records. *)
Record stub_event := Ev { ev_seq : Z; ev_recs : list gpu_record }.

Inductive stub_seq := sampled_seq | name_seq | stall_seq | config_seq | dropped_seq | window_seq | g_stub_module_seq.
#[global] Instance stub_seq_eq_dec : EqDecision stub_seq.
Proof. solve_decision. Defined.

Record stub_wire := StubWire { sw_reads : nat; sw_seq : stub_seq -> Z; sw_events : list stub_event }.

(** The arguments of [perfagent_stub_run], with what the environment asked for. *)
Record stub_run := StubRun {
  sr_launches : nat; sr_sample_period : Z; sr_tid : Z;
  sr_tier : PCSamplingTier; sr_windows : Z; sr_leave_open : bool; sr_pc_samples : Z;
}.

Record stub_env := StubEnv {
  PERFAGENT_GPU_PC_SAMPLING : option cstr;
  PERFAGENT_STUB_SAMPLING_WINDOWS : option cstr;
  PERFAGENT_STUB_SAMPLING_WINDOW_OPEN : option cstr;
  PERFAGENT_STUB_PC_SAMPLES : option cstr;
}.

(** [v && *v ? (unsigned)atoi(v) : 0] *)
Definition env_atou (v : option cstr) : Z := match v with None | Some [] => 0 | Some s => atou s end.

Definition stub_settings (launches : nat) (sample_period tid : Z) (e : stub_env) : stub_run :=
  let tier := (pc_tier_parse (PERFAGENT_GPU_PC_SAMPLING e) 96).1.2 in
  StubRun launches sample_period tid tier
    (match tier with kSerialized => env_atou (PERFAGENT_STUB_SAMPLING_WINDOWS e) | _ => 0 end)
    (negb (env_atou (PERFAGENT_STUB_SAMPLING_WINDOW_OPEN e) =? 0))
    (match tier with kOff => 0 | _ => env_atou (PERFAGENT_STUB_PC_SAMPLES e) end).

(** ** What the two threads do *)

Inductive stub_act :=
| DoName (i : Z) | DoSample (i now : Z) | DoLaunch (i now : Z) | DoExec (i now : Z)
| FlushLaunches | FlushExecs
| DoModule (r : gpu_module_load_v1) | DoNamesReplay | DoReplay
| DoWindow (w : gpu_sampling_window_v1) | DoPc (r : gpu_pc_sample_batch_v1) | FlushPcs
| DoStall (m : gpu_stall_reason_map_v1) | DoConfig (c : gpu_config_v1) | DoDropped (d : gpu_dropped_v1).

Record stub_state := MkStub {
  lb : Batch_t (T := gpu_launch_v1) * list (fire gpu_launch_v1);
  eb : Batch_t (T := gpu_exec_v1) * list (fire gpu_exec_v1);
  pcb : Batch_t (T := gpu_pc_sample_batch_v1) * list (fire gpu_pc_sample_batch_v1);
  stub_sampler : sampler;
  stub_names : KernelNameTable;
  names_was_attached : bool;
  stub_replay : ReplayLog stub_wire;
  out : stub_wire;
}.

Definition kernel_id_of (i : Z) : Z := if i mod 2 =? 0 then 0x2222 else 0x1111.
(** ["kernel_%llx"] of the id *)
Definition kernel_name_of (i : Z) : list Z := text (if i mod 2 =? 0 then "kernel_2222" else "kernel_1111").

Definition stub_launch (tid i now : Z) : gpu_launch_v1 := GpuLaunch i (kernel_id_of i) 1 1 now tid 0.
Definition stub_exec (i now : Z) : gpu_exec_v1 := GpuExec i (kernel_id_of i) 1 0 (u64 (now + 10000)) (u64 (u64 (now + 10000) + 50000)).
Definition stub_sampled (tid period i now : Z) : gpu_launch_sampled_v1 :=
  GpuLaunchSampled i (kernel_id_of i) 1 1 now tid period (i - 1).

Section Run.
  Context (sem : nat -> bool) (tid : Z).

(** [if (probe_enabled()) probe_emit(&r, 1, seq++)] *)
Definition fire_one (q : stub_seq) (r : gpu_record) (w : stub_wire) : stub_wire :=
  if sem (sw_reads w)
  then StubWire (S (sw_reads w)) (fun q' => if bool_decide (q' = q) then u64 (sw_seq w q' + 1) else sw_seq w q')
         (sw_events w ++ [Ev (sw_seq w q) [r]])
  else StubWire (S (sw_reads w)) (sw_seq w) (sw_events w).

(** A batch's operation; its firings go out on the wire. *)
Definition batch_do {T} (inj : T -> gpu_record) (N : nat) (o : bool -> bool -> batch_op T)
    (s : Batch_t * list (fire T)) (w : stub_wire) : (Batch_t * list (fire T)) * stub_wire :=
  let s' := batch_step N log_emit s (o (sem (sw_reads w)) (sem (S (sw_reads w)))) in
  (s', StubWire (S (S (sw_reads w))) (sw_seq w)
         (sw_events w ++ map (fun f => Ev (f_seq f) (map inj (f_recs f))) (drop (length s.2) s'.2))).

Definition set_out (w : stub_wire) (s : stub_state) : stub_state :=
  MkStub (lb s) (eb s) (pcb s) (stub_sampler s) (stub_names s) (names_was_attached s) (stub_replay s) w.

Definition stub_step (s : stub_state) (a : stub_act) : stub_state :=
  let w := out s in
  match a with
  | DoName i =>
      let '(r, names) := intern (kernel_id_of i) (Some (kernel_name_of i)) (stub_names s) in
      let w := match r with Some r => fire_one name_seq (RKernelName r) w | None => w end in
      MkStub (lb s) (eb s) (pcb s) (stub_sampler s) names (names_was_attached s) (stub_replay s) w
  | DoSample i now =>
      let '(hit, sm) := should_sample (stub_sampler s) in
      let w := if hit then fire_one sampled_seq (RLaunchSampled (stub_sampled tid (period_ sm) i now)) w else w in
      MkStub (lb s) (eb s) (pcb s) sm (stub_names s) (names_was_attached s) (stub_replay s) w
  | DoLaunch i now =>
      let '(b, w) := batch_do RLaunch 32 (Add (stub_launch tid i now)) (lb s) w in
      MkStub b (eb s) (pcb s) (stub_sampler s) (stub_names s) (names_was_attached s) (stub_replay s) w
  | FlushLaunches =>
      let '(b, w) := batch_do RLaunch 32 (fun en _ => Flush en) (lb s) w in
      MkStub b (eb s) (pcb s) (stub_sampler s) (stub_names s) (names_was_attached s) (stub_replay s) w
  | DoExec i now =>
      let '(b, w) := batch_do RExec 32 (Add (stub_exec i now)) (eb s) w in
      MkStub (lb s) b (pcb s) (stub_sampler s) (stub_names s) (names_was_attached s) (stub_replay s) w
  | FlushExecs =>
      let '(b, w) := batch_do RExec 32 (fun en _ => Flush en) (eb s) w in
      MkStub (lb s) b (pcb s) (stub_sampler s) (stub_names s) (names_was_attached s) (stub_replay s) w
  | DoPc r =>
      let '(b, w) := batch_do RPc 32 (Add r) (pcb s) w in
      MkStub (lb s) (eb s) b (stub_sampler s) (stub_names s) (names_was_attached s) (stub_replay s) w
  | FlushPcs =>
      let '(b, w) := batch_do RPc 32 (fun en _ => Flush en) (pcb s) w in
      MkStub (lb s) (eb s) b (stub_sampler s) (stub_names s) (names_was_attached s) (stub_replay s) w
  | DoModule r => set_out (fire_one g_stub_module_seq (RModule r) w) s
  | DoNamesReplay =>
      let now_attached := sem (sw_reads w) in
      let w := StubWire (S (sw_reads w)) (sw_seq w) (sw_events w) in
      let w := if now_attached && negb (names_was_attached s)
               then replay (fun r => fire_one name_seq (RKernelName r)) (stub_names s) w else w in
      MkStub (lb s) (eb s) (pcb s) (stub_sampler s) (stub_names s) now_attached (stub_replay s) w
  | DoReplay =>
      let enabled_now := sem (sw_reads w) in
      let '(l, w) := replay_if_newly_attached enabled_now (stub_replay s) (StubWire (S (sw_reads w)) (sw_seq w) (sw_events w)) in
      MkStub (lb s) (eb s) (pcb s) (stub_sampler s) (stub_names s) (names_was_attached s) l w
  | DoWindow x => set_out (fire_one window_seq (RSamplingWindow x) w) s
  | DoStall m =>
      MkStub (lb s) (eb s) (pcb s) (stub_sampler s) (stub_names s) (names_was_attached s)
        (record_stall_reason m (stub_replay s)).2 (fire_one stall_seq (RStallMap m) w)
  | DoConfig c =>
      MkStub (lb s) (eb s) (pcb s) (stub_sampler s) (stub_names s) (names_was_attached s)
        (record_config c (stub_replay s)) (fire_one config_seq (RConfig c) w)
  | DoDropped d => set_out (fire_one dropped_seq (RDropped d) w) s
  end.

Definition stub_init (period : Z) (jl : list gpu_launch_v1) (je : list gpu_exec_v1) (jp : list gpu_pc_sample_batch_v1) : stub_state :=
  MkStub (Batch_init jl, []) (Batch_init je, []) (Batch_init jp, []) (Sampler_init period kDefaultSeed) KernelNameTable_init false
    (on_replay_config (fun r => fire_one config_seq (RConfig r))
       (on_replay_stall (fun r => fire_one stall_seq (RStallMap r)) ReplayLog_init))
    (StubWire 0 (fun _ => 0) []).
End Run.

(** One tick of the drain thread; [mods] are the modules it settled. *)
Definition tick_acts (mods : list gpu_module_load_v1) : list stub_act :=
  [FlushLaunches; FlushExecs] ++ map DoModule mods ++ [DoNamesReplay; DoReplay].

(** The bursts: the span of the executions in [2 n] slices, every other one a
    window, each an open record and a closed one. *)
Definition stub_window (first slice : Z) (leave_open : bool) (n i : Z) : list gpu_sampling_window_v1 :=
  let ws := u64 (first + u64 (u32 (2 * i) * slice)) in
  let w e := GpuSamplingWindow ws e GPU_SAMPLING_MODE_KERNEL_SERIALIZED (replicate 3 0) 0 in
  if leave_open && (i + 1 =? n) then [w 0] else [w 0; w (u64 (ws + slice))].
Definition stub_windows (n first last : Z) (leave_open : bool) : list gpu_sampling_window_v1 :=
  if (n =? 0) || (last <=? first) then []
  else
    let slice := (last - first) / (2 * n) in
    if slice =? 0 then [] else concat (map (stub_window first slice leave_open n) (seqZ 0 n)).

(** The synthetic PC samples, the stall map, the configuration, a drop of each
    class. *)
Definition stub_pc (i : Z) : gpu_pc_sample_batch_v1 :=
  GpuPcSample (kStubCubinCRC (i mod 2)) 0 (i mod 24 * 16) (i mod 4) (i mod 8) (1 + i mod 7) 0.
Definition stub_stall (i : nat) (name : string) : gpu_stall_reason_map_v1 :=
  GpuStallReason (Z.of_nat i) (Z.of_nat (String.length name)) 0 0
    (text name ++ replicate (GPU_STALL_NAME_MAX - String.length name) 0).
Definition stub_config : gpu_config_v1 := GpuConfig 1695000000 4096 82 GPU_VENDOR_NVIDIA (replicate 7 0).
Definition stub_drops : list gpu_dropped_v1 :=
  map (fun d => GpuDropped d.1 d.2 (replicate 7 0))
    [(3, GPU_DROP_CLASS_PC_DROPPED_HW); (1, GPU_DROP_CLASS_PC_BUFFER_FULL);
     (17, GPU_DROP_CLASS_PC_NON_USER_KERNEL); (2, GPU_DROP_CLASS_GRAPH_EXEC)].
Definition pc_acts (n : Z) : list stub_act :=
  if n =? 0 then []
  else map (fun i => DoPc (stub_pc i)) (seqZ 0 n) ++ [FlushPcs] ++ map DoStall (imap stub_stall kStallNames)
       ++ [DoConfig stub_config] ++ map DoDropped stub_drops.

(** Launch [i] of the loop, at the reading [now] of the clock. *)
Definition launch_acts (i now : Z) : list stub_act := [DoName i; DoSample i now; DoLaunch i now; DoExec i now].
Definition launch_loop (n : nat) (clock : Z -> Z) : list stub_act :=
  concat (map (fun i => launch_acts i (clock i)) (seqZ 1 (Z.of_nat n))).
(** [first_exec_ns] and [last_exec_ns] after the loop. *)
Definition exec_span (n : nat) (clock : Z -> Z) : Z * Z :=
  foldl (fun p i => let e := stub_exec i (clock i) in
           (if p.1 =? 0 then x_start_ns e else p.1, x_end_ns e)) (0, 0) (seqZ 1 (Z.of_nat n)).

(** The main thread of [perfagent_stub_run], after the modules were captured.  The
    loop counter is 32 bits wide: with 2^32 - 1 launches the loop does not end. *)
Definition main_acts (r : stub_run) (clock : Z -> Z) : list stub_act :=
  launch_loop (sr_launches r) clock ++ [FlushLaunches; FlushExecs]
  ++ (let p := exec_span (sr_launches r) clock in map DoWindow (stub_windows (sr_windows r) p.1 p.2 (sr_leave_open r)))
  ++ pc_acts (sr_pc_samples r).

(** The two threads, in any order. *)
Inductive interleave {A} : list A -> list A -> list A -> Prop :=
| IntNil : interleave [] [] []
| IntL x l r c : interleave l r c -> interleave (x :: l) r (x :: c)
| IntR x l r c : interleave l r c -> interleave l (x :: r) (x :: c).

(** ** Projections *)

Section Interleave.
  Context {A B : Type} (f : A -> option B).

Lemma interleave_omap l r c : interleave l r c -> omap f r = [] -> omap f c = omap f l.
Proof using Type.
  induction 1 as [|x l r c H IH|x l r c H IH]; csimpl; intros E; [done|by rewrite IH|].
  destruct (f x); [done|]. by apply IH.
Qed.

Lemma interleave_split l1 x l2 r c :
  interleave (l1 ++ x :: l2 : list A) r c -> exists c1 c2 r1 r2, c = c1 ++ x :: c2 /\ r = r1 ++ r2 /\ interleave l1 r1 c1 /\ interleave l2 r2 c2.
Proof using Type.
  intros H. remember (l1 ++ x :: l2) as l eqn:E. revert l1 E.
  induction H as [|y l r c H IH|y l r c H IH]; intros l1 E.
  - by destruct l1.
  - destruct l1 as [|z l1]; simpl in E; injection E as -> ->.
    + exists [], c, [], r. split_and!; try done. constructor.
    + destruct (IH l1 eq_refl) as (c1 & c2 & r1 & r2 & -> & -> & H1 & H2). exists (z :: c1), c2, r1, r2. split_and!; try done. by constructor.
  - destruct (IH l1 E) as (c1 & c2 & r1 & r2 & -> & -> & H1 & H2). exists (y :: c1), c2, (y :: r1), r2. split_and!; try done. by constructor.
Qed.

Lemma interleave_Forall (P : A -> Prop) l r c : interleave l r c -> Forall P l -> Forall P r -> Forall P c.
Proof using Type.
  induction 1 as [|x l r c H IH|x l r c H IH]; intros Hl Hr; [done|..].
  - apply list.Forall_cons in Hl as [Hx Hl]. constructor; auto.
  - apply list.Forall_cons in Hr as [Hx Hr]. constructor; auto.
Qed.

Lemma omap_none (l : list A) : Forall (fun x => f x = None) l -> omap f l = [].
Proof using Type. induction 1 as [|x l Hx H IH]; [done|]. csimpl. by rewrite Hx. Qed.
End Interleave.

Definition wire_records (w : stub_wire) : list gpu_record := concat (map ev_recs (sw_events w)).
Definition as_launch (r : gpu_record) : option gpu_launch_v1 := match r with RLaunch x => Some x | _ => None end.
Definition as_exec (r : gpu_record) : option gpu_exec_v1 := match r with RExec x => Some x | _ => None end.
Definition as_sampled (r : gpu_record) : option gpu_launch_sampled_v1 := match r with RLaunchSampled x => Some x | _ => None end.

Definition launched (tid : Z) (a : stub_act) : option gpu_launch_v1 :=
  match a with DoLaunch i now => Some (stub_launch tid i now) | _ => None end.
Definition executed (a : stub_act) : option gpu_exec_v1 := match a with DoExec i now => Some (stub_exec i now) | _ => None end.
Definition sampled_at (a : stub_act) : option (Z * Z) := match a with DoSample i now => Some (i, now) | _ => None end.

Lemma wire_records_app r n q es es' :
  wire_records (StubWire r q (es ++ es')) = wire_records (StubWire n q es) ++ concat (map ev_recs es').
Proof. unfold wire_records. simpl. by rewrite map_app, concat_app. Qed.

(** What a step adds to the wire: the replays add records of the two logs only. *)
Definition emits (s : stub_state) (a : stub_act) (r : gpu_record) : Prop :=
  match a, r with
  | DoName _, RKernelName _ | DoNamesReplay, RKernelName _ | DoSample _ _, RLaunchSampled _ | DoLaunch _ _, RLaunch _
  | FlushLaunches, RLaunch _ | DoExec _ _, RExec _ | FlushExecs, RExec _ | DoPc _, RPc _ | FlushPcs, RPc _
  | DoModule _, RModule _ | DoWindow _, RSamplingWindow _ | DoStall _, RStallMap _ | DoConfig _, RConfig _
  | DoDropped _, RDropped _ => True
  | DoReplay, RStallMap m => m ∈ stalls_ (stub_replay s)
  | DoReplay, RConfig _ => have_config_ (stub_replay s) = true
  | _, _ => False
  end.

(** The callbacks the log was given. *)
Definition replay_ok (sem : nat -> bool) (l : ReplayLog stub_wire) : Prop :=
  config_fn_ l = Some (fun r => fire_one sem config_seq (RConfig r)) /\
  stall_fn_ l = Some (fun r => fire_one sem stall_seq (RStallMap r)) /\ module_fn_ l = None.

Section Steps.
  Context (sem : nat -> bool) (tid : Z).

Lemma fire_one_records q r w : exists rs, wire_records (fire_one sem q r w) = wire_records w ++ rs /\ Forall (eq r) rs.
Proof using Type.
  unfold fire_one. destruct (sem (sw_reads w)).
  - exists [r]. split; [|by repeat constructor]. unfold wire_records. simpl. by rewrite map_app, concat_app.
  - exists []. by rewrite app_nil_r.
Qed.

Lemma fire_all_records {A} q (inj : A -> gpu_record) xs w :
  exists rs, wire_records (foldl (fun w x => fire_one sem q (inj x) w) w xs) = wire_records w ++ rs /\
    Forall (fun r => exists x, x ∈ xs /\ r = inj x) rs.
Proof using Type.
  revert w. induction xs as [|x xs IH]; intros w; [exists []; by rewrite app_nil_r|].
  destruct (fire_one_records q (inj x) w) as (rs1 & E1 & F1). destruct (IH (fire_one sem q (inj x) w)) as (rs2 & E2 & F2).
  exists (rs1 ++ rs2). simpl. rewrite E2, E1, app_assoc. split; [done|]. apply list.Forall_app. split.
  - eapply list.Forall_impl; [exact F1|]. intros r <-. exists x. split; [by left|done].
  - eapply list.Forall_impl; [exact F2|]. intros r (y & Hy & ->). exists y. split; [by right|done].
Qed.

Lemma batch_do_records {T} (inj : T -> gpu_record) N o s w :
  exists fs, (batch_do sem inj N o s w).1.2 = s.2 ++ fs /\
    wire_records (batch_do sem inj N o s w).2 = wire_records w ++ map inj (records fs).
Proof using Type.
  destruct s as [b l]. unfold batch_do. cbn [fst snd].
  destruct (step_factor N log_emit b l l (o (sem (sw_reads w)) (sem (S (sw_reads w))))) as (fs & E1 & _).
  exists fs. split; [done|]. rewrite E1, drop_app_length. unfold wire_records, records. simpl.
  rewrite map_app, concat_app. f_equal. clear E1. induction fs as [|f fs IH]; [done|]. simpl. by rewrite IH, map_app.
Qed.

(** The replay to a consumer that came. *)
Lemma replay_records en l w :
  replay_ok sem l ->
  (exists rs, wire_records (replay_if_newly_attached en l w).2 = wire_records w ++ rs /\
     Forall (fun r => match r with RStallMap m => m ∈ stalls_ l | RConfig _ => have_config_ l = true | _ => False end) rs) /\
  replay_ok sem (replay_if_newly_attached en l w).1.
Proof using Type.
  intros (Ec & Es & Em). split; [|done]. unfold replay_if_newly_attached. cbn [snd]. destruct (en && _); [|exists []; by rewrite app_nil_r].
  rewrite Ec, Es, Em. unfold call_each.
  assert (Hc : exists rs, wire_records (if have_config_ l then foldl (fun w x => fire_one sem config_seq (RConfig x) w) w [config_ l] else w)
    = wire_records w ++ rs /\ Forall (fun r => match r with RStallMap m => m ∈ stalls_ l | RConfig _ => have_config_ l = true | _ => False end) rs).
  { destruct (have_config_ l) eqn:Eh; [|exists []; by rewrite app_nil_r].
    destruct (fire_all_records config_seq RConfig [config_ l] w) as (rs & E & F). exists rs. split; [done|].
    eapply list.Forall_impl; [exact F|]. by intros r (x & _ & ->). }
  destruct Hc as (rs1 & E1 & F1). set (w1 := if have_config_ l then _ else _) in *.
  destruct (fire_all_records stall_seq RStallMap (stalls_ l) w1) as (rs2 & E2 & F2).
  exists (rs1 ++ rs2). rewrite E2, E1, app_assoc. split; [done|]. apply list.Forall_app. split; [done|].
  eapply list.Forall_impl; [exact F2|]. by intros r (x & Hx & ->).
Qed.

(** A step appends to the wire what it may emit. *)
Lemma step_emits s a :
  replay_ok sem (stub_replay s) ->
  (exists rs, wire_records (out (stub_step sem tid s a)) = wire_records (out s) ++ rs /\ Forall (emits s a) rs) /\
  replay_ok sem (stub_replay (stub_step sem tid s a)).
Proof using Type.
  intros Hr.
  assert (One : forall q r, emits s a r -> exists rs, wire_records (fire_one sem q r (out s)) = wire_records (out s) ++ rs /\ Forall (emits s a) rs).
  { intros q r He. destruct (fire_one_records q r (out s)) as (rs & E & F). exists rs. split; [done|].
    eapply list.Forall_impl; [exact F|]. by intros x <-. }
  assert (None_ : exists rs, wire_records (out s) = wire_records (out s) ++ rs /\ Forall (emits s a) rs)
    by (exists []; by rewrite app_nil_r).
  assert (Batch_ : forall T (inj : T -> gpu_record) N o b, (forall x, emits s a (inj x)) ->
    exists rs, wire_records (batch_do sem inj N o b (out s)).2 = wire_records (out s) ++ rs /\ Forall (emits s a) rs).
  { intros T inj N o b He. destruct (batch_do_records inj N o b (out s)) as (fs & _ & E). eexists. split; [exact E|].
    apply list.Forall_forall. intros r (x & -> & _)%list_elem_of_fmap. apply He. }
  destruct a; cbn [stub_step].
  all: try (split; [|done]; by apply One).
  all: try (split; [match goal with |- context [batch_do sem ?inj ?N ?o ?b ?w] => pose proof (Batch_ _ inj N o b) as H;
              destruct (batch_do sem inj N o b w); simpl in *; by apply H end|]).
  all: try (by destruct (batch_do _ _ _ _ _ _)).
  - unfold intern. case_decide; simpl; split; try done. by apply One.
  - destruct (should_sample (stub_sampler s)) as [[] sm]; simpl; split; try done. by apply One.
  - split; [|done]. destruct (sem (sw_reads (out s)) && _); [|done]. cbn [out]. unfold replay.
    destruct (fire_all_records name_seq RKernelName (records_ (stub_names s))
      (StubWire (S (sw_reads (out s))) (sw_seq (out s)) (sw_events (out s)))) as (rs & E & F).
    exists rs. rewrite E. split; [done|]. eapply list.Forall_impl; [exact F|]. by intros r (x & _ & ->).
  - pose proof (replay_records (sem (sw_reads (out s))) (stub_replay s)
      (StubWire (S (sw_reads (out s))) (sw_seq (out s)) (sw_events (out s))) Hr) as [(rs & E & F) Ho].
    destruct (replay_if_newly_attached _ _ _) as [l w]. simpl in *. split; [|done]. exists rs. split; [done|].
    eapply list.Forall_impl; [exact F|]. by intros [].
  - split; [by apply One|]. unfold record_stall_reason. by case_match.
Qed.
End Steps.

(** ** The run *)

Section Runs.
  Context (sem : nat -> bool) (tid : Z).
  Notation step := (stub_step sem tid).
  Notation run := (foldl (stub_step sem tid)).

(** A property of the records on the wire that no step breaks. *)
Lemma run_wire (I : stub_state -> Prop) (P : gpu_record -> Prop) acts s :
  (forall s a, a ∈ acts -> I s -> I (step s a) /\ forall r, emits s a r -> P r) ->
  replay_ok sem (stub_replay s) -> I s -> Forall P (wire_records (out s)) -> Forall P (wire_records (out (run s acts))).
Proof using Type.
  revert s. induction acts as [|a acts IH]; intros s Hstep Hr HI HP; [done|]. simpl.
  destruct (step_emits sem tid s a Hr) as [(rs & E & F) Hr']. destruct (Hstep s a ltac:(by left) HI) as [HI' He].
  apply IH; try done.
  - intros s' a' Ha. apply Hstep. by right.
  - rewrite E. apply list.Forall_app. split; [done|]. eapply list.Forall_impl; [exact F|]. apply He.
Qed.

(** *** One batch of the three *)
Section OneBatch.
  Context {T : Type} (as_ : gpu_record -> option T) (get : stub_state -> Batch_t (T := T) * list (fire T)).
  Context (adds : stub_act -> option T) (flushes : stub_act -> bool).

Definition op_of (a : stub_act) (en en' : bool) : option (batch_op T) :=
  match adds a with Some r => Some (Add r en en') | None => if flushes a then Some (Flush en) else None end.

  Context (Hget : forall s a, exists en en', get (step s a) = match op_of a en en' with Some o => batch_step 32 log_emit (get s) o | None => get s end /\
                    ((forall n, sem n = true) -> en && en' = true)).
  Context (Hwire : forall s a, replay_ok sem (stub_replay s) -> omap as_ (wire_records (out s)) = records (get s).2 ->
                     omap as_ (wire_records (out (step s a))) = records (get (step s a)).2).
  Context (Hon : forall n, sem n = true).

Lemma batch_part acts s rs :
  batch_inv 32 32 rs (get s) -> records (get s).2 ++ take (n_ (get s).1) (buf_ (get s).1) = rs ->
  batch_inv 32 32 (rs ++ omap adds acts) (get (run s acts)) /\
  records (get (run s acts)).2 ++ take (n_ (get (run s acts)).1) (buf_ (get (run s acts)).1) = rs ++ omap adds acts.
Proof using Hget Hon.
  revert s rs. induction acts as [|a acts IH]; intros s rs Hi He; [simpl; by rewrite app_nil_r|]. simpl.
  destruct (Hget s a) as (en & en' & E & Hen). specialize (Hen Hon).
  assert (Hstep : batch_inv 32 32 (rs ++ match adds a with Some r => [r] | None => [] end) (get (step s a)) /\
    records (get (step s a)).2 ++ take (n_ (get (step s a)).1) (buf_ (get (step s a)).1)
      = rs ++ match adds a with Some r => [r] | None => [] end).
  { rewrite E. unfold op_of. destruct (adds a) as [r|]; [|destruct (flushes a); [|by rewrite app_nil_r]].
    - split; [apply (step_inv 32 ltac:(lia) rs (get s) (Add r en en') Hi)|].
      apply (step_exact 32 ltac:(lia) rs (get s) (Add r en en') Hi); [|done]. simpl. by rewrite Hen.
    - apply andb_true_iff in Hen as [-> _]. split; [apply (step_inv 32 ltac:(lia) rs (get s) (Flush true) Hi)|].
      by apply (step_exact 32 ltac:(lia) rs (get s) (Flush true) Hi). }
  destruct (IH (step s a) _ (proj1 Hstep) (proj2 Hstep)) as [H1 H2].
  csimpl. destruct (adds a) as [r|]; [|by rewrite !app_nil_r in *]. by rewrite <- !app_assoc in *.
Qed.

Lemma drained acts s : n_ (get s).1 = 0%nat -> omap adds acts = [] -> n_ (get (run s acts)).1 = 0%nat.
Proof using Hget.
  revert s. induction acts as [|a acts IH]; intros s Hz Ha; [done|]. csimpl in Ha.
  destruct (Hget s a) as (en & en' & E & _). unfold op_of in E. destruct (adds a); [done|]. simpl. apply IH; [|done].
  rewrite E. destruct (flushes a); [|done]. simpl. unfold flush, flush_locked. by rewrite Hz.
Qed.

Lemma run_records acts s :
  replay_ok sem (stub_replay s) -> omap as_ (wire_records (out s)) = records (get s).2 ->
  omap as_ (wire_records (out (run s acts))) = records (get (run s acts)).2.
Proof using Hwire.
  revert s. induction acts as [|a acts IH]; intros s' Hr' Hw'; [done|]. simpl. apply IH; [|by apply Hwire]. by apply step_emits.
Qed.

(** All that was added is on the wire once a flush came after it. *)
Lemma batch_on_wire s c1 x c2 :
  replay_ok sem (stub_replay s) -> omap as_ (wire_records (out s)) = records (get s).2 ->
  batch_inv 32 32 [] (get s) -> records (get s).2 ++ take (n_ (get s).1) (buf_ (get s).1) = [] ->
  adds x = None -> flushes x = true -> omap adds c2 = [] ->
  omap as_ (wire_records (out (run s (c1 ++ x :: c2)))) = omap adds (c1 ++ x :: c2).
Proof using Hget Hwire Hon.
  intros Hr Hw Hi He Hx Hfl Hc2.
  rewrite run_records by done. destruct (batch_part (c1 ++ x :: c2) s [] Hi He) as [_ E]. simpl in E.
  assert (Hz : n_ (get (run s (c1 ++ x :: c2))).1 = 0%nat).
  { rewrite foldl_app. simpl. apply drained; [|done]. destruct (Hget (run s c1) x) as (en & en' & Eg & _).
    rewrite Eg. unfold op_of. rewrite Hx, Hfl. simpl. unfold flush, flush_locked.
    destruct (Nat.eqb_spec (n_ (get (run s c1)).1) 0); [done|]. by destruct en. }
  rewrite <- E. by rewrite Hz, take_0, app_nil_r.
Qed.
End OneBatch.

Lemma omap_emits {T} (as_ : gpu_record -> option T) s a :
  replay_ok sem (stub_replay s) -> (forall r, emits s a r -> as_ r = None) ->
  omap as_ (wire_records (out (step s a))) = omap as_ (wire_records (out s)).
Proof using Type.
  intros Hr He. destruct (step_emits sem tid s a Hr) as [(rs & E & F) _]. rewrite E, omap_app, (omap_none as_ rs), app_nil_r; [done|].
  eapply list.Forall_impl; [exact F|]. apply He.
Qed.

Lemma omap_batch {T} (inj : T -> gpu_record) (as_ : gpu_record -> option T) N o b w :
  (forall x, as_ (inj x) = Some x) -> omap as_ (wire_records w) = records b.2 ->
  omap as_ (wire_records (batch_do sem inj N o b w).2) = records (batch_do sem inj N o b w).1.2.
Proof using Type.
  intros Ha E. destruct (batch_do_records sem inj N o b w) as (fs & E1 & ->). rewrite E1, omap_app, E, records_app. f_equal.
  induction (records fs) as [|x xs IH]; [done|]. csimpl. by rewrite Ha, IH.
Qed.

Definition flushes_launches (a : stub_act) : bool := match a with FlushLaunches => true | _ => false end.
Definition flushes_execs (a : stub_act) : bool := match a with FlushExecs => true | _ => false end.

Lemma lb_step s a : exists en en',
  lb (step s a) = match op_of (launched tid) flushes_launches a en en' with Some o => batch_step 32 log_emit (lb s) o | None => lb s end /\
  ((forall n, sem n = true) -> en && en' = true).
Proof using Type.
  exists (sem (sw_reads (out s))), (sem (S (sw_reads (out s)))). split; [|intros H; by rewrite !H].
  destruct a; simpl; repeat case_match; done.
Qed.
Lemma eb_step s a : exists en en',
  eb (step s a) = match op_of executed flushes_execs a en en' with Some o => batch_step 32 log_emit (eb s) o | None => eb s end /\
  ((forall n, sem n = true) -> en && en' = true).
Proof using Type.
  exists (sem (sw_reads (out s))), (sem (S (sw_reads (out s)))). split; [|intros H; by rewrite !H].
  destruct a; simpl; repeat case_match; done.
Qed.

Lemma lb_wire s a :
  replay_ok sem (stub_replay s) -> omap as_launch (wire_records (out s)) = records (lb s).2 ->
  omap as_launch (wire_records (out (step s a))) = records (lb (step s a)).2.
Proof using Type.
  intros Hr E. destruct a; try (rewrite omap_emits; [rewrite E; simpl; by repeat case_match|done|by intros []]).
  all: by apply (omap_batch RLaunch as_launch 32).
Qed.
Lemma eb_wire s a :
  replay_ok sem (stub_replay s) -> omap as_exec (wire_records (out s)) = records (eb s).2 ->
  omap as_exec (wire_records (out (step s a))) = records (eb (step s a)).2.
Proof using Type.
  intros Hr E. destruct a; try (rewrite omap_emits; [rewrite E; simpl; by repeat case_match|done|by intros []]).
  all: by apply (omap_batch RExec as_exec 32).
Qed.

(** *** The sampled probe *)

Lemma fire_on q r w : (forall n, sem n = true) -> wire_records (fire_one sem q r w) = wire_records w ++ [r].
Proof using Type. intros H. unfold fire_one, wire_records. rewrite H. simpl. by rewrite map_app, concat_app. Qed.

Lemma should_sample_facts sm :
  0 <= observed_ sm -> observed_ sm + 1 < 2 ^ 63 ->
  observed_ (should_sample sm).2 = observed_ sm + 1 /\ period_ (should_sample sm).2 = period_ sm.
Proof using Type.
  intros H0 H1. unfold should_sample. rewrite u64_small by (change (2 ^ 63) with 9223372036854775808 in H1; word_lia). by case_match.
Qed.

Lemma sampled_run (clock : Z -> Z) acts s k :
  (forall n, sem n = true) -> replay_ok sem (stub_replay s) -> 0 <= observed_ (stub_sampler s) ->
  observed_ (stub_sampler s) + Z.of_nat k < 2 ^ 63 ->
  omap sampled_at acts = map (fun i => (i, clock i)) (seqZ (observed_ (stub_sampler s) + 1) (Z.of_nat k)) ->
  omap as_sampled (wire_records (out (run s acts))) = omap as_sampled (wire_records (out s)) ++
    map (fun o => stub_sampled tid (period_ (stub_sampler s)) (o + 1) (clock (o + 1))) (launch_many k (stub_sampler s)).1.
Proof using Type.
  intros Hon. revert s k. induction acts as [|a acts IH]; intros s k Hr H0 Hk E.
  { destruct k as [|k]; [by rewrite app_nil_r|]. rewrite seqZ_cons in E by lia. done. }
  destruct (step_emits sem tid s a Hr) as [_ Hr'].
  destruct (sampled_at a) as [[i now]|] eqn:Ea; csimpl in E; rewrite Ea in E.
  - destruct k as [|k]; [done|]. rewrite seqZ_cons in E by lia. simpl in E. injection E as -> -> E.
    destruct a; try done. injection Ea as -> ->. cbn [foldl launch_many].
    destruct (should_sample_facts (stub_sampler s) H0 ltac:(lia)) as [Ho Hp].
    assert (Es : stub_sampler (step s (DoSample (observed_ (stub_sampler s) + 1) (clock (observed_ (stub_sampler s) + 1))))
      = (should_sample (stub_sampler s)).2) by (simpl; by destruct (should_sample (stub_sampler s))).
    rewrite (IH _ k); rewrite ?Es, ?Ho; try done; try lia; [|rewrite E; do 2 f_equal; lia].
    rewrite Hp. cbn [stub_step]. destruct (should_sample (stub_sampler s)) as [hit sm]. cbn [fst snd out] in *. rewrite Hp.
    destruct (launch_many k sm) as [hits sm']. cbn [fst]. destruct hit; [|done].
    rewrite fire_on, omap_app by done. simpl. by rewrite <- app_assoc.
  - assert (Es : stub_sampler (step s a) = stub_sampler s) by (destruct a; simpl; repeat case_match; done).
    simpl. rewrite (IH (step s a) k) by (rewrite ?Es; done). rewrite Es. f_equal. apply omap_emits; [done|].
    destruct a; try done; by intros [].
Qed.
End Runs.

(** *** The main thread's launches *)

Lemma omap_concat_map {A B C} (f : A -> option B) (g : C -> list A) (h : C -> B) l :
  (forall x, omap f (g x) = [h x]) -> omap f (concat (map g l)) = map h l.
Proof. intros H. induction l as [|x l IH]; [done|]. cbn [map concat]. by rewrite omap_app, H, IH. Qed.

(** What follows the loop. *)
Definition aftermath (a : stub_act) : bool :=
  match a with DoName _ | DoSample _ _ | DoLaunch _ _ | DoExec _ _ => false | _ => true end.

Lemma tail_aftermath n first last lo m : Forall (fun a => aftermath a = true) (map DoWindow (stub_windows n first last lo) ++ pc_acts m).
Proof.
  apply list.Forall_app. split; [apply list.Forall_forall; by intros a (w & -> & _)%list_elem_of_fmap|].
  unfold pc_acts. destruct (m =? 0); [done|].
  repeat (apply list.Forall_app; split); try (by repeat constructor); apply list.Forall_forall; by intros a (w & -> & _)%list_elem_of_fmap.
Qed.

Lemma ticks_aftermath ticks : Forall (fun a => aftermath a = true) (concat (map tick_acts ticks)).
Proof.
  induction ticks as [|mods ticks IH]; [done|]. cbn [map concat]. apply list.Forall_app. split; [|done]. unfold tick_acts.
  repeat (apply list.Forall_app; split); try (by repeat constructor). apply list.Forall_forall. by intros a (w & -> & _)%list_elem_of_fmap.
Qed.

Lemma aftermath_none {B} (f : stub_act -> option B) l :
  (forall a, aftermath a = true -> f a = None) -> Forall (fun a => aftermath a = true) l -> omap f l = [].
Proof. intros Hf Hl. apply omap_none. eapply list.Forall_impl; [exact Hl|done]. Qed.

Section Main.
  Context (r : stub_run) (clock : Z -> Z) (ticks : list (list gpu_module_load_v1)) (c : list stub_act).
  Context (Hc : interleave (main_acts r clock) (concat (map tick_acts ticks)) c).

(** A projection that reads one action of each launch. *)
Lemma main_omap {B} (f : stub_act -> option B) (h : Z -> B) :
  (forall a, aftermath a = true -> f a = None) -> (forall i, omap f (launch_acts i (clock i)) = [h i]) ->
  omap f c = map h (seqZ 1 (Z.of_nat (sr_launches r))).
Proof using Hc.
  intros Hf Hh. rewrite (interleave_omap f _ _ _ Hc) by (apply aftermath_none; [done|apply ticks_aftermath]).
  unfold main_acts. rewrite !omap_app. unfold launch_loop. rewrite (omap_concat_map f _ h) by done.
  csimpl. rewrite !(Hf _) by done. rewrite <- omap_app. rewrite aftermath_none, app_nil_r; [done|done|apply tail_aftermath].
Qed.

Lemma main_flush x : x ∈ [FlushLaunches; FlushExecs] -> exists c1 c2, c = c1 ++ x :: c2 /\
  forall B (f : stub_act -> option B), (forall a, aftermath a = true -> f a = None) -> omap f c2 = [].
Proof using Hc.
  intros Hx. assert (Hm : exists l1 l2, main_acts r clock = l1 ++ x :: l2 /\ Forall (fun a => aftermath a = true) l2).
  { unfold main_acts. apply elem_of_cons in Hx as [->|Hx].
    - eexists _, _. split; [reflexivity|]. constructor; [done|]. apply tail_aftermath.
    - apply list_elem_of_singleton in Hx as ->. eexists (_ ++ [FlushLaunches]), _. rewrite <- app_assoc. split; [reflexivity|apply tail_aftermath]. }
  destruct Hm as (l1 & l2 & E & Hl2). rewrite E in Hc. destruct (interleave_split _ _ _ _ _ Hc) as (c1 & c2 & r1 & r2 & -> & Er & _ & H2).
  exists c1, c2. split; [done|]. intros B f Hf. apply aftermath_none; [done|]. eapply interleave_Forall; [exact H2|done|].
  pose proof (ticks_aftermath ticks) as Ht. rewrite Er in Ht. by apply list.Forall_app in Ht as [_ Ht].
Qed.
End Main.

(** *** Prefixes of the run *)

Lemma interleave_prefix {A} (l r c1 c2 : list A) :
  interleave l r (c1 ++ c2) -> exists l1 l2 r1 r2, l = l1 ++ l2 /\ r = r1 ++ r2 /\ interleave l1 r1 c1.
Proof.
  revert l r. induction c1 as [|x c1 IH]; intros l r H; [exists [], l, [], r; split_and!; try done; constructor|].
  simpl in H. inversion H as [|? l' r' ? H'|? l' r' ? H']; subst.
  - destruct (IH _ _ H') as (l1 & l2 & r1 & r2 & -> & -> & Hi). exists (x :: l1), l2, r1, r2. split_and!; try done. by constructor.
  - destruct (IH _ _ H') as (l1 & l2 & r1 & r2 & -> & -> & Hi). exists l1, l2, (x :: r1), r2. split_and!; try done. by constructor.
Qed.

Definition sampled_ahead (tid : Z) (l : list stub_act) : Prop :=
  (length (omap (launched tid) l) <= length (omap sampled_at l))%nat.

(** At any moment, the main thread asked the sampler about every launch it
    batched. *)
Lemma main_ahead tid n clock tl l1 l2 :
  Forall (fun a => aftermath a = true) tl -> launch_loop n clock ++ tl = l1 ++ l2 -> sampled_ahead tid l1.
Proof.
  intros Htl. unfold launch_loop. generalize (seqZ 1 (Z.of_nat n)). intros idx. revert l1.
  induction idx as [|i idx IH]; intros l1 E; unfold sampled_ahead.
  - simpl in E. assert (Hl : Forall (fun a => aftermath a = true) l1) by (rewrite E in Htl; by apply list.Forall_app in Htl as [? _]).
    rewrite (aftermath_none (launched tid)); [simpl; lia|by intros []|done].
  - cbn [map concat launch_acts] in E. rewrite <- app_assoc in E. simpl in E.
    destruct l1 as [|a1 [|a2 [|a3 [|a4 l1]]]]; simpl in E; simplify_eq/=; csimpl; try lia.
    specialize (IH l1 ltac:(done)). unfold sampled_ahead in IH. lia.
Qed.

Lemma launch_many_split k m s o :
  0 <= observed_ s -> observed_ s + Z.of_nat (k + m) < 2 ^ 63 -> o ∈ (launch_many (k + m) s).1 -> o < observed_ s + Z.of_nat k ->
  o ∈ (launch_many k s).1.
Proof.
  revert s. induction k as [|k IH]; intros s H0 Hb Ho Hlt; simpl in *.
  - exfalso. revert s H0 Hb Ho Hlt. induction m as [|m IH]; intros s H0 Hb Ho Hlt; simpl in *; [by apply not_elem_of_nil in Ho|].
    destruct (should_sample_facts s H0 ltac:(lia)) as [E _]. destruct (should_sample s) as [hit s']. simpl in E.
    specialize (IH s' ltac:(lia) ltac:(lia)). destruct (launch_many m s') as [hits s'']. simpl in *.
    apply elem_of_app in Ho as [Ho|Ho]; [destruct hit; [apply list_elem_of_singleton in Ho; lia|by apply not_elem_of_nil in Ho]|].
    apply IH; [done|lia].
  - destruct (should_sample_facts s H0 ltac:(lia)) as [E _]. destruct (should_sample s) as [hit s']. simpl in E.
    specialize (IH s' ltac:(lia) ltac:(lia)). destruct (launch_many (k + m) s') as [hits s1]. destruct (launch_many k s') as [hits' s2].
    simpl in *. apply elem_of_app in Ho as [Ho|Ho]; apply elem_of_app; [by left|right]. apply IH; [done|lia].
Qed.

Lemma seqZ_take n k : (k <= n)%nat -> take k (seqZ 1 (Z.of_nat n)) = seqZ 1 (Z.of_nat k).
Proof.
  intros H. replace (Z.of_nat n) with (Z.of_nat k + Z.of_nat (n - k)) by lia. rewrite seqZ_app by lia.
  apply take_app_length'. by rewrite length_seqZ, Nat2Z.id.
Qed.

(** The part of a list of launches that a prefix of the run has reached. *)
Lemma prefix_seqZ {B} (f : stub_act -> option B) (h : Z -> B) n c1 c2 :
  omap f (c1 ++ c2) = map h (seqZ 1 (Z.of_nat n)) -> exists k, (k <= n)%nat /\ omap f c1 = map h (seqZ 1 (Z.of_nat k)).
Proof.
  rewrite omap_app. intros E. exists (length (omap f c1)).
  assert (Hle : (length (omap f c1) <= n)%nat).
  { apply (f_equal length) in E. rewrite length_app, length_map, length_seqZ in E. lia. }
  split; [done|]. rewrite <- (seqZ_take n) by done. rewrite <- firstn_map, <- E. by rewrite take_app_length.
Qed.

Lemma launch_many_schedule n period seed :
  is_u32 period -> is_u64 seed -> Z.of_nat n < 2 ^ 63 ->
  (launch_many n (Sampler_init period seed)).1 = SampleSchedule (Z.of_nat n) period seed.
Proof.
  intros Hp Hs Hn. unfold SampleSchedule. rewrite Nat2Z.id.
  assert (Hp' : is_u32 (if period =? 0 then 1 else period)) by (destruct (period =? 0); word_lia).
  exact (proj1 (launch_many_spec _ seed Hp' Hs n 0 0 0 n ltac:(lia) ltac:(lia) ltac:(lia) ltac:(lia))).
Qed.

(** ** What the run puts on the wire *)

Section Exact.
  Context (sem : nat -> bool) (r : stub_run) (clock : Z -> Z) (ticks : list (list gpu_module_load_v1)) (c : list stub_act).
  Context (jl : list gpu_launch_v1) (je : list gpu_exec_v1) (jp : list gpu_pc_sample_batch_v1).
  Context (Hc : interleave (main_acts r clock) (concat (map tick_acts ticks)) c).

(** The records on the wire after the actions [acts]. *)
Definition wire_after (acts : list stub_act) : list gpu_record :=
  wire_records (out (foldl (stub_step sem (sr_tid r)) (stub_init sem (sr_sample_period r) jl je jp) acts)).

Lemma stub_init_ok : replay_ok sem (stub_replay (stub_init sem (sr_sample_period r) jl je jp)).
Proof using Type. done. Qed.

Context (Hjl : length jl = 32%nat) (Hje : length je = 32%nat) (Hon : forall n, sem n = true).
Context (Hp : is_u32 (sr_sample_period r)) (Hn : Z.of_nat (sr_launches r) < 4294967295).

Lemma wire_launches : omap as_launch (wire_after c) = map (fun i => stub_launch (sr_tid r) i (clock i)) (seqZ 1 (Z.of_nat (sr_launches r))).
Proof using Hc Hje Hjl Hon.
  destruct (main_flush r clock ticks c Hc FlushLaunches ltac:(by left)) as (c1 & c2 & E & H2). unfold wire_after. rewrite E at 1.
  rewrite (batch_on_wire sem (sr_tid r) as_launch lb (launched (sr_tid r)) flushes_launches (lb_step sem (sr_tid r)) (lb_wire sem (sr_tid r)) Hon);
    try done; [|by apply (init_inv 32 ltac:(lia))|by apply H2; intros []].
  rewrite <- E. apply (main_omap r clock ticks c Hc); [by intros []|done].
Qed.

Lemma wire_execs : omap as_exec (wire_after c) = map (fun i => stub_exec i (clock i)) (seqZ 1 (Z.of_nat (sr_launches r))).
Proof using Hc Hje Hjl Hon.
  destruct (main_flush r clock ticks c Hc FlushExecs ltac:(by right; left)) as (c1 & c2 & E & H2). unfold wire_after. rewrite E at 1.
  rewrite (batch_on_wire sem (sr_tid r) as_exec eb executed flushes_execs (eb_step sem (sr_tid r)) (eb_wire sem (sr_tid r)) Hon);
    try done; [|by apply (init_inv 32 ltac:(lia))|by apply H2; intros []].
  rewrite <- E. apply (main_omap r clock ticks c Hc); [by intros []|done].
Qed.

(** The sampled records of a prefix of the run that reached [k] launches. *)
Lemma wire_sampled c1 k :
  (k <= sr_launches r)%nat -> omap sampled_at c1 = map (fun i => (i, clock i)) (seqZ 1 (Z.of_nat k)) ->
  omap as_sampled (wire_after c1) =
  map (fun o => stub_sampled (sr_tid r) (if sr_sample_period r =? 0 then 1 else sr_sample_period r) (o + 1) (clock (o + 1)))
    (launch_many k (Sampler_init (sr_sample_period r) kDefaultSeed)).1.
Proof using Hje Hjl Hn Hon.
  intros Hk E. unfold wire_after. rewrite (sampled_run sem (sr_tid r) clock c1 _ k Hon stub_init_ok); [done|done| |done].
  change (2 ^ 63) with 9223372036854775808. simpl. lia.
Qed.

Lemma twin_on_wire c1 c2 l :
  c = c1 ++ c2 -> l ∈ omap as_launch (wire_after c1) ->
  l_correlation l - 1 ∈ SampleSchedule (Z.of_nat (sr_launches r)) (sr_sample_period r) kDefaultSeed ->
  exists sl, sl ∈ omap as_sampled (wire_after c1) /\ s_correlation sl = l_correlation l.
Proof using Hc Hje Hjl Hon Hp Hn.
  intros -> Hl Ho. assert (Hn' : Z.of_nat (sr_launches r) < 2 ^ 63) by (change (2 ^ 63) with 9223372036854775808; lia).
  destruct (prefix_seqZ (launched (sr_tid r)) (fun i => stub_launch (sr_tid r) i (clock i)) _ c1 c2
    (main_omap r clock ticks _ Hc (launched (sr_tid r)) _ ltac:(by intros []) ltac:(done))) as (j & _ & Ej).
  destruct (prefix_seqZ sampled_at (fun i => (i, clock i)) _ c1 c2
    (main_omap r clock ticks _ Hc sampled_at _ ltac:(by intros []) ltac:(done))) as (k & Hk & Ek).
  assert (Hjk : (j <= k)%nat).
  { destruct (interleave_prefix _ _ _ _ Hc) as (l1 & l2 & r1 & r2 & El & Er & Hi).
    assert (Hr1 : Forall (fun a => aftermath a = true) r1).
    { pose proof (ticks_aftermath ticks) as Ht. rewrite Er in Ht. by apply list.Forall_app in Ht as [Ht _]. }
    assert (Ha : sampled_ahead (sr_tid r) l1).
    { unfold main_acts in El. eapply main_ahead; [|exact El]. constructor; [done|]. constructor; [done|]. apply tail_aftermath. }
    unfold sampled_ahead in Ha. rewrite <- (interleave_omap (launched (sr_tid r)) _ _ _ Hi), <- (interleave_omap sampled_at _ _ _ Hi) in Ha
      by (apply aftermath_none; [by intros []|done]).
    rewrite Ej, Ek, !length_map, !length_seqZ in Ha. lia. }
  rewrite (wire_sampled c1 k Hk Ek).
  assert (Hli : 1 <= l_correlation l <= Z.of_nat j).
  { destruct (batch_part sem (sr_tid r) lb (launched (sr_tid r)) flushes_launches (lb_step sem (sr_tid r)) Hon c1
      (stub_init sem (sr_sample_period r) jl je jp) [] ltac:(by apply (init_inv 32 ltac:(lia))) ltac:(done)) as [_ Eb].
    assert (Ew : omap as_launch (wire_after c1) = records (lb (foldl (stub_step sem (sr_tid r)) (stub_init sem (sr_sample_period r) jl je jp) c1)).2)
      by (apply (run_records sem (sr_tid r) as_launch lb); [apply lb_wire|done|done]).
    assert (Hin : l ∈ omap (launched (sr_tid r)) c1) by (simpl in Eb; rewrite <- Eb, <- Ew; apply elem_of_app; by left).
    rewrite Ej in Hin. apply list_elem_of_fmap in Hin as (i & -> & Hi). apply elem_of_seqZ in Hi. simpl. lia. }
  rewrite <- launch_many_schedule in Ho by (done || (vm_compute; done)).
  exists (stub_sampled (sr_tid r) (if sr_sample_period r =? 0 then 1 else sr_sample_period r) (l_correlation l - 1 + 1)
            (clock (l_correlation l - 1 + 1))). split; [|simpl; lia].
  apply (list_elem_of_fmap_2 (fun o => stub_sampled (sr_tid r) _ (o + 1) (clock (o + 1)))).
  apply (launch_many_split k (sr_launches r - k)); simpl; try lia.
  by replace (k + (sr_launches r - k))%nat with (sr_launches r) by lia.
Qed.
End Exact.

(** C39: The stub's wire is exact.  With a consumer attached throughout and any
    interleaving of the main thread with the drain thread's ticks: the launches
    on the wire are those of the loop, each once and in order, and so are the
    executions; the sampled launches are exactly those the consumer's own
    schedule names, with their ordinal, thread and time; and at every moment of
    the run, a launch of the schedule that is on the wire has its sampled twin on
    the wire already. *)
Theorem stub_wire_exact sem r clock ticks c jl je jp :
  interleave (main_acts r clock) (concat (map tick_acts ticks)) c ->
  length jl = 32%nat -> length je = 32%nat -> (forall n, sem n = true) ->
  is_u32 (sr_sample_period r) -> Z.of_nat (sr_launches r) < 4294967295 ->
  let wire := wire_after sem r jl je jp in
  let schedule := SampleSchedule (Z.of_nat (sr_launches r)) (sr_sample_period r) kDefaultSeed in
  let period := if sr_sample_period r =? 0 then 1 else sr_sample_period r in
  omap as_launch (wire c) = map (fun i => stub_launch (sr_tid r) i (clock i)) (seqZ 1 (Z.of_nat (sr_launches r))) /\
  omap as_exec (wire c) = map (fun i => stub_exec i (clock i)) (seqZ 1 (Z.of_nat (sr_launches r))) /\
  omap as_sampled (wire c) = map (fun o => stub_sampled (sr_tid r) period (o + 1) (clock (o + 1))) schedule /\
  (forall c1 c2 l, c = c1 ++ c2 -> l ∈ omap as_launch (wire c1) -> l_correlation l - 1 ∈ schedule ->
     exists sl, sl ∈ omap as_sampled (wire c1) /\ s_correlation sl = l_correlation l).
Proof.
  intros Hc Hjl Hje Hon Hp Hn wire schedule period. split_and!.
  - by eapply wire_launches.
  - by eapply wire_execs.
  - unfold schedule. rewrite <- launch_many_schedule; [|done|vm_compute; done|change (2 ^ 63) with 9223372036854775808; lia].
    apply (wire_sampled sem r clock jl je jp); try done. by apply (main_omap r clock ticks c Hc); [intros []|].
  - intros c1 c2 l. by eapply twin_on_wire.
Qed.

(** ** Off means off *)

Definition pc_kind (r : gpu_record) : bool :=
  match r with RPc _ | RStallMap _ | RConfig _ | RDropped _ | RSamplingWindow _ => true | _ => false end.
Definition is_window (r : gpu_record) : bool := match r with RSamplingWindow _ => true | _ => false end.
Definition pc_act (a : stub_act) : bool :=
  match a with DoPc _ | FlushPcs | DoStall _ | DoConfig _ | DoDropped _ | DoWindow _ => true | _ => false end.
Definition window_act (a : stub_act) : bool := match a with DoWindow _ => true | _ => false end.

Lemma ticks_no_pc ticks : Forall (fun a => pc_act a = false) (concat (map tick_acts ticks)).
Proof.
  induction ticks as [|mods ticks IH]; [done|]. cbn [map concat]. apply list.Forall_app. split; [|done]. unfold tick_acts.
  repeat (apply list.Forall_app; split); try (by repeat constructor). apply list.Forall_forall. by intros a (w & -> & _)%list_elem_of_fmap.
Qed.
Lemma loop_no_pc n clock : Forall (fun a => pc_act a = false) (launch_loop n clock ++ [FlushLaunches; FlushExecs]).
Proof.
  apply list.Forall_app. split; [|by repeat constructor]. unfold launch_loop.
  induction (seqZ 1 (Z.of_nat n)) as [|i l IH]; [done|]. cbn [map concat]. apply list.Forall_app. split; [by repeat constructor|done].
Qed.

(** Nothing was recorded for a late consumer. *)
Definition log_empty (s : stub_state) : Prop := stalls_ (stub_replay s) = [] /\ have_config_ (stub_replay s) = false.

Lemma log_empty_step sem tid s a : pc_act a = false -> log_empty s -> log_empty (stub_step sem tid s a).
Proof. intros Ha [H1 H2]. destruct a; try done; simpl; repeat case_match; done. Qed.

(** Off means off, in the stub as in the adapter.  Whatever the semaphores
    answer, the stub's knobs ask and the drain thread does in between: when
    PERFAGENT_GPU_PC_SAMPLING does not select a tier, no PC sample, stall name,
    configuration, drop or window record is put on the wire, by the main thread
    or by a replay; and when it selects anything but the serialized tier, no
    window is. *)
Theorem stub_off_means_off sem launches period tid e clock ticks c jl je jp :
  let r := stub_settings launches period tid e in
  interleave (main_acts r clock) (concat (map tick_acts ticks)) c ->
  (sr_tier r = kOff -> Forall (fun x => pc_kind x = false) (wire_after sem r jl je jp c)) /\
  (sr_tier r <> kSerialized -> Forall (fun x => is_window x = false) (wire_after sem r jl je jp c)).
Proof.
  intros r Hc. assert (Hr : replay_ok sem (stub_replay (stub_init sem (sr_sample_period r) jl je jp))) by done. split; intros Ht.
  - assert (Ha : Forall (fun a => pc_act a = false) c).
    { eapply interleave_Forall; [exact Hc| |apply ticks_no_pc]. unfold main_acts, r, stub_settings in *. cbn [sr_tier] in Ht.
      rewrite Ht. cbn [sr_windows sr_pc_samples sr_launches]. rewrite app_assoc. apply list.Forall_app. split; [apply loop_no_pc|done]. }
    unfold wire_after. apply (run_wire sem (sr_tid r) log_empty); try done. intros s a Hin Hs.
    assert (Hpa : pc_act a = false) by (rewrite list.Forall_forall in Ha; by apply Ha).
    split; [by apply log_empty_step|]. destruct Hs as [E1 E2]. intros x Hx.
    destruct a, x; try done; simpl in Hx; [by rewrite E1 in Hx; apply not_elem_of_nil in Hx|by rewrite E2 in Hx].
  - assert (Ha : Forall (fun a => window_act a = false) c).
    { eapply interleave_Forall; [exact Hc| |].
      - unfold main_acts. rewrite app_assoc. apply list.Forall_app. split.
        { eapply list.Forall_impl; [apply loop_no_pc|]. by intros []. }
        assert (Ew : sr_windows r = 0) by (unfold r, stub_settings in *; simpl in *; by destruct (pc_tier_parse _ _).1.2).
        rewrite Ew. unfold pc_acts. simpl. destruct (_ =? 0); [done|].
        repeat (apply list.Forall_app; split); try (by repeat constructor); apply list.Forall_forall; by intros a (w & -> & _)%list_elem_of_fmap.
      - eapply list.Forall_impl; [apply ticks_no_pc|]. by intros []. }
    unfold wire_after. apply (run_wire sem (sr_tid r) (fun _ => True)); try done. intros s a Hin _. split; [done|].
    assert (Hpa : window_act a = false) by (rewrite list.Forall_forall in Ha; by apply Ha). intros x Hx. by destruct a, x.
Qed.

(** *** A run: 40 launches, a tick in the middle of one of them *)

Definition demo_stub : stub_run := stub_settings 40 8 77
  (StubEnv (Some (list_ascii_of_string "continuous")) (Some (list_ascii_of_string "3")) None (Some (list_ascii_of_string "5"))).
Definition demo_stub_clock (i : Z) : Z := 1000000 * i.
Definition demo_stub_acts : list stub_act :=
  take 90 (main_acts demo_stub demo_stub_clock) ++ tick_acts [] ++ drop 90 (main_acts demo_stub demo_stub_clock).
Definition no_launch : gpu_launch_v1 := GpuLaunch 0 0 0 0 0 0 0.
Definition no_exec : gpu_exec_v1 := GpuExec 0 0 0 0 0 0.

Lemma interleave_left {A} (l : list A) : interleave l [] l.
Proof. induction l; by constructor. Qed.
Lemma interleave_block {A} (l1 l2 b : list A) : interleave (l1 ++ l2) b (l1 ++ b ++ l2).
Proof.
  induction l1 as [|x l1 IH]; [|by constructor]. simpl. induction b as [|y b IH]; [apply interleave_left|]. by constructor.
Qed.
Lemma demo_stub_interleaved : interleave (main_acts demo_stub demo_stub_clock) (concat (map tick_acts [[]])) demo_stub_acts.
Proof.
  unfold demo_stub_acts. rewrite <- (take_drop 90 (main_acts demo_stub demo_stub_clock)) at 1. apply interleave_block.
Qed.

Lemma stub_wire_exact_witness :
  let wire := wire_after (fun _ => true) demo_stub (replicate 32 no_launch) (replicate 32 no_exec) [] in
  length (omap as_launch (wire demo_stub_acts)) = 40%nat /\
  omap as_sampled (wire demo_stub_acts) = map (fun o => stub_sampled 77 8 (o + 1) (demo_stub_clock (o + 1))) (SampleSchedule 40 8 kDefaultSeed).
Proof.
  destruct (stub_wire_exact (fun _ => true) demo_stub demo_stub_clock [[]] demo_stub_acts (replicate 32 no_launch) (replicate 32 no_exec) []
    demo_stub_interleaved eq_refl eq_refl (fun _ => eq_refl) ltac:(vm_compute; intuition discriminate) ltac:(vm_compute; reflexivity))
    as (H1 & _ & H3 & _).
  split; [|exact H3]. rewrite H1. reflexivity.
Defined.

Definition demo_off : stub_run := stub_settings 3 8 77
  (StubEnv (Some (list_ascii_of_string "continuous,serialized")) (Some (list_ascii_of_string "3")) None (Some (list_ascii_of_string "5"))).
Lemma stub_off_means_off_witness :
  Forall (fun x => pc_kind x = false)
    (wire_after (fun _ => true) demo_off (replicate 32 no_launch) (replicate 32 no_exec) [] (main_acts demo_off demo_stub_clock)).
Proof.
  exact (proj1 (stub_off_means_off (fun _ => true) 3 8 77
    (StubEnv (Some (list_ascii_of_string "continuous,serialized")) (Some (list_ascii_of_string "3")) None (Some (list_ascii_of_string "5")))
    demo_stub_clock [] _ (replicate 32 no_launch) (replicate 32 no_exec) [] (interleave_left (main_acts demo_off demo_stub_clock))) eq_refl).
Defined.

(** In the other tier the stub does emit what it withholds here. *)
Example stub_on_is_on :
  length (List.filter pc_kind (wire_after (fun _ => true) demo_stub (replicate 32 no_launch) (replicate 32 no_exec) (replicate 32 (stub_pc 0)) demo_stub_acts)) = 18%nat.
Proof. vm_compute. reflexivity. Qed.

(** ** The synthetic bursts *)

(** The windows are every other slice of the span of the executions: none reaches
    past it, and as much time passes unperturbed between two of them. *)
Lemma stub_windows_tile n first last lo :
  0 < n < 2147483648 -> 0 <= first -> last < 2 ^ 64 -> 0 < (last - first) / (2 * n) ->
  let slice := (last - first) / (2 * n) in
  let start i := first + 2 * i * slice in
  stub_windows n first last lo =
    concat (map (fun i =>
      let w e := GpuSamplingWindow (start i) e GPU_SAMPLING_MODE_KERNEL_SERIALIZED (replicate 3 0) 0 in
      w 0 :: if lo && (i + 1 =? n) then [] else [w (start i + slice)]) (seqZ 0 n)) /\
  forall i, 0 <= i < n -> first <= start i /\ start i + slice <= last - slice /\ start i + 2 * slice = start (i + 1).
Proof.
  intros Hn Hf Hl Hs slice start. change (2 ^ 64) with 18446744073709551616 in Hl.
  assert (Hdiv : 2 * n * slice <= last - first) by (apply Z.mul_div_le; lia).
  assert (Hb : forall i, 0 <= i < n -> first <= start i /\ start i + slice <= last - slice /\ start i + 2 * slice = start (i + 1)).
  { intros i Hi. unfold start. split_and!; [nia| |lia]. fold slice in Hs. nia. }
  split; [|done]. unfold stub_windows. rewrite (proj2 (Z.eqb_neq n 0)) by lia.
  assert (Hlt : first < last).
  { destruct (Z.le_gt_cases last first); [|lia]. exfalso. fold slice in Hs. nia. }
  rewrite (proj2 (Z.leb_gt last first)) by done. cbn [orb]. fold slice. rewrite (proj2 (Z.eqb_neq slice 0)) by (fold slice in Hs; lia).
  f_equal. apply map_ext_in. intros i Hi. apply list_elem_of_In, elem_of_seqZ in Hi. unfold stub_window.
  destruct (Hb i ltac:(lia)) as (H1 & H2 & _). fold slice in Hs. unfold start in *.
  rewrite (u32_small (2 * i)) by word_lia. rewrite (u64_small (2 * i * slice)) by word_lia. rewrite !u64_small by word_lia.
  by destruct (lo && _).
Qed.

(** ** The modules *)

(** The pieces of a [':']-separated list. *)
Fixpoint split_paths (spec : cstr) : cstr * list cstr :=
  match spec with
  | [] => ([], [])
  | ch :: spec' => let '(p, ps) := split_paths spec' in if Ascii.eqb ch ":" then ([], p :: ps) else (ch :: p, ps)
  end.

(** The calls of [CubinQueue::capture] the loop makes, with the module id and the
    bytes of each, and the number of modules captured.  [read_whole_file] is given
    by what the file holds, if it can be read; [captured] answers the calls. *)
Fixpoint capture_paths (read_whole_file : cstr -> option (list Z)) (captured : Z -> list Z -> bool) (paths : list cstr) (n : Z)
    : list (Z * list Z) * Z :=
  match paths with
  | [] => ([], n)
  | path :: paths' =>
      match path, read_whole_file path with
      | [], _ | _, None | _, Some [] => capture_paths read_whole_file captured paths' n
      | _, Some bytes =>
          let '(calls, m) := capture_paths read_whole_file captured paths' (if captured (n + 1) bytes then n + 1 else n) in
          ((n + 1, bytes) :: calls, m)
      end
  end.
Definition stub_capture_modules (read_whole_file : cstr -> option (list Z)) (captured : Z -> list Z -> bool) (list_ : option cstr)
    : list (Z * list Z) * Z :=
  match list_ with
  | None | Some [] => ([], 0)
  | Some spec => let '(p, ps) := split_paths spec in capture_paths read_whole_file captured (p :: ps) 0
  end.

(** The captured modules are numbered 1, 2, 3, ... without a gap, and none is
    empty. *)
Lemma capture_paths_ids rd cp paths n :
  let r := capture_paths rd cp paths n in
  n <= r.2 /\ omap (fun x => if cp x.1 x.2 then Some x.1 else None) r.1 = seqZ (n + 1) (r.2 - n) /\ Forall (fun x => x.2 <> []) r.1.
Proof.
  revert n. induction paths as [|path paths IH]; intros n; cbn [capture_paths].
  { simpl. rewrite Z.sub_diag. split_and!; [lia|done|constructor]. }
  assert (Hskip : let r := capture_paths rd cp paths n in n <= r.2 /\
    omap (fun x => if cp x.1 x.2 then Some x.1 else None) r.1 = seqZ (n + 1) (r.2 - n) /\ Forall (fun x => x.2 <> []) r.1) by apply IH.
  destruct path as [|ch path]; [exact Hskip|]. destruct (rd (ch :: path)) as [[|b bs]|]; try exact Hskip.
  pose proof (IH (if cp (n + 1) (b :: bs) then n + 1 else n)) as Hr. cbv zeta in Hr.
  destruct (capture_paths rd cp paths (if cp (n + 1) (b :: bs) then n + 1 else n)) as [calls m]. cbn [fst snd] in *. csimpl.
  destruct (cp (n + 1) (b :: bs)); destruct Hr as (H1 & H2 & H3); rewrite H2; (split_and!; [lia| |by constructor]).
  - rewrite (seqZ_cons (n + 1) (m - n)) by lia. f_equal. f_equal; lia.
  - done.
Qed.

Lemma stub_cubin_crc_ok bytes : is_u64 (stub_cubin_crc bytes) /\ stub_cubin_crc bytes <> 0.
Proof.
  unfold stub_cubin_crc. set (h := foldl _ _ _). assert (Hh : is_u64 h).
  { unfold h. clear h. assert (H0 : is_u64 1469598103934665603) by (vm_compute; intuition discriminate).
    revert H0. generalize 1469598103934665603. induction bytes as [|b bytes IH]; intros z Hz; [done|]. simpl. apply IH.
    unfold u64, is_u64. apply Z.mod_pos_bound. lia. }
  destruct (Z.eqb_spec h 0); [|done]. split; [vm_compute; intuition discriminate|done].
Qed.

(** ** Lingering *)

(** What [poll] and the [read] after it find. *)
Inductive poll_answer := PollEintr | PollFailed | PollTimeout | PollReadable (got : Z).

(** The timeout given to [poll], in milliseconds; a negative one is none. *)
Definition linger_left (deadline now : Z) : Z := s32 (s32 ((deadline - now) / 1000000) + 1).

(** The loop, from reading [i] of the clock on: the timeouts it passed, [None]
    while it still runs. *)
Fixpoint linger_loop (fuel : nat) (clock : nat -> Z) (poll : nat -> poll_answer) (deadline : Z) (i : nat) : option (list Z) :=
  match fuel with
  | O => None
  | S fuel' =>
      let now := clock i in
      if deadline <=? now then Some []
      else
        let left := linger_left deadline now in
        match poll i with
        | PollEintr => cons left <$> linger_loop fuel' clock poll deadline (S i)
        | PollFailed | PollTimeout => Some [left]
        | PollReadable got => if got <=? 0 then Some [left] else cons left <$> linger_loop fuel' clock poll deadline (S i)
        end
  end.
Definition perfagent_stub_linger (fuel : nat) (clock : nat -> Z) (poll : nat -> poll_answer) (linger_ms : Z) : option (list Z) :=
  if linger_ms =? 0 then Some [] else linger_loop fuel clock poll (u64 (clock 0%nat + u64 (linger_ms * 1000000))) 1.

Lemma s32_small z : - 2147483648 <= z < 2147483648 -> s32 z = z.
Proof.
  intros H. unfold s32. change (z mod 4294967296) with (u32 z). cbv zeta. destruct (Z.le_gt_cases 0 z).
  - rewrite u32_small by word_lia. by case_match; [|lia].
  - assert (E : u32 z = z + 4294967296) by (unfold u32; rewrite <- (Z.mod_add z 1 4294967296), Z.mod_small by lia; lia).
    rewrite E. case_match; lia.
Qed.

Lemma linger_left_exact deadline now :
  0 < deadline - now -> (deadline - now) / 1000000 < 2147483647 ->
  1 <= linger_left deadline now /\ (linger_left deadline now - 1) * 1000000 <= deadline - now < linger_left deadline now * 1000000.
Proof.
  intros H0 H1. unfold linger_left. assert (0 <= (deadline - now) / 1000000) by (apply Z.div_pos; lia).
  rewrite !s32_small by (rewrite ?s32_small by lia; lia).
  pose proof (Z.div_mod (deadline - now) 1000000 ltac:(lia)). pose proof (Z.mod_pos_bound (deadline - now) 1000000 ltac:(lia)). lia.
Qed.

(** A linger shorter than 2^31 - 1 milliseconds ends: by the time the clock has
    passed the deadline at the latest, whatever [poll] and [read] answer, and
    every [poll] on the way had a timeout that ends it no more than a millisecond
    after the deadline. *)
Lemma linger_ends fuel clock poll deadline i k ms :
  0 <= ms < 2147483647 -> (forall j, deadline - clock j <= ms * 1000000) -> (i <= k)%nat -> deadline <= clock k ->
  (k - i < fuel)%nat ->
  exists lefts, linger_loop fuel clock poll deadline i = Some lefts /\ Forall (fun l => 1 <= l <= ms + 1) lefts.
Proof.
  intros Hms Hj Hik Hk. revert i Hik. induction fuel as [|fuel IH]; intros i Hik Hf; [lia|]. cbn [linger_loop].
  destruct (Z.leb_spec deadline (clock i)) as [|Hlt]; [by exists []|].
  assert (Hdiv : (deadline - clock i) / 1000000 <= ms) by (apply Z.div_le_upper_bound; [lia|]; specialize (Hj i); lia).
  assert (Hl : 1 <= linger_left deadline (clock i) <= ms + 1).
  { destruct (linger_left_exact deadline (clock i) ltac:(lia) ltac:(lia)) as (H1 & H2 & _). specialize (Hj i). lia. }
  assert (Hne : i <> k) by (intros ->; lia).
  destruct (IH (S i) ltac:(lia) ltac:(lia)) as (ls & E & F). rewrite E.
  destruct (poll i) as [| | |got]; [| | |destruct (got <=? 0)]; eexists; (split; [reflexivity|]); (constructor; [exact Hl|]); first [exact F|constructor].
Qed.

(** From 2^31 milliseconds on, the timeout given to [poll] is negative: nothing
    but the parent ends the wait. *)
Lemma linger_forever start ms :
  2147483648 <= ms < 4294967295 -> linger_left (start + ms * 1000000) start < 0.
Proof.
  intros H. unfold linger_left. replace (start + ms * 1000000 - start) with (ms * 1000000) by lia. rewrite Z.div_mul by lia.
  assert (E : s32 ms = ms - 4294967296) by (unfold s32; rewrite Z.mod_small by lia; case_match; lia).
  rewrite E, s32_small; lia.
Qed.
